(** * guangyang: job pipeline core and semantic diff engine

    A shallow embedding of the Go backend (packages [excelcmp], [domain],
    [store], [streamq], [wechat], [compare], [paygate]) together with the
    properties stated for it in the specification.

    Conventions of the embedding.
    - A Go [string] is a Rocq [string]: a sequence of bytes.  Source literals
      are UTF-8, as in Go.
    - Go [int], [int64] values are [Z]; [uint64] arithmetic is written with
      its wrap-around modulo [2^64].
    - A [float64] is modelled by the exact rational it denotes (see
      [Go.float64]); every operation rounds to nearest-even binary64.
    - Go maps are [gmap]s; a [for k := range m] loop that only collects keys
      which are sorted afterwards is a traversal of [map_to_list].
    - An index [i] running over a string is represented by the suffix
      [s[i:]] that remains to be read. *)

From Stdlib Require Import ZArith QArith Qcanon String Ascii List Bool Lia.
From stdpp Require Import base tactics option list gmap sorting strings pretty.

Open Scope string_scope.
Open Scope list_scope.
Open Scope Z_scope.

(** * The Go runtime and standard library, as far as the backend uses it *)
Module Go.

(** ** Bytes *)

Definition byte_val (c : ascii) : Z := Z.of_N (N_of_ascii c).
Definition byte_of (z : Z) : ascii := ascii_of_N (Z.to_N z).
Definition string_bytes (s : string) : list Z := byte_val <$> list_ascii_of_string s.
Definition bytes_string (l : list Z) : string := string_of_list_ascii (byte_of <$> l).

(** [len(s)] *)
Definition len (s : string) : Z := Z.of_nat (String.length s).

(** Longest prefix of [s] whose bytes satisfy [p], and the rest: the loops
    [for i < len(s) && p(s[i]) { i++ }]. *)
Fixpoint span (p : ascii → bool) (s : string) : string * string :=
  match s with
  | String c r =>
      if p c then let '(a, b) := span p r in (String c a, b) else ("", s)
  | EmptyString => ("", "")
  end.

Definition isDigitByte (c : ascii) : bool := (48 <=? byte_val c) && (byte_val c <=? 57).
Definition isZeroByte (c : ascii) : bool := byte_val c =? 48.

Fixpoint string_forallb (p : ascii → bool) (s : string) : bool :=
  match s with
  | String c r => p c && string_forallb p r
  | EmptyString => true
  end.

(** ** package unicode/utf8 *)

Definition RuneError : Z := 0xFFFD.
Definition RuneSelf : Z := 0x80.
Definition MaxRune : Z := 0x10FFFF.

Definition isCont (b : Z) : bool := (0x80 <=? b) && (b <=? 0xBF).
Definition inRange (lo hi b : Z) : bool := (lo <=? b) && (b <=? hi).

(** [utf8.DecodeRune]: the first rune of [bs] and its width in bytes; an
    invalid or truncated encoding yields [(RuneError, 1)], an empty
    input [(RuneError, 0)]. *)
Definition DecodeRune (bs : list Z) : Z * nat :=
  match bs with
  | [] => (RuneError, 0%nat)
  | b0 :: r0 =>
      if b0 <? RuneSelf then (b0, 1%nat)
      else if inRange 0xC2 0xDF b0 then
        match r0 with
        | b1 :: _ =>
            if isCont b1
            then (Z.lor (Z.shiftl (Z.land b0 0x1F) 6) (Z.land b1 0x3F), 2%nat)
            else (RuneError, 1%nat)
        | _ => (RuneError, 1%nat)
        end
      else if inRange 0xE0 0xEF b0 then
        match r0 with
        | b1 :: b2 :: _ =>
            let lo := if b0 =? 0xE0 then 0xA0 else 0x80 in
            let hi := if b0 =? 0xED then 0x9F else 0xBF in
            if inRange lo hi b1 && isCont b2
            then (Z.lor (Z.shiftl (Z.land b0 0x0F) 12)
                    (Z.lor (Z.shiftl (Z.land b1 0x3F) 6) (Z.land b2 0x3F)), 3%nat)
            else (RuneError, 1%nat)
        | _ => (RuneError, 1%nat)
        end
      else if inRange 0xF0 0xF4 b0 then
        match r0 with
        | b1 :: b2 :: b3 :: _ =>
            let lo := if b0 =? 0xF0 then 0x90 else 0x80 in
            let hi := if b0 =? 0xF4 then 0x8F else 0xBF in
            if inRange lo hi b1 && isCont b2 && isCont b3
            then (Z.lor (Z.shiftl (Z.land b0 0x07) 18)
                    (Z.lor (Z.shiftl (Z.land b1 0x3F) 12)
                       (Z.lor (Z.shiftl (Z.land b2 0x3F) 6) (Z.land b3 0x3F))), 4%nat)
            else (RuneError, 1%nat)
        | _ => (RuneError, 1%nat)
        end
      else (RuneError, 1%nat)
  end.

(** [utf8.RuneStart] *)
Definition RuneStart (b : Z) : bool := negb (Z.land b 0xC0 =? 0x80).

(** [utf8.DecodeLastRune]: walk back over at most [UTFMax - 1] continuation
    bytes to a start byte and decode from there; the rune counts only if
    its encoding ends exactly at the end of the input. *)
Definition DecodeLastRune (bs : list Z) : Z * nat :=
  let n := length bs in
  match last bs with
  | None => (RuneError, 0%nat)
  | Some b =>
      if b <? RuneSelf then (b, 1%nat)
      else
        let try (k : nat) : option (Z * nat) :=
          if (k <=? n)%nat then
            match bs !! (n - k)%nat with
            | Some c => if RuneStart c then Some (DecodeRune (drop (n - k) bs)) else None
            | None => None
            end
          else None in
        let found :=
          match try 2%nat with
          | Some d => Some (d, 2%nat)
          | None =>
              match try 3%nat with
              | Some d => Some (d, 3%nat)
              | None =>
                  match try 4%nat with
                  | Some d => Some (d, 4%nat)
                  | None => None
                  end
              end
          end in
        match found with
        | Some ((r, size), k) => if (size =? k)%nat then (r, size) else (RuneError, 1%nat)
        | None => (RuneError, 1%nat)
        end
  end.

(** [utf8.AppendRune]: runes outside the Unicode range and surrogates are
    written as [RuneError]. *)
Definition EncodeRune (r : Z) : list Z :=
  if (0 <=? r) && (r <? 0x80) then [r]
  else if (0x80 <=? r) && (r <? 0x800) then
    [Z.lor 0xC0 (Z.shiftr r 6); Z.lor 0x80 (Z.land r 0x3F)]
  else if (r <? 0) || (MaxRune <? r) || inRange 0xD800 0xDFFF r then [0xEF; 0xBF; 0xBD]
  else if r <? 0x10000 then
    [Z.lor 0xE0 (Z.shiftr r 12); Z.lor 0x80 (Z.land (Z.shiftr r 6) 0x3F);
     Z.lor 0x80 (Z.land r 0x3F)]
  else
    [Z.lor 0xF0 (Z.shiftr r 18); Z.lor 0x80 (Z.land (Z.shiftr r 12) 0x3F);
     Z.lor 0x80 (Z.land (Z.shiftr r 6) 0x3F); Z.lor 0x80 (Z.land r 0x3F)].

(** The runes of [for _, r := range s]. *)
Fixpoint runes_fuel (fuel : nat) (bs : list Z) : list Z :=
  match fuel, bs with
  | S f, _ :: _ => let '(r, size) := DecodeRune bs in r :: runes_fuel f (drop size bs)
  | _, _ => []
  end.
Definition runes (s : string) : list Z :=
  let bs := string_bytes s in runes_fuel (length bs) bs.

(** ** package unicode *)

(** [unicode.IsSpace]: the White_Space property, written out. *)
Definition IsSpace (r : Z) : bool :=
  inRange 0x09 0x0D r || (r =? 0x20) || (r =? 0x85) || (r =? 0xA0) || (r =? 0x1680)
  || inRange 0x2000 0x200A r || (r =? 0x2028) || (r =? 0x2029) || (r =? 0x202F)
  || (r =? 0x205F) || (r =? 0x3000).

(** The tables of the Go distribution that the backend consults but that are
    no part of its source: the Unicode category and case tables, and the
    parser of floating-point literals written with a hexadecimal mantissa or
    with [_] digit separators.  The development is parametric in them. *)
Inductive float64 : Type :=
  | Ffin (q : Q)          (* a finite value: the rational it denotes *)
  | Finf (neg : bool)
  | Fnan.

Class GoTables : Type := {
  unicode_IsLetter : Z → bool;
  unicode_IsDigit : Z → bool;
  (** the [CaseRanges] lookup of [unicode.ToLower], used above [MaxASCII] *)
  unicode_lower_table : Z → Z;
  (** the same for [unicode.ToUpper] *)
  unicode_upper_table : Z → Z;
  (** [strconv.ParseFloat(s, 64)] on literals containing [_], [x] or [X];
      [None] stands for [err != nil] *)
  strconv_ParseFloat_ext : string → option float64;
}.

Definition asciiLower (b : Z) : Z := if inRange 65 90 b then b + 32 else b.

(** [unicode.ToLower] *)
Definition unicode_ToLower `{GoTables} (r : Z) : Z :=
  if r <=? 0x7F then asciiLower r else unicode_lower_table r.

Definition asciiUpper (b : Z) : Z := if inRange 97 122 b then b - 32 else b.

(** [unicode.ToUpper] *)
Definition unicode_ToUpper `{GoTables} (r : Z) : Z :=
  if r <=? 0x7F then asciiUpper r else unicode_upper_table r.

(** ** package strings *)

Fixpoint trimLeft_fuel (fuel : nat) (bs : list Z) : list Z :=
  match fuel, bs with
  | S f, _ :: _ =>
      let '(r, size) := DecodeRune bs in
      if IsSpace r then trimLeft_fuel f (drop size bs) else bs
  | _, _ => bs
  end.

Fixpoint trimRight_fuel (fuel : nat) (bs : list Z) : list Z :=
  match fuel, bs with
  | S f, _ :: _ =>
      let '(r, size) := DecodeLastRune bs in
      if IsSpace r then trimRight_fuel f (take (length bs - size) bs) else bs
  | _, _ => bs
  end.

(** [strings.TrimSpace]: all leading and trailing white space removed, as
    defined by Unicode. *)
Definition TrimSpace (s : string) : string :=
  let bs := string_bytes s in
  let l := trimLeft_fuel (length bs) bs in
  bytes_string (trimRight_fuel (length l) l).

(** [strings.ToLower]: bytewise on ASCII-only strings, otherwise
    [strings.Map(unicode.ToLower, s)], which re-encodes every rune, drops
    negative results and turns invalid bytes into [RuneError]. *)
Definition ToLower `{GoTables} (s : string) : string :=
  let bs := string_bytes s in
  if forallb (λ b, b <? RuneSelf) bs then bytes_string (asciiLower <$> bs)
  else
    bytes_string
      (concat ((λ r, let r' := unicode_ToLower r in
                     if r' <? 0 then [] else EncodeRune r') <$> runes s)).

(** [strings.ToUpper] *)
Definition ToUpper `{GoTables} (s : string) : string :=
  let bs := string_bytes s in
  if forallb (λ b, b <? RuneSelf) bs then bytes_string (asciiUpper <$> bs)
  else
    bytes_string
      (concat ((λ r, let r' := unicode_ToUpper r in
                     if r' <? 0 then [] else EncodeRune r') <$> runes s)).

(** [strings.Contains] *)
Fixpoint Contains (s substr : string) : bool :=
  if String.prefix substr s then true
  else match s with
       | String _ r => Contains r substr
       | EmptyString => false
       end.

(** ** [float64] arithmetic

    A finite binary64 value is represented by the rational it denotes; the
    sign of zero is not kept (no operation of the backend observes it). *)

Definition pow2Q (e : Z) : Q :=
  if 0 <=? e then (2 ^ e) # 1 else 1 # Z.to_pos (2 ^ (- e)).

(** [floor (log2 (a / b))] for positive [a], [b] *)
Definition ilog2 (a b : Z) : Z :=
  let d := Z.log2 a - Z.log2 b in
  if (if 0 <=? d then b * 2 ^ d <=? a else b <=? a * 2 ^ (- d)) then d else d - 1.

Definition round_half_even (n d : Z) : Z :=
  let q := n / d in
  let r := n mod d in
  if 2 * r <? d then q
  else if d <? 2 * r then q + 1
  else if Z.even q then q else q + 1.

(** Round the positive rational [a / b] to the nearest binary64 value, ties
    to even: 53 significant bits, least exponent [-1074]; [None] is
    overflow. *)
Definition RN_pos (a b : Z) : option Q :=
  let e := Z.max (ilog2 a b - 52) (-1074) in
  let m := if 0 <=? e then round_half_even a (b * 2 ^ e)
           else round_half_even (a * 2 ^ (- e)) b in
  let v := Qred (Qmult (m # 1) (pow2Q e)) in
  if Qle_bool (2 ^ 1024 # 1) v then None else Some v.

Definition RN (q0 : Q) : float64 :=
  let q := Qred q0 in
  match Qnum q with
  | 0 => Ffin 0
  | Z.pos a =>
      match RN_pos (Z.pos a) (Z.pos (Qden q)) with
      | Some v => Ffin v
      | None => Finf false
      end
  | Z.neg a =>
      match RN_pos (Z.pos a) (Z.pos (Qden q)) with
      | Some v => Ffin (Qopp v)
      | None => Finf true
      end
  end.

(** [f < g], [f > g], [f == g] *)
Definition flt (f g : float64) : bool :=
  match f, g with
  | Fnan, _ | _, Fnan => false
  | Ffin a, Ffin b => negb (Qle_bool b a)
  | Finf n, Finf m => n && negb m
  | Finf n, Ffin _ => n
  | Ffin _, Finf m => negb m
  end.
Definition fgt (f g : float64) : bool := flt g f.
Definition feq (f g : float64) : bool :=
  match f, g with
  | Ffin a, Ffin b => Qeq_bool a b
  | Finf n, Finf m => Bool.eqb n m
  | _, _ => false
  end.

Definition fneg (f : float64) : float64 :=
  match f with
  | Ffin q => Ffin (Qopp q)
  | Finf n => Finf (negb n)
  | Fnan => Fnan
  end.

Definition fsign (q : Q) : bool := Qnum q <? 0.

(** [f * g] and [f / g] *)
Definition fmul (f g : float64) : float64 :=
  match f, g with
  | Fnan, _ | _, Fnan => Fnan
  | Ffin a, Ffin b => RN (Qmult a b)
  | Finf n, Finf m => Finf (xorb n m)
  | Finf n, Ffin b | Ffin b, Finf n =>
      if Qeq_bool b 0 then Fnan else Finf (xorb n (fsign b))
  end.
Definition fdiv (f g : float64) : float64 :=
  match f, g with
  | Fnan, _ | _, Fnan => Fnan
  | Ffin a, Ffin b =>
      if Qeq_bool b 0 then (if Qeq_bool a 0 then Fnan else Finf (fsign a))
      else RN (Qdiv a b)
  | Finf _, Finf _ => Fnan
  | Finf n, Ffin b => Finf (xorb n (fsign b))
  | Ffin _, Finf _ => Ffin 0
  end.

Definition min_int64 : Z := - 2 ^ 63.
Definition max_int64 : Z := 2 ^ 63 - 1.

(** The conversion [int64(f)]: truncation toward zero.  For a value that
    does not fit, and for infinities and NaN, Go leaves the result to the
    implementation; the model returns the least [int64], as the amd64 port
    does. *)
Definition int64_of_float64 (f : float64) : Z :=
  match f with
  | Ffin q =>
      let t := Z.quot (Qnum q) (Z.pos (Qden q)) in
      if (min_int64 <=? t) && (t <=? max_int64) then t else min_int64
  | _ => min_int64
  end.

(** The conversion [float64(i)] *)
Definition float64_of_int (i : Z) : float64 := RN (i # 1).

(** [math.Round]: nearest integer, halves away from zero *)
Definition math_Round (f : float64) : float64 :=
  match f with
  | Ffin q =>
      let n := Z.abs (Qnum q) in
      let d := Z.pos (Qden q) in
      let r := (2 * n + d) / (2 * d) in
      Ffin ((if Qnum q <? 0 then - r else r) # 1)
  | _ => f
  end.

(** ** package strconv *)

(** [strconv.FormatInt(i, 10)] *)
Definition FormatInt (i : Z) : string := pretty i.

Fixpoint digits_value (acc : Z) (s : string) : Z :=
  match s with
  | String c r => digits_value (10 * acc + (byte_val c - 48)) r
  | EmptyString => acc
  end.

(** The exponent digits of a literal: the accumulator saturates once it
    has reached 10000, as in [readFloat]. *)
Fixpoint exp_value (acc : Z) (s : string) : Z :=
  match s with
  | String c r => exp_value (if acc <? 10000 then 10 * acc + (byte_val c - 48) else acc) r
  | EmptyString => acc
  end.

Definition lowerAscii (c : ascii) : ascii := byte_of (asciiLower (byte_val c)).

Fixpoint string_map (f : ascii → ascii) (s : string) : string :=
  match s with
  | String c r => String (f c) (string_map f r)
  | EmptyString => EmptyString
  end.

Definition split_sign (s : string) : option bool * string :=
  match s with
  | String "+"%char r => (Some false, r)
  | String "-"%char r => (Some true, r)
  | _ => (None, s)
  end.

(** [strconv.special]: the literals [inf], [infinity] (optionally signed)
    and [nan], in any letter case. *)
Definition special (s : string) : option float64 :=
  let '(sg, body) := split_sign s in
  let lb := string_map lowerAscii body in
  if bool_decide (lb = "inf" ∨ lb = "infinity")
  then Some (Finf (bool_decide (sg = Some true)))
  else if bool_decide (sg = None ∧ lb = "nan") then Some Fnan
  else None.

(** The decimal literals: an optional sign, digits with at most one point
    among them (at least one digit in all), and an optional exponent [e] or
    [E] with optional sign and at least one digit.  The result is the sign,
    the value of the mantissa digits, and the power of ten that scales it. *)
Definition parse_exponent (s : string) : option Z :=
  match s with
  | EmptyString => Some 0
  | String c r =>
      if bool_decide (lowerAscii c = "e"%char) then
        let '(sg, r1) := split_sign r in
        let '(ds, r2) := span isDigitByte r1 in
        if bool_decide (ds ≠ "" ∧ r2 = "")
        then Some (if bool_decide (sg = Some true) then - exp_value 0 ds else exp_value 0 ds)
        else None
      else None
  end.

Definition parse_decimal (s : string) : option (bool * Z * Z) :=
  let '(sg, s1) := split_sign s in
  let '(ip, s2) := span isDigitByte s1 in
  let '(fp, s3) := match s2 with
                   | String "."%char r => span isDigitByte r
                   | _ => ("", s2)
                   end in
  if bool_decide (ip = "" ∧ fp = "") then None
  else match parse_exponent s3 with
       | Some e => Some (bool_decide (sg = Some true),
                         digits_value 0 (ip +:+ fp), e - len fp)
       | None => None
       end.

Definition pow10Q (e : Z) : Q :=
  if 0 <=? e then (10 ^ e) # 1 else 1 # Z.to_pos (10 ^ (- e)).

Definition has_ext_byte (s : string) : bool :=
  negb (string_forallb (λ c, negb (bool_decide (c = "_"%char ∨ c = "x"%char ∨ c = "X"%char))) s).

(** [strconv.ParseFloat(s, 64)]: the correctly rounded value of the literal;
    [None] stands for [err != nil] (syntax error, or a value out of range,
    for which Go returns an infinity together with [ErrRange]). *)
Definition ParseFloat `{GoTables} (s : string) : option float64 :=
  if has_ext_byte s then strconv_ParseFloat_ext s
  else match special s with
       | Some f => Some f
       | None =>
           match parse_decimal s with
           | Some (neg, m, e) =>
               match RN (Qmult ((if neg then - m else m) # 1) (pow10Q e)) with
               | Finf _ => None
               | f => Some f
               end
           | None => None
           end
       end.

(** ** package sort *)

(** [sort.Strings]: ascending bytewise lexicographic order. *)
Definition sort_Strings (l : list string) : list string := merge_sort String.le l.

(** An extract of the tables, exact on Basic Latin and on the CJK Unified
    Ideographs block (letters without case), on which the examples of this
    development run; it rejects the literals left to
    [strconv_ParseFloat_ext], none of which occurs in an example.  No
    general statement depends on it. *)
Definition exampleTables : GoTables :=
  {| unicode_IsLetter := λ r, inRange 65 90 r || inRange 97 122 r || inRange 0x4E00 0x9FFF r;
     unicode_IsDigit := λ r, inRange 48 57 r;
     unicode_lower_table := λ r, r;
     unicode_upper_table := λ r, r;
     strconv_ParseFloat_ext := λ _, None |}.

(** [strconv.ParseInt(s, 10, 64)]: an optional sign and decimal digits (in
    base 10 no underscore is accepted); [None] stands for [err != nil], a
    syntax error or a value outside [int64]. *)
Definition ParseInt (s : string) : option Z :=
  let '(sg, body) := split_sign s in
  if bool_decide (body = "") then None
  else if string_forallb isDigitByte body then
    let n := digits_value 0 body in
    let v := if bool_decide (sg = Some true) then - n else n in
    if (min_int64 <=? v) && (v <=? max_int64) then Some v else None
  else None.

(** [strconv.Atoi] on a 64-bit platform *)
Definition Atoi (s : string) : option Z := ParseInt s.


(** [f <= g] *)
Definition fle (f g : float64) : bool := flt f g || feq f g.

(** [f + g] and [f - g] *)
Definition fadd (f g : float64) : float64 :=
  match f, g with
  | Fnan, _ | _, Fnan => Fnan
  | Ffin a, Ffin b => RN (Qplus a b)
  | Finf n, Finf m => if Bool.eqb n m then Finf n else Fnan
  | Finf n, Ffin _ | Ffin _, Finf n => Finf n
  end.
Definition fsub (f g : float64) : float64 := fadd f (fneg g).

(** [math.Max]: [+Inf] wins, then NaN, then the larger argument. *)
Definition math_Max (x y : float64) : float64 :=
  match x, y with
  | Finf false, _ | _, Finf false => Finf false
  | Fnan, _ | _, Fnan => Fnan
  | _, _ => if fgt x y then x else y
  end.

(** [utf8.RuneCountInString] *)
Definition RuneCountInString (s : string) : Z := Z.of_nat (length (runes s)).

(** The conversion [string(rs)] of a slice of runes *)
Definition string_of_runes (rs : list Z) : string :=
  bytes_string (concat (EncodeRune <$> rs)).

(** [strings.ReplaceAll(s, old, new)] for a non-empty [old]: the
    occurrences of [old] are replaced from left to right, without overlap;
    [skip] bytes of the occurrence just replaced are still to be passed. *)
Fixpoint ReplaceAll_skip (skip : nat) (s old new : string) : string :=
  match s with
  | EmptyString => EmptyString
  | String c r =>
      match skip with
      | S k => ReplaceAll_skip k r old new
      | O =>
          if String.prefix old s
          then new +:+ ReplaceAll_skip (String.length old - 1) r old new
          else String c (ReplaceAll_skip 0 r old new)
      end
  end.
Definition ReplaceAll (s old new : string) : string := ReplaceAll_skip 0 s old new.

(** [strconv.Itoa] *)
Definition Itoa (i : Z) : string := FormatInt i.
End Go.

(** * package excelcmp: the diff engine *)
Module excelcmp.
Import Go.

Section excelcmp.
Context `{GoTables}.

(** ** normalize.go *)

(** The regular expression [^[+-]?\d+(\.0+)?$] with the plain-integer case
    excluded. *)
Definition looksLikeIntegerFloatString (s : string) : bool :=
  match s with
  | EmptyString => false
  | String c r =>
      let body := if bool_decide (c = "+"%char ∨ c = "-"%char) then r else s in
      match body with
      | EmptyString => false
      | _ =>
          let '(digits, r1) := span isDigitByte body in
          if bool_decide (digits = "") then false
          else match r1 with
               | EmptyString => false (* plain int string, kept as it is *)
               | String d r2 =>
                   if bool_decide (d ≠ "."%char) then false
                   else let '(zeros, r3) := span isZeroByte r2 in
                        bool_decide (zeros ≠ "") && bool_decide (r3 = "")
               end
      end
  end.

Definition f9e15 : float64 := Ffin (9000000000000000 # 1).

Definition normalizeScalarForCompare (v : string) : string :=
  let s := TrimSpace v in
  if bool_decide (s = "") then ""
  else
    let ls := ToLower s in
    if bool_decide (ls = "nan" ∨ ls = "nat" ∨ ls = "none") then ""
    else if looksLikeIntegerFloatString s then
      match ParseFloat s with
      | Some f =>
          if fgt f f9e15 || flt f (fneg f9e15) then s
          else
            let i := int64_of_float64 f in
            if feq (float64_of_int i) f then FormatInt i else s
      | None => s
      end
    else s.

Definition isAlnumUnicode (s : string) : bool :=
  if bool_decide (s = "") then false
  else forallb (λ r, unicode_IsLetter r || unicode_IsDigit r) (runes s).

Definition isIntegerLikeString (s : string) : bool :=
  match s with
  | EmptyString => false
  | String c r =>
      let s' := if bool_decide (c = "-"%char ∨ c = "+"%char) then r else s in
      if bool_decide (s' = "") then false else string_forallb isDigitByte s'
  end.

Definition isFiniteIntegerFloatString (s : string) : bool :=
  match ParseFloat s with
  | None => false
  | Some f =>
      if fgt f f9e15 || flt f (fneg f9e15) then false
      else feq (float64_of_int (int64_of_float64 f)) f
  end.

(** ** readxlsx.go *)

Record Table : Type := { Headers : list string; Rows : list (list string) }.

(** ** compare.go: key column inference *)

Definition primaryKeyCandidates : list string :=
  ["id"; "编号"; "编码"; "资产编号"; "资产编码"; "序号"; "资产号"; "code"; "no"; "序列号"].

(** The first [n] values of column [colIdx], trimmed; [None] when a row is
    too short or a value is blank ([hasNull]). *)
Fixpoint gatherValues (rows : list (list string)) (colIdx : nat) : option (list string) :=
  match rows with
  | [] => Some []
  | row :: rest =>
      match row !! colIdx with
      | None => None
      | Some cell =>
          let v := TrimSpace cell in
          if bool_decide (v = "") then None
          else match gatherValues rest colIdx with
               | Some vs => Some (v :: vs)
               | None => None
               end
      end
  end.

(** The [uniq] loop: does a value occur twice? *)
Fixpoint hasDuplicate (uniq : gset string) (values : list string) : bool :=
  match values with
  | [] => false
  | v :: rest =>
      if bool_decide (v ∈ uniq) then true else hasDuplicate ({[v]} ∪ uniq) rest
  end.

Definition keywordScore (colName : string) : Z :=
  let lcName := ToLower colName in
  fold_left (λ score kw, if Contains lcName (ToLower kw) then score + 10 else score)
    primaryKeyCandidates 0.

Definition pkish (v : string) : bool :=
  isIntegerLikeString v || isFiniteIntegerFloatString v || isAlnumUnicode v.

(** The body of the loop over the columns: [None] when the column is
    skipped ([continue]), otherwise its score. *)
Definition columnScore (tbl : Table) (checkRows : Z) (colIdx : nat) (colName : string)
  : option Z :=
  let n := if Z.of_nat (length (Rows tbl)) <? checkRows
           then length (Rows tbl) else Z.to_nat checkRows in
  if bool_decide (n = 0%nat) then None
  else match gatherValues (take n (Rows tbl)) colIdx with
       | None => None
       | Some values =>
           if hasDuplicate ∅ values then None
           else
             let score := keywordScore colName in
             Some (if forallb pkish values then score + 5 else score)
       end.

Definition guessStep (tbl : Table) (checkRows : Z) (best : string * Z) (col : nat * string)
  : string * Z :=
  match columnScore tbl checkRows col.1 col.2 with
  | None => best
  | Some score => if best.2 <? score then (col.2, score) else best
  end.

(** [GuessPrimaryKeyColumn]; the Go result [(name, true)] is [Some name],
    and [("", false)] is [None]. *)
Definition GuessPrimaryKeyColumn (tbl : Table) (checkRows : Z) : option string :=
  if bool_decide (length (Headers tbl) = 0%nat) then None
  else
    let checkRows := if checkRows <=? 0 then 5 else checkRows in
    let best := fold_left (guessStep tbl checkRows) (imap pair (Headers tbl)) ("", -1) in
    if bool_decide (best.1 = "") then None else Some best.1.

(** ** compare.go: artifacts *)

Record Artifacts : Type := {
  Key : string;
  ReducedKeys : list string;   (* file1-only keys (sorted) *)
  IncKeys : list string;       (* file2-only keys (sorted) *)
  RedHeaders : list string;
  IncHeaders : list string;
  OrderedCols : list string;
  CommonKeys : list string;    (* keys of both files (sorted) *)
  LeftByKey : gmap string (list string);
  RightByKey : gmap string (list string);
  ColIdx1 : list Z;            (* aligned with OrderedCols: index into a file1 row, or -1 *)
  ColIdx2 : list Z;
}.

Definition indexOfHeader (headers : list string) (name : string) : Z :=
  default (-1) ((λ p, Z.of_nat p.1) <$>
                list_find (λ h, h = name) headers).

Definition headerIndexMap (headers : list string) : gmap string Z :=
  fold_left (λ m (p : nat * string), <[p.2 := Z.of_nat p.1]> m) (imap pair headers) ∅.

Definition alignedColumnIndices (cols : list string) (hidx1 hidx2 : gmap string Z)
  : list Z * list Z :=
  ((λ c, default (-1) (hidx1 !! c)) <$> cols, (λ c, default (-1) (hidx2 !! c)) <$> cols).

Definition orderedUnionCols (h1 h2 : list string) (key : string) : list string :=
  let set : gset string := list_to_set (h1 ++ h2) in
  let out := fold_left (λ out c,
                 if bool_decide (c = key) then out
                 else if bool_decide (c ∈ set) then out ++ [c] else out) h1 [] in
  let seen : gset string := list_to_set out in
  (fold_left (λ (st : list string * gset string) c,
      if bool_decide (c = key) then st
      else if bool_decide (c ∉ set) then st
      else if bool_decide (c ∈ st.2) then st
      else (st.1 ++ [c], {[c]} ∪ st.2)) h2 (out, seen)).1.

(** The keys met by [for k := range m]. *)
Definition rangeKeys (m : gmap string (list string)) : list string := (map_to_list m).*1.

(** The result [(art, err)]: [inl] is the error message, [inr] the
    artifacts. *)
Definition compareArtifactsFromMaps (headers1 headers2 : list string)
    (m1 m2 : gmap string (list string)) (key : string) : string + Artifacts :=
  if bool_decide (TrimSpace key = "") then inl "主键列为空"
  else
    let only1 := filter (λ k, m2 !! k = None) (rangeKeys m1) in
    let common := filter (λ k, is_Some (m2 !! k)) (rangeKeys m1) in
    let only2 := filter (λ k, m1 !! k = None) (rangeKeys m2) in
    let orderedCols := orderedUnionCols headers1 headers2 key in
    let hidx1 := headerIndexMap headers1 in
    let hidx2 := headerIndexMap headers2 in
    let '(colIdx1, colIdx2) := alignedColumnIndices orderedCols hidx1 hidx2 in
    inr {| Key := key;
           ReducedKeys := sort_Strings only1;
           IncKeys := sort_Strings only2;
           RedHeaders := headers1;
           IncHeaders := headers2;
           OrderedCols := orderedCols;
           CommonKeys := sort_Strings common;
           LeftByKey := m1;
           RightByKey := m2;
           ColIdx1 := colIdx1;
           ColIdx2 := colIdx2 |}.

(** The loop of [buildKeyRowMap]: state [(out, dups, seenDup)]. *)
Definition buildKeyRowStep (keyIdx : nat)
    (st : gmap string (list string) * list string * gset string) (row : list string)
  : gmap string (list string) * list string * gset string :=
  let '(out, dups, seenDup) := st in
  match row !! keyIdx with
  | None => st
  | Some cell =>
      let k := normalizeScalarForCompare cell in
      if bool_decide (TrimSpace k = "") then st
      else if bool_decide (is_Some (out !! k)) then
        if bool_decide (k ∈ seenDup) then st
        else (out, if (length dups <? 10)%nat then dups ++ [k] else dups, {[k]} ∪ seenDup)
      else (<[k := row]> out, dups, seenDup)
  end.

Definition buildKeyRowMap (tbl : Table) (keyIdx : nat)
  : gmap string (list string) * list string :=
  (fold_left (buildKeyRowStep keyIdx) (Rows tbl) (∅, [], ∅)).1.

Definition CompareArtifacts (file1 file2 : Table) (key : string) : string + Artifacts :=
  if bool_decide (TrimSpace key = "") then inl "主键列为空"
  else
    let k1 := indexOfHeader (Headers file1) key in
    let k2 := indexOfHeader (Headers file2) key in
    if (k1 <? 0) || (k2 <? 0) then inl "Excel文件中必须同时包含主键列"
    else
      let '(m1, dup1) := buildKeyRowMap file1 (Z.to_nat k1) in
      if bool_decide (dup1 ≠ []) then inl "文件1主键列存在重复值"
      else
        let '(m2, dup2) := buildKeyRowMap file2 (Z.to_nat k2) in
        if bool_decide (dup2 ≠ []) then inl "文件2主键列存在重复值"
        else compareArtifactsFromMaps (Headers file1) (Headers file2) m1 m2 key.

Definition two64 : Z := 2 ^ 64.

(** FNV-1a, 64 bit *)
Definition fingerprint64 (s : string) : Z :=
  fold_left (λ h b, (Z.lxor h b * 1099511628211) mod two64)
    (string_bytes s) 14695981039346656037.

Definition diffMaskWords (nCols : Z) : Z :=
  if nCols <=? 0 then 0 else (nCols + 63) / 64.

Definition diffMaskGet (mask : list Z) (i : Z) : bool :=
  if i <? 0 then false
  else
    let w := Z.shiftr i 6 in
    let b := Z.land i 63 in
    if (w <? 0) || (Z.of_nat (length mask) <=? w) then false
    else negb (Z.land (mask !!! Z.to_nat w) (Z.shiftl 1 b mod two64) =? 0).

(** ** export.go *)

(** A value handed to the stream writer: a plain string, or an
    [excelize.Cell] with its style. *)
Inductive CellValue : Type :=
  | VString (s : string)
  | VCell (value : string) (styleID : Z).

(** What a stream writer has received: the [SetRow] calls in order. *)
Definition Sheet : Type := list (string * list CellValue).

Definition safeCellValue (v : string) : string :=
  if bool_decide (TrimSpace v = "") then "" else v.

(** [excelize.CoordinatesToCellName(col, row)] for the first column *)
Definition cellAxis (row col : Z) : string :=
  if col =? 1 then "A" +:+ FormatInt row else "?" +:+ FormatInt row.

Definition renderRow (headers : list string) (r : list string) : list CellValue :=
  (λ i, VString (match r !! i with Some c => safeCellValue c | None => "" end))
    <$> seq 0 (length headers).

Definition writeSimpleKeyedSheetStream (headers keys : list string)
    (byKey : gmap string (list string)) (emptyMsg : string) : Sheet :=
  if bool_decide (headers = [] ∨ keys = []) then [("A1", [VString emptyMsg])]
  else
    let sw := [(cellAxis 1 1, VString <$> headers)] in
    (fold_left (λ (st : Sheet * Z) k,
        match byKey !! k with
        | None => st
        | Some r => (st.1 ++ [(cellAxis st.2 1, renderRow headers r)], st.2 + 1)
        end) keys (sw, 2)).1.

Definition normCache : Type := gmap string (string * Z).

Definition cachedNormalizeFP (cache : normCache) (raw : string)
  : (string * Z) * normCache :=
  if len raw <=? 64 then
    match cache !! raw with
    | Some v => (v, cache)
    | None =>
        let n := normalizeScalarForCompare raw in
        let fp := fingerprint64 n in
        ((n, fp), if Z.of_nat (size cache) <? 80000 then <[raw := (n, fp)]> cache else cache)
    end
  else
    let n := normalizeScalarForCompare raw in ((n, fingerprint64 n), cache).

(** The diff bit set and the list of its dirty words. *)
Definition maskState : Type := list Z * list Z.

Definition setDiff (ms : maskState) (i : Z) : maskState :=
  if i <? 0 then ms
  else
    let w := Z.shiftr i 6 in
    if (w <? 0) || (Z.of_nat (length ms.1) <=? w) then ms
    else
      let before := ms.1 !!! Z.to_nat w in
      (<[Z.to_nat w := Z.lor before (Z.shiftl 1 (Z.land i 63) mod two64)]> ms.1,
       if before =? 0 then ms.2 ++ [w] else ms.2).

Definition resetMask (ms : maskState) : maskState :=
  (fold_left (λ mask w, <[Z.to_nat w := 0]> mask) ms.2 ms.1, []).

(** The two raw cells of union column [i] for a pair of rows. *)
Definition cellPair (art : Artifacts) (left right : list string) (i : nat)
  : string * string :=
  let i1 := default (-1) (ColIdx1 art !! i) in
  let i2 := default (-1) (ColIdx2 art !! i) in
  let va := if (0 <=? i1) && (i1 <? Z.of_nat (length left))
            then left !!! Z.to_nat i1 else "" in
  let vb := if (0 <=? i2) && (i2 <? Z.of_nat (length right))
            then right !!! Z.to_nat i2 else "" in
  (va, vb).

(** One turn of the comparison loop over the union columns. *)
Definition detectStep (art : Artifacts) (left right : list string)
    (st : normCache * maskState * bool) (i : nat) : normCache * maskState * bool :=
  let '(cache, ms, hasDiff) := st in
  let '(va, vb) := cellPair art left right i in
  let '((n1, h1), cache) := cachedNormalizeFP cache va in
  let '((n2, h2), cache) := cachedNormalizeFP cache vb in
  let isDiff := if negb (h1 =? h2) then true
                else if bool_decide (n1 ≠ n2) then true else false in
  if isDiff then (cache, setDiff ms (Z.of_nat i), true) else (cache, ms, hasDiff).

Definition diffRow (art : Artifacts) (redStyle : Z) (k : string)
    (left right : list string) (mask : list Z) : list CellValue :=
  VString (safeCellValue k) ::
  concat ((λ i,
      let '(va, vb) := cellPair art left right i in
      let isDiff := diffMaskGet mask (Z.of_nat i) in
      let style := if isDiff && (0 <? redStyle) then redStyle else 0 in
      [VCell (safeCellValue va) style; VCell (safeCellValue vb) style])
    <$> seq 0 (length (OrderedCols art))).

Definition diffHeader (art : Artifacts) (fn1 fn2 : string) : list CellValue :=
  VString (Key art) ::
  concat ((λ c, [VString (c +:+ "（" +:+ fn1 +:+ "）");
                 VString (c +:+ "（" +:+ fn2 +:+ "）")]) <$> OrderedCols art).

Record diffWriter : Type := {
  dw_cache : normCache;
  dw_mask : maskState;
  dw_rowNum : Z;
  dw_firstWritten : bool;
  dw_sw : Sheet;
}.

(** One turn of the loop over the common keys. *)
Definition diffStep (art : Artifacts) (fn1 fn2 : string) (redStyle : Z)
    (st : diffWriter) (k : string) : diffWriter :=
  let left := default [] (LeftByKey art !! k) in
  let right := default [] (RightByKey art !! k) in
  let '(cache, ms, hasDiff) :=
    fold_left (detectStep art left right) (seq 0 (length (OrderedCols art)))
      (dw_cache st, dw_mask st, false) in
  if negb hasDiff then
    {| dw_cache := cache; dw_mask := resetMask ms; dw_rowNum := dw_rowNum st;
       dw_firstWritten := dw_firstWritten st; dw_sw := dw_sw st |}
  else
    let '(sw, rowNum) :=
      if negb (dw_firstWritten st)
      then (dw_sw st ++ [(cellAxis (dw_rowNum st) 1, diffHeader art fn1 fn2)],
            dw_rowNum st + 1)
      else (dw_sw st, dw_rowNum st) in
    {| dw_cache := cache; dw_mask := resetMask ms; dw_rowNum := rowNum + 1;
       dw_firstWritten := true;
       dw_sw := sw ++ [(cellAxis rowNum 1, diffRow art redStyle k left right ms.1)] |}.

Definition writeDiffSideBySideStream (art : Artifacts) (file1Name file2Name : string)
    (redStyle : Z) : Sheet :=
  if bool_decide (CommonKeys art = []) then [("A1", [VString "无变动项目"])]
  else
    let fn1 := if bool_decide (TrimSpace file1Name = "") then "文件1" else TrimSpace file1Name in
    let fn2 := if bool_decide (TrimSpace file2Name = "") then "文件2" else TrimSpace file2Name in
    let words := diffMaskWords (Z.of_nat (length (OrderedCols art))) in
    let st := fold_left (diffStep art fn1 fn2 redStyle) (CommonKeys art)
                {| dw_cache := ∅; dw_mask := (replicate (Z.to_nat words) 0, []);
                   dw_rowNum := 1; dw_firstWritten := false; dw_sw := [] |} in
    if negb (dw_firstWritten st) then dw_sw st ++ [("A1", [VString "无变动项目"])]
    else dw_sw st.

(** The three sheets of [GenerateCompareExportXLSX], from the point where
    both keyed sheets have been loaded: Added, Removed, Changed. *)
Definition GenerateCompareExportXLSX_sheets (headers1 headers2 : list string)
    (m1 m2 : gmap string (list string)) (key file1Name file2Name : string) (redStyle : Z)
  : string + (Sheet * Sheet * Sheet) :=
  match compareArtifactsFromMaps headers1 headers2 m1 m2 key with
  | inl err => inl err
  | inr art =>
      inr (writeSimpleKeyedSheetStream (IncHeaders art) (IncKeys art) (RightByKey art) "无增加项",
           writeSimpleKeyedSheetStream (RedHeaders art) (ReducedKeys art) (LeftByKey art) "无减少项",
           writeDiffSideBySideStream art file1Name file2Name redStyle)
  end.

(** ** readxlsx.go: the header row *)

(** The first loop of [normalizeHeaders]: the trimmed cells, an empty one
    replaced by [Unnamed: i]. *)
Definition headerNames (raw : list string) : list string :=
  imap (λ i v, let s := TrimSpace v in
               if bool_decide (s = "") then "Unnamed: " +:+ FormatInt (Z.of_nat i) else s) raw.

(** One turn of the second loop: state [(seen, out)]. *)
Definition dedupeStep (st : gmap string Z * list string) (name : string)
  : gmap string Z * list string :=
  match st.1 !! name with
  | Some c => (<[name := c + 1]> st.1, st.2 ++ [name +:+ "." +:+ FormatInt (c + 1)])
  | None => (<[name := 0]> st.1, st.2 ++ [name])
  end.

Definition normalizeHeaders (raw : list string) : list string :=
  (fold_left dedupeStep (headerNames raw) (∅, [])).2.

(** The row that [readXLSXFirstSheetTable] builds from the cells of a data
    row: [len(headers)] cells, the missing ones empty. *)
Definition tableRow (headers cols : list string) : list string :=
  (λ i, default "" (cols !! i)) <$> seq 0 (length headers).

(** [readXLSXFirstSheetTable] on the rows of the first sheet ([None] when
    the file has no sheet), as the row iterator yields them. *)
Definition readXLSXFirstSheetTable (sheet : option (list (list string))) : Table :=
  match sheet with
  | None | Some [] => {| Headers := []; Rows := [] |}
  | Some (cols :: rest) =>
      let headers := normalizeHeaders cols in
      {| Headers := headers;
         Rows := if bool_decide (length headers = 0%nat) then []
                 else tableRow headers <$> rest |}
  end.

(** ** keyedread.go *)

Definition padRow (cols : list string) (n : Z) : list string :=
  if n <=? 0 then []
  else if bool_decide (Z.of_nat (length cols) = n) then cols
  else take (Z.to_nat n) cols ++ replicate (Z.to_nat n - length cols) "".

Record keyedSheet : Type := {
  ks_Headers : list string;
  ks_Key : string;
  RowsByKey : gmap string (list string);
}.

(** The errors of [loadKeyedSheetXLSX] that do not come from reading the
    file: no key column can be guessed, the key is blank, the header row
    has no column of that name. *)
Inductive loadError : Type :=
  | ErrNoGuess
  | ErrEmptyKey
  | ErrMissingColumn (key : string).

(** [loadKeyedSheetXLSX] on the rows of the first sheet ([None] when the
    file has no sheet).  The result is the error, or the keyed sheet
    together with the sample of duplicate keys. *)
Definition loadKeyedSheetXLSX (sheet : option (list (list string))) (checkRows : Z)
    (key : string) (allowGuess : bool) : loadError + (keyedSheet * list string) :=
  match sheet with
  | None | Some [] => inr ({| ks_Headers := []; ks_Key := key; RowsByKey := ∅ |}, [])
  | Some (rawHeader :: rest) =>
      let headers := normalizeHeaders rawHeader in
      let n := Z.of_nat (length headers) in
      let checkRows := if checkRows <=? 0 then 5 else checkRows in
      let peek := (λ cols, padRow cols n) <$> take (Z.to_nat checkRows) rest in
      let guessed :=
        if allowGuess
        then match GuessPrimaryKeyColumn {| Headers := headers; Rows := peek |} checkRows with
             | Some k => inr k
             | None => inl ErrNoGuess
             end
        else inr (TrimSpace key) in
      match guessed with
      | inl e => inl e
      | inr keyUsed =>
          if bool_decide (keyUsed = "") then inl ErrEmptyKey
          else
            let keyIdx := indexOfHeader headers keyUsed in
            if keyIdx <? 0 then inl (ErrMissingColumn keyUsed)
            else
              let add := buildKeyRowStep (Z.to_nat keyIdx) in
              let st := fold_left add peek (∅, [], ∅) in
              let st := fold_left add ((λ cols, padRow cols n)
                                         <$> drop (Z.to_nat checkRows) rest) st in
              inr ({| ks_Headers := headers; ks_Key := keyUsed; RowsByKey := st.1.1 |},
                   st.1.2)
      end
  end.

(** ** compare.go: the bit set of the differing columns *)

Definition diffMaskSet (mask : list Z) (i : Z) : list Z :=
  if i <? 0 then mask
  else
    let w := Z.shiftr i 6 in
    let b := Z.land i 63 in
    if (w <? 0) || (Z.of_nat (length mask) <=? w) then mask
    else <[Z.to_nat w := Z.lor (mask !!! Z.to_nat w) (Z.shiftl 1 b mod two64)]> mask.

(** ** compare.go, export.go: sub tables *)

(** [copy(cp, row)] into a fresh row of [n] cells *)
Definition fitRow (n : nat) (row : list string) : list string :=
  take n row ++ replicate (n - length row) "".

Definition buildSubTableFromMap (headers keys : list string)
    (m : gmap string (list string)) : Table :=
  {| Headers := headers;
     Rows := omap (λ k, (λ row, if bool_decide (length row = length headers) then row
                                else fitRow (length headers) row) <$> m !! k) keys |}.

Definition writeSimpleTableSheetStream (tbl : Table) (emptyMsg : string) : Sheet :=
  if bool_decide (Headers tbl = [] ∨ Rows tbl = []) then [("A1", [VString emptyMsg])]
  else
    (cellAxis 1 1, VString <$> Headers tbl)
    :: imap (λ i r, (cellAxis (Z.of_nat i + 2) 1, renderRow (Headers tbl) r)) (Rows tbl).


(** ** keyedread.go: the names of the sheets *)

Definition trimRunes (s : string) (n : Z) : string :=
  if n <=? 0 then ""
  else if RuneCountInString s <=? n then s
  else string_of_runes (take (Z.to_nat n) (runes s)).

(** The characters that Excel forbids in the name of a sheet *)
Definition forbiddenSheetChars : list string := [":"; "\"; "/"; "?"; "*"; "["; "]"].

Definition safeSheetName (name : string) : string :=
  let s := TrimSpace name in
  let s := if bool_decide (s = "") then "Sheet" else s in
  let s := fold_left (λ s ch, ReplaceAll s ch "_") forbiddenSheetChars s in
  if 31 <? RuneCountInString s then trimRunes s 31 else s.

(** The candidate that [uniqueSheetName] tries in the turn with counter [i] *)
Definition suffixedSheetName (base : string) (i : Z) : string :=
  let suffix := "_" +:+ Itoa i in
  let maxLen := 31 - RuneCountInString suffix in
  let maxLen := if maxLen <? 1 then 1 else maxLen in
  let cand := if maxLen <? RuneCountInString base then trimRunes base maxLen else base in
  cand +:+ suffix.

(** The loop of [uniqueSheetName], for at most [fuel] candidates; the
    result is the name and the set [used] with the name added. *)
Fixpoint uniqueSheetName_loop (fuel : nat) (base : string) (used : gset string)
    (cand : string) (i : Z) : option (string * gset string) :=
  match fuel with
  | O => None
  | S fuel =>
      if bool_decide (cand ∈ used)
      then uniqueSheetName_loop fuel base used (suffixedSheetName base i) (i + 1)
      else Some (cand, {[cand]} ∪ used)
  end.

Definition uniqueSheetName (fuel : nat) (name : string) (used : gset string)
  : option (string * gset string) :=
  let base := safeSheetName name in
  uniqueSheetName_loop fuel base used base 2.

(** The names that [GenerateCompareExportXLSX] gives to its three sheets;
    [base1] and [base2] are the results of [sheetBaseName] for the two file
    names. *)
Definition exportSheetNames (fuel : nat) (base1 base2 : string)
  : option (string * string * string) :=
  match uniqueSheetName fuel (base2 +:+ "相比" +:+ base1 +:+ "增加") ∅ with
  | None => None
  | Some (incName, used) =>
      match uniqueSheetName fuel (base2 +:+ "相比" +:+ base1 +:+ "减少") used with
      | None => None
      | Some (redName, used) =>
          match uniqueSheetName fuel "变动项目" used with
          | None => None
          | Some (diffName, _) => Some (incName, redName, diffName)
          end
      end
  end.
End excelcmp.
End excelcmp.

(** * package domain *)
Module domain.
Import Go.

Inductive CompareJobStatus : Type :=
  | CompareJobStatusProcessing
  | CompareJobStatusAwaitingPayment
  | CompareJobStatusReady
  | CompareJobStatusFailed
  | CompareJobStatusCancelled.

Global Instance CompareJobStatus_eq_dec : EqDecision CompareJobStatus.
Proof. solve_decision. Defined.

(** A [time.Time] is a reading of the clock, a [*time.Time] an optional
    one. *)
Record CompareJob : Type := {
  ID : string;
  Status : CompareJobStatus;
  CreatedAt : Z;
  File1Path : string;
  File2Path : string;
  File1OSSKey : string;
  File2OSSKey : string;
  File1Name : string;
  File2Name : string;
  ResultPath : string;
  ResultOSSKey : string;
  AmountYuan : float64;
  CodeURL : string;
  Paid : bool;
  PaidAt : option Z;
  CancelledAt : option Z;
  Error : string;
}.

(** Assignments to one field, [j.F = v]. *)
Definition setStatus (v : CompareJobStatus) (j : CompareJob) : CompareJob :=
  {| ID := ID j; Status := v; CreatedAt := CreatedAt j; File1Path := File1Path j; File2Path := File2Path j; File1OSSKey := File1OSSKey j; File2OSSKey := File2OSSKey j;
     File1Name := File1Name j; File2Name := File2Name j;
     ResultPath := ResultPath j; ResultOSSKey := ResultOSSKey j; AmountYuan := AmountYuan j; CodeURL := CodeURL j;
     Paid := Paid j; PaidAt := PaidAt j; CancelledAt := CancelledAt j; Error := Error j |}.
Definition setFile1Path (v : string) (j : CompareJob) : CompareJob :=
  {| ID := ID j; Status := Status j; CreatedAt := CreatedAt j; File1Path := v; File2Path := File2Path j; File1OSSKey := File1OSSKey j; File2OSSKey := File2OSSKey j;
     File1Name := File1Name j; File2Name := File2Name j;
     ResultPath := ResultPath j; ResultOSSKey := ResultOSSKey j; AmountYuan := AmountYuan j; CodeURL := CodeURL j;
     Paid := Paid j; PaidAt := PaidAt j; CancelledAt := CancelledAt j; Error := Error j |}.
Definition setFile2Path (v : string) (j : CompareJob) : CompareJob :=
  {| ID := ID j; Status := Status j; CreatedAt := CreatedAt j; File1Path := File1Path j; File2Path := v; File1OSSKey := File1OSSKey j; File2OSSKey := File2OSSKey j;
     File1Name := File1Name j; File2Name := File2Name j;
     ResultPath := ResultPath j; ResultOSSKey := ResultOSSKey j; AmountYuan := AmountYuan j; CodeURL := CodeURL j;
     Paid := Paid j; PaidAt := PaidAt j; CancelledAt := CancelledAt j; Error := Error j |}.
Definition setResultPath (v : string) (j : CompareJob) : CompareJob :=
  {| ID := ID j; Status := Status j; CreatedAt := CreatedAt j; File1Path := File1Path j; File2Path := File2Path j; File1OSSKey := File1OSSKey j; File2OSSKey := File2OSSKey j;
     File1Name := File1Name j; File2Name := File2Name j;
     ResultPath := v; ResultOSSKey := ResultOSSKey j; AmountYuan := AmountYuan j; CodeURL := CodeURL j;
     Paid := Paid j; PaidAt := PaidAt j; CancelledAt := CancelledAt j; Error := Error j |}.
Definition setResultOSSKey (v : string) (j : CompareJob) : CompareJob :=
  {| ID := ID j; Status := Status j; CreatedAt := CreatedAt j; File1Path := File1Path j; File2Path := File2Path j; File1OSSKey := File1OSSKey j; File2OSSKey := File2OSSKey j;
     File1Name := File1Name j; File2Name := File2Name j;
     ResultPath := ResultPath j; ResultOSSKey := v; AmountYuan := AmountYuan j; CodeURL := CodeURL j;
     Paid := Paid j; PaidAt := PaidAt j; CancelledAt := CancelledAt j; Error := Error j |}.
Definition setAmountYuan (v : float64) (j : CompareJob) : CompareJob :=
  {| ID := ID j; Status := Status j; CreatedAt := CreatedAt j; File1Path := File1Path j; File2Path := File2Path j; File1OSSKey := File1OSSKey j; File2OSSKey := File2OSSKey j;
     File1Name := File1Name j; File2Name := File2Name j;
     ResultPath := ResultPath j; ResultOSSKey := ResultOSSKey j; AmountYuan := v; CodeURL := CodeURL j;
     Paid := Paid j; PaidAt := PaidAt j; CancelledAt := CancelledAt j; Error := Error j |}.
Definition setCodeURL (v : string) (j : CompareJob) : CompareJob :=
  {| ID := ID j; Status := Status j; CreatedAt := CreatedAt j; File1Path := File1Path j; File2Path := File2Path j; File1OSSKey := File1OSSKey j; File2OSSKey := File2OSSKey j;
     File1Name := File1Name j; File2Name := File2Name j;
     ResultPath := ResultPath j; ResultOSSKey := ResultOSSKey j; AmountYuan := AmountYuan j; CodeURL := v;
     Paid := Paid j; PaidAt := PaidAt j; CancelledAt := CancelledAt j; Error := Error j |}.
Definition setPaid (v : bool) (j : CompareJob) : CompareJob :=
  {| ID := ID j; Status := Status j; CreatedAt := CreatedAt j; File1Path := File1Path j; File2Path := File2Path j; File1OSSKey := File1OSSKey j; File2OSSKey := File2OSSKey j;
     File1Name := File1Name j; File2Name := File2Name j;
     ResultPath := ResultPath j; ResultOSSKey := ResultOSSKey j; AmountYuan := AmountYuan j; CodeURL := CodeURL j;
     Paid := v; PaidAt := PaidAt j; CancelledAt := CancelledAt j; Error := Error j |}.
Definition setPaidAt (v : option Z) (j : CompareJob) : CompareJob :=
  {| ID := ID j; Status := Status j; CreatedAt := CreatedAt j; File1Path := File1Path j; File2Path := File2Path j; File1OSSKey := File1OSSKey j; File2OSSKey := File2OSSKey j;
     File1Name := File1Name j; File2Name := File2Name j;
     ResultPath := ResultPath j; ResultOSSKey := ResultOSSKey j; AmountYuan := AmountYuan j; CodeURL := CodeURL j;
     Paid := Paid j; PaidAt := v; CancelledAt := CancelledAt j; Error := Error j |}.
Definition setCancelledAt (v : option Z) (j : CompareJob) : CompareJob :=
  {| ID := ID j; Status := Status j; CreatedAt := CreatedAt j; File1Path := File1Path j; File2Path := File2Path j; File1OSSKey := File1OSSKey j; File2OSSKey := File2OSSKey j;
     File1Name := File1Name j; File2Name := File2Name j;
     ResultPath := ResultPath j; ResultOSSKey := ResultOSSKey j; AmountYuan := AmountYuan j; CodeURL := CodeURL j;
     Paid := Paid j; PaidAt := PaidAt j; CancelledAt := v; Error := Error j |}.
Definition setError (v : string) (j : CompareJob) : CompareJob :=
  {| ID := ID j; Status := Status j; CreatedAt := CreatedAt j; File1Path := File1Path j; File2Path := File2Path j; File1OSSKey := File1OSSKey j; File2OSSKey := File2OSSKey j;
     File1Name := File1Name j; File2Name := File2Name j;
     ResultPath := ResultPath j; ResultOSSKey := ResultOSSKey j; AmountYuan := AmountYuan j; CodeURL := CodeURL j;
     Paid := Paid j; PaidAt := PaidAt j; CancelledAt := CancelledAt j; Error := v |}.

End domain.

(** * package redislock *)
Module redislock.
Import Go.

(** The lock client: the keys of the server that hold a token, and the
    prefix of the lock keys.  A lock is a key set with [SET NX PX]; the
    expiry of the key after its time to live is not modelled. *)
Record Client : Type := { rdb : gmap string string; prefix : string }.

Definition New (rdb : gmap string string) (prefix : string) : Client :=
  {| rdb := rdb; prefix := TrimSpace prefix |}.

Definition Key (c : Client) (jobID : string) : string :=
  let jobID := TrimSpace jobID in
  let p := TrimSpace (prefix c) in
  (if bool_decide (p = "") then "gy:lock:comparejob:" else p) +:+ jobID.

(** The results [(bool, error)]: [inl] is the error, [inr] the answer. *)
Definition Acquire (c : Client) (key token : string) : Client * (string + bool) :=
  let key := TrimSpace key in
  let token := TrimSpace token in
  if bool_decide (key = "" ∨ token = "") then (c, inl "lock key/token 为空")
  else match rdb c !! key with
       | None => ({| rdb := <[key := token]> (rdb c); prefix := prefix c |}, inr true)
       | Some _ => (c, inr false)
       end.

(** [refreshScript]: [PEXPIRE] if the key holds the token, which answers 1
    for a key that exists. *)
Definition Refresh (c : Client) (key token : string) : Client * (string + bool) :=
  let key := TrimSpace key in
  let token := TrimSpace token in
  if bool_decide (key = "" ∨ token = "") then (c, inl "lock key/token 为空")
  else (c, inr (bool_decide (rdb c !! key = Some token))).

(** [releaseScript]: [DEL] if the key holds the token. *)
Definition Release (c : Client) (key token : string) : Client * (string + bool) :=
  let key := TrimSpace key in
  let token := TrimSpace token in
  if bool_decide (key = "" ∨ token = "") then (c, inl "lock key/token 为空")
  else if bool_decide (rdb c !! key = Some token)
  then ({| rdb := delete key (rdb c); prefix := prefix c |}, inr true)
  else (c, inr false).

(** What a worker learns when it takes the lock of a job: no lock client is
    configured, the token or the command failed, the lock is held by
    another worker, or it is now held by this one. *)
Inductive LockAnswer : Type :=
  | NoLock
  | LockFailed (err : string)
  | LockBusy
  | LockHeld.

End redislock.

(** * package store *)
Module store.
Import Go domain.

(** The interface [CompareJobStore].  [Create] returns its [error] ([None]
    is [nil]); [Get] returns the job when [ok]; [Update] returns the job it
    wrote when [ok].  The [error] results of [Get] and [Update] report a
    failed connection to Redis or an undecodable document, and the retry of
    [Update] answers concurrent writers; neither is part of this
    interface: one call is one atomic step on a server that answers.  The
    callers that branch on the [error] of [Get] have a second definition
    that takes it ([compare.ProcessWith], [paygate.ProcessWith],
    [compare.handleCancelJobWith]); the calls of the Redis store with their
    errors are in [Wire] below. *)
Class CompareJobStore (S : Type) : Type := {
  Create : S → CompareJob → S * option string;
  Get : S → string → option CompareJob;
  Update : S → string → (CompareJob → CompareJob) → S * option CompareJob;
}.

(** [InMemoryCompareJobStore]: the map [jobs]. *)
Record InMemoryCompareJobStore : Type := { jobs : gmap string CompareJob }.

Definition InMemory_Create (s : InMemoryCompareJobStore) (job : CompareJob)
  : InMemoryCompareJobStore * option string :=
  ({| jobs := <[ID job := job]> (jobs s) |}, None).

Definition InMemory_Get (s : InMemoryCompareJobStore) (id : string) : option CompareJob :=
  jobs s !! id.

Definition InMemory_Update (s : InMemoryCompareJobStore) (id : string)
    (fn : CompareJob → CompareJob) : InMemoryCompareJobStore * option CompareJob :=
  match jobs s !! id with
  | None => (s, None)
  | Some j => ({| jobs := <[id := fn j]> (jobs s) |}, Some (fn j))
  end.

Global Instance InMemory_store : CompareJobStore InMemoryCompareJobStore :=
  {| Create := InMemory_Create; Get := InMemory_Get; Update := InMemory_Update |}.

(** [RedisCompareJobStore]: the keys of the server, each holding the JSON
    document of a job.  [recordFromJob] and [jobFromRecord] copy a job
    field by field, so a document is represented by the job it encodes;
    this leaves the JSON encoding out, which [Wire] below keeps.  The
    expiry of keys is not modelled. *)
Record RedisCompareJobStore : Type := {
  rdb : gmap string CompareJob;
  keyPrefix : string;
}.

Definition key (s : RedisCompareJobStore) (id : string) : string :=
  keyPrefix s +:+ TrimSpace id.

(** [SETNX]: set the key only if it does not exist; the reply tells whether
    it was set. *)
Definition SetNX (db : gmap string CompareJob) (k : string) (v : CompareJob)
  : gmap string CompareJob * bool :=
  match db !! k with
  | None => (<[k := v]> db, true)
  | Some _ => (db, false)
  end.

(** [Create] for a job that can be encoded, on a server that answers.  It
    returns [SetNX(...).Err()]: the error of the command, not its boolean
    reply.  [Wire.Create] has the errors of the encoder and of the
    command. *)
Definition Redis_Create (s : RedisCompareJobStore) (job : CompareJob)
  : RedisCompareJobStore * option string :=
  if bool_decide (TrimSpace (ID job) = "") then (s, Some "job/id 为空")
  else ({| rdb := (SetNX (rdb s) (key s (ID job)) job).1; keyPrefix := keyPrefix s |}, None).

Definition Redis_Get (s : RedisCompareJobStore) (id : string) : option CompareJob :=
  let id := TrimSpace id in
  if bool_decide (id = "") then None else rdb s !! key s id.

Definition Redis_Update (s : RedisCompareJobStore) (id : string)
    (fn : CompareJob → CompareJob) : RedisCompareJobStore * option CompareJob :=
  let id := TrimSpace id in
  if bool_decide (id = "") then (s, None)
  else
    let k := key s id in
    match rdb s !! k with
    | None => (s, None)
    | Some j => ({| rdb := <[k := fn j]> (rdb s); keyPrefix := keyPrefix s |}, Some (fn j))
    end.

Global Instance Redis_store : CompareJobStore RedisCompareJobStore :=
  {| Create := Redis_Create; Get := Redis_Get; Update := Redis_Update |}.

(** The document stored under a key: [compareJobRecord], the job with the
    JSON names of its fields. *)
Record compareJobRecord : Type := {
  rec_ID : string;
  rec_Status : CompareJobStatus;
  rec_CreatedAt : Z;
  rec_File1Path : string;
  rec_File2Path : string;
  rec_File1OSSKey : string;
  rec_File2OSSKey : string;
  rec_File1Name : string;
  rec_File2Name : string;
  rec_ResultPath : string;
  rec_ResultOSSKey : string;
  rec_AmountYuan : float64;
  rec_CodeURL : string;
  rec_Paid : bool;
  rec_PaidAt : option Z;
  rec_CancelledAt : option Z;
  rec_Error : string;
}.

Definition recordFromJob (j : CompareJob) : compareJobRecord :=
  {| rec_ID := ID j;
     rec_Status := Status j;
     rec_CreatedAt := CreatedAt j;
     rec_File1Path := File1Path j;
     rec_File2Path := File2Path j;
     rec_File1OSSKey := File1OSSKey j;
     rec_File2OSSKey := File2OSSKey j;
     rec_File1Name := File1Name j;
     rec_File2Name := File2Name j;
     rec_ResultPath := ResultPath j;
     rec_ResultOSSKey := ResultOSSKey j;
     rec_AmountYuan := AmountYuan j;
     rec_CodeURL := CodeURL j;
     rec_Paid := Paid j;
     rec_PaidAt := PaidAt j;
     rec_CancelledAt := CancelledAt j;
     rec_Error := Error j |}.

Definition jobFromRecord (r : compareJobRecord) : CompareJob :=
  {| ID := rec_ID r;
     Status := rec_Status r;
     CreatedAt := rec_CreatedAt r;
     File1Path := rec_File1Path r;
     File2Path := rec_File2Path r;
     File1OSSKey := rec_File1OSSKey r;
     File2OSSKey := rec_File2OSSKey r;
     File1Name := rec_File1Name r;
     File2Name := rec_File2Name r;
     ResultPath := rec_ResultPath r;
     ResultOSSKey := rec_ResultOSSKey r;
     AmountYuan := rec_AmountYuan r;
     CodeURL := rec_CodeURL r;
     Paid := rec_Paid r;
     PaidAt := rec_PaidAt r;
     CancelledAt := rec_CancelledAt r;
     Error := rec_Error r |}.

(** [readRedisDB] and [readCompareJobTTL]; [env] is the value of the
    environment variable, empty when it is not set.  The time to live is
    in nanoseconds, an [int64]: the product wraps around. *)
Definition readRedisDB (env : string) : Z :=
  let raw := TrimSpace env in
  if bool_decide (raw = "") then 0
  else match Atoi raw with
       | Some n => if n <? 0 then 0 else n
       | None => 0
       end.

Definition wrap_int64 (z : Z) : Z := (z + 2 ^ 63) mod 2 ^ 64 - 2 ^ 63.

Definition week : Z := 7 * 24 * 3600 * 1000000000.

Definition readCompareJobTTL (env : string) : Z :=
  let raw := TrimSpace env in
  if bool_decide (raw = "") then week
  else match ParseInt raw with
       | Some n => if n <=? 0 then week else wrap_int64 (n * 1000000000)
       | None => week
       end.


(** ** The Redis store with the errors of its calls *)

(** [RedisCompareJobStore] as its client sees it.  The server holds a JSON
    document under each key.  [encoding/json] and the Redis client are not
    code of the repository: the encoder and the decoder enter as
    functions ([inl] is their error: the encoder refuses an amount that is
    NaN or infinite, and it writes U+FFFD for text that is not valid
    UTF-8, so decoding a document need not give back the record it was
    made from), and what becomes of a command enters with each call.  The
    expiry of a key after its time to live is a change of the server
    between two calls. *)
Module Wire.

Record RedisCompareJobStore : Type := {
  rdb : gmap string string;
  keyPrefix : string;
}.

(** What becomes of a command: the server answers, or the call returns an
    error (no connection, the deadline of the call is over, the server
    refuses the command); in that case the server may or may not have
    carried the command out. *)
Inductive Outcome : Type :=
  | Answered
  | Failed (err : string) (carriedOut : bool).

Definition key (s : RedisCompareJobStore) (id : string) : string :=
  keyPrefix s +:+ TrimSpace id.

(** [SET key value EX ttl NX] on the server. *)
Definition SetNX (s : RedisCompareJobStore) (k v : string) : RedisCompareJobStore :=
  match rdb s !! k with
  | None => {| rdb := <[k := v]> (rdb s); keyPrefix := keyPrefix s |}
  | Some _ => s
  end.

Section wire.
Variable json_Marshal : compareJobRecord → string + string.
Variable json_Unmarshal : string → string + compareJobRecord.

(** [Create]: the error for a blank id, the error of [json.Marshal], or
    [SetNX(...).Err()], which is [nil] whenever the server answers, also
    when the key exists and nothing is written. *)
Definition Create (s : RedisCompareJobStore) (job : CompareJob) (o : Outcome)
  : RedisCompareJobStore * option string :=
  if bool_decide (TrimSpace (ID job) = "") then (s, Some "job/id 为空")
  else
    match json_Marshal (recordFromJob job) with
    | inl err => (s, Some err)
    | inr b =>
        match o with
        | Answered => (SetNX s (key s (ID job)) b, None)
        | Failed err carriedOut =>
            (if carriedOut then SetNX s (key s (ID job)) b else s, Some err)
        end
    end.

(** [Get]: the job when [ok], and the [error]; [cmdErr] is the error of
    the [GET] command other than [redis.Nil]. *)
Definition Get (s : RedisCompareJobStore) (id : string) (cmdErr : option string)
  : option CompareJob * option string :=
  let id := TrimSpace id in
  if bool_decide (id = "") then (None, None)
  else
    match cmdErr with
    | Some err => (None, Some err)
    | None =>
        match rdb s !! key s id with
        | None => (None, None)
        | Some val =>
            match json_Unmarshal val with
            | inl err => (None, Some err)
            | inr rec => (Some (jobFromRecord rec), None)
            end
        end
    end.

End wire.

End Wire.
End store.

(** * package streamq *)
Module streamq.
Import Go.

(** The [error] values that cross the handler boundary: [errors.New],
    [fmt.Errorf] with [%w], and [TerminalError] around an optional error. *)
#[warnings="-register-all"]
Inductive error : Type :=
  | ErrNew (msg : string)
  | ErrWrap (msg : string) (inner : error)
  | TerminalError (Err : option error).

Definition Terminal (err : option error) : error := TerminalError err.

(** [errors.As(err, &te)] along the [Unwrap] chain *)
Fixpoint IsTerminal_chain (e : error) : bool :=
  match e with
  | TerminalError _ => true
  | ErrWrap _ inner => IsTerminal_chain inner
  | ErrNew _ => false
  end.

Definition IsTerminal (err : option error) : bool :=
  match err with
  | None => false
  | Some e => IsTerminal_chain e
  end.

Record XMessage : Type := { ID : string; Values : gmap string string }.

(** How a call of the handler ends: it returns an error (or [nil]), or it
    panics. *)
Inductive outcome : Type :=
  | Returned (err : option error)
  | Panicked (r : string).

Section consumer.
(** [W] is everything the handler may change (job store, blobs, ...). *)
Context {W : Type}.

Definition Handler : Type := string → W → W * outcome.

(** The consumer group as Redis keeps it: the pending entries list. *)
Definition PEL : Type := gset string.

(** [Consumer.ack]; an [XACK] removes the entry from the pending list. *)
Definition ack (pel : PEL) (id : string) : PEL :=
  if bool_decide (TrimSpace id = "") then pel else pel ∖ {[id]}.

Definition handleOne (handler : Handler) (msg : XMessage) (st : W * PEL) : W * PEL :=
  match Values msg !! "jobId" with
  | None => (st.1, ack st.2 (ID msg))
  | Some jobID =>
      let jid := TrimSpace jobID in
      if bool_decide (jid = "") then (st.1, ack st.2 (ID msg))
      else
        let '(w, out) := handler jid st.1 in
        let err := match out with
                   | Returned err => err
                   | Panicked r => Some (Terminal (Some (ErrNew ("panic: " +:+ r))))
                   end in
        if bool_decide (err = None) || IsTerminal err then (w, ack st.2 (ID msg))
        else (w, st.2)
  end.

(** [RedisStreamQueue] and [NewRedisStreamQueue] *)
Record RedisStreamQueue : Type := { stream : string; group : string; maxLen : Z }.

Definition NewRedisStreamQueue (stream group : string) (maxLen : Z) : RedisStreamQueue :=
  {| stream := TrimSpace stream; group := TrimSpace group;
     maxLen := if maxLen <=? 0 then 100000 else maxLen |}.

(** [Enqueue]: the entries of the stream, oldest first.  [newID] is the
    identifier that the server gives to the entry.  The approximate
    trimming to [maxLen] entries and a failing connection are not
    modelled. *)
Definition Enqueue (q : RedisStreamQueue) (entries : list XMessage) (jobID newID : string)
  : list XMessage * option error :=
  let jobID := TrimSpace jobID in
  if bool_decide (jobID = "") then (entries, Some (ErrNew "jobID 为空"))
  else if bool_decide (TrimSpace (stream q) = "") then (entries, Some (ErrNew "stream key 为空"))
  else (entries ++ [{| ID := newID; Values := {[ "jobId" := jobID ]} |}], None).

End consumer.
End streamq.

(** * package wechat: the payment notification *)
Module wechat.
Import Go domain store.

Section notify.
Context `{GoTables} {S : Type} `{CompareJobStore S}.

(** The decrypted resource of a notification. *)
Record wechatpayTransaction : Type := {
  OutTradeNo : string;
  TradeState : string;
  SuccessTime : string;
  AmountTotal : Z;
}.

(** What [writeJSON] sends: the HTTP status and the [code] and [message]
    fields. *)
Record Reply : Type := { status : Z; code : string; message : string }.

Definition hasResult (job : CompareJob) : bool :=
  negb (bool_decide (TrimSpace (ResultOSSKey job) = ""))
  || negb (bool_decide (TrimSpace (ResultPath job) = "")).

(** The function handed to [store.Update]. *)
Definition notifyMutator (now : Z) (j : CompareJob) : CompareJob :=
  if Paid j then j
  else
    let j := setPaidAt (Some now) (setPaid true j) in
    if hasResult j
       && (bool_decide (Status j = CompareJobStatusAwaitingPayment)
           || bool_decide (Status j = CompareJobStatusProcessing))
    then setCodeURL "" (setAmountYuan (Ffin 0) (setStatus CompareJobStatusReady j))
    else if bool_decide (Status j = CompareJobStatusAwaitingPayment)
    then setStatus CompareJobStatusProcessing j
    else j.

(** The amount recorded on the job, in fen: [int64(math.Round(AmountYuan * 100))]. *)
Definition recordedFen (job : CompareJob) : Z :=
  int64_of_float64 (math_Round (fmul (AmountYuan job) (Ffin 100))).

Definition expectedFen (job : CompareJob) : Z :=
  if recordedFen job <=? 0 then 1 else recordedFen job.

(** [notifyHandler.handle] from the decoded transaction on (the earlier
    steps read, verify and decrypt the request and do not touch the
    store). *)
Definition handle (st : S) (tx : wechatpayTransaction) (now : Z) : S * Reply :=
  let jobID := TrimSpace (OutTradeNo tx) in
  if bool_decide (jobID = "")
  then (st, {| status := 400; code := "FAIL"; message := "missing out_trade_no" |})
  else if bool_decide (ToUpper (TradeState tx) ≠ "SUCCESS")
  then (st, {| status := 200; code := "SUCCESS"; message := "OK" |})
  else
    let mismatch := match Get st jobID with
                    | Some job => bool_decide (AmountTotal tx ≠ expectedFen job)
                    | None => false
                    end in
    if mismatch
    then (st, {| status := 400; code := "FAIL"; message := "amount mismatch" |})
    else ((Update st jobID (notifyMutator now)).1,
          {| status := 200; code := "SUCCESS"; message := "OK" |}).

End notify.
End wechat.

(** * package compare: intake, cancellation, compute worker *)
Module compare.
Import Go domain store.

Section service.
Context `{GoTables} {S : Type} `{CompareJobStore S}.

(** The function of [Worker.fail] and of the failure of the first enqueue:
    [j.Status = failed; j.Error = msg]. *)
Definition failMutator (msg : string) (j : CompareJob) : CompareJob :=
  setError msg (setStatus CompareJobStatusFailed j).

(** [Worker.fail] *)
Definition Worker_fail (st : S) (jobID : string) (msg : string) : S :=
  if bool_decide (TrimSpace jobID = "") then st
  else (Update st jobID (failMutator msg)).1.

(** [Worker.Process]: mark as processing *)
Definition processingMutator (j : CompareJob) : CompareJob :=
  if bool_decide (Status j = CompareJobStatusCancelled) then j
  else setError "" (setStatus CompareJobStatusProcessing j).

(** [Worker.Process]: persist the result location *)
Definition resultMutator (ossKey : string) (j : CompareJob) : CompareJob :=
  if bool_decide (Status j = CompareJobStatusCancelled) then j
  else setResultPath "" (setResultOSSKey ossKey j).

(** [handleCreateJob] from the creation of the record on; [enqueueErr] is
    the result of [queue.Enqueue]. *)
Definition handleCreateJob_tail (st : S) (jobID key1 key2 file1Name file2Name : string)
    (now : Z) (enqueueErr : option string) : S * Z :=
  let job := {| ID := jobID; Status := CompareJobStatusProcessing; CreatedAt := now;
                File1Path := ""; File2Path := ""; File1OSSKey := key1; File2OSSKey := key2;
                File1Name := file1Name; File2Name := file2Name;
                ResultPath := ""; ResultOSSKey := ""; AmountYuan := Ffin 0; CodeURL := "";
                Paid := false; PaidAt := None; CancelledAt := None; Error := "" |} in
  let st := (Create st job).1 in
  match enqueueErr with
  | Some e => ((Update st jobID (failMutator ("投递任务失败: " +:+ e))).1, 502)
  | None => (st, 200)
  end.

(** The function handed to [store.Update] by [handleCancelJob]. *)
Definition cancelMutator (now : Z) (j : CompareJob) : CompareJob :=
  if Paid j then j
  else setCancelledAt (Some now) (setStatus CompareJobStatusCancelled j).

(** [handleCancelJob]; [closeErr] is the result of [wechat.CloseNativeOrder].
    The result is the store and the HTTP status.  This is the request on a
    store that answers and that nobody else writes to between the load
    and the update; [handleCancelJobWith] has the other cases. *)
Definition handleCancelJob (st : S) (jobID : string) (closeErr : option string) (now : Z)
  : S * Z :=
  match Get st jobID with
  | None => (st, 404)
  | Some job =>
      if bool_decide (Status job = CompareJobStatusCancelled) then (st, 200)
      else if Paid job || bool_decide (Status job = CompareJobStatusReady) then (st, 409)
      else if bool_decide (Status job = CompareJobStatusAwaitingPayment)
              && bool_decide (closeErr ≠ None)
      then (st, 502)
      else ((Update st jobID (cancelMutator now)).1, 200)
  end.

(** The functions handed to [store.Update] by [Service.runCompareTask]. *)
Definition taskPathsMutator (file1Path file2Path : string) (j : CompareJob) : CompareJob :=
  if bool_decide (Status j = CompareJobStatusCancelled) then j
  else setFile2Path file2Path (setFile1Path file1Path j).

Definition withResult (resultPath ossKey : string) (j : CompareJob) : CompareJob :=
  if bool_decide (ossKey ≠ "") then setResultPath "" (setResultOSSKey ossKey j)
  else setResultPath resultPath j.

Definition taskResultMutator (resultPath ossKey : string) (j : CompareJob) : CompareJob :=
  if bool_decide (Status j = CompareJobStatusCancelled) then j
  else withResult resultPath ossKey j.

Definition taskPaidMutator (resultPath ossKey : string) (j : CompareJob) : CompareJob :=
  withResult resultPath ossKey (setStatus CompareJobStatusReady j).

Definition taskFreeMutator (now : Z) (resultPath ossKey : string) (j : CompareJob)
  : CompareJob :=
  if bool_decide (Status j = CompareJobStatusCancelled) then j
  else
    let j := if Paid j then j else setPaidAt (Some now) (setPaid true j) in
    setCodeURL "" (setAmountYuan (Ffin 0)
      (withResult resultPath ossKey (setStatus CompareJobStatusReady j))).

Definition taskOrderFailedMutator (resultPath ossKey msg : string) (j : CompareJob)
  : CompareJob :=
  setError msg (withResult resultPath ossKey (setStatus CompareJobStatusFailed j)).

Definition taskAwaitingMutator (resultPath ossKey : string) (feeFen : Z) (codeURL : string)
    (j : CompareJob) : CompareJob :=
  if bool_decide (Status j = CompareJobStatusCancelled) || Paid j then j
  else
    setCodeURL codeURL (setAmountYuan (fdiv (float64_of_int feeFen) (Ffin 100))
      (withResult resultPath ossKey (setStatus CompareJobStatusAwaitingPayment j))).

(** ** service.go: the views of a job *)

Definition hasResult (job : CompareJob) : bool :=
  negb (bool_decide (TrimSpace (ResultOSSKey job) = ""))
  || negb (bool_decide (TrimSpace (ResultPath job) = "")).

(** The JSON object that [handleGetJob] answers: the fields that are always
    there, and the optional ones. *)
Record JobView : Type := {
  view_jobId : string;
  view_status : CompareJobStatus;
  view_createdAt : Z;
  view_paid : bool;
  view_amount : option float64;
  view_code_url : option string;
  view_error : option string;
  view_cancelledAt : option Z;
  view_paidAt : option Z;
}.

(** [handleGetJob]: the HTTP status and the object. *)
Definition handleGetJob (st : S) (jobID : string) : Z * option JobView :=
  match Get st jobID with
  | None => (404, None)
  | Some job =>
      let status :=
        if bool_decide (Status job = CompareJobStatusAwaitingPayment) && Paid job
           && hasResult job
        then CompareJobStatusReady else Status job in
      let awaiting := bool_decide (status = CompareJobStatusAwaitingPayment) in
      (200, Some {| view_jobId := ID job;
                    view_status := status;
                    view_createdAt := CreatedAt job;
                    view_paid := Paid job;
                    view_amount := if awaiting then Some (AmountYuan job) else None;
                    view_code_url := if awaiting then Some (CodeURL job) else None;
                    view_error :=
                      if bool_decide (Status job = CompareJobStatusFailed)
                         && negb (bool_decide (Error job = ""))
                      then Some (Error job) else None;
                    view_cancelledAt := CancelledAt job;
                    view_paidAt := PaidAt job |})
  end.

(** What [handleDownloadExport] answers: an error, the JSON object with the
    address of the result, a redirection to it, or the file itself. *)
Inductive Download : Type :=
  | DownloadError (status : Z) (msg : string)
  | DownloadJSON (url filename : string)
  | DownloadRedirect (url : string)
  | DownloadFile (path : string).

(** [handleDownloadExport].  The surroundings enter as arguments:
    [ossEnabled] is [s.oss != nil && s.oss.Enabled()], [SignDownloadURL]
    the signer of the object store ([None] is an error), [Stat] tells
    whether a local file exists, [wantsJSON] is the wish of the request and
    [urlPath] its path. *)
Definition handleDownloadExport (st : S) (jobID : string) (ossEnabled : bool)
    (SignDownloadURL : string → option string) (Stat : string → bool)
    (wantsJSON : bool) (urlPath : string) : Download :=
  match Get st jobID with
  | None => DownloadError 404 "404 page not found"
  | Some job =>
      if bool_decide (Status job = CompareJobStatusCancelled)
      then DownloadError 410 "订单已取消"
      else if negb (Paid job) || bool_decide (Status job ≠ CompareJobStatusReady)
              || negb (hasResult job)
      then DownloadError 402 "请先完成支付后再下载结果"
      else if bool_decide (ResultOSSKey job ≠ "") && ossEnabled then
        match SignDownloadURL (ResultOSSKey job) with
        | None => DownloadError 502 "生成下载链接失败"
        | Some signed =>
            if wantsJSON then DownloadJSON signed "比对结果.xlsx"
            else DownloadRedirect signed
        end
      else if bool_decide (ResultPath job = "")
      then DownloadError 410 "结果文件不存在或已过期"
      else if negb (Stat (ResultPath job))
      then DownloadError 410 "结果文件不存在或已过期"
      else if wantsJSON then DownloadJSON urlPath "比对结果.xlsx"
      else DownloadFile (ResultPath job)
  end.

(** ** worker.go: the compute worker *)

(** The surroundings of one run of [Worker.Process]: the answer of the
    lock, the paygate queue ([None] when none is configured, otherwise the
    result of its [Enqueue]), the object store, the errors of the steps
    ([None] is success), and what the other writers do to the job store
    while the worker downloads, computes and uploads. *)
Record ComputeEnv : Type := {
  env_lock : redislock.LockAnswer;
  env_lockKey : string;
  env_payq : option (option string);
  env_ossEnabled : bool;
  env_mkdir : option string;
  env_get1 : option string;
  env_get2 : option string;
  env_convert1 : option string;
  env_convert2 : option string;
  env_generate : option string;
  env_ossKey : string;
  env_put : option string;
  env_during : S → S;
}.

(** [streamq.Terminal(w.fail(jobID, err))] *)
Definition failTerminal (st : S) (jobID msg : string) : S * bool * option streamq.error :=
  (Worker_fail st jobID msg, false,
   Some (streamq.Terminal (Some (streamq.ErrNew msg)))).

(** The hand-over to the paygate stage. *)
Definition enqueuePaygate (env : ComputeEnv) (st : S) (jobID : string)
  : S * bool * option streamq.error :=
  match env_payq env with
  | None => failTerminal st jobID "paygate queue 未初始化"
  | Some (Some e) => (st, false, Some (streamq.ErrNew e))
  | Some None => (st, true, Some (streamq.Terminal None))
  end.

(** [Worker.Process]: the store afterwards, whether the job has been put
    on the paygate queue, and the returned [error].  This is the run of an
    initialised worker whose store answers; [ProcessWith] below has the
    other returns. *)
Definition Process (st : S) (jobID : string) (env : ComputeEnv)
  : S * bool * option streamq.error :=
  match env_lock env with
  | redislock.LockFailed e => (st, false, Some (streamq.ErrNew e))
  | redislock.LockBusy =>
      (st, false,
       Some (streamq.Terminal (Some (streamq.ErrNew ("job locked: " +:+ env_lockKey env)))))
  | _ =>
      match Get st jobID with
      | None => (st, false, None)
      | Some job =>
          if bool_decide (Status job = CompareJobStatusCancelled)
          then (st, false, Some (streamq.Terminal None))
          else if bool_decide (Status job = CompareJobStatusReady)
                  || bool_decide (Status job = CompareJobStatusFailed)
          then (st, false, Some (streamq.Terminal None))
          else if negb (bool_decide (TrimSpace (ResultOSSKey job) = ""))
                  && (bool_decide (Status job = CompareJobStatusAwaitingPayment)
                      || bool_decide (Status job = CompareJobStatusProcessing))
          then enqueuePaygate env st jobID
          else if negb (env_ossEnabled env) then failTerminal st jobID "OSS 未启用"
          else if bool_decide (File1OSSKey job = "") || bool_decide (File2OSSKey job = "")
          then failTerminal st jobID "输入文件 OSSKey 为空"
          else
            let st := (Update st jobID processingMutator).1 in
            let st := env_during env st in
            match env_mkdir env with
            | Some e => failTerminal st jobID ("创建 jobDir 失败: " +:+ e)
            | None =>
            match env_get1 env with
            | Some e => failTerminal st jobID ("下载输入文件1失败: " +:+ e)
            | None =>
            match env_get2 env with
            | Some e => failTerminal st jobID ("下载输入文件2失败: " +:+ e)
            | None =>
            match env_convert1 env with
            | Some e => failTerminal st jobID e
            | None =>
            match env_convert2 env with
            | Some e => failTerminal st jobID e
            | None =>
            match env_generate env with
            | Some e => failTerminal st jobID e
            | None =>
            match env_put env with
            | Some e => failTerminal st jobID ("上传 OSS 失败: " +:+ e)
            | None =>
                let st := (Update st jobID (resultMutator (env_ossKey env))).1 in
                match Get st jobID with
                | None => (st, false, None)
                | Some job =>
                    if bool_decide (Status job = CompareJobStatusCancelled)
                    then (st, false, Some (streamq.Terminal None))
                    else enqueuePaygate env st jobID
                end
            end end end end end end end
      end
  end.


(** ** The handlers and the worker with the errors of the store *)

(** [handleCancelJob] with the [err] of its [store.Get] ([getErr], [None]
    when the store answers) and with what the other writers do to the
    store between the load and the update ([during]).  The results of the
    update are dropped, and the answer after it is 200 in any case.
    [handleCancelJob] above is the request on a store that answers and
    that nobody else writes to in between. *)
Definition handleCancelJobWith (getErr : option string) (during : S → S) (st : S)
    (jobID : string) (closeErr : option string) (now : Z) : S * Z :=
  match getErr with
  | Some _ => (st, 500)
  | None =>
      match Get st jobID with
      | None => (st, 404)
      | Some job =>
          if bool_decide (Status job = CompareJobStatusCancelled) then (st, 200)
          else if Paid job || bool_decide (Status job = CompareJobStatusReady) then (st, 409)
          else if bool_decide (Status job = CompareJobStatusAwaitingPayment)
                  && bool_decide (closeErr ≠ None)
          then (st, 502)
          else ((Update (during st) jobID (cancelMutator now)).1, 200)
      end
  end.

(** [Worker.Process] with every return of the source.  Besides the
    surroundings of [ComputeEnv]: [ready] is [w != nil && w.store != nil],
    and [getErr1], [getErr2] are the [err] of the first and of the second
    [store.Get] ([None] when the store answers).  [Process] above is the
    run of an initialised worker whose store answers both times. *)
Definition ProcessWith (ready : bool) (getErr1 getErr2 : option string) (st : S)
    (jobID : string) (env : ComputeEnv) : S * bool * option streamq.error :=
  if negb ready then (st, false, Some (streamq.ErrNew "worker/store 未初始化"))
  else
  match env_lock env with
  | redislock.LockFailed e => (st, false, Some (streamq.ErrNew e))
  | redislock.LockBusy =>
      (st, false,
       Some (streamq.Terminal (Some (streamq.ErrNew ("job locked: " +:+ env_lockKey env)))))
  | _ =>
      match getErr1 with
      | Some e => (st, false, Some (streamq.ErrNew e))
      | None =>
      match Get st jobID with
      | None => (st, false, None)
      | Some job =>
          if bool_decide (Status job = CompareJobStatusCancelled)
          then (st, false, Some (streamq.Terminal None))
          else if bool_decide (Status job = CompareJobStatusReady)
                  || bool_decide (Status job = CompareJobStatusFailed)
          then (st, false, Some (streamq.Terminal None))
          else if negb (bool_decide (TrimSpace (ResultOSSKey job) = ""))
                  && (bool_decide (Status job = CompareJobStatusAwaitingPayment)
                      || bool_decide (Status job = CompareJobStatusProcessing))
          then enqueuePaygate env st jobID
          else if negb (env_ossEnabled env) then failTerminal st jobID "OSS 未启用"
          else if bool_decide (File1OSSKey job = "") || bool_decide (File2OSSKey job = "")
          then failTerminal st jobID "输入文件 OSSKey 为空"
          else
            let st := (Update st jobID processingMutator).1 in
            let st := env_during env st in
            match env_mkdir env with
            | Some e => failTerminal st jobID ("创建 jobDir 失败: " +:+ e)
            | None =>
            match env_get1 env with
            | Some e => failTerminal st jobID ("下载输入文件1失败: " +:+ e)
            | None =>
            match env_get2 env with
            | Some e => failTerminal st jobID ("下载输入文件2失败: " +:+ e)
            | None =>
            match env_convert1 env with
            | Some e => failTerminal st jobID e
            | None =>
            match env_convert2 env with
            | Some e => failTerminal st jobID e
            | None =>
            match env_generate env with
            | Some e => failTerminal st jobID e
            | None =>
            match env_put env with
            | Some e => failTerminal st jobID ("上传 OSS 失败: " +:+ e)
            | None =>
                let st := (Update st jobID (resultMutator (env_ossKey env))).1 in
                match getErr2 with
                | Some e => (st, false, Some (streamq.ErrNew e))
                | None =>
                match Get st jobID with
                | None => (st, false, None)
                | Some job =>
                    if bool_decide (Status job = CompareJobStatusCancelled)
                    then (st, false, Some (streamq.Terminal None))
                    else enqueuePaygate env st jobID
                end
                end
            end end end end end end end
      end
      end
  end.
End service.
End compare.

(** * package paygate *)
Module paygate.
Import Go domain store streamq.

Section worker.
Context `{GoTables} {S : Type} `{CompareJobStore S}.

Definition release (ossKey : string) (j : CompareJob) : CompareJob :=
  setError "" (setCodeURL "" (setAmountYuan (Ffin 0)
    (setResultPath "" (setResultOSSKey ossKey (setStatus CompareJobStatusReady j))))).

(** payment already confirmed: release *)
Definition paidMutator (ossKey : string) (j : CompareJob) : CompareJob :=
  if bool_decide (Status j = CompareJobStatusCancelled) then j else release ossKey j.

(** fee [<= 0]: mark paid and release *)
Definition freeMutator (now : Z) (ossKey : string) (j : CompareJob) : CompareJob :=
  if bool_decide (Status j = CompareJobStatusCancelled) then j
  else release ossKey (if Paid j then j else setPaidAt (Some now) (setPaid true j)).

(** order created: await payment *)
Definition awaitingMutator (ossKey : string) (feeFen : Z) (codeURL : string)
    (j : CompareJob) : CompareJob :=
  if bool_decide (Status j = CompareJobStatusCancelled) || Paid j then j
  else
    setError "" (setCodeURL codeURL (setAmountYuan (fdiv (float64_of_int feeFen) (Ffin 100))
      (setResultPath "" (setResultOSSKey ossKey
        (setStatus CompareJobStatusAwaitingPayment j))))).

Definition failMutator (msg : string) (j : CompareJob) : CompareJob :=
  setError msg (setStatus CompareJobStatusFailed j).

(** [Worker.fail] *)
Definition Worker_fail (st : S) (jobID : string) (msg : string) : S :=
  if bool_decide (TrimSpace jobID = "") then st
  else (Update st jobID (failMutator msg)).1.

(** [Worker.Process].  The surroundings enter as arguments: [lock] is the
    answer of [Acquire] ([None] when no lock client is configured),
    [feeFen] the configured fee, [order] the result of
    [wechat.CreateNativeOrder] (an error message or the code URL).  The
    result is the store and the returned [error].  This is the run of an
    initialised worker whose lock commands and whose store answer;
    [ProcessWith] below has the other returns. *)
Definition Process (st : S) (jobID : string) (lock : option bool) (feeFen : Z)
    (order : string + string) (now : Z) : S * option error :=
  let jobID := TrimSpace jobID in
  if bool_decide (jobID = "") then (st, Some (Terminal (Some (ErrNew "jobID 为空"))))
  else if bool_decide (lock = Some false)
  then (st, Some (Terminal (Some (ErrNew "paygate locked"))))
  else
    match Get st jobID with
    | None => (st, Some (Terminal None))
    | Some job =>
        if bool_decide (Status job = CompareJobStatusCancelled)
           || bool_decide (Status job = CompareJobStatusReady)
           || bool_decide (Status job = CompareJobStatusFailed)
        then (st, Some (Terminal None))
        else
          let ossKey := TrimSpace (ResultOSSKey job) in
          if bool_decide (ossKey = "")
          then (st, Some (ErrNew "result not ready (ResultOSSKey empty)"))
          else if Paid job
          then ((Update st jobID (paidMutator ossKey)).1, Some (Terminal None))
          else if feeFen <=? 0
          then ((Update st jobID (freeMutator now ossKey)).1, Some (Terminal None))
          else if bool_decide (Status job = CompareJobStatusAwaitingPayment)
                  && negb (bool_decide (TrimSpace (CodeURL job) = ""))
          then (st, Some (Terminal None))
          else
            match order with
            | inl e =>
                let msg := "创建微信支付订单失败: " +:+ e in
                (Worker_fail st jobID msg, Some (Terminal (Some (ErrNew msg))))
            | inr codeURL =>
                ((Update st jobID (awaitingMutator ossKey feeFen codeURL)).1,
                 Some (Terminal None))
            end
    end.


(** The answer of [Acquire] in the two ways of writing it. *)
Definition lockAnswer (lock : option bool) : redislock.LockAnswer :=
  match lock with
  | None => redislock.NoLock
  | Some true => redislock.LockHeld
  | Some false => redislock.LockBusy
  end.

(** [Worker.Process] with every return of the source: [ready] is
    [w != nil && w.store != nil]; [lock] is what becomes of
    [redislock.Token] and [Acquire] ([NoLock] when no lock client is
    configured, [LockFailed] with the error of either call), [lockKey] the
    key of the lock; [getErr] is the [err] of [store.Get] ([None] when the
    store answers).  [Process] above is the run of an initialised worker
    whose lock commands and store answer. *)
Definition ProcessWith (ready : bool) (lock : redislock.LockAnswer) (lockKey : string)
    (getErr : option string) (st : S) (jobID : string) (feeFen : Z)
    (order : string + string) (now : Z) : S * option error :=
  if negb ready then (st, Some (ErrNew "paygate worker/store 未初始化"))
  else
  let jobID := TrimSpace jobID in
  if bool_decide (jobID = "") then (st, Some (Terminal (Some (ErrNew "jobID 为空"))))
  else
    match lock with
    | redislock.LockFailed e => (st, Some (ErrNew e))
    | redislock.LockBusy =>
        (st, Some (Terminal (Some (ErrNew ("paygate locked: " +:+ lockKey)))))
    | _ =>
    match getErr with
    | Some e => (st, Some (ErrNew e))
    | None =>
    match Get st jobID with
    | None => (st, Some (Terminal None))
    | Some job =>
        if bool_decide (Status job = CompareJobStatusCancelled)
           || bool_decide (Status job = CompareJobStatusReady)
           || bool_decide (Status job = CompareJobStatusFailed)
        then (st, Some (Terminal None))
        else
          let ossKey := TrimSpace (ResultOSSKey job) in
          if bool_decide (ossKey = "")
          then (st, Some (ErrNew "result not ready (ResultOSSKey empty)"))
          else if Paid job
          then ((Update st jobID (paidMutator ossKey)).1, Some (Terminal None))
          else if feeFen <=? 0
          then ((Update st jobID (freeMutator now ossKey)).1, Some (Terminal None))
          else if bool_decide (Status job = CompareJobStatusAwaitingPayment)
                  && negb (bool_decide (TrimSpace (CodeURL job) = ""))
          then (st, Some (Terminal None))
          else
            match order with
            | inl e =>
                let msg := "创建微信支付订单失败: " +:+ e in
                (Worker_fail st jobID msg, Some (Terminal (Some (ErrNew msg))))
            | inr codeURL =>
                ((Update st jobID (awaitingMutator ossKey feeFen codeURL)).1,
                 Some (Terminal None))
            end
    end
    end
    end.
End worker.
End paygate.

(** * The update functions of the system *)
Module mutators.
Import Go domain.

(** Every function that some caller hands to [store.Update], with the
    variables its closure captures. *)
Inductive Mutator : Type :=
  | ComputeProcessing
  | ComputeResult (ossKey : string)
  | ComputeFail (msg : string)
  | PaygatePaid (ossKey : string)
  | PaygateFree (now : Z) (ossKey : string)
  | PaygateAwaiting (ossKey : string) (feeFen : Z) (codeURL : string)
  | PaygateFail (msg : string)
  | Notify (now : Z)
  | Cancel (now : Z)
  | EnqueueFailed (msg : string)
  | TaskFail (msg : string)
  | TaskPaths (file1Path file2Path : string)
  | TaskResult (resultPath ossKey : string)
  | TaskPaid (resultPath ossKey : string)
  | TaskFree (now : Z) (resultPath ossKey : string)
  | TaskOrderFailed (resultPath ossKey msg : string)
  | TaskAwaiting (resultPath ossKey : string) (feeFen : Z) (codeURL : string).

Definition apply (m : Mutator) : CompareJob → CompareJob :=
  match m with
  | ComputeProcessing => compare.processingMutator
  | ComputeResult ossKey => compare.resultMutator ossKey
  | ComputeFail msg => compare.failMutator msg
  | PaygatePaid ossKey => paygate.paidMutator ossKey
  | PaygateFree now ossKey => paygate.freeMutator now ossKey
  | PaygateAwaiting ossKey feeFen codeURL => paygate.awaitingMutator ossKey feeFen codeURL
  | PaygateFail msg => paygate.failMutator msg
  | Notify now => wechat.notifyMutator now
  | Cancel now => compare.cancelMutator now
  | EnqueueFailed msg => compare.failMutator msg
  | TaskFail msg => compare.failMutator msg
  | TaskPaths p1 p2 => compare.taskPathsMutator p1 p2
  | TaskResult rp k => compare.taskResultMutator rp k
  | TaskPaid rp k => compare.taskPaidMutator rp k
  | TaskFree now rp k => compare.taskFreeMutator now rp k
  | TaskOrderFailed rp k msg => compare.taskOrderFailedMutator rp k msg
  | TaskAwaiting rp k fee url => compare.taskAwaitingMutator rp k fee url
  end.

End mutators.

(** * package main: the billing stub of the API server *)
Module billing.
Import Go.

Section memoryStore.
(** [M] stands for the decoded JSON object of the [metadata] field. *)
Context {M : Type}.

Record BillingEvent : Type := {
  IdempotencyKey : string;
  Amount : float64;
  ApiCall : string;
  Metadata : option M;
  CreatedAt : Z;
  Confirmed : bool;
  Deducted : bool;
}.

(** The map holds pointers to the events; an event is changed only by
    [markDeducted], under the lock and through the map, so the map of the
    events themselves represents it. *)
Record memoryStore : Type := {
  events : gmap string BillingEvent;
  baseBalance : float64;
  totalDeducted : float64;
}.

Definition newMemoryStore : memoryStore :=
  {| events := ∅; baseBalance := Ffin 100; totalDeducted := Ffin 0 |}.

(** [now] is the reading of the clock. *)
Definition ensurePending (s : memoryStore) (key : string) (amount : float64)
    (apiCall : string) (metadata : option M) (now : Z) : memoryStore * BillingEvent :=
  match events s !! key with
  | Some ev => (s, ev)
  | None =>
      let ev := {| IdempotencyKey := key; Amount := amount; ApiCall := apiCall;
                   Metadata := metadata; CreatedAt := now;
                   Confirmed := false; Deducted := false |} in
      ({| events := <[key := ev]> (events s); baseBalance := baseBalance s;
          totalDeducted := totalDeducted s |}, ev)
  end.

(** The result, an event or an [error]: [inl] is the error. *)
Definition markDeducted (s : memoryStore) (key : string) (amount : float64)
    (apiCall : string) (now : Z) : memoryStore * (string + BillingEvent) :=
  if bool_decide (key = "") then (s, inl "idempotencyKey 不能为空")
  else if fle amount (Ffin 0) then (s, inl "amount 必须为正数")
  else
    let '(evs, ev) :=
      match events s !! key with
      | Some ev => (events s, ev)
      | None =>
          let ev := {| IdempotencyKey := key; Amount := Ffin 0; ApiCall := "";
                       Metadata := None; CreatedAt := now;
                       Confirmed := false; Deducted := false |} in
          (<[key := ev]> (events s), ev)
      end in
    if Deducted ev
    then ({| events := evs; baseBalance := baseBalance s;
             totalDeducted := totalDeducted s |}, inr ev)
    else
      let ev' := {| IdempotencyKey := IdempotencyKey ev; Amount := amount;
                    ApiCall := if bool_decide (apiCall ≠ "") then apiCall else ApiCall ev;
                    Metadata := Metadata ev; CreatedAt := CreatedAt ev;
                    Confirmed := true; Deducted := true |} in
      ({| events := <[key := ev']> evs; baseBalance := baseBalance s;
          totalDeducted := fadd (totalDeducted s) amount |}, inr ev').

Definition balance (s : memoryStore) : float64 :=
  math_Max (Ffin 0) (fsub (baseBalance s) (totalDeducted s)).

(** [handleCreatePending] and [handleDeduct] from the decoded request on:
    the status of the reply and the store afterwards.  [fresh] is the key
    that [newKey] draws. *)
Definition handleCreatePending (s : memoryStore) (key : string) (amount : float64)
    (apiCall : string) (metadata : option M) (fresh : string) (now : Z)
  : memoryStore * Z :=
  if fle amount (Ffin 0) then (s, 400)
  else
    let key := if bool_decide (key = "") then fresh else key in
    ((ensurePending s key amount apiCall metadata now).1, 200).

Definition handleDeduct (s : memoryStore) (key : string) (amount : float64)
    (apiCall : string) (now : Z) : memoryStore * Z :=
  match markDeducted s key amount apiCall now with
  | (_, inl _) => (s, 400)
  | (s', inr _) => (s', 200)
  end.

End memoryStore.

End billing.

(** * Notions used to state the properties *)
Module spec.
Import Go domain store.

(** ** Scalar normalization *)

(** [s] is a match of [^[+-]?\d+(\.0+)$]: a sign [sg], digits [ds], a point
    and zeros [zs]. *)
Definition integer_float_parts (s sg ds zs : string) : Prop :=
  s = sg +:+ ds +:+ "." +:+ zs
  ∧ (sg = "" ∨ sg = "+" ∨ sg = "-")
  ∧ ds ≠ "" ∧ string_forallb isDigitByte ds = true
  ∧ zs ≠ "" ∧ string_forallb isZeroByte zs = true.

(** The integer such a match denotes. *)
Definition signed_value (sg ds : string) : Z :=
  if bool_decide (sg = "-") then - digits_value 0 ds else digits_value 0 ds.

(** The literals that stand for a missing value, in any letter case. *)
Definition null_literal `{GoTables} (s : string) : Prop :=
  s = "" ∨ ToLower s = "nan" ∨ ToLower s = "nat" ∨ ToLower s = "none".

(** ** Key column inference *)

Section guess.
Import excelcmp.
Context `{GoTables}.

(** The number of data rows to sample: 5 unless the caller names one. *)
Definition effectiveRows (checkRows : Z) : Z := if checkRows <=? 0 then 5 else checkRows.

Definition sample (tbl : Table) (checkRows : Z) : list (list string) :=
  take (Z.to_nat (effectiveRows checkRows)) (Rows tbl).

(** The sampled cells of column [i], trimmed; [None] where a row has no
    such cell. *)
Definition sampled (tbl : Table) (checkRows : Z) (i : nat) : list (option string) :=
  (λ row, TrimSpace <$> row !! i) <$> sample tbl checkRows.

(** Column [i] qualifies, with sampled values [vs]: there is a row to
    sample, every sampled value is there and not blank, and no value
    occurs twice. *)
Definition qualifies (tbl : Table) (checkRows : Z) (i : nat) (vs : list string) : Prop :=
  sample tbl checkRows ≠ []
  ∧ sampled tbl checkRows i = Some <$> vs
  ∧ Forall (λ v, v ≠ "") vs
  ∧ NoDup vs.

(** The keywords that the header contains, letter case ignored. *)
Definition keywordHits (name : string) : list string :=
  filter (λ kw, Contains (ToLower name) (ToLower kw) = true) primaryKeyCandidates.

(** The score of the code: 10 for each keyword contained, 5 for values
    that all look like keys. *)
Definition scoreOf (name : string) (vs : list string) : Z :=
  10 * Z.of_nat (length (keywordHits name)) + (if forallb pkish vs then 5 else 0).

(** The score as the specification words it: 10 if any keyword is
    contained, 5 for values that all look like keys. *)
Definition claimedScore (name : string) (vs : list string) : Z :=
  (if bool_decide (keywordHits name ≠ []) then 10 else 0)
  + (if forallb pkish vs then 5 else 0).

End guess.

(** ** The diff of two keyed tables *)

Section diff.
Import excelcmp.
Context `{GoTables}.

(** Ascending bytewise lexicographic order, without repetition. *)
Definition ascending (l : list string) : Prop :=
  StronglySorted (λ a b, String.le a b ∧ a ≠ b) l.

(** The position of the column named [c], as the map from names to
    positions of the code gives it: the last header of that name.  Header
    normalization makes the names distinct unless a suffixed name meets a
    header of that very name. *)
Fixpoint columnIndex (c : string) (headers : list string) (i : nat) : option nat :=
  match headers with
  | [] => None
  | h :: rest =>
      match columnIndex c rest (S i) with
      | Some j => Some j
      | None => if bool_decide (h = c) then Some i else None
      end
  end.

(** The cell of [row] in the column named [c]; empty when the table has no
    such column or the row is too short. *)
Definition columnValue (headers row : list string) (c : string) : string :=
  default "" (columnIndex c headers 0 ≫= λ i, row !! i).

(** The elements of [l] that are not in [seen], each once, in the order of
    their first occurrence. *)
Fixpoint remaining (seen l : list string) : list string :=
  match l with
  | [] => []
  | x :: rest =>
      if bool_decide (x ∈ seen) then remaining seen rest
      else x :: remaining (x :: seen) rest
  end.

(** The ordered union of the columns: those of file 1 without the key, in
    their order, then the remaining ones of file 2. *)
Definition unionColumns (h1 h2 : list string) (key : string) : list string :=
  let c1 := filter (λ c, c ≠ key) h1 in
  c1 ++ remaining c1 (filter (λ c, c ≠ key) h2).

(** Two rows of a common key differ: some union column has different
    normalized values. *)
Definition rowsDiffer (h1 h2 : list string) (key : string) (left right : list string)
  : Prop :=
  Exists (λ c, normalizeScalarForCompare (columnValue h1 left c)
               ≠ normalizeScalarForCompare (columnValue h2 right c))
    (unionColumns h1 h2 key).

Global Instance rowsDiffer_dec (h1 h2 : list string) (key : string)
    (left right : list string) : Decision (rowsDiffer h1 h2 key left right).
Proof. unfold rowsDiffer. apply _. Defined.

(** The normalization cache holds only what the normalization computes. *)
Definition cache_ok (cache : normCache) : Prop :=
  ∀ raw v, cache !! raw = Some v →
    v = (normalizeScalarForCompare raw, fingerprint64 (normalizeScalarForCompare raw)).

(** The rows of a sheet below its first row (the header, or the
    placeholder of an empty sheet). *)
Definition dataRows (sh : Sheet) : list (list CellValue) := (drop 1 sh).*2.

Definition cellText (c : CellValue) : string :=
  match c with
  | VString s => s
  | VCell v _ => v
  end.

(** The texts of a row of the Changed sheet: the key, then for every union
    column the cell of file 1 and the cell of file 2. *)
Definition changedTexts (h1 h2 : list string) (key k : string) (left right : list string)
  : list string :=
  safeCellValue k ::
  concat ((λ c, [safeCellValue (columnValue h1 left c);
                 safeCellValue (columnValue h2 right c)]) <$> unionColumns h1 h2 key).

End diff.

(** ** The job store *)

(** What the callers of a store rely on when every call is answered and
    nobody else writes in between: [Update] applies the function to the
    job that [Get] finds, and is a no-op when there is none.  A load that
    fails is not a [Get] in the sense of these laws. *)
Class CompareJobStoreLaws (S : Type) `{CompareJobStore S} : Prop := {
  Get_Update : ∀ (s : S) id fn, Get (Update s id fn).1 id = fn <$> Get s id;
  Update_result : ∀ (s : S) id fn, (Update s id fn).2 = fn <$> Get s id;
  Update_missing : ∀ (s : S) id fn, Get s id = None → (Update s id fn).1 = s;
}.

(** ** Bytes and trimmed strings *)

Definition is_byte (b : Z) : Prop := 0 <= b < 256.

(** The left trim stops at the empty string or in front of a rune that is
    no white space; the right trim likewise, behind one. *)
Definition left_trimmed (bs : list Z) : Prop :=
  bs = [] ∨ IsSpace (DecodeRune bs).1 = false.
Definition right_trimmed (bs : list Z) : Prop :=
  bs = [] ∨ IsSpace (DecodeLastRune bs).1 = false.

(** A byte of a decimal numeral: a digit or the minus sign. *)
Definition isNumeralByte (c : ascii) : bool := isDigitByte c || bool_decide (c = "-"%char).

(** ** The update functions *)

(** The update functions that assign the status without looking at it:
    the failure paths, and the release of a paid job by the in-process
    task. *)
Definition assignsStatus (m : mutators.Mutator) : bool :=
  match m with
  | mutators.ComputeFail _ | mutators.PaygateFail _ | mutators.EnqueueFailed _
  | mutators.TaskFail _ | mutators.TaskPaid _ _ | mutators.TaskOrderFailed _ _ _ => true
  | _ => false
  end.

(** No job is paid and still waiting for its payment. *)
Definition paid_not_awaiting (j : CompareJob) : Prop :=
  Paid j = true → Status j ≠ CompareJobStatusAwaitingPayment.

(** ** Headers and keyed rows *)

Section tables.
Import excelcmp.
Context `{GoTables}.

(** How often [name] occurs among the first [i] names. *)
Definition occurrencesBefore (names : list string) (i : nat) (name : string) : nat :=
  length (filter (λ x, x = name) (take i names)).

(** The header that pandas gives to the [i]-th column: its name, with the
    suffix [.k] when the name has occurred [k] times before. *)
Definition dedupedName (names : list string) (i : nat) (name : string) : string :=
  let k := occurrencesBefore names i name in
  if bool_decide (k = 0%nat) then name else name +:+ "." +:+ FormatInt (Z.of_nat k).

(** The key of a row: the normalized cell of the key column; a row that is
    too short or whose key is blank has none. *)
Definition rowKey (keyIdx : nat) (row : list string) : option string :=
  match row !! keyIdx with
  | None => None
  | Some cell =>
      let k := normalizeScalarForCompare cell in
      if bool_decide (TrimSpace k = "") then None else Some k
  end.

(** The keys of the rows of a table, in the order of the rows. *)
Definition rowKeys (keyIdx : nat) (rows : list (list string)) : list string :=
  omap (rowKey keyIdx) rows.

(** ** The Changed sheet, cell by cell *)

(** The cells of union column [i] differ for a pair of rows: their
    normalized values are not the same. *)
Definition cellsDiffer (art : Artifacts) (left right : list string) (i : nat) : bool :=
  bool_decide (normalizeScalarForCompare (cellPair art left right i).1
               ≠ normalizeScalarForCompare (cellPair art left right i).2).

(** The common keys whose rows differ in some union column. *)
Definition changedKeys (art : Artifacts) : list string :=
  filter (λ k, Exists (λ i, cellsDiffer art (LeftByKey art !!! k) (RightByKey art !!! k) i = true)
                 (seq 0 (length (OrderedCols art))))
    (CommonKeys art).

(** The row of the Changed sheet for key [k]: the key, then for every
    union column the cell of file 1 and the cell of file 2, both in the
    highlight style when they differ and there is such a style. *)
Definition changedRow (art : Artifacts) (redStyle : Z) (k : string) : list CellValue :=
  let left := LeftByKey art !!! k in
  let right := RightByKey art !!! k in
  VString (safeCellValue k) ::
  concat ((λ i,
      let style := if cellsDiffer art left right i && (0 <? redStyle) then redStyle else 0 in
      [VCell (safeCellValue (cellPair art left right i).1) style;
       VCell (safeCellValue (cellPair art left right i).2) style])
    <$> seq 0 (length (OrderedCols art))).

(** The name of a file in the column titles. *)
Definition titleName (fileName fallback : string) : string :=
  if bool_decide (TrimSpace fileName = "") then fallback else TrimSpace fileName.

(** Every word of the bit set that is not zero is listed as dirty. *)
Definition dirty_ok (ms : maskState) : Prop :=
  ∀ (w : nat) (x : Z), ms.1 !! w = Some x → x ≠ 0 → Z.of_nat w ∈ ms.2.

(** ** Sheet names *)

(** A rune that UTF-8 can encode: a code point that is no surrogate. *)
Definition validRune (r : Z) : Prop := 0 ≤ r < 0xD800 ∨ 0xE000 ≤ r ≤ MaxRune.

(** A name that a sheet can bear: not empty, at most 31 characters, none
    of them one of [: \ / ? * [ ]]. *)
Definition legalSheetName (s : string) : Prop :=
  s ≠ "" ∧ RuneCountInString s ≤ 31
  ∧ ∀ c, c ∈ list_ascii_of_string s → String c EmptyString ∉ forbiddenSheetChars.

End tables.

End spec.

(** * Sample data for the examples *)
Module examples.
Import Go domain store.

(** A job as the intake creates it. *)
Definition freshJob (id : string) : CompareJob :=
  {| ID := id; Status := CompareJobStatusProcessing; CreatedAt := 0;
     File1Path := ""; File2Path := ""; File1OSSKey := "in/f1.xlsx"; File2OSSKey := "in/f2.xlsx";
     File1Name := "old.xlsx"; File2Name := "new.xlsx";
     ResultPath := ""; ResultOSSKey := ""; AmountYuan := Ffin 0; CodeURL := "";
     Paid := false; PaidAt := None; CancelledAt := None; Error := "" |}.

(** The same job after the paygate worker has created an order of 5 fen. *)
Definition awaitingJob (id : string) : CompareJob :=
  paygate.awaitingMutator "out/compare.xlsx" 5 "weixin://pay" (freshJob id).

(** The same job after the user has cancelled it. *)
Definition cancelledJob (id : string) : CompareJob :=
  compare.cancelMutator 10 (freshJob id).

(** A job that has been paid and released. *)
Definition readyJob (id : string) : CompareJob :=
  wechat.notifyMutator 20 (awaitingJob id).

Definition redisWith (j : CompareJob) : RedisCompareJobStore :=
  {| rdb := {[ "gy:comparejob:" +:+ ID j := j ]}; keyPrefix := "gy:comparejob:" |}.

Definition successTx (id : string) (total : Z) : wechat.wechatpayTransaction :=
  {| wechat.OutTradeNo := id; wechat.TradeState := "SUCCESS";
     wechat.SuccessTime := ""; wechat.AmountTotal := total |}.


(** The job after the compute worker has stored its result. *)
Definition computedJob (id : string) : CompareJob :=
  compare.resultMutator "out/compare.xlsx" (compare.processingMutator (freshJob id)).

(** The surroundings of a compute run in which every step succeeds and the
    lock is taken. *)
Definition goodEnv : compare.ComputeEnv (S:=RedisCompareJobStore) :=
  {| compare.env_lock := redislock.LockHeld;
     compare.env_lockKey := "gy:lock:comparejob:job_1";
     compare.env_payq := Some None;
     compare.env_ossEnabled := true;
     compare.env_mkdir := None;
     compare.env_get1 := None;
     compare.env_get2 := None;
     compare.env_convert1 := None;
     compare.env_convert2 := None;
     compare.env_generate := None;
     compare.env_ossKey := "out/compare.xlsx";
     compare.env_put := None;
     compare.env_during := λ s, s |}.

(** The same run with a failing download of file 1. *)
Definition failingEnv : compare.ComputeEnv (S:=RedisCompareJobStore) :=
  {| compare.env_lock := redislock.LockHeld;
     compare.env_lockKey := "gy:lock:comparejob:job_1";
     compare.env_payq := Some None;
     compare.env_ossEnabled := true;
     compare.env_mkdir := None;
     compare.env_get1 := Some "timeout";
     compare.env_get2 := None;
     compare.env_convert1 := None;
     compare.env_convert2 := None;
     compare.env_generate := None;
     compare.env_ossKey := "out/compare.xlsx";
     compare.env_put := None;
     compare.env_during := λ s, s |}.

(** The rows of a first sheet: a header and two data rows, the second one
    short. *)
Definition exampleSheet : list (list string) :=
  [["id"; "name"; "amount"]; ["1"; "a"; "10"]; ["2"; "b"]].

(** A stand-in for the JSON encoder and decoder on the sample jobs: the
    document of a record is its identifier, and a document decodes to the
    record of the fresh job of that identifier. *)
Definition sampleMarshal (r : compareJobRecord) : string + string := inr (rec_ID r).

Definition sampleUnmarshal (doc : string) : string + compareJobRecord :=
  inr (recordFromJob (freshJob doc)).
End examples.

(** * Properties of the scalar normalization *)

(** ** Rounding of integers to binary64 *)
Section float_facts.
Import Go.

Lemma Qred_int (n : Z) : Qred (n # 1) = n # 1.
Proof. apply Qred_identity. simpl. apply Z.gcd_1_r. Qed.

Lemma round_half_even_1 (n : Z) : round_half_even n 1 = n.
Proof.
  unfold round_half_even. rewrite Z.div_1_r, Z.mod_1_r. reflexivity.
Qed.

Lemma round_half_even_lower (n d : Z) : 0 < d → n / d ≤ round_half_even n d.
Proof.
  intros Hd. unfold round_half_even.
  repeat match goal with |- context [if ?b then _ else _] => destruct b end; lia.
Qed.

Lemma ilog2_int (n : Z) : 0 < n → ilog2 n 1 = Z.log2 n.
Proof.
  intros Hn. unfold ilog2. change (Z.log2 1) with 0. rewrite Z.sub_0_r.
  pose proof (Z.log2_nonneg n) as Hl.
  rewrite (proj2 (Z.leb_le 0 (Z.log2 n))) by done.
  pose proof (Z.log2_spec n Hn) as [Hlo _].
  rewrite (proj2 (Z.leb_le _ _)) by lia. done.
Qed.

(** Integers below [2^53] are binary64 values. *)
Lemma RN_pos_int_exact (n : Z) : 0 < n → n < 2 ^ 53 → RN_pos n 1 = Some (n # 1).
Proof.
  intros Hn Hlt. unfold RN_pos. rewrite ilog2_int by done.
  assert (0 ≤ Z.log2 n < 53) as Hl.
  { split; [apply Z.log2_nonneg|]. by apply Z.log2_lt_pow2. }
  rewrite Z.max_l by lia.
  set (e := Z.log2 n - 52).
  assert (Qred (Qmult ((if 0 <=? e then round_half_even n (1 * 2 ^ e)
                        else round_half_even (n * 2 ^ (- e)) 1) # 1) (pow2Q e)) = n # 1) as ->.
  { rewrite <- (Qred_int n). apply Qred_complete. unfold pow2Q.
    destruct (Z.leb_spec 0 e) as [He|He].
    - assert (e = 0) as -> by lia. simpl. rewrite round_half_even_1.
      unfold Qeq. simpl. lia.
    - rewrite round_half_even_1. unfold Qeq. simpl.
      rewrite Pos.mul_1_l, Z2Pos.id by (apply Z.pow_pos_nonneg; lia). lia. }
  assert (Qle_bool (2 ^ 1024 # 1) (n # 1) = false) as ->; [|done].
  apply not_true_iff_false. rewrite Qle_bool_iff. unfold Qle. simpl.
  assert (2 ^ 53 < 2 ^ 1024) by (apply Z.pow_lt_mono_r; lia). lia.
Qed.

(** Larger integers round to a value of at least [2^53], or overflow. *)
Lemma RN_pos_int_big (n : Z) (v : Q) :
  2 ^ 53 ≤ n → RN_pos n 1 = Some v → (2 ^ 53 # 1 <= v)%Q.
Proof.
  intros Hn. assert (0 < n) as Hpos by (pose proof (Z.pow_pos_nonneg 2 53); lia).
  unfold RN_pos. rewrite ilog2_int by done.
  assert (53 ≤ Z.log2 n) as Hl by (by apply Z.log2_le_pow2).
  rewrite Z.max_l by lia.
  set (e := Z.log2 n - 52).
  rewrite (proj2 (Z.leb_le 0 e)) by lia.
  destruct (Qle_bool _ _); [done|]. intros [= <-].
  rewrite Qred_correct. unfold pow2Q. rewrite (proj2 (Z.leb_le 0 e)) by lia.
  unfold Qle, Qmult. simpl. rewrite !Z.mul_1_r, Z.mul_1_l.
  pose proof (round_half_even_lower n (2 ^ e)) as Hr.
  assert (0 < 2 ^ e) as He by (apply Z.pow_pos_nonneg; lia).
  specialize (Hr He).
  assert (2 ^ 52 ≤ n / 2 ^ e) as Hq.
  { apply Z.div_le_lower_bound; [done|].
    rewrite <- Z.pow_add_r by lia. replace (e + 52) with (Z.log2 n) by lia.
    apply Z.log2_spec. done. }
  assert (2 ^ 53 ≤ 2 ^ 52 * 2 ^ e).
  { change (2 ^ 53) with (2 ^ 52 * 2 ^ 1). apply Z.mul_le_mono_nonneg_l; [lia|].
    apply Z.pow_le_mono_r; lia. }
  nia.
Qed.

Lemma RN_Qeq (p q : Q) : (p == q)%Q → RN p = RN q.
Proof. intros Hpq. unfold RN. by rewrite (Qred_complete p q Hpq). Qed.

Lemma RN_int_exact (n : Z) : Z.abs n < 2 ^ 53 → RN (n # 1) = Ffin (n # 1).
Proof.
  intros Hn. unfold RN. rewrite Qred_int. simpl.
  destruct n as [|p|p]; [done| |].
  - by rewrite RN_pos_int_exact by lia.
  - by rewrite RN_pos_int_exact by lia.
Qed.

Lemma RN_int_big (n : Z) :
  2 ^ 53 ≤ Z.abs n →
  match RN (n # 1) with
  | Ffin v => if 0 <? n then (2 ^ 53 # 1 <= v)%Q else (v <= - (2 ^ 53) # 1)%Q
  | Finf neg => neg = (n <? 0)
  | Fnan => False
  end.
Proof.
  intros Hn. unfold RN. rewrite Qred_int. simpl.
  destruct n as [|p|p]; [done| |]; simpl.
  - destruct (RN_pos (Z.pos p) 1) as [v|] eqn:E; [|done].
    apply (RN_pos_int_big (Z.pos p)); [lia|done].
  - destruct (RN_pos (Z.pos p) 1) as [v|] eqn:E; [|done].
    apply (RN_pos_int_big (Z.pos p)) in E; [|lia].
    apply Qopp_le_compat in E. exact E.
Qed.

End float_facts.

(** ** Facts on the normalization *)
Section normalize_facts.
Import Go excelcmp spec.
Context `{GoTables}.

(** ** Scanning *)

Lemma string_app_cons (c : ascii) (a b : string) : String c a +:+ b = String c (a +:+ b).
Proof. reflexivity. Qed.

Lemma string_app_nil_l (b : string) : "" +:+ b = b.
Proof. reflexivity. Qed.

Lemma string_app_nil_r (a : string) : a +:+ "" = a.
Proof. induction a as [|c a IH]; [done|]. by rewrite string_app_cons, IH. Qed.

Lemma span_app (p : ascii → bool) (s a b : string) :
  span p s = (a, b) → s = a +:+ b.
Proof.
  revert a b. induction s as [|c r IH]; simpl; intros a b.
  - by intros [= <- <-].
  - destruct (p c).
    + destruct (span p r) as [a' b'] eqn:E. intros [= <- <-].
      rewrite string_app_cons. f_equal. by apply IH.
    + by intros [= <- <-].
Qed.

Lemma span_forallb (p : ascii → bool) (s a b : string) :
  span p s = (a, b) → string_forallb p a = true.
Proof.
  revert a b. induction s as [|c r IH]; simpl; intros a b.
  - by intros [= <- <-].
  - destruct (p c) eqn:Ep.
    + destruct (span p r) as [a' b'] eqn:E. intros [= <- <-].
      simpl. rewrite Ep. simpl. by eapply IH.
    + by intros [= <- <-].
Qed.

Lemma span_stops (p : ascii → bool) (s a c b : string) (x : ascii) :
  span p s = (a, String x b) → p x = false.
Proof.
  revert a. induction s as [|y r IH]; simpl; intros a.
  - by intros [= ].
  - destruct (p y) eqn:Ep.
    + destruct (span p r) as [a' b'] eqn:E. intros [= <- ->]. by eapply IH.
    + by intros [= <- -> ->].
Qed.

Lemma span_prefix (p : ascii → bool) (a r : string) :
  string_forallb p a = true →
  (match r with String x _ => p x = false | EmptyString => True end) →
  span p (a +:+ r) = (a, r).
Proof.
  intros Ha Hr. induction a as [|c a IH].
  - rewrite string_app_nil_l. destruct r as [|x r]; [done|]. simpl. by rewrite Hr.
  - simpl in Ha. apply andb_true_iff in Ha as [Hc Ha].
    rewrite string_app_cons. simpl. by rewrite Hc, IH.
Qed.

Lemma string_forallb_app (p : ascii → bool) (a b : string) :
  string_forallb p (a +:+ b) = string_forallb p a && string_forallb p b.
Proof.
  induction a as [|c a IH]; [done|].
  rewrite string_app_cons. simpl. by rewrite IH, andb_assoc.
Qed.

Lemma string_forallb_impl (p q : ascii → bool) (a : string) :
  (∀ c, p c = true → q c = true) → string_forallb p a = true → string_forallb q a = true.
Proof.
  intros Hpq. induction a as [|c a IH]; simpl; [done|].
  intros [Hc Ha]%andb_true_iff. by rewrite (Hpq c Hc), IH.
Qed.

Lemma isZeroByte_digit (c : ascii) : isZeroByte c = true → isDigitByte c = true.
Proof. unfold isZeroByte, isDigitByte. intros ->%Z.eqb_eq. done. Qed.

(** ** The shape test *)

Lemma digit_not_sign (c : ascii) :
  isDigitByte c = true → ¬ (c = "+"%char ∨ c = "-"%char).
Proof. by intros Hc [-> | ->]. Qed.

Lemma looksLike_body (body : string) :
  (let '(digits, r1) := span isDigitByte body in
   if bool_decide (digits = "") then false
   else match r1 with
        | EmptyString => false
        | String d r2 =>
            if bool_decide (d ≠ "."%char) then false
            else let '(zeros, r3) := span isZeroByte r2 in
                 bool_decide (zeros ≠ "") && bool_decide (r3 = "")
        end) = true ↔
  ∃ ds zs, body = ds +:+ "." +:+ zs ∧ ds ≠ "" ∧ string_forallb isDigitByte ds = true
           ∧ zs ≠ "" ∧ string_forallb isZeroByte zs = true.
Proof.
  split.
  - destruct (span isDigitByte body) as [digits r1] eqn:E1.
    case_bool_decide as Hd; [done|].
    destruct r1 as [|d r2]; [done|].
    case_bool_decide as Hp; [done|].
    destruct (span isZeroByte r2) as [zeros r3] eqn:E2.
    intros [Hz Hr]%andb_true_iff.
    apply bool_decide_eq_true in Hz, Hr. subst r3.
    assert (d = "."%char) as -> by (destruct (decide (d = "."%char)); [done|by destruct Hp]).
    exists digits, zeros. repeat split; try done.
    + apply span_app in E1, E2. rewrite E1, E2. by rewrite string_app_nil_r.
    + by eapply span_forallb.
    + by eapply span_forallb.
  - intros (ds & zs & -> & Hds & Hd & Hzs & Hz).
    rewrite (span_prefix isDigitByte ds ("." +:+ zs)) by done.
    rewrite bool_decide_eq_false_2 by done.
    change ("." +:+ zs) with (String "."%char zs). cbv iota beta.
    rewrite bool_decide_eq_false_2 by (intros Hc; by apply Hc).
    rewrite <- (string_app_nil_r zs) at 1.
    rewrite (span_prefix isZeroByte zs "") by done.
    by rewrite !bool_decide_eq_true_2.
Qed.

Lemma looksLike_iff (s : string) :
  looksLikeIntegerFloatString s = true ↔ ∃ sg ds zs, integer_float_parts s sg ds zs.
Proof.
  unfold integer_float_parts. split.
  - destruct s as [|c r]; [done|]. unfold looksLikeIntegerFloatString.
    case_bool_decide as Hsign.
    + destruct r as [|c' r']; [done|].
      intros (ds & zs & Hb & ?)%looksLike_body.
      exists (String c ""), ds, zs. rewrite string_app_cons, string_app_nil_l, <- Hb.
      split; [done|]. split; [|exact H0].
      destruct Hsign as [-> | ->]; auto.
    + intros (ds & zs & Hb & ?)%looksLike_body.
      exists "", ds, zs. rewrite string_app_nil_l. split; [done|]. split; [auto|exact H0].
  - intros (sg & ds & zs & -> & Hsg & Hds & Hd & Hzs & Hz).
    assert (∃ c ds', ds = String c ds') as (c & ds' & Eds)
      by (destruct ds; [done|eauto]).
    assert (isDigitByte c = true) as Hc.
    { rewrite Eds in Hd. simpl in Hd. by apply andb_true_iff in Hd as [? _]. }
    destruct Hsg as [-> | [-> | ->]].
    + rewrite string_app_nil_l. rewrite Eds at 1. rewrite string_app_cons.
      unfold looksLikeIntegerFloatString.
      rewrite bool_decide_eq_false_2 by by apply digit_not_sign.
      replace (String c (ds' +:+ "." +:+ zs)) with (ds +:+ "." +:+ zs) by (by rewrite Eds).
      apply looksLike_body. eauto 10.
    + change ("+" +:+ ds +:+ "." +:+ zs) with (String "+"%char (ds +:+ "." +:+ zs)).
      unfold looksLikeIntegerFloatString.
      rewrite bool_decide_eq_true_2 by auto.
      rewrite Eds at 1. rewrite string_app_cons.
      replace (String c (ds' +:+ "." +:+ zs)) with (ds +:+ "." +:+ zs) by (by rewrite Eds).
      apply looksLike_body. eauto 10.
    + change ("-" +:+ ds +:+ "." +:+ zs) with (String "-"%char (ds +:+ "." +:+ zs)).
      unfold looksLikeIntegerFloatString.
      rewrite bool_decide_eq_true_2 by auto.
      rewrite Eds at 1. rewrite string_app_cons.
      replace (String c (ds' +:+ "." +:+ zs)) with (ds +:+ "." +:+ zs) by (by rewrite Eds).
      apply looksLike_body. eauto 10.
Qed.

(** ** [ParseFloat] on a match of the expression *)

Lemma byte_of_val (c : ascii) : byte_of (byte_val c) = c.
Proof. unfold byte_of, byte_val. by rewrite N2Z.id, ascii_N_embedding. Qed.

Lemma lowerAscii_digit (c : ascii) : isDigitByte c = true → lowerAscii c = c.
Proof.
  unfold isDigitByte, lowerAscii, asciiLower, inRange.
  intros [?%Z.leb_le ?%Z.leb_le]%andb_true_iff.
  rewrite (proj2 (Z.leb_gt 65 (byte_val c))) by lia. simpl. apply byte_of_val.
Qed.

Lemma digit_not_ext (c : ascii) :
  isDigitByte c = true →
  negb (bool_decide (c = "_"%char ∨ c = "x"%char ∨ c = "X"%char)) = true.
Proof.
  intros Hc. apply negb_true_iff, bool_decide_eq_false.
  by intros [-> | [-> | ->]].
Qed.

Lemma digits_value_app (acc : Z) (a b : string) :
  digits_value acc (a +:+ b) = digits_value (digits_value acc a) b.
Proof.
  revert acc. induction a as [|c a IH]; intros acc; [done|].
  rewrite string_app_cons. simpl. apply IH.
Qed.

Lemma digits_value_zeros (acc : Z) (zs : string) :
  string_forallb isZeroByte zs = true → digits_value acc zs = acc * 10 ^ len zs.
Proof.
  unfold len. revert acc. induction zs as [|c zs IH]; intros acc Hz.
  - simpl. lia.
  - simpl in Hz. apply andb_true_iff in Hz as [Hc Hz].
    unfold isZeroByte in Hc. apply Z.eqb_eq in Hc.
    simpl digits_value. rewrite IH by done. rewrite Hc.
    change (String.length (String c zs)) with (S (String.length zs)).
    rewrite Nat2Z.inj_succ, Z.pow_succ_r by lia. lia.
Qed.

Lemma digits_value_nonneg (acc : Z) (ds : string) :
  0 ≤ acc → string_forallb isDigitByte ds = true → 0 ≤ digits_value acc ds.
Proof.
  revert acc. induction ds as [|c ds IH]; intros acc Ha Hd; [done|].
  simpl in *. apply andb_true_iff in Hd as [Hc Hd]. apply IH; [|done].
  unfold isDigitByte in Hc. apply andb_true_iff in Hc as [?%Z.leb_le ?%Z.leb_le]. lia.
Qed.

Section parts.
Variables s sg ds zs : string.
Hypothesis Hparts : integer_float_parts s sg ds zs.

Let body : string := ds +:+ "." +:+ zs.

Lemma parts_head : ∃ c ds', ds = String c ds' ∧ isDigitByte c = true.
Proof.
  pose proof Hparts as (_ & _ & Hds & Hd & _).
  destruct ds as [|c ds']; [done|]. exists c, ds'. split; [done|].
  simpl in Hd. by apply andb_true_iff in Hd as [? _].
Qed.

Lemma parts_split_sign :
  split_sign s = (if bool_decide (sg = "") then None else Some (bool_decide (sg = "-")), body).
Proof.
  pose proof Hparts as (Hs & Hsg & _). rewrite Hs. clear Hs. destruct parts_head as (c & ds' & Eds & Hc).
  destruct Hsg as [-> | [-> | ->]]; [|done|done].
  rewrite string_app_nil_l. simpl. unfold body. rewrite Eds, string_app_cons. unfold split_sign.
  pose proof (digit_not_sign c Hc) as Hn.
  destruct c as [[] [] [] [] [] [] [] []]; try done; exfalso; apply Hn; auto.
Qed.

Lemma parts_not_ext : has_ext_byte s = false.
Proof.
  pose proof Hparts as (Hs & Hsg & _ & Hd & _ & Hz). rewrite Hs. clear Hs.
  unfold has_ext_byte. apply negb_false_iff.
  rewrite !string_forallb_app.
  rewrite (string_forallb_impl _ _ ds digit_not_ext Hd).
  rewrite (string_forallb_impl _ _ zs (λ c Hc, digit_not_ext c (isZeroByte_digit c Hc)) Hz).
  by destruct Hsg as [-> | [-> | ->]].
Qed.

Lemma parts_not_special : special s = None.
Proof.
  unfold special. rewrite parts_split_sign.
  destruct parts_head as (c & ds' & Eds & Hc).
  unfold body. rewrite Eds, string_app_cons. simpl string_map. rewrite (lowerAscii_digit c Hc).
  rewrite bool_decide_eq_false_2.
  2:{ intros [[= -> _] | [= -> _]]; done. }
  rewrite bool_decide_eq_false_2; [done|].
  intros [_ [= -> _]]. done.
Qed.

Lemma parts_parse_decimal :
  parse_decimal s = Some (bool_decide (sg = "-"), digits_value 0 ds * 10 ^ len zs, - len zs).
Proof.
  unfold parse_decimal. rewrite parts_split_sign.
  pose proof Hparts as (_ & Hsg & Hds & Hd & Hzs & Hz). unfold body.
  rewrite (span_prefix isDigitByte ds ("." +:+ zs)) by done.
  change ("." +:+ zs) with (String "."%char zs). cbv iota beta.
  rewrite <- (string_app_nil_r zs) at 1.
  rewrite (span_prefix isDigitByte zs "") by (by eauto using string_forallb_impl, isZeroByte_digit).
  rewrite bool_decide_eq_false_2 by (by intros [? _]).
  simpl parse_exponent. cbv iota beta.
  rewrite digits_value_app, digits_value_zeros by done.
  rewrite Z.sub_0_l.
  by destruct Hsg as [-> | [-> | ->]].
Qed.

(** The literal denotes the integer [signed_value sg ds], and [ParseFloat]
    rounds it. *)
Lemma parts_ParseFloat :
  ParseFloat s = match RN (signed_value sg ds # 1) with
                 | Finf _ => None
                 | f => Some f
                 end.
Proof.
  unfold ParseFloat. rewrite parts_not_ext, parts_not_special, parts_parse_decimal.
  pose proof Hparts as (_ & _ & _ & _ & Hzs & _).
  assert (0 < len zs) as Hl.
  { unfold len. destruct zs; [done|]. simpl. lia. }
  erewrite RN_Qeq; [reflexivity|].
  unfold pow10Q. rewrite (proj2 (Z.leb_gt 0 (- len zs))) by lia.
  rewrite Z.opp_involutive. unfold signed_value, Qeq, Qmult. simpl.
  rewrite Pos.mul_1_l, Z2Pos.id by (apply Z.pow_pos_nonneg; lia).
  case_bool_decide; lia.
Qed.

End parts.

(** ** The result of the normalization *)

Lemma normalize_not_null (v : string) :
  ¬ null_literal (TrimSpace v) →
  normalizeScalarForCompare v
  = let s := TrimSpace v in
    if looksLikeIntegerFloatString s then
      match ParseFloat s with
      | Some f =>
          if fgt f f9e15 || flt f (fneg f9e15) then s
          else
            let i := int64_of_float64 f in
            if feq (float64_of_int i) f then FormatInt i else s
      | None => s
      end
    else s.
Proof.
  intros Hn. unfold normalizeScalarForCompare, null_literal in *.
  rewrite bool_decide_eq_false_2 by tauto.
  rewrite bool_decide_eq_false_2 by tauto. done.
Qed.

Lemma in_range_compare (n : Z) :
  Z.abs n ≤ 9000000000000000 →
  fgt (Ffin (n # 1)) f9e15 || flt (Ffin (n # 1)) (fneg f9e15) = false.
Proof.
  intros Hn. unfold fgt, flt, fneg, f9e15.
  assert (Qle_bool (n # 1) (9000000000000000 # 1) = true) as ->
    by (apply Qle_bool_iff; unfold Qle; simpl; lia).
  assert (Qle_bool (- (9000000000000000 # 1)) (n # 1) = true) as ->
    by (apply Qle_bool_iff; unfold Qle; simpl; lia).
  done.
Qed.

Lemma in_range_int64 (n : Z) :
  Z.abs n ≤ 9000000000000000 → int64_of_float64 (Ffin (n # 1)) = n.
Proof.
  intros Hn. unfold int64_of_float64. simpl Qnum. simpl Qden.
  rewrite Z.quot_1_r.
  assert ((min_int64 <=? n) && (n <=? max_int64) = true) as ->; [|done].
  apply andb_true_iff. unfold min_int64, max_int64. split; apply Z.leb_le; lia.
Qed.

Lemma in_range_back (n : Z) :
  Z.abs n ≤ 9000000000000000 → feq (float64_of_int n) (Ffin (n # 1)) = true.
Proof.
  intros Hn. unfold float64_of_int. rewrite RN_int_exact by lia. simpl.
  by apply Qeq_bool_iff.
Qed.

Lemma out_of_range_exact (n : Z) :
  9000000000000000 < Z.abs n →
  fgt (Ffin (n # 1)) f9e15 || flt (Ffin (n # 1)) (fneg f9e15) = true.
Proof.
  intros Hn. unfold fgt, flt, fneg, f9e15. apply orb_true_iff.
  destruct (Z.le_gt_cases 0 n).
  - left. apply negb_true_iff, not_true_iff_false. rewrite Qle_bool_iff.
    unfold Qle. simpl. lia.
  - right. apply negb_true_iff, not_true_iff_false. rewrite Qle_bool_iff.
    unfold Qle. simpl. lia.
Qed.

Lemma out_of_range_big (n : Z) (f : float64) :
  2 ^ 53 ≤ Z.abs n → RN (n # 1) = f →
  match f with
  | Finf _ => True
  | _ => fgt f f9e15 || flt f (fneg f9e15) = true
  end.
Proof.
  intros Hn <-. pose proof (RN_int_big n Hn) as Hb.
  destruct (RN (n # 1)) as [w| |]; [|done|done].
  unfold fgt, flt, fneg, f9e15. apply orb_true_iff.
  destruct (Z.ltb_spec 0 n).
  - left. apply negb_true_iff, not_true_iff_false. rewrite Qle_bool_iff.
    intros Hle. pose proof (Qle_trans _ _ _ Hb Hle) as Hc.
    unfold Qle in Hc. simpl in Hc. lia.
  - right. apply negb_true_iff, not_true_iff_false. rewrite Qle_bool_iff.
    intros Hle. pose proof (Qle_trans _ _ _ Hle Hb) as Hc.
    unfold Qle in Hc. simpl in Hc. lia.
Qed.

Lemma normalize_parts_in_range (v sg ds zs : string) :
  ¬ null_literal (TrimSpace v) →
  integer_float_parts (TrimSpace v) sg ds zs →
  Z.abs (signed_value sg ds) ≤ 9000000000000000 →
  normalizeScalarForCompare v = FormatInt (signed_value sg ds).
Proof.
  intros Hn Hp Hr. rewrite normalize_not_null by done. cbv zeta.
  rewrite (proj2 (looksLike_iff _)) by eauto.
  rewrite (parts_ParseFloat _ _ _ _ Hp), RN_int_exact by lia.
  by rewrite in_range_compare, in_range_int64, in_range_back.
Qed.

Lemma normalize_parts_out_of_range (v sg ds zs : string) :
  ¬ null_literal (TrimSpace v) →
  integer_float_parts (TrimSpace v) sg ds zs →
  9000000000000000 < Z.abs (signed_value sg ds) →
  normalizeScalarForCompare v = TrimSpace v.
Proof.
  intros Hn Hp Hr. rewrite normalize_not_null by done. cbv zeta.
  rewrite (proj2 (looksLike_iff _)) by eauto.
  rewrite (parts_ParseFloat _ _ _ _ Hp).
  destruct (Z.lt_ge_cases (Z.abs (signed_value sg ds)) (2 ^ 53)) as [Hs|Hb].
  - rewrite RN_int_exact by done. by rewrite out_of_range_exact.
  - pose proof (out_of_range_big _ _ Hb eq_refl) as Ho.
    destruct (RN (signed_value sg ds # 1)); [|done|]; by rewrite Ho.
Qed.

End normalize_facts.

Section C2.
Import Go excelcmp spec.
Context `{GoTables}.

(** C2. Scalar normalization of [v], with [s] the trimmed [v]: the result
    is empty when [s] is empty or is [nan], [nat] or [none] in any letter
    case; it is the canonical decimal form of the integer that [s] denotes
    when [s] matches [^[+-]?\d+(\.0+)$] and the integer is at most [9e15]
    in magnitude (its binary64 value is then the integer itself); and it
    is [s] in every other case.  So [1.00] gives [1], [001] is kept, [1.0]
    and [1] normalize to the same string, [001] and [1] do not. *)
Theorem normalizeScalarForCompare_cases (v : string) :
  let s := TrimSpace v in
  (null_literal s → normalizeScalarForCompare v = "")
  ∧ (¬ null_literal s →
     ∀ sg ds zs, integer_float_parts s sg ds zs →
       Z.abs (signed_value sg ds) ≤ 9000000000000000 →
       normalizeScalarForCompare v = FormatInt (signed_value sg ds))
  ∧ (¬ null_literal s →
     (∀ sg ds zs, integer_float_parts s sg ds zs →
        9000000000000000 < Z.abs (signed_value sg ds)) →
     normalizeScalarForCompare v = s)
  ∧ normalizeScalarForCompare "1.00" = "1"
  ∧ normalizeScalarForCompare "001" = "001"
  ∧ normalizeScalarForCompare "1.0" = normalizeScalarForCompare "1"
  ∧ normalizeScalarForCompare "001" ≠ normalizeScalarForCompare "1".
Proof.
  cbv zeta. split; [|split; [|split]].
  - unfold null_literal, normalizeScalarForCompare. intros [Hs | Hl].
    + by rewrite bool_decide_eq_true_2.
    + case_bool_decide; [done|]. by rewrite bool_decide_eq_true_2.
  - intros Hn sg ds zs. by apply normalize_parts_in_range.
  - intros Hn Hall.
    destruct (looksLikeIntegerFloatString (TrimSpace v)) eqn:El.
    + apply looksLike_iff in El as (sg & ds & zs & Hp).
      eapply normalize_parts_out_of_range; eauto.
    + rewrite normalize_not_null by done. cbv zeta. by rewrite El.
  - repeat split; vm_compute; congruence.
Qed.

End C2.

Lemma normalizeScalarForCompare_cases_witness :
  excelcmp.normalizeScalarForCompare (H:=Go.exampleTables) " -12.000 " = "-12".
Proof.
  destruct (normalizeScalarForCompare_cases (H:=Go.exampleTables) " -12.000 ")
    as (_ & Hin & _).
  apply (Hin ltac:(vm_compute; intros [?|[?|[?|?]]]; discriminate) "-" "12" "000").
  - vm_compute. repeat split; (discriminate || auto).
  - vm_compute. discriminate.
Defined.

(** * Properties of the key column inference *)

Section guess_facts.
Import Go excelcmp spec.
Context `{GoTables}.

Lemma gatherValues_Some (rows : list (list string)) (i : nat) (vs : list string) :
  gatherValues rows i = Some vs ↔
  (λ row, TrimSpace <$> row !! i) <$> rows = Some <$> vs ∧ Forall (λ v, v ≠ "") vs.
Proof.
  revert vs. induction rows as [|row rows IH]; intros vs.
  - simpl. split.
    + intros [= <-]. by split.
    + intros [Hv _]. by destruct vs.
  - rewrite fmap_cons. simpl gatherValues.
    destruct vs as [|v vs].
    { split; [|by intros [? _]].
      destruct (row !! i); [|done]. case_bool_decide; [done|].
      by destruct (gatherValues rows i). }
    rewrite fmap_cons, Forall_cons. specialize (IH vs).
    destruct (row !! i) as [cell|] eqn:Ec; simpl.
    + case_bool_decide as Hb.
      * split; [done|]. intros [[= Hv1 Hv2] [Hne _]]. congruence.
      * destruct (gatherValues rows i) as [vs'|] eqn:Eg.
        -- split.
           ++ intros [= <- <-]. destruct (proj1 IH eq_refl) as [Hv Hne].
              by rewrite Hv.
           ++ intros [[= Hv1 Hv2] [_ Hne]].
              assert (Some vs' = Some vs) as [= ->] by (apply IH; by split).
              by rewrite Hv1.
        -- split; [done|]. intros [[= Hv1 Hv2] [_ Hne]].
           assert (None = Some vs) by (apply IH; by split). done.
    + split; [done|]. by intros [[= ] _].
Qed.

Lemma hasDuplicate_false (seen : gset string) (vs : list string) :
  hasDuplicate seen vs = false ↔ NoDup vs ∧ ∀ v, v ∈ vs → v ∉ seen.
Proof.
  revert seen. induction vs as [|v vs IH]; intros seen; simpl.
  - split; [|done]. intros _. split; [constructor|]. intros v Hv. by apply elem_of_nil in Hv.
  - case_bool_decide as Hs.
    + split; [done|]. intros [_ Hall]. exfalso. apply (Hall v); [by left|done].
    + rewrite IH. split.
      * intros [Hnd Hall]. split.
        -- constructor; [|done]. intros Hin. apply (Hall v Hin).
           apply elem_of_union. left. by apply elem_of_singleton.
        -- intros w [->|Hw]%elem_of_cons; [done|].
           intros Hws. apply (Hall w Hw). apply elem_of_union. by right.
      * intros [Hnd Hall]. apply NoDup_cons in Hnd as [Hv Hnd]. split; [done|].
        intros w Hw [->%elem_of_singleton|Hws]%elem_of_union; [done|].
        apply (Hall w); [by right|done].
Qed.

Lemma keywordScore_hits (name : string) :
  keywordScore name = 10 * Z.of_nat (length (keywordHits name)).
Proof.
  unfold keywordScore, keywordHits.
  generalize primaryKeyCandidates as kws.
  assert (∀ kws acc,
    fold_left (λ score kw, if Contains (ToLower name) (ToLower kw) then score + 10 else score)
      kws acc
    = acc + 10 * Z.of_nat (length (filter (λ kw, Contains (ToLower name) (ToLower kw) = true) kws)))
    as Hgen.
  { induction kws as [|kw kws IH]; intros acc; simpl; [lia|].
    rewrite IH, filter_cons. destruct (Contains _ _) eqn:Ec.
    - rewrite decide_True by done. simpl length. lia.
    - rewrite decide_False by done. lia. }
  intros kws. by rewrite Hgen.
Qed.

Lemma scoreOf_nonneg (name : string) (vs : list string) : 0 ≤ scoreOf name vs.
Proof. unfold scoreOf. destruct (forallb pkish vs); lia. Qed.

Lemma qualifies_unique (tbl : Table) (cr : Z) (i : nat) (vs vs' : list string) :
  qualifies tbl cr i vs → qualifies tbl cr i vs' → vs = vs'.
Proof.
  intros (_ & Hv & _) (_ & Hv' & _). rewrite Hv in Hv'.
  by apply (inj (fmap Some)) in Hv'.
Qed.

(** The loop body computes the score of a qualifying column and skips
    every other column. *)
Lemma columnScore_spec (tbl : Table) (cr : Z) (i : nat) (name : string) :
  match columnScore tbl (effectiveRows cr) i name with
  | Some sc => ∃ vs, qualifies tbl cr i vs ∧ sc = scoreOf name vs
  | None => ∀ vs, ¬ qualifies tbl cr i vs
  end.
Proof.
  unfold columnScore, qualifies, sampled, sample.
  assert (0 < effectiveRows cr) as Hpos.
  { unfold effectiveRows. destruct (Z.leb_spec cr 0); lia. }
  set (n := if Z.of_nat (length (Rows tbl)) <? effectiveRows cr
            then length (Rows tbl) else Z.to_nat (effectiveRows cr)).
  assert (take n (Rows tbl) = take (Z.to_nat (effectiveRows cr)) (Rows tbl)) as Htake.
  { unfold n. destruct (Z.ltb_spec (Z.of_nat (length (Rows tbl))) (effectiveRows cr)); [|done].
    rewrite !take_ge by lia. done. }
  assert (n = 0%nat ↔ take (Z.to_nat (effectiveRows cr)) (Rows tbl) = []) as Hn.
  { rewrite <- Htake. unfold n.
    destruct (Z.ltb_spec (Z.of_nat (length (Rows tbl))) (effectiveRows cr)).
    - rewrite firstn_all. split; [by intros ->%length_zero_iff_nil|by intros ->].
    - split; [lia|]. intros Ht. apply (f_equal length) in Ht.
      rewrite length_take in Ht. simpl in Ht. lia. }
  case_bool_decide as Hz.
  { intros vs (Hne & _). by apply Hne, Hn. }
  rewrite Htake.
  destruct (gatherValues _ i) as [vs|] eqn:Eg.
  - apply gatherValues_Some in Eg as [Hv Hne].
    destruct (hasDuplicate ∅ vs) eqn:Ed.
    + intros vs' (_ & Hv' & _ & Hnd).
      rewrite Hv in Hv'. apply (inj (fmap Some)) in Hv' as <-.
      assert (hasDuplicate ∅ vs = false) as Hf; [|congruence].
      apply hasDuplicate_false. split; [done|]. intros v _. apply not_elem_of_empty.
    + apply hasDuplicate_false in Ed as [Hnd _].
      exists vs. split.
      * repeat split; try done. by rewrite <- Hn.
      * unfold scoreOf. rewrite keywordScore_hits. destruct (forallb pkish vs); lia.
  - intros vs (_ & Hv & Hne & _).
    assert (None = Some vs) by (rewrite <- Eg; apply gatherValues_Some; by split). done.
Qed.

(** The loop over the columns keeps the first column of greatest score. *)
Lemma guess_fold_best (tbl : Table) (cr : Z) (cols : list (nat * string)) :
  let f := λ col : nat * string, columnScore tbl (effectiveRows cr) col.1 col.2 in
  let best := fold_left (guessStep tbl (effectiveRows cr)) cols ("", -1) in
  (best = ("", -1) ∧ ∀ c, c ∈ cols → f c = None)
  ∨ (∃ p c, cols !! p = Some c ∧ f c = Some best.2 ∧ best.1 = c.2
       ∧ ∀ q c' sc', cols !! q = Some c' → f c' = Some sc' →
           sc' ≤ best.2 ∧ ((q < p)%nat → sc' < best.2)).
Proof.
  cbv zeta.
  assert (∀ c sc, columnScore tbl (effectiveRows cr) c.1 c.2 = Some sc → 0 ≤ sc) as Hnn.
  { intros c sc Hc. pose proof (columnScore_spec tbl cr c.1 c.2) as Hs.
    rewrite Hc in Hs. destruct Hs as (vs & _ & ->). apply scoreOf_nonneg. }
  induction cols as [|x cols IH] using rev_ind.
  - left. split; [done|]. intros c Hc. by apply elem_of_nil in Hc.
  - rewrite fold_left_app. simpl.
    set (best := fold_left (guessStep tbl (effectiveRows cr)) cols ("", -1)) in *.
    destruct (columnScore tbl (effectiveRows cr) x.1 x.2) as [sc|] eqn:Ex.
    + assert (guessStep tbl (effectiveRows cr) best x
              = if best.2 <? sc then (x.2, sc) else best) as ->
        by (unfold guessStep; by rewrite Ex).
      destruct (Z.ltb_spec best.2 sc) as [Hlt|Hge].
      * right. exists (length cols), x. simpl.
        split; [by rewrite lookup_app_r, Nat.sub_diag by lia|].
        split; [done|]. split; [done|].
        intros q c' sc' Hq Hc'.
        destruct (decide (q < length cols)%nat) as [Hql|Hql].
        -- rewrite lookup_app_l in Hq by done.
           destruct IH as [[Hb Hall]|(p & c & Hp & Hc & _ & Hmax)].
           ++ rewrite (Hall c') in Hc' by (by eapply list_elem_of_lookup_2). done.
           ++ destruct (Hmax q c' sc' Hq Hc') as [Hle _]. lia.
        -- assert (q = length cols) as ->.
           { apply lookup_lt_Some in Hq. rewrite length_app in Hq. simpl in Hq. lia. }
           rewrite lookup_app_r, Nat.sub_diag in Hq by lia. injection Hq as <-.
           rewrite Ex in Hc'. injection Hc' as <-. lia.
      * destruct IH as [[Hb Hall]|(p & c & Hp & Hc & Hn & Hmax)].
        { rewrite Hb in Hge. simpl in Hge. specialize (Hnn x sc Ex). lia. }
        right. exists p, c.
        split; [by rewrite lookup_app_l by (by eapply lookup_lt_Some)|].
        split; [done|]. split; [done|].
        intros q c' sc' Hq Hc'.
        destruct (decide (q < length cols)%nat) as [Hql|Hql].
        -- rewrite lookup_app_l in Hq by done. by apply (Hmax q c' sc').
        -- assert (q = length cols) as ->.
           { apply lookup_lt_Some in Hq. rewrite length_app in Hq. simpl in Hq. lia. }
           rewrite lookup_app_r, Nat.sub_diag in Hq by lia. injection Hq as <-.
           rewrite Ex in Hc'. injection Hc' as <-.
           apply lookup_lt_Some in Hp. split; [lia|lia].
    + assert (guessStep tbl (effectiveRows cr) best x = best) as ->
        by (unfold guessStep; by rewrite Ex).
      destruct IH as [[Hb Hall]|(p & c & Hp & Hc & Hn & Hmax)].
      * left. split; [done|].
        intros c [Hc | ->%list_elem_of_singleton]%elem_of_app; [by apply Hall|done].
      * right. exists p, c.
        split; [by rewrite lookup_app_l by (by eapply lookup_lt_Some)|].
        split; [done|]. split; [done|].
        intros q c' sc' Hq Hc'.
        destruct (decide (q < length cols)%nat) as [Hql|Hql].
        -- rewrite lookup_app_l in Hq by done. by apply (Hmax q c' sc').
        -- assert (q = length cols) as ->.
           { apply lookup_lt_Some in Hq. rewrite length_app in Hq. simpl in Hq. lia. }
           rewrite lookup_app_r, Nat.sub_diag in Hq by lia. injection Hq as <-.
           rewrite Ex in Hc'. done.
Qed.

(** The header row that the reader hands to the inference has no empty
    name: [normalizeHeaders] names a blank cell [Unnamed: i], and the
    suffix of a repeated name only makes it longer. *)
Lemma app_not_empty (a b : string) : a ≠ "" → a +:+ b ≠ "".
Proof. by destruct a. Qed.

Lemma headerNames_nonempty (raw : list string) :
  Forall (λ h, h ≠ "") (headerNames raw).
Proof.
  apply Forall_lookup. intros i h. unfold headerNames.
  rewrite list_lookup_imap. destruct (raw !! i) as [v|]; [|done].
  simpl. intros [= <-]. by case_bool_decide.
Qed.

Lemma dedupeStep_nonempty (st : gmap string Z * list string) (name : string) :
  name ≠ "" → Forall (λ h, h ≠ "") st.2 → Forall (λ h, h ≠ "") (dedupeStep st name).2.
Proof.
  intros Hn Hout. unfold dedupeStep.
  destruct (st.1 !! name); cbn [snd]; apply Forall_app; split; try done;
    apply Forall_singleton; [by apply app_not_empty|done].
Qed.

Lemma normalizeHeaders_nonempty (raw : list string) :
  Forall (λ h, h ≠ "") (normalizeHeaders raw).
Proof.
  unfold normalizeHeaders.
  pose proof (headerNames_nonempty raw) as Hn.
  assert (Forall (λ h : string, h ≠ "") (∅ : gmap string Z, [] : list string).2) as Hacc
    by constructor.
  revert Hn Hacc. generalize (∅ : gmap string Z, [] : list string).
  induction (headerNames raw) as [|x l IH]; intros st Hn Hacc; [done|].
  apply Forall_cons in Hn as [Hx Hl]. cbn [fold_left].
  apply IH; [done|]. by apply dedupeStep_nonempty.
Qed.

End guess_facts.

Section C3.
Import Go excelcmp spec.
Context `{GoTables}.

(** C3 as amended. Key column inference over the header row and the
    sampled data rows (the first 5, or as many as the caller asks for)
    gives each column 10 for every keyword of the closed set that its
    header contains, letter case ignored, and 5 if all its sampled values
    are integer-like, finite-integer-valued floats, or unicode
    alphanumeric.  A column with an empty or duplicate sampled value does
    not qualify, and no column qualifies when there is no data row to
    sample.  For a header row without an empty name (the reader's header
    row is one, [normalizeHeaders_nonempty]), the result is the qualifying
    column of greatest score, the earliest one among equals; the inference
    fails exactly when no column qualifies. *)
Theorem GuessPrimaryKeyColumn_spec (tbl : Table) (checkRows : Z) :
  Forall (λ h, h ≠ "") (Headers tbl) →
  match GuessPrimaryKeyColumn tbl checkRows with
  | Some name =>
      ∃ i vs, Headers tbl !! i = Some name ∧ qualifies tbl checkRows i vs
        ∧ ∀ j name' vs', Headers tbl !! j = Some name' → qualifies tbl checkRows j vs' →
            scoreOf name' vs' ≤ scoreOf name vs
            ∧ ((j < i)%nat → scoreOf name' vs' < scoreOf name vs)
  | None => ∀ j vs, (j < length (Headers tbl))%nat → ¬ qualifies tbl checkRows j vs
  end.
Proof.
  intros Hhdr. unfold GuessPrimaryKeyColumn.
  case_bool_decide as Hlen.
  { intros j vs Hj. lia. }
  change (if checkRows <=? 0 then 5 else checkRows) with (effectiveRows checkRows).
  pose proof (guess_fold_best tbl checkRows (imap pair (Headers tbl))) as Hbest.
  cbv zeta in Hbest.
  set (best := fold_left (guessStep tbl (effectiveRows checkRows))
                 (imap pair (Headers tbl)) ("", -1)) in *.
  destruct Hbest as [[Hb Hall]|(p & c & Hp & Hc & Hn & Hmax)].
  - rewrite Hb. simpl. intros j vs Hj Hq.
    destruct (lookup_lt_is_Some_2 (Headers tbl) j Hj) as [name Hname].
    assert ((j, name) ∈ imap pair (Headers tbl)) as Hin.
    { apply list_elem_of_lookup. exists j. by rewrite list_lookup_imap, Hname. }
    pose proof (columnScore_spec tbl checkRows j name) as Hs.
    pose proof (Hall _ Hin) as Hnone. simpl in Hnone.
    rewrite Hnone in Hs. by apply (Hs vs).
  - rewrite list_lookup_imap in Hp.
    destruct (Headers tbl !! p) as [name|] eqn:Hname; [|done].
    injection Hp as <-. simpl in *.
    assert (name ≠ "") as Hne.
    { rewrite Forall_forall in Hhdr. apply Hhdr. by eapply list_elem_of_lookup_2. }
    rewrite Hn, bool_decide_eq_false_2 by done.
    pose proof (columnScore_spec tbl checkRows p name) as Hs.
    rewrite Hc in Hs. destruct Hs as (vs & Hq & Hsc).
    exists p, vs. split; [done|]. split; [done|].
    intros j name' vs' Hj Hq'.
    pose proof (columnScore_spec tbl checkRows j name') as Hs'.
    destruct (columnScore tbl (effectiveRows checkRows) j name') as [sc'|] eqn:Ec'.
    + destruct Hs' as (vs'' & Hq'' & ->).
      rewrite (qualifies_unique _ _ _ _ _ Hq' Hq''). rewrite <- Hsc.
      apply (Hmax j (j, name')); [|done].
      by rewrite list_lookup_imap, Hj.
    + by destruct (Hs' vs').
Qed.

End C3.

Section C3_examples.
Import Go excelcmp spec.

(** C3 as stated fails: the header [id_no] contains two keywords and
    scores 10 for each.  Both columns qualify; with 10 for any keyword both
    would score 15 and the earlier column [id] would be chosen, but the
    code chooses [id_no]. *)
Lemma GuessPrimaryKeyColumn_counts_every_keyword :
  let tbl := {| Headers := ["id"; "id_no"]; Rows := [["1"; "2"]] |} in
  sampled tbl 5 0 = [Some "1"] ∧ sampled tbl 5 1 = [Some "2"]
  ∧ claimedScore (H:=exampleTables) "id" ["1"] = 15
  ∧ claimedScore (H:=exampleTables) "id_no" ["2"] = 15
  ∧ scoreOf (H:=exampleTables) "id" ["1"] = 15
  ∧ scoreOf (H:=exampleTables) "id_no" ["2"] = 25
  ∧ GuessPrimaryKeyColumn (H:=exampleTables) tbl 5 = Some "id_no".
Proof. vm_compute. done. Qed.

(** With no data row to sample the inference fails, whatever the headers. *)
Lemma GuessPrimaryKeyColumn_no_rows :
  GuessPrimaryKeyColumn (H:=exampleTables) {| Headers := ["id"; "name"]; Rows := [] |} 5
  = None.
Proof. vm_compute. done. Qed.

(** Why the header names must not be empty: the empty string is also the
    loop's mark for no column found yet, so a table built by hand whose
    best column has no name is answered like a table without a qualifying
    column.  The reader never builds such a table. *)
Lemma GuessPrimaryKeyColumn_empty_header :
  let tbl := {| Headers := [""; "x"]; Rows := [["1"; "2"]] |} in
  qualifies tbl 5 0 ["1"] ∧ qualifies tbl 5 1 ["2"]
  ∧ GuessPrimaryKeyColumn (H:=exampleTables) tbl 5 = None
  ∧ normalizeHeaders [""; "x"] = ["Unnamed: 0"; "x"]
  ∧ GuessPrimaryKeyColumn (H:=exampleTables)
      {| Headers := normalizeHeaders [""; "x"]; Rows := [["1"; "2"]] |} 5
    = Some "Unnamed: 0".
Proof.
  split; [|split; [|by vm_compute]].
  - split; [by vm_compute|]. split; [by vm_compute|].
    split; [by repeat constructor|]. apply NoDup_singleton.
  - split; [by vm_compute|]. split; [by vm_compute|].
    split; [by repeat constructor|]. apply NoDup_singleton.
Qed.

Lemma GuessPrimaryKeyColumn_spec_witness :
  let tbl := {| Headers := ["资产编号"; "名称"];
                Rows := [["1001"; "a"]; ["1002"; "b"]; ["1003"; "c"]] |} in
  Forall (λ h, h ≠ "") (Headers tbl)
  ∧ match GuessPrimaryKeyColumn (H:=exampleTables) tbl 5 with
    | Some name =>
        ∃ i vs, Headers tbl !! i = Some name ∧ qualifies tbl 5 i vs
          ∧ ∀ j name' vs', Headers tbl !! j = Some name' → qualifies tbl 5 j vs' →
              scoreOf (H:=exampleTables) name' vs' ≤ scoreOf (H:=exampleTables) name vs
              ∧ ((j < i)%nat →
                 scoreOf (H:=exampleTables) name' vs' < scoreOf (H:=exampleTables) name vs)
    | None => ∀ j vs, (j < length (Headers tbl))%nat → ¬ qualifies tbl 5 j vs
    end.
Proof.
  assert (Forall (λ h, h ≠ "") ["资产编号"; "名称"]) as Hh
    by (repeat constructor; discriminate).
  split; [exact Hh|].
  apply (GuessPrimaryKeyColumn_spec (H:=exampleTables)
           {| Headers := ["资产编号"; "名称"];
              Rows := [["1001"; "a"]; ["1002"; "b"]; ["1003"; "c"]] |} 5 Hh).
Defined.

(** The table of the repository's test [TestGuessPrimaryKeyColumn]. *)
Lemma GuessPrimaryKeyColumn_test :
  GuessPrimaryKeyColumn (H:=exampleTables)
    {| Headers := ["资产编号"; "名称"];
       Rows := [["1001"; "a"]; ["1002"; "b"]; ["1003"; "c"]] |} 5
  = Some "资产编号".
Proof. vm_compute. done. Qed.

End C3_examples.

(** * Properties of the diff engine *)

Section diff_facts.
Import Go excelcmp spec.
Context `{GoTables}.

(** ** Sorted key lists *)

Lemma StronglySorted_strict {A : Type} (R : relation A) (l : list A) :
  StronglySorted R l → NoDup l → StronglySorted (λ a b, R a b ∧ a ≠ b) l.
Proof.
  induction 1 as [|x l Hs IH Hx]; intros Hnd; [constructor|].
  apply NoDup_cons in Hnd as [Hxl Hnd]. constructor; [by apply IH|].
  rewrite Forall_forall in Hx |- *. intros y Hy. split; [by apply Hx|].
  by intros ->.
Qed.

Lemma ascending_filter (P : string → Prop) `{∀ x, Decision (P x)} (l : list string) :
  ascending l → ascending (filter P l).
Proof.
  unfold ascending. induction 1 as [|x l Hs IH Hx]; [constructor|].
  rewrite filter_cons. destruct (decide (P x)); [|done].
  constructor; [done|].
  rewrite Forall_forall in Hx |- *. intros y [_ Hy]%list_elem_of_filter. by apply Hx.
Qed.

Lemma sort_Strings_elem_of (l : list string) (k : string) : k ∈ sort_Strings l ↔ k ∈ l.
Proof. unfold sort_Strings. by rewrite merge_sort_Permutation. Qed.

Lemma sort_Strings_ascending (l : list string) : NoDup l → ascending (sort_Strings l).
Proof.
  intros Hnd. apply StronglySorted_strict.
  - apply StronglySorted_merge_sort; apply _.
  - unfold sort_Strings. by rewrite merge_sort_Permutation.
Qed.

Lemma rangeKeys_elem_of (m : gmap string (list string)) (k : string) :
  k ∈ rangeKeys m ↔ is_Some (m !! k).
Proof.
  unfold rangeKeys. rewrite list_elem_of_fmap. split.
  - intros ([k' r] & -> & Hin). apply elem_of_map_to_list in Hin. by exists r.
  - intros [r Hr]. exists (k, r). split; [done|]. by apply elem_of_map_to_list.
Qed.

Lemma rangeKeys_NoDup (m : gmap string (list string)) : NoDup (rangeKeys m).
Proof. apply NoDup_fst_map_to_list. Qed.

(** ** Columns *)

Lemma headerIndexMap_fold (c : string) (l : list string) (k : nat) (m : gmap string Z) :
  fold_left (λ m (p : nat * string), <[p.2 := Z.of_nat p.1]> m)
    (imap (λ i, pair (k + i)%nat) l) m !! c
  = match columnIndex c l k with
    | Some j => Some (Z.of_nat j)
    | None => m !! c
    end.
Proof.
  revert k m. induction l as [|h t IH]; intros k m; [done|].
  rewrite imap_cons. simpl fold_left.
  rewrite (imap_ext _ (λ i, pair (S k + i)%nat)) by (intros; simpl; f_equal; lia).
  rewrite IH. simpl columnIndex.
  destruct (columnIndex c t (S k)) as [j|]; [done|].
  rewrite Nat.add_0_r. case_bool_decide as Hc.
  - subst h. by rewrite lookup_insert_eq.
  - by rewrite lookup_insert_ne.
Qed.

Lemma headerIndexMap_lookup (headers : list string) (c : string) :
  headerIndexMap headers !! c = Z.of_nat <$> columnIndex c headers 0.
Proof.
  unfold headerIndexMap.
  rewrite (imap_ext pair (λ i, pair (0 + i)%nat)) by done.
  rewrite headerIndexMap_fold. by destruct (columnIndex c headers 0).
Qed.

(** The cell that [cellPair] reads through an aligned index is the cell of
    the named column. *)
Lemma aligned_cell (headers row : list string) (c : string) :
  let idx := default (-1) (headerIndexMap headers !! c) in
  (if (0 <=? idx) && (idx <? Z.of_nat (length row)) then row !!! Z.to_nat idx else "")
  = columnValue headers row c.
Proof.
  cbv zeta. unfold columnValue. rewrite headerIndexMap_lookup.
  destruct (columnIndex c headers 0) as [j|]; simpl; [|done].
  rewrite (proj2 (Z.leb_le 0 (Z.of_nat j))) by lia. simpl.
  destruct (Z.ltb_spec (Z.of_nat j) (Z.of_nat (length row))) as [Hlt|Hge].
  - rewrite Nat2Z.id. destruct (lookup_lt_is_Some_2 row j ltac:(lia)) as [x Hx].
    rewrite Hx. simpl. by apply list_lookup_total_correct.
  - by rewrite lookup_ge_None_2 by lia.
Qed.

Lemma first_loop_filter (set : gset string) (key : string) (h1 out : list string) :
  (∀ c, c ∈ h1 → c ∈ set) →
  fold_left (λ out c, if bool_decide (c = key) then out
                      else if bool_decide (c ∈ set) then out ++ [c] else out) h1 out
  = out ++ filter (λ c, c ≠ key) h1.
Proof.
  revert out. induction h1 as [|c h1 IH]; intros out Hset; simpl.
  - by rewrite app_nil_r.
  - rewrite IH by (intros c' Hc'; apply Hset; by right).
    rewrite filter_cons. case_bool_decide as Hk.
    + by rewrite decide_False by (by intros Hn).
    + rewrite decide_True by done.
      rewrite bool_decide_eq_true_2 by (apply Hset; by left).
      by rewrite <- app_assoc.
Qed.

Lemma remaining_ext (s1 s2 l : list string) :
  (∀ x, x ∈ s1 ↔ x ∈ s2) → remaining s1 l = remaining s2 l.
Proof.
  revert s1 s2. induction l as [|x l IH]; intros s1 s2 Heq; [done|]. simpl.
  destruct (decide (x ∈ s1)) as [Hx|Hx].
  - assert (x ∈ s2) as Hx2 by (by apply Heq).
    rewrite !bool_decide_eq_true_2 by done. by apply IH.
  - assert (x ∉ s2) as Hx2 by (intros Hc; by apply Hx, Heq).
    rewrite !bool_decide_eq_false_2 by done. f_equal.
    apply IH. intros y. rewrite !elem_of_cons. by rewrite Heq.
Qed.

Lemma second_loop_remaining (set : gset string) (key : string) (h2 out : list string) :
  (∀ c, c ∈ h2 → c ∈ set) →
  (fold_left (λ (st : list string * gset string) c,
      if bool_decide (c = key) then st
      else if bool_decide (c ∉ set) then st
      else if bool_decide (c ∈ st.2) then st
      else (st.1 ++ [c], {[c]} ∪ st.2)) h2 (out, list_to_set out)).1
  = out ++ remaining out (filter (λ c, c ≠ key) h2).
Proof.
  revert out. induction h2 as [|c h2 IH]; intros out Hset; simpl.
  - by rewrite app_nil_r.
  - assert (∀ c', c' ∈ h2 → c' ∈ set) as Hset' by (intros c' Hc'; apply Hset; by right).
    rewrite filter_cons. case_bool_decide as Hk.
    + rewrite decide_False by (by intros Hn). by apply IH.
    + rewrite decide_True by done.
      rewrite bool_decide_eq_false_2 by (intros Hn; apply Hn, Hset; by left).
      simpl remaining.
      destruct (decide (c ∈ out)) as [Hin|Hin].
      * rewrite bool_decide_eq_true_2 by (by apply elem_of_list_to_set).
        rewrite bool_decide_eq_true_2 by done. by apply IH.
      * rewrite bool_decide_eq_false_2 by (by rewrite elem_of_list_to_set).
        rewrite bool_decide_eq_false_2 by done. simpl.
        assert (({[c]} ∪ list_to_set out : gset string) = list_to_set (out ++ [c])) as ->.
        { rewrite list_to_set_app_L. simpl. rewrite (comm_L (∪)). f_equal.
          by rewrite (right_id_L ∅ (∪)). }
        rewrite IH by done. rewrite <- app_assoc. simpl. f_equal. f_equal.
        apply remaining_ext. intros x.
        rewrite elem_of_app, !elem_of_cons, elem_of_nil. tauto.
Qed.

Lemma orderedUnionCols_spec (h1 h2 : list string) (key : string) :
  orderedUnionCols h1 h2 key = unionColumns h1 h2 key.
Proof.
  unfold orderedUnionCols, unionColumns.
  rewrite first_loop_filter.
  2:{ intros c Hc. apply elem_of_list_to_set, elem_of_app. by left. }
  simpl. apply second_loop_remaining.
  intros c Hc. apply elem_of_list_to_set, elem_of_app. by right.
Qed.

(** ** The Added and Removed sheets *)

Lemma simple_sheet_fold (headers : list string) (byKey : gmap string (list string))
    (keys : list string) (sw : Sheet) (n : Z) :
  (fold_left (λ (st : Sheet * Z) k,
      match byKey !! k with
      | None => st
      | Some r => (st.1 ++ [(cellAxis st.2 1, renderRow headers r)], st.2 + 1)
      end) keys (sw, n)).1.*2
  = sw.*2 ++ omap (λ k, renderRow headers <$> byKey !! k) keys.
Proof.
  revert sw n. induction keys as [|k keys IH]; intros sw n; simpl.
  - by rewrite app_nil_r.
  - destruct (byKey !! k) as [r|]; simpl.
    + rewrite IH. rewrite fmap_app. simpl. by rewrite <- app_assoc.
    + apply IH.
Qed.

Lemma simple_sheet_rows (headers keys : list string) (byKey : gmap string (list string))
    (emptyMsg : string) :
  headers ≠ [] →
  (∀ k, k ∈ keys → is_Some (byKey !! k)) →
  dataRows (writeSimpleKeyedSheetStream headers keys byKey emptyMsg)
  = (λ k, renderRow headers (byKey !!! k)) <$> keys.
Proof.
  intros Hh Hk. unfold writeSimpleKeyedSheetStream, dataRows.
  case_bool_decide as He.
  - destruct He as [? | ->]; done.
  - rewrite fmap_drop, simple_sheet_fold. simpl. clear He.
    induction keys as [|k keys IH]; [done|]. simpl.
    destruct (Hk k ltac:(by left)) as [r Hr]. rewrite Hr. simpl.
    rewrite (lookup_total_correct _ _ _ Hr). f_equal.
    apply IH. intros k' Hk'. apply Hk. by right.
Qed.

(** ** The Changed sheet *)

(** The cache is transparent. *)
Lemma cachedNormalizeFP_spec (cache : normCache) (raw : string) :
  cache_ok cache →
  (cachedNormalizeFP cache raw).1
  = (normalizeScalarForCompare raw, fingerprint64 (normalizeScalarForCompare raw))
  ∧ cache_ok (cachedNormalizeFP cache raw).2.
Proof.
  intros Hc. unfold cachedNormalizeFP, cache_ok, normCache in *.
  destruct (len raw <=? 64); [|done].
  destruct (cache !! raw) as [v|] eqn:Ev; simpl.
  - split; [by apply Hc|done].
  - split; [done|]. destruct (Z.of_nat (size cache) <? 80000); [|done].
    intros raw' v'. destruct (decide (raw = raw')) as [<-|Hne].
    + rewrite lookup_insert_eq. by intros [= <-].
    + rewrite lookup_insert_ne by done. apply Hc.
Qed.

(** Two cells are told apart exactly when their normal forms differ: the
    fingerprints are compared first, the strings on equal fingerprints. *)
Lemma detectStep_spec (art : Artifacts) (left right : list string)
    (cache : normCache) (ms : maskState) (hasDiff : bool) (i : nat) :
  cache_ok cache →
  let st' := detectStep art left right (cache, ms, hasDiff) i in
  cache_ok st'.1.1
  ∧ st'.2 = hasDiff
            || bool_decide (normalizeScalarForCompare (cellPair art left right i).1
                            ≠ normalizeScalarForCompare (cellPair art left right i).2).
Proof.
  intros Hc. unfold detectStep.
  destruct (cellPair art left right i) as [va vb]. simpl.
  destruct (cachedNormalizeFP_spec cache va Hc) as [E1 Hc1].
  destruct (cachedNormalizeFP cache va) as [[n1 h1] cache1]. simpl in E1, Hc1.
  destruct (cachedNormalizeFP_spec cache1 vb Hc1) as [E2 Hc2].
  destruct (cachedNormalizeFP cache1 vb) as [[n2 h2] cache2]. simpl in E2, Hc2.
  injection E1 as -> ->. injection E2 as -> ->.
  case_bool_decide as Hn.
  - destruct (negb _); simpl; (split; [done|by rewrite orb_true_r]).
  - assert (normalizeScalarForCompare va = normalizeScalarForCompare vb) as Heq
      by (destruct (decide (normalizeScalarForCompare va = normalizeScalarForCompare vb));
          [done|by destruct Hn]).
    rewrite Heq, Z.eqb_refl. simpl. split; [done|by rewrite orb_false_r].
Qed.

Lemma detect_fold_spec (art : Artifacts) (left right : list string) (cols : list nat)
    (cache : normCache) (ms : maskState) (hasDiff : bool) :
  cache_ok cache →
  let st' := fold_left (detectStep art left right) cols (cache, ms, hasDiff) in
  cache_ok st'.1.1
  ∧ (st'.2 = true ↔
     hasDiff = true
     ∨ Exists (λ i, normalizeScalarForCompare (cellPair art left right i).1
                    ≠ normalizeScalarForCompare (cellPair art left right i).2) cols).
Proof.
  revert cache ms hasDiff. induction cols as [|i cols IH]; intros cache ms hasDiff Hc.
  - simpl. split; [done|]. rewrite Exists_nil. tauto.
  - cbv zeta.
    change (fold_left (detectStep art left right) (i :: cols) (cache, ms, hasDiff))
      with (fold_left (detectStep art left right) cols
              (detectStep art left right (cache, ms, hasDiff) i)).
    destruct (detectStep_spec art left right cache ms hasDiff i Hc) as [Hc' Hd].
    destruct (detectStep art left right (cache, ms, hasDiff) i) as [[cache' ms'] hd'].
    cbn [fst snd] in Hc', Hd. destruct (IH cache' ms' hd' Hc') as [Hc'' Hiff].
    split; [exact Hc''|]. etrans; [exact Hiff|].
    rewrite Exists_cons, Hd, orb_true_iff, bool_decide_eq_true. tauto.
Qed.

Lemma fmap_seq_lookup {A B : Type} (g : option A → B) (l : list A) :
  (λ i, g (l !! i)) <$> seq 0 (length l) = (λ x, g (Some x)) <$> l.
Proof.
  induction l as [|x l IH] using rev_ind; [done|].
  rewrite length_app. change (length [x]) with 1%nat.
  rewrite seq_app, !fmap_app. change (seq (0 + length l) 1) with [length l].
  rewrite !fmap_cons, !fmap_nil. f_equal.
  - rewrite <- IH. apply list_fmap_ext. intros j i Hi.
    apply lookup_seq in Hi as [-> Hlt]. simpl. by rewrite lookup_app_l.
  - by rewrite lookup_app_r, Nat.sub_diag by lia.
Qed.

Section artifacts.
Variables (h1 h2 : list string) (m1 m2 : gmap string (list string)) (key : string).

(** The artifacts that [compareArtifactsFromMaps] builds. *)
Let art : Artifacts :=
  {| Key := key;
     ReducedKeys := sort_Strings (filter (λ k, m2 !! k = None) (rangeKeys m1));
     IncKeys := sort_Strings (filter (λ k, m1 !! k = None) (rangeKeys m2));
     RedHeaders := h1;
     IncHeaders := h2;
     OrderedCols := orderedUnionCols h1 h2 key;
     CommonKeys := sort_Strings (filter (λ k, is_Some (m2 !! k)) (rangeKeys m1));
     LeftByKey := m1;
     RightByKey := m2;
     ColIdx1 := (λ c, default (-1) (headerIndexMap h1 !! c)) <$> orderedUnionCols h1 h2 key;
     ColIdx2 := (λ c, default (-1) (headerIndexMap h2 !! c)) <$> orderedUnionCols h1 h2 key |}.

Lemma compareArtifactsFromMaps_ok :
  TrimSpace key ≠ "" → compareArtifactsFromMaps h1 h2 m1 m2 key = inr art.
Proof.
  intros Hk. unfold compareArtifactsFromMaps. by rewrite bool_decide_eq_false_2.
Qed.

Lemma cellPair_art (left right : list string) (i : nat) :
  cellPair art left right i
  = match unionColumns h1 h2 key !! i with
    | Some c => (columnValue h1 left c, columnValue h2 right c)
    | None => ("", "")
    end.
Proof.
  unfold cellPair. simpl ColIdx1. simpl ColIdx2.
  rewrite !list_lookup_fmap, orderedUnionCols_spec.
  destruct (unionColumns h1 h2 key !! i) as [c|]; simpl; [|done].
  by rewrite !aligned_cell.
Qed.

Lemma diffRow_texts (redStyle : Z) (k : string) (left right : list string) (mask : list Z) :
  cellText <$> diffRow art redStyle k left right mask = changedTexts h1 h2 key k left right.
Proof.
  unfold diffRow, changedTexts. rewrite fmap_cons. simpl cellText. f_equal.
  simpl OrderedCols. rewrite orderedUnionCols_spec.
  rewrite <- (fmap_seq_lookup
    (λ o, match o with
          | Some c => [safeCellValue (columnValue h1 left c);
                       safeCellValue (columnValue h2 right c)]
          | None => [safeCellValue ""; safeCellValue ""]
          end) (unionColumns h1 h2 key)).
  generalize (seq 0 (length (unionColumns h1 h2 key))) as idxs.
  induction idxs as [|i idxs IH]; [done|].
  rewrite !fmap_cons, !concat_cons, fmap_app, IH. f_equal.
  rewrite cellPair_art. by destruct (unionColumns h1 h2 key !! i).
Qed.

Lemma differs_art (left right : list string) :
  Exists (λ i, normalizeScalarForCompare (cellPair art left right i).1
               ≠ normalizeScalarForCompare (cellPair art left right i).2)
    (seq 0 (length (OrderedCols art)))
  ↔ rowsDiffer h1 h2 key left right.
Proof.
  unfold rowsDiffer. simpl OrderedCols. rewrite orderedUnionCols_spec, !Exists_exists.
  split.
  - intros (i & Hi & Hd). apply elem_of_seq in Hi as [_ Hi]. simpl in Hi.
    destruct (lookup_lt_is_Some_2 (unionColumns h1 h2 key) i Hi) as [c Hc].
    exists c. split; [by eapply list_elem_of_lookup_2|].
    by rewrite cellPair_art, Hc in Hd.
  - intros (c & Hc & Hd). apply list_elem_of_lookup in Hc as [i Hi].
    exists i. split.
    + apply elem_of_seq. split; [lia|]. simpl. by eapply lookup_lt_Some.
    + by rewrite cellPair_art, Hi.
Qed.

Lemma default_lookup_total (m : gmap string (list string)) (k : string) :
  default [] (m !! k) = m !!! k.
Proof. reflexivity. Qed.

Lemma diffStep_spec (fn1 fn2 : string) (redStyle : Z) (st : diffWriter) (k : string) :
  cache_ok (dw_cache st) →
  let st' := diffStep art fn1 fn2 redStyle st k in
  cache_ok (dw_cache st')
  ∧ (rowsDiffer h1 h2 key (m1 !!! k) (m2 !!! k) →
       dw_firstWritten st' = true
       ∧ ∃ hdrs ax row,
           dw_sw st' = dw_sw st ++ hdrs ++ [(ax, row)]
           ∧ cellText <$> row = changedTexts h1 h2 key k (m1 !!! k) (m2 !!! k)
           ∧ (dw_firstWritten st = true → hdrs = [])
           ∧ (dw_firstWritten st = false → length hdrs = 1%nat))
  ∧ (¬ rowsDiffer h1 h2 key (m1 !!! k) (m2 !!! k) →
       dw_firstWritten st' = dw_firstWritten st ∧ dw_sw st' = dw_sw st).
Proof.
  intros Hc. cbv zeta. unfold diffStep.
  change (default [] (LeftByKey art !! k)) with (default [] (m1 !! k)).
  change (default [] (RightByKey art !! k)) with (default [] (m2 !! k)).
  rewrite !default_lookup_total.
  destruct (detect_fold_spec art (m1 !!! k) (m2 !!! k) (seq 0 (length (OrderedCols art)))
              (dw_cache st) (dw_mask st) false Hc) as [Hc' Hd].
  destruct (fold_left _ _ _) as [[cache ms] hasDiff]. cbn [fst snd] in Hc', Hd.
  rewrite differs_art in Hd.
  destruct hasDiff.
  - destruct (dw_firstWritten st) eqn:Ef; simpl.
    + split; [done|]. split.
      * intros _. split; [done|].
        eexists [], _, _. rewrite app_nil_l. split; [done|].
        split; [apply diffRow_texts|]. by split.
      * intros Hn. by destruct (proj1 Hd eq_refl) as [?|Hr].
    + split; [done|]. split.
      * intros _. split; [done|].
        eexists [_], _, _. rewrite <- app_assoc. split; [done|].
        split; [apply diffRow_texts|]. by split.
      * intros Hn. by destruct (proj1 Hd eq_refl) as [?|Hr].
  - simpl. split; [done|]. split; [|done].
    intros Hr. assert (false = true) by (apply Hd; by right). done.
Qed.

Lemma diff_fold_spec (fn1 fn2 : string) (redStyle : Z) (keys : list string)
    (st0 : diffWriter) :
  cache_ok (dw_cache st0) → dw_firstWritten st0 = false → dw_sw st0 = [] →
  let st := fold_left (diffStep art fn1 fn2 redStyle) keys st0 in
  let changed := filter (λ k, rowsDiffer h1 h2 key (m1 !!! k) (m2 !!! k)) keys in
  cache_ok (dw_cache st)
  ∧ ((dw_firstWritten st = false ∧ dw_sw st = [] ∧ changed = [])
     ∨ (dw_firstWritten st = true
        ∧ ∃ hdr rows, dw_sw st = hdr :: rows
            ∧ (fmap cellText) <$> rows.*2
              = (λ k, changedTexts h1 h2 key k (m1 !!! k) (m2 !!! k)) <$> changed)).
Proof.
  intros Hc0 Hf0 Hs0. cbv zeta.
  induction keys as [|k keys IH] using rev_ind.
  - simpl. split; [done|]. by left.
  - rewrite fold_left_app, filter_app. simpl fold_left.
    destruct IH as [Hc IH].
    set (st := fold_left (diffStep art fn1 fn2 redStyle) keys st0) in *.
    destruct (diffStep_spec fn1 fn2 redStyle st k Hc) as (Hc' & Hyes & Hno).
    split; [done|].
    rewrite filter_cons, filter_nil.
    destruct (decide (rowsDiffer h1 h2 key (m1 !!! k) (m2 !!! k))) as [Hd|Hd].
    + right. destruct (Hyes Hd) as (Hfw & hdrs & ax & row & Hsw & Hrow & Hh1 & Hh0).
      split; [done|].
      destruct IH as [(Hf & Hs & Hch)|(Hf & hdr & rows & Hs & Hrows)].
      * specialize (Hh0 Hf). destruct hdrs as [|hdr [|]]; try done.
        exists hdr, [(ax, row)]. rewrite Hsw, Hs, Hch. simpl. by rewrite Hrow.
      * rewrite (Hh1 Hf) in Hsw. exists hdr, (rows ++ [(ax, row)]).
        rewrite Hsw, Hs. split; [done|].
        rewrite !fmap_app, Hrows. simpl. by rewrite Hrow.
    + destruct (Hno Hd) as [Hfw Hsw]. rewrite Hfw, Hsw, app_nil_r. exact IH.
Qed.

Lemma changed_sheet_rows (fn1 fn2 : string) (redStyle : Z) :
  (fmap cellText) <$> dataRows (writeDiffSideBySideStream art fn1 fn2 redStyle)
  = (λ k, changedTexts h1 h2 key k (m1 !!! k) (m2 !!! k))
    <$> filter (λ k, rowsDiffer h1 h2 key (m1 !!! k) (m2 !!! k)) (CommonKeys art).
Proof.
  unfold writeDiffSideBySideStream. case_bool_decide as He.
  - by rewrite He.
  - match goal with |- context [fold_left ?f ?l ?a] =>
      destruct (diff_fold_spec
        (if bool_decide (TrimSpace fn1 = "") then "文件1" else TrimSpace fn1)
        (if bool_decide (TrimSpace fn2 = "") then "文件2" else TrimSpace fn2)
        redStyle l a) as [_ Hinv]; [by intros ? ?|done|done|];
      destruct Hinv as [(Hf & Hs & Hch)|(Hf & hdr & rows & Hs & Hrows)]
    end.
    + cbv zeta. rewrite Hf, Hs, Hch. done.
    + cbv zeta. rewrite Hf, Hs. simpl. unfold dataRows. simpl. exact Hrows.
Qed.

End artifacts.

End diff_facts.

(** ** Columns are looked up by name *)
Section column_names.
Import Go excelcmp spec.

Lemma columnIndex_ge (c : string) (headers : list string) (k j : nat) :
  columnIndex c headers k = Some j → ∃ i, j = (k + i)%nat ∧ headers !! i = Some c.
Proof.
  revert k. induction headers as [|h t IH]; intros k; [done|].
  simpl. destruct (columnIndex c t (S k)) as [j'|] eqn:E.
  - intros [= <-]. destruct (IH _ E) as (i & -> & Hi). exists (S i). split; [lia|done].
  - case_bool_decide as Hh; [|done]. intros [= <-]. exists 0%nat. split; [lia|by subst].
Qed.

(** In a header row without repeated names, the column of a name is the
    one position that carries it. *)
Lemma columnIndex_NoDup (c : string) (headers : list string) (i : nat) :
  NoDup headers → headers !! i = Some c → columnIndex c headers 0 = Some i.
Proof.
  intros Hnd Hi.
  assert (∀ k, columnIndex c headers k = Some (k + i)%nat) as Hk; [|apply (Hk 0%nat)].
  revert i Hi. induction Hnd as [|h t Hnot Hnd IH]; intros i Hi k; [done|].
  simpl. destruct i as [|i]; simpl in Hi.
  - injection Hi as ->.
    destruct (columnIndex c t (S k)) as [j|] eqn:E.
    + destruct (columnIndex_ge _ _ _ _ E) as (i & _ & Hi).
      destruct Hnot. by eapply list_elem_of_lookup_2.
    + rewrite bool_decide_eq_true_2 by done. f_equal. lia.
  - rewrite (IH i Hi (S k)). f_equal. lia.
Qed.

Lemma columnValue_NoDup (headers row : list string) (c : string) (i : nat) :
  NoDup headers → headers !! i = Some c →
  columnValue headers row c = default "" (row !! i).
Proof. intros Hnd Hi. unfold columnValue. by rewrite (columnIndex_NoDup c headers i). Qed.

(** The cells of a row of the Added and Removed sheets: one for every
    header, holding the cell of the source row at that position, with a
    blank cell (missing, empty or white space only) shown empty. *)
Lemma renderRow_lookup (headers r : list string) (i : nat) :
  (i < length headers)%nat →
  renderRow headers r !! i
  = Some (VString (if bool_decide (TrimSpace (default "" (r !! i)) = "") then ""
                   else default "" (r !! i))).
Proof.
  intros Hi. unfold renderRow. rewrite list_lookup_fmap, lookup_seq_lt by done.
  simpl. unfold safeCellValue. by destruct (r !! i) as [c|].
Qed.

End column_names.

Section C1.
Import Go excelcmp spec.
Context `{GoTables}.

(** The partition of the keys, for any two header rows that contain the
    key column and any two maps from normalized key to row.  The diff
    engine produces its three sheets, and there are ascending key lists
    [ka], [kr], [kc] such that: [ka] holds exactly the keys of file 2's
    map that are not in file 1's, and the data rows of the Added sheet are
    the rows of file 2 for [ka], in that order; [kr] holds exactly the
    keys of file 1's map that are not in file 2's, and the data rows of
    the Removed sheet are the rows of file 1 for [kr]; [kc] holds exactly
    the common keys whose rows differ in the normalized value of a union
    column, the cell of a column being looked up by its name
    ([rowsDiffer]); the data rows of the Changed sheet are, for [kc] in
    that order, the key followed by the cells of both files for every
    union column.  Where no header row repeats a name, a name denotes one
    position ([columnValue_NoDup]) and [kc] holds the keys whose rows
    differ in some column; where a header row repeats a name, the cells
    of the earlier column of that name are never looked at (the last
    example of this part). *)
Theorem diff_engine_partition (h1 h2 : list string) (m1 m2 : gmap string (list string))
    (key file1Name file2Name : string) (redStyle : Z) :
  TrimSpace key ≠ "" → key ∈ h1 → key ∈ h2 →
  ∃ added removed changed ka kr kc,
    GenerateCompareExportXLSX_sheets h1 h2 m1 m2 key file1Name file2Name redStyle
    = inr (added, removed, changed)
    ∧ (∀ k, k ∈ ka ↔ is_Some (m2 !! k) ∧ m1 !! k = None)
    ∧ (∀ k, k ∈ kr ↔ is_Some (m1 !! k) ∧ m2 !! k = None)
    ∧ (∀ k, k ∈ kc ↔ ∃ left right, m1 !! k = Some left ∧ m2 !! k = Some right
                       ∧ rowsDiffer h1 h2 key left right)
    ∧ ascending ka ∧ ascending kr ∧ ascending kc
    ∧ dataRows added = (λ k, renderRow h2 (m2 !!! k)) <$> ka
    ∧ dataRows removed = (λ k, renderRow h1 (m1 !!! k)) <$> kr
    ∧ (fmap cellText) <$> dataRows changed
      = (λ k, changedTexts h1 h2 key k (m1 !!! k) (m2 !!! k)) <$> kc.
Proof.
  intros Hkey Hk1 Hk2.
  unfold GenerateCompareExportXLSX_sheets.
  rewrite compareArtifactsFromMaps_ok by done. cbv beta iota.
  set (only2 := filter (λ k, m1 !! k = None) (rangeKeys m2)).
  set (only1 := filter (λ k, m2 !! k = None) (rangeKeys m1)).
  set (common := filter (λ k, is_Some (m2 !! k)) (rangeKeys m1)).
  eexists _, _, _, (sort_Strings only2), (sort_Strings only1),
    (filter (λ k, rowsDiffer h1 h2 key (m1 !!! k) (m2 !!! k)) (sort_Strings common)).
  split; [reflexivity|].
  assert (∀ k, k ∈ sort_Strings only2 ↔ is_Some (m2 !! k) ∧ m1 !! k = None) as Ha.
  { intros k. unfold only2.
    rewrite sort_Strings_elem_of, list_elem_of_filter, rangeKeys_elem_of. tauto. }
  assert (∀ k, k ∈ sort_Strings only1 ↔ is_Some (m1 !! k) ∧ m2 !! k = None) as Hr.
  { intros k. unfold only1.
    rewrite sort_Strings_elem_of, list_elem_of_filter, rangeKeys_elem_of. tauto. }
  split; [exact Ha|]. split; [exact Hr|]. split.
  { intros k. unfold common.
    rewrite list_elem_of_filter, sort_Strings_elem_of, list_elem_of_filter,
      rangeKeys_elem_of.
    split.
    - intros (Hd & [right Hright] & [left Hleft]).
      exists left, right. rewrite (lookup_total_correct _ _ _ Hleft) in Hd.
      by rewrite (lookup_total_correct _ _ _ Hright) in Hd.
    - intros (left & right & Hleft & Hright & Hd).
      rewrite (lookup_total_correct _ _ _ Hleft), (lookup_total_correct _ _ _ Hright).
      eauto. }
  split; [apply sort_Strings_ascending, NoDup_filter, rangeKeys_NoDup|].
  split; [apply sort_Strings_ascending, NoDup_filter, rangeKeys_NoDup|].
  split; [apply ascending_filter, sort_Strings_ascending, NoDup_filter, rangeKeys_NoDup|].
  split; [|split].
  - apply simple_sheet_rows; [by intros ->; apply elem_of_nil in Hk2|].
    intros k Hk. by apply Ha in Hk as [? _].
  - apply simple_sheet_rows; [by intros ->; apply elem_of_nil in Hk1|].
    intros k Hk. by apply Hr in Hk as [? _].
  - apply changed_sheet_rows.
Qed.

End C1.

Section C1_examples.
Import Go excelcmp spec.

Lemma diff_engine_partition_witness :
  let h := ["id"; "n"; "v"] in
  let m1 : gmap string (list string) :=
    list_to_map [("1", ["1"; "a"; "x"]); ("2", ["2"; "b"; "y"]); ("3", ["3"; "c"; "z"])] in
  let m2 : gmap string (list string) :=
    list_to_map [("1", ["1"; "a"; "x"]); ("2", ["2"; "B"; "y"]); ("4", ["4"; "d"; "w"])] in
  ∃ added removed changed ka kr kc,
    GenerateCompareExportXLSX_sheets (H:=exampleTables) h h m1 m2 "id" "old.xlsx" "new.xlsx" 1
    = inr (added, removed, changed)
    ∧ (∀ k, k ∈ ka ↔ is_Some (m2 !! k) ∧ m1 !! k = None)
    ∧ (∀ k, k ∈ kr ↔ is_Some (m1 !! k) ∧ m2 !! k = None)
    ∧ (∀ k, k ∈ kc ↔ ∃ left right, m1 !! k = Some left ∧ m2 !! k = Some right
                       ∧ rowsDiffer (H:=exampleTables) h h "id" left right)
    ∧ ascending ka ∧ ascending kr ∧ ascending kc
    ∧ dataRows added = (λ k, renderRow h (m2 !!! k)) <$> ka
    ∧ dataRows removed = (λ k, renderRow h (m1 !!! k)) <$> kr
    ∧ (fmap cellText) <$> dataRows changed
      = (λ k, changedTexts h h "id" k (m1 !!! k) (m2 !!! k)) <$> kc.
Proof.
  apply (diff_engine_partition (H:=exampleTables)).
  - vm_compute. discriminate.
  - by left.
  - by left.
Defined.

(** The sheets of this example. *)
Lemma diff_engine_example :
  let h := ["id"; "n"; "v"] in
  let m1 : gmap string (list string) :=
    list_to_map [("1", ["1"; "a"; "x"]); ("2", ["2"; "b"; "y"]); ("3", ["3"; "c"; "z"])] in
  let m2 : gmap string (list string) :=
    list_to_map [("1", ["1"; "a"; "x"]); ("2", ["2"; "B"; "y"]); ("4", ["4"; "d"; "w"])] in
  GenerateCompareExportXLSX_sheets (H:=exampleTables) h h m1 m2 "id" "old.xlsx" "new.xlsx" 1
  = inr ([("A1", [VString "id"; VString "n"; VString "v"]);
          ("A2", [VString "4"; VString "d"; VString "w"])],
         [("A1", [VString "id"; VString "n"; VString "v"]);
          ("A2", [VString "3"; VString "c"; VString "z"])],
         [("A1", [VString "id"; VString "n（old.xlsx）"; VString "n（new.xlsx）";
                  VString "v（old.xlsx）"; VString "v（new.xlsx）"]);
          ("A2", [VString "2"; VCell "b" 1; VCell "B" 1; VCell "y" 0; VCell "y" 0])]).
Proof. vm_compute. done. Qed.

(** C1.  A changed row is missed where the header row repeats a name
    that header normalization does not tell apart.  Two workbooks with the
    header row [id, x, x, x.1] and one data row each for the key [1]; the
    rows differ in the third column ([old] against [new], also after
    normalization).  [normalizeHeaders] names the columns
    [id, x, x.1, x.1]: the suffix it gives to the second [x] is the name
    of the fourth column.  Both files load with the key column [id] and
    without duplicate keys.  The ordered union lists [x.1] twice, and both
    entries are looked up by name, which finds the fourth column; the
    third column is never compared.  The Changed sheet has no data row
    (only its placeholder), although the key is common and a column has
    differing normalized values. *)
Theorem diff_engine_shadowed_column :
  let raw := ["id"; "x"; "x"; "x.1"] in
  let headers := ["id"; "x"; "x.1"; "x.1"] in
  let left := ["1"; "a"; "old"; "c"] in
  let right := ["1"; "a"; "new"; "c"] in
  let m1 : gmap string (list string) := {["1" := left]} in
  let m2 : gmap string (list string) := {["1" := right]} in
  normalizeHeaders raw = headers
  ∧ loadKeyedSheetXLSX (H:=exampleTables) (Some [raw; left]) 5 "" true
    = inr ({| ks_Headers := headers; ks_Key := "id"; RowsByKey := m1 |}, [])
  ∧ loadKeyedSheetXLSX (H:=exampleTables) (Some [raw; right]) 0 "id" false
    = inr ({| ks_Headers := headers; ks_Key := "id"; RowsByKey := m2 |}, [])
  ∧ orderedUnionCols headers headers "id" = ["x"; "x.1"; "x.1"]
  ∧ headers !! 2%nat = Some "x.1"
  ∧ left !! 2%nat = Some "old" ∧ right !! 2%nat = Some "new"
  ∧ normalizeScalarForCompare (H:=exampleTables) "old"
    ≠ normalizeScalarForCompare (H:=exampleTables) "new"
  ∧ (∃ added removed changed,
       GenerateCompareExportXLSX_sheets (H:=exampleTables) headers headers m1 m2 "id"
         "old.xlsx" "new.xlsx" 1 = inr (added, removed, changed)
       ∧ dataRows changed = []
       ∧ changed = [("A1", [VString "无变动项目"])]).
Proof.
  cbv zeta. split; [by vm_compute|]. split; [by vm_compute|]. split; [by vm_compute|].
  split; [by vm_compute|]. do 3 (split; [done|]). split; [by vm_compute|].
  eexists _, _, _. split; [by vm_compute|]. split; by vm_compute.
Qed.

End C1_examples.

(** * Properties of the job pipeline *)
Section pipeline.
Import Go domain store streamq spec mutators.
Context `{GoTables}.

(** ** The stores satisfy the laws *)

Global Instance InMemory_laws : CompareJobStoreLaws InMemoryCompareJobStore.
Proof.
  split; intros s id fn; simpl; unfold InMemory_Update, InMemory_Get.
  - destruct (jobs s !! id) as [j|] eqn:E; simpl; [by rewrite lookup_insert_eq|by rewrite E].
  - by destruct (jobs s !! id).
  - by intros ->.
Qed.

Global Instance Redis_laws : CompareJobStoreLaws RedisCompareJobStore.
Proof.
  split; intros s id fn; simpl; unfold Redis_Update, Redis_Get.
  - case_bool_decide; [done|].
    destruct (rdb s !! key s (TrimSpace id)) as [j|] eqn:E; simpl.
    + unfold key; simpl. by rewrite lookup_insert_eq.
    + by rewrite E.
  - case_bool_decide; [done|]. by destruct (rdb s !! key s (TrimSpace id)).
  - case_bool_decide; [done|]. by intros ->.
Qed.

(** ** Field lemmas *)

Lemma notifyMutator_paid (now : Z) (j : CompareJob) :
  Paid (wechat.notifyMutator now j) = true.
Proof.
  unfold wechat.notifyMutator. destruct (Paid j) eqn:E; [done|].
  repeat case_match; reflexivity.
Qed.

Lemma notifyMutator_already_paid (now : Z) (j : CompareJob) :
  Paid j = true → wechat.notifyMutator now j = j.
Proof. unfold wechat.notifyMutator. by intros ->. Qed.

(** ** C5 *)

(** C5. [paid] is monotone: whichever update function of the system
    (compute worker, paygate worker, notify handler, cancel handler, intake
    failure path, and the in-process task of the service) is applied to a
    job whose [Paid] flag is set, the flag is still set afterwards; and so
    it is in the record that a store holds after an [Update] with that
    function. *)
Theorem paid_monotone (m : Mutator) (j : CompareJob) :
  Paid j = true →
  Paid (mutators.apply m j) = true
  ∧ ∀ (S : Type) `(CompareJobStoreLaws S) (s : S) (id : string),
      Get s id = Some j →
      ∃ j', Get (Update s id (mutators.apply m)).1 id = Some j' ∧ Paid j' = true.
Proof.
  intros Hp.
  assert (Paid (mutators.apply m j) = true) as Hq.
  { destruct m; simpl;
      unfold compare.processingMutator, compare.resultMutator, compare.failMutator,
        paygate.paidMutator, paygate.freeMutator, paygate.awaitingMutator,
        paygate.failMutator, paygate.release, compare.cancelMutator,
        compare.taskPathsMutator, compare.taskResultMutator, compare.taskPaidMutator,
        compare.taskFreeMutator, compare.taskOrderFailedMutator,
        compare.taskAwaitingMutator, compare.withResult;
      try (by apply notifyMutator_paid);
      rewrite ?Hp; simpl; repeat case_bool_decide; simpl; try done. }
  split; [exact Hq|].
  intros S Hstore Hlaws s id Hg. exists (mutators.apply m j).
  split; [|exact Hq]. by rewrite Get_Update, Hg.
Qed.

(** ** C7 *)

(** C7. The notify handler is idempotent: applying the update function of a
    SUCCESS notification once, and then again for every replay (each with
    its own reading of the clock), yields the record of the first
    application; the later applications find [Paid] set and change
    nothing. *)
Theorem notify_idempotent (j : CompareJob) (now : Z) (replays : list Z) :
  fold_left (λ j t, wechat.notifyMutator t j) replays (wechat.notifyMutator now j)
  = wechat.notifyMutator now j.
Proof.
  induction replays as [|t replays IH]; simpl; [done|].
  by rewrite (notifyMutator_already_paid t), IH by apply notifyMutator_paid.
Qed.

(** ** C4 *)

Lemma ack_removes (pel : PEL) (id : string) :
  TrimSpace id ≠ "" → id ∉ ack pel id.
Proof.
  intros Hid. unfold ack. rewrite bool_decide_eq_false_2 by done.
  intros [_ Hn]%elem_of_difference. apply Hn. by apply elem_of_singleton.
Qed.

(** C4. A message that is dispatched to the handler (it carries a non-blank
    [jobId]) and is pending is acknowledged, that is removed from the
    pending entries list, exactly when the handler returns [nil], returns a
    terminal error, or panics; when the handler returns an error that is
    not terminal the pending entries list is left as it was. *)
Theorem handleOne_ack {W : Type} (handler : Handler (W:=W)) (msg : XMessage)
    (w : W) (pel : PEL) (jobID : string) :
  Values msg !! "jobId" = Some jobID →
  TrimSpace jobID ≠ "" →
  TrimSpace (ID msg) ≠ "" →
  ID msg ∈ pel →
  let out := (handler (TrimSpace jobID) w).2 in
  let pel' := (handleOne handler msg (w, pel)).2 in
  (ID msg ∉ pel' ↔
     out = Returned None
     ∨ (∃ e, out = Returned (Some e) ∧ IsTerminal (Some e) = true)
     ∨ (∃ r, out = Panicked r))
  ∧ (∀ e, out = Returned (Some e) → IsTerminal (Some e) = false → pel' = pel).
Proof.
  intros Hv Hj Hid Hin. unfold handleOne. rewrite Hv. simpl.
  rewrite bool_decide_eq_false_2 by done.
  destruct (handler (TrimSpace jobID) w) as [w' out] eqn:Eh. simpl.
  destruct out as [[e|]|r]; simpl.
  - destruct (IsTerminal_chain e) eqn:Et; simpl.
    + split; [|intros e' [= <-]; congruence].
      split; [intros _; right; left; eauto|intros _; by apply ack_removes].
    + split; [|done].
      split; [done|].
      intros [?|[(e' & [= <-] & ?)|[r ?]]]; congruence.
  - split; [|done]. split; [by left|intros _; by apply ack_removes].
  - split; [|done]. split; [right; right; eauto|intros _; by apply ack_removes].
Qed.

(** ** C8 and C10 *)

(** What the handler does with a SUCCESS notification for an existing job. *)
Lemma handle_success {S : Type} `{CompareJobStore S} (st : S)
    (tx : wechat.wechatpayTransaction) (now : Z) (job : CompareJob) :
  TrimSpace (wechat.OutTradeNo tx) ≠ "" →
  ToUpper (wechat.TradeState tx) = "SUCCESS" →
  Get st (TrimSpace (wechat.OutTradeNo tx)) = Some job →
  wechat.handle st tx now
  = if bool_decide (wechat.AmountTotal tx ≠ wechat.expectedFen job)
    then (st, {| wechat.status := 400; wechat.code := "FAIL";
                 wechat.message := "amount mismatch" |})
    else ((Update st (TrimSpace (wechat.OutTradeNo tx)) (wechat.notifyMutator now)).1,
          {| wechat.status := 200; wechat.code := "SUCCESS"; wechat.message := "OK" |}).
Proof.
  intros Hid Hs Hg. unfold wechat.handle.
  rewrite bool_decide_eq_false_2 by done.
  rewrite bool_decide_eq_false_2 by (intros Hc; by apply Hc).
  by rewrite Hg.
Qed.

(** C8 as amended. For a SUCCESS notification naming an existing job, the
    amount the handler expects is the amount recorded on the job in fen,
    or 1 fen when no positive amount is recorded.  If [amount_total]
    differs from it, the handler replies FAIL and leaves the store as it
    was; the update runs only when the two are equal. *)
Theorem notify_amount_check {S : Type} `{CompareJobStore S} (st : S)
    (tx : wechat.wechatpayTransaction) (now : Z) (job : CompareJob) :
  TrimSpace (wechat.OutTradeNo tx) ≠ "" →
  ToUpper (wechat.TradeState tx) = "SUCCESS" →
  Get st (TrimSpace (wechat.OutTradeNo tx)) = Some job →
  wechat.expectedFen job
    = (if 0 <? wechat.recordedFen job then wechat.recordedFen job else 1)
  ∧ (wechat.AmountTotal tx ≠ wechat.expectedFen job →
       wechat.handle st tx now
       = (st, {| wechat.status := 400; wechat.code := "FAIL";
                 wechat.message := "amount mismatch" |}))
  ∧ (wechat.AmountTotal tx = wechat.expectedFen job →
       wechat.handle st tx now
       = ((Update st (TrimSpace (wechat.OutTradeNo tx)) (wechat.notifyMutator now)).1,
          {| wechat.status := 200; wechat.code := "SUCCESS"; wechat.message := "OK" |})).
Proof.
  intros Hid Hs Hg. rewrite (handle_success st tx now job Hid Hs Hg).
  split; [|split].
  - unfold wechat.expectedFen.
    destruct (Z.leb_spec (wechat.recordedFen job) 0), (Z.ltb_spec 0 (wechat.recordedFen job));
      (done || lia).
  - intros Hne. by rewrite bool_decide_eq_true_2.
  - intros He. by rewrite bool_decide_eq_false_2 by (intros Hc; by apply Hc).
Qed.

(** C10. A SUCCESS notification with the expected amount for a job that is
    cancelled and not paid is accepted; afterwards the record has [Paid]
    set and [PaidAt] filled in, its status is still [cancelled], and
    nothing else has changed. *)
Theorem notify_on_cancelled {S : Type} `{CompareJobStoreLaws S} (st : S)
    (tx : wechat.wechatpayTransaction) (now : Z) (job : CompareJob) :
  TrimSpace (wechat.OutTradeNo tx) ≠ "" →
  ToUpper (wechat.TradeState tx) = "SUCCESS" →
  Get st (TrimSpace (wechat.OutTradeNo tx)) = Some job →
  Status job = CompareJobStatusCancelled →
  Paid job = false →
  wechat.AmountTotal tx = wechat.expectedFen job →
  let st' := (wechat.handle st tx now).1 in
  let job' := setPaidAt (Some now) (setPaid true job) in
  (wechat.handle st tx now).2
    = {| wechat.status := 200; wechat.code := "SUCCESS"; wechat.message := "OK" |}
  ∧ Get st' (TrimSpace (wechat.OutTradeNo tx)) = Some job'
  ∧ Paid job' = true ∧ PaidAt job' = Some now
  ∧ Status job' = CompareJobStatusCancelled.
Proof.
  intros Hid Hs Hg Hst Hp He. cbv zeta.
  rewrite (handle_success st tx now job Hid Hs Hg).
  rewrite bool_decide_eq_false_2 by (intros Hc; by apply Hc).
  cbn [fst snd]. split; [done|].
  rewrite Get_Update, Hg. simpl.
  unfold wechat.notifyMutator. rewrite Hp. simpl. rewrite Hst. simpl.
  by rewrite andb_false_r.
Qed.

(** ** C9 *)

(** C9 as amended.  No store reports that a job exists.  On the Redis
    store [Create] writes the document of the job under the key of its id
    only if that key holds none, and a record that is present stays as it
    is, whatever becomes of the command; it returns no error exactly when
    the id is not blank, the job can be encoded and the server answers,
    be the key present or not.  On the in-memory store [Create] stores the
    job under its id, replacing a record that is present, and returns no
    error. *)
Theorem Create_reports_no_exists
    (json_Marshal : compareJobRecord → string + string)
    (s : Wire.RedisCompareJobStore) (job : CompareJob) (o : Wire.Outcome)
    (m : InMemoryCompareJobStore) :
  let r := Wire.Create json_Marshal s job o in
  let k := Wire.key s (domain.ID job) in
  (is_Some (Wire.rdb s !! k) → r.1 = s)
  ∧ (r.1 ≠ s →
       Wire.rdb s !! k = None
       ∧ ∃ doc, json_Marshal (recordFromJob job) = inr doc
                ∧ r.1 = {| Wire.rdb := <[k := doc]> (Wire.rdb s);
                           Wire.keyPrefix := Wire.keyPrefix s |})
  ∧ (∀ doc, TrimSpace (domain.ID job) ≠ "" → json_Marshal (recordFromJob job) = inr doc →
            o = Wire.Answered → Wire.rdb s !! k = None →
            r = ({| Wire.rdb := <[k := doc]> (Wire.rdb s);
                    Wire.keyPrefix := Wire.keyPrefix s |}, None))
  ∧ (r.2 = None
     ↔ TrimSpace (domain.ID job) ≠ ""
       ∧ (∃ doc, json_Marshal (recordFromJob job) = inr doc)
       ∧ o = Wire.Answered)
  ∧ InMemory_Create m job = ({| jobs := <[domain.ID job := job]> (jobs m) |}, None)
  ∧ InMemory_Get (InMemory_Create m job).1 (domain.ID job) = Some job.
Proof.
  cbv zeta. unfold Wire.Create, Wire.SetNX.
  split; [|split; [|split; [|split; [|split]]]].
  - intros [old Hold]. rewrite Hold.
    by repeat case_match.
  - intros Hne.
    case_bool_decide; [done|].
    destruct (json_Marshal (recordFromJob job)) as [e|doc]; [done|].
    destruct (Wire.rdb s !! Wire.key s (domain.ID job)) eqn:Hk.
    + by repeat case_match.
    + split; [done|]. exists doc. split; [done|].
      by repeat case_match.
  - intros doc Hid Hdoc -> Hk. rewrite bool_decide_eq_false_2 by done.
    by rewrite Hdoc, Hk.
  - case_bool_decide as Hid.
    { split; [done|]. by intros [? _]. }
    destruct (json_Marshal (recordFromJob job)) as [e|doc].
    { split; [done|]. by intros (_ & [? ?] & _). }
    destruct o; cbn [snd].
    + split; [|done]. intros _. eauto.
    + split; [done|]. by intros (_ & _ & ?).
  - done.
  - unfold InMemory_Get, InMemory_Create. cbn [fst jobs]. apply lookup_insert_eq.
Qed.

End pipeline.

(** * The job pipeline on sample data *)
Section pipeline_examples.
Import Go domain store streamq spec mutators examples.

Lemma paid_monotone_witness :
  Paid (readyJob "job_1") = true
  ∧ Paid (mutators.apply (Cancel 99) (readyJob "job_1")) = true
  ∧ ∀ (S : Type) `(CompareJobStoreLaws S) (s : S) (id : string),
      Get s id = Some (readyJob "job_1") →
      ∃ j', Get (Update s id (mutators.apply (Cancel 99))).1 id = Some j' ∧ Paid j' = true.
Proof. split; [reflexivity|apply paid_monotone; reflexivity]. Defined.

Lemma handleOne_ack_witness :
  let handler : Handler (W:=unit) := λ _ w, (w, Returned None) in
  let msg := {| streamq.ID := "1-0"; Values := {[ "jobId" := "job_1" ]} |} in
  let pel : PEL := {[ "1-0" ]} in
  let out := (handler (TrimSpace "job_1") tt).2 in
  let pel' := (handleOne handler msg (tt, pel)).2 in
  (streamq.ID msg ∉ pel' ↔
     out = Returned None
     ∨ (∃ e, out = Returned (Some e) ∧ IsTerminal (Some e) = true)
     ∨ (∃ r, out = Panicked r))
  ∧ (∀ e, out = Returned (Some e) → IsTerminal (Some e) = false → pel' = pel).
Proof.
  apply (handleOne_ack (W:=unit) (λ _ w, (w, Returned None))
           {| streamq.ID := "1-0"; Values := {[ "jobId" := "job_1" ]} |} tt {[ "1-0" ]} "job_1").
  - reflexivity.
  - vm_compute. discriminate.
  - vm_compute. discriminate.
  - by apply elem_of_singleton.
Defined.

(** C6, on the code.  A job is cancelled by its user while the compute
    worker is busy; the worker then fails and calls [Worker.fail], whose
    update function does not look at the status: the cancelled job becomes
    [failed].  The paygate worker's [fail] is the same function, and moves
    a [ready] job to [failed] as well. *)
Lemma fail_overwrites_cancelled :
  let st0 := redisWith (freshJob "job_1") in
  let st1 := (compare.handleCancelJob st0 "job_1" None 10).1 in
  let st2 := compare.Worker_fail st1 "job_1" "读取文件1失败" in
  Status <$> Get st1 "job_1" = Some CompareJobStatusCancelled
  ∧ Status <$> Get st2 "job_1" = Some CompareJobStatusFailed
  ∧ Status (mutators.apply (ComputeFail "读取文件1失败") (cancelledJob "job_1"))
    = CompareJobStatusFailed
  ∧ Status (readyJob "job_1") = CompareJobStatusReady
  ∧ Status (mutators.apply (PaygateFail "创建微信支付订单失败") (readyJob "job_1"))
    = CompareJobStatusFailed.
Proof. vm_compute. done. Qed.

(** C8 as stated fails on a job with no recorded amount: the recorded
    amount is 0 fen and the notification carries 1 fen, yet the handler
    replies SUCCESS and marks the job paid. *)
Lemma notify_unrecorded_amount_accepted :
  let st := redisWith (freshJob "job_1") in
  let tx := successTx "job_1" 1 in
  Get st "job_1" = Some (freshJob "job_1")
  ∧ wechat.recordedFen (freshJob "job_1") = 0
  ∧ wechat.AmountTotal tx = 1
  ∧ (wechat.handle (H:=exampleTables) st tx 30).2
    = {| wechat.status := 200; wechat.code := "SUCCESS"; wechat.message := "OK" |}
  ∧ Get (wechat.handle (H:=exampleTables) st tx 30).1 "job_1"
    = Some (setPaidAt (Some 30) (setPaid true (freshJob "job_1"))).
Proof. vm_compute. done. Qed.

Lemma notify_amount_check_witness :
  let st := redisWith (awaitingJob "job_1") in
  let tx := successTx "job_1" 4 in
  let job := awaitingJob "job_1" in
  wechat.expectedFen job
    = (if 0 <? wechat.recordedFen job then wechat.recordedFen job else 1)
  ∧ (wechat.AmountTotal tx ≠ wechat.expectedFen job →
       wechat.handle (H:=exampleTables) st tx 30
       = (st, {| wechat.status := 400; wechat.code := "FAIL";
                 wechat.message := "amount mismatch" |}))
  ∧ (wechat.AmountTotal tx = wechat.expectedFen job →
       wechat.handle (H:=exampleTables) st tx 30
       = ((Update st (TrimSpace (wechat.OutTradeNo tx)) (wechat.notifyMutator 30)).1,
          {| wechat.status := 200; wechat.code := "SUCCESS"; wechat.message := "OK" |})).
Proof.
  apply (notify_amount_check (H:=exampleTables) (redisWith (awaitingJob "job_1"))
           (successTx "job_1" 4) 30 (awaitingJob "job_1")).
  - vm_compute. discriminate.
  - vm_compute. reflexivity.
  - vm_compute. reflexivity.
Defined.

Lemma notify_on_cancelled_witness :
  let st := redisWith (cancelledJob "job_1") in
  let tx := successTx "job_1" 1 in
  let job := cancelledJob "job_1" in
  let st' := (wechat.handle (H:=exampleTables) st tx 30).1 in
  let job' := setPaidAt (Some 30) (setPaid true job) in
  (wechat.handle (H:=exampleTables) st tx 30).2
    = {| wechat.status := 200; wechat.code := "SUCCESS"; wechat.message := "OK" |}
  ∧ Get st' (TrimSpace (wechat.OutTradeNo tx)) = Some job'
  ∧ Paid job' = true ∧ PaidAt job' = Some 30
  ∧ Status job' = CompareJobStatusCancelled.
Proof.
  apply (notify_on_cancelled (H:=exampleTables) (redisWith (cancelledJob "job_1"))
           (successTx "job_1" 1) 30 (cancelledJob "job_1")).
  - vm_compute. discriminate.
  - vm_compute. reflexivity.
  - vm_compute. reflexivity.
  - reflexivity.
  - reflexivity.
  - vm_compute. reflexivity.
Defined.

(** C9 as stated fails on both stores.  On the Redis store, creating a
    job under an id whose key holds a record returns no error (and changes
    nothing), whatever document the encoder makes of the job.  On the
    in-memory store it returns no error either, and the record that was
    there is replaced. *)
Lemma Create_existing_returns_no_error :
  (∀ json_Marshal doc,
     json_Marshal (recordFromJob (freshJob "job_1")) = inr doc →
     let st := {| Wire.rdb := {[ "gy:comparejob:job_1" := "{}" ]};
                  Wire.keyPrefix := "gy:comparejob:" |} in
     Wire.Create json_Marshal st (freshJob "job_1") Wire.Answered = (st, None))
  ∧ (let st := {| jobs := {[ "job_1" := readyJob "job_1" ]} |} in
     InMemory_Get st "job_1" = Some (readyJob "job_1")
     ∧ InMemory_Create st (freshJob "job_1")
       = ({| jobs := {[ "job_1" := freshJob "job_1" ]} |}, None)).
Proof.
  split.
  - intros json_Marshal doc Hdoc. cbv zeta. unfold Wire.Create.
    rewrite bool_decide_eq_false_2 by (by vm_compute). by rewrite Hdoc.
  - by vm_compute.
Qed.

End pipeline_examples.

(** * Facts about the text functions *)

(** ** UTF-8 decoding and [TrimSpace] *)
Section utf8_facts.
Import Go spec.

Lemma byte_val_range (c : ascii) : is_byte (byte_val c).
Proof.
  unfold is_byte, byte_val. pose proof (N_ascii_bounded c). lia.
Qed.

Lemma byte_val_of (z : Z) : is_byte z → byte_val (byte_of z) = z.
Proof.
  intros Hz. unfold byte_val, byte_of.
  rewrite N_ascii_embedding by (unfold is_byte in Hz; lia).
  unfold is_byte in Hz. lia.
Qed.

Lemma string_bytes_range (s : string) : Forall is_byte (string_bytes s).
Proof.
  unfold string_bytes. induction s as [|c s IH]; simpl; constructor; auto using byte_val_range.
Qed.

Lemma string_bytes_of (l : list Z) : Forall is_byte l → string_bytes (bytes_string l) = l.
Proof.
  intros Hl. unfold string_bytes, bytes_string.
  rewrite list_ascii_of_string_of_list_ascii.
  induction Hl as [|b l Hb _ IH]; [done|].
  by rewrite !fmap_cons, byte_val_of, IH.
Qed.

Lemma bytes_string_of (s : string) : bytes_string (string_bytes s) = s.
Proof.
  unfold string_bytes, bytes_string.
  rewrite <- list_fmap_compose.
  rewrite <- (string_of_list_ascii_of_string s) at 2. f_equal.
  induction (list_ascii_of_string s) as [|c l IH]; [done|].
  rewrite fmap_cons, IH. simpl. by rewrite byte_of_val.
Qed.

Lemma DecodeRune_size (b : Z) (r : list Z) :
  (1 <= (DecodeRune (b :: r)).2 <= 4)%nat.
Proof.
  unfold DecodeRune. repeat case_match; simpl; lia.
Qed.

Lemma DecodeRune_take (m : nat) (l : list Z) :
  (1 <= m)%nat →
  DecodeRune (take m l) = DecodeRune l ∨ DecodeRune (take m l) = (RuneError, 1%nat).
Proof.
  intros Hm.
  destruct l as [|b0 [|b1 [|b2 [|b3 t]]]];
    destruct m as [|[|[|[|m]]]]; try lia; simpl; auto;
    repeat case_match; auto.
Qed.

Lemma DecodeLastRune_size (bs : list Z) :
  bs ≠ [] → (1 <= (DecodeLastRune bs).2 <= length bs)%nat.
Proof.
  intros Hbs. assert (1 <= length bs)%nat by (destruct bs; simpl; [done|lia]).
  unfold DecodeLastRune.
  destruct (last bs) as [b|] eqn:El; [|by apply last_None in El].
  repeat (case_match; simplify_eq; simpl; try lia);
    repeat match goal with
           | H : (_ <=? _)%nat = true |- _ => apply Nat.leb_le in H
           | H : (_ =? _)%nat = true |- _ => apply Nat.eqb_eq in H
           end; lia.
Qed.

Lemma IsSpace_RuneError : IsSpace RuneError = false.
Proof. reflexivity. Qed.

Lemma trimLeft_fuel_trimmed (fuel : nat) (bs : list Z) :
  (length bs <= fuel)%nat → left_trimmed (trimLeft_fuel fuel bs).
Proof.
  revert bs. induction fuel as [|f IH]; intros bs Hl.
  - destruct bs; simpl in *; [by left|lia].
  - destruct bs as [|b r]; [by left|].
    cbn [trimLeft_fuel].
    destruct (DecodeRune (b :: r)) as [c size] eqn:Ed.
    destruct (IsSpace c) eqn:Es.
    + apply IH. pose proof (DecodeRune_size b r) as Hs. rewrite Ed in Hs. simpl in Hs.
      rewrite length_drop. simpl in *. lia.
    + right. by rewrite Ed.
Qed.

Lemma trimLeft_fuel_fix (fuel : nat) (bs : list Z) :
  left_trimmed bs → trimLeft_fuel fuel bs = bs.
Proof.
  intros [->|Hs]; [by destruct fuel|].
  destruct fuel as [|f]; [done|]. destruct bs as [|b r]; [done|].
  cbn [trimLeft_fuel]. destruct (DecodeRune (b :: r)) as [c size]. simpl in Hs. by rewrite Hs.
Qed.

Lemma trimRight_fuel_trimmed (fuel : nat) (bs : list Z) :
  (length bs <= fuel)%nat → right_trimmed (trimRight_fuel fuel bs).
Proof.
  revert bs. induction fuel as [|f IH]; intros bs Hl.
  - destruct bs; simpl in *; [by left|lia].
  - destruct bs as [|b r]; [by left|].
    cbn [trimRight_fuel].
    destruct (DecodeLastRune (b :: r)) as [c size] eqn:Ed.
    destruct (IsSpace c) eqn:Es.
    + apply IH. pose proof (DecodeLastRune_size (b :: r)) as Hs. rewrite Ed in Hs.
      cbn [snd] in Hs. specialize (Hs ltac:(done)). rewrite length_take. lia.
    + right. by rewrite Ed.
Qed.

Lemma trimRight_fuel_fix (fuel : nat) (bs : list Z) :
  right_trimmed bs → trimRight_fuel fuel bs = bs.
Proof.
  intros [->|Hs]; [by destruct fuel|].
  destruct fuel as [|f]; [done|]. destruct bs as [|b r]; [done|].
  cbn [trimRight_fuel]. destruct (DecodeLastRune (b :: r)) as [c size]. simpl in Hs.
  by rewrite Hs.
Qed.

Lemma trimRight_fuel_take (fuel : nat) (bs : list Z) :
  ∃ m, trimRight_fuel fuel bs = take m bs.
Proof.
  revert bs. induction fuel as [|f IH]; intros bs.
  - exists (length bs). by rewrite firstn_all.
  - destruct bs as [|b r]; [by exists 0%nat|].
    cbn [trimRight_fuel]. destruct (DecodeLastRune (b :: r)) as [c size].
    destruct (IsSpace c).
    + destruct (IH (take (length (b :: r) - size) (b :: r))) as [m ->].
      rewrite take_take. eauto.
    + exists (length (b :: r)). by rewrite firstn_all.
Qed.

Lemma trimRight_fuel_left_trimmed (fuel : nat) (bs : list Z) :
  left_trimmed bs → left_trimmed (trimRight_fuel fuel bs).
Proof.
  intros [->|Hs]; [left; by destruct fuel|].
  destruct (trimRight_fuel_take fuel bs) as [m ->].
  destruct m as [|m]; [by left|].
  right. destruct (DecodeRune_take (S m) bs) as [-> | ->]; [lia|done|done].
Qed.

Lemma trim_range_left (fuel : nat) (bs : list Z) :
  Forall is_byte bs → Forall is_byte (trimLeft_fuel fuel bs).
Proof.
  revert bs. induction fuel as [|f IH]; intros bs Hb; [by destruct bs|].
  destruct bs as [|b r]; [done|]. cbn [trimLeft_fuel].
  destruct (DecodeRune (b :: r)) as [c size]. destruct (IsSpace c); [|done].
  apply IH. by apply Forall_drop.
Qed.

Lemma trim_range_right (fuel : nat) (bs : list Z) :
  Forall is_byte bs → Forall is_byte (trimRight_fuel fuel bs).
Proof.
  intros Hb. destruct (trimRight_fuel_take fuel bs) as [m ->]. by apply Forall_take.
Qed.

(** The bytes of [TrimSpace s]. *)
Lemma TrimSpace_bytes (s : string) :
  let bs := string_bytes s in
  let l := trimLeft_fuel (length bs) bs in
  string_bytes (TrimSpace s) = trimRight_fuel (length l) l.
Proof.
  intros bs l. unfold TrimSpace. apply string_bytes_of.
  apply trim_range_right, trim_range_left, string_bytes_range.
Qed.

Lemma TrimSpace_trimmed (s : string) :
  left_trimmed (string_bytes (TrimSpace s)) ∧ right_trimmed (string_bytes (TrimSpace s)).
Proof.
  rewrite TrimSpace_bytes. split.
  - apply trimRight_fuel_left_trimmed, trimLeft_fuel_trimmed. lia.
  - apply trimRight_fuel_trimmed. lia.
Qed.

Lemma TrimSpace_fix (s : string) :
  left_trimmed (string_bytes s) → right_trimmed (string_bytes s) → TrimSpace s = s.
Proof.
  intros Hl Hr. unfold TrimSpace.
  rewrite (trimLeft_fuel_fix _ _ Hl), (trimRight_fuel_fix _ _ Hr).
  apply bytes_string_of.
Qed.

Lemma TrimSpace_idemp (s : string) : TrimSpace (TrimSpace s) = TrimSpace s.
Proof. destruct (TrimSpace_trimmed s). by apply TrimSpace_fix. Qed.

Lemma TrimSpace_empty : TrimSpace "" = "".
Proof. reflexivity. Qed.

End utf8_facts.

(** ** Decimal numerals and the normalization *)
Section format_facts.
Import Go excelcmp spec.
Context `{GoTables}.

Lemma pretty_N_char_digit (x : N) : isDigitByte (pretty_N_char x) = true.
Proof. unfold pretty_N_char. by repeat case_match. Qed.

Lemma pretty_N_go_numeral (x : N) (s : string) :
  string_forallb isNumeralByte s = true →
  string_forallb isNumeralByte (pretty_N_go x s) = true.
Proof.
  revert s. induction (N.lt_wf_0 x) as [x _ IH]; intros s Hs.
  destruct (decide (x = 0%N)) as [->|Hx]; [by rewrite pretty_N_go_0|].
  rewrite pretty_N_go_step by lia. apply IH.
  - apply N.div_lt; lia.
  - simpl. rewrite Hs, andb_true_r. unfold isNumeralByte.
    by rewrite pretty_N_char_digit.
Qed.

Lemma FormatInt_numeral (i : Z) : string_forallb isNumeralByte (FormatInt i) = true.
Proof.
  unfold FormatInt, pretty, pretty_Z.
  assert (∀ n : N, string_forallb isNumeralByte (pretty n) = true) as HN.
  { intros n. unfold pretty, pretty_N. case_decide; [done|]. by apply pretty_N_go_numeral. }
  destruct i as [|p|p]; [done|apply (HN (Npos p))|].
  rewrite string_app_cons, string_app_nil_l. simpl. apply (HN (Npos p)).
Qed.

Lemma string_forallb_bytes (p : ascii → bool) (s : string) :
  string_forallb p s = true → Forall (λ b, ∃ c, b = byte_val c ∧ p c = true) (string_bytes s).
Proof.
  unfold string_bytes. induction s as [|c s IH]; [constructor|].
  cbn [string_forallb list_ascii_of_string].
  intros [Hc Hs]%andb_true_iff. rewrite fmap_cons. constructor; eauto.
Qed.

Lemma numeral_bytes (s : string) :
  string_forallb isNumeralByte s = true →
  Forall (λ b, b = 45 ∨ 48 ≤ b ≤ 57) (string_bytes s).
Proof.
  intros Hs. eapply Forall_impl; [by apply string_forallb_bytes|].
  intros b (c & -> & Hc). unfold isNumeralByte, isDigitByte in Hc.
  apply orb_true_iff in Hc as [Hc|Hc].
  - right. lia.
  - left. apply bool_decide_eq_true in Hc. by subst.
Qed.

Lemma numeral_TrimSpace (s : string) :
  string_forallb isNumeralByte s = true → TrimSpace s = s.
Proof.
  intros Hs%numeral_bytes. apply TrimSpace_fix.
  - destruct (string_bytes s) as [|b r] eqn:Eb; [by left|]. right.
    apply Forall_cons in Hs as [Hb _]. unfold DecodeRune.
    replace (b <? RuneSelf) with true by (unfold RuneSelf; lia). simpl.
    unfold IsSpace, inRange. lia.
  - destruct (string_bytes s) as [|b0 r] eqn:Eb; [by left|]. right.
    unfold DecodeLastRune.
    destruct (last (b0 :: r)) as [b|] eqn:El; [|by apply last_None in El].
    assert (b = 45 ∨ 48 ≤ b ≤ 57) as Hb.
    { apply last_Some in El as [l' El].
      rewrite El, Forall_app, Forall_singleton in Hs. by destruct Hs. }
    replace (b <? RuneSelf) with true by (unfold RuneSelf; lia). simpl.
    unfold IsSpace, inRange. lia.
Qed.

Lemma numeral_ToLower (s : string) :
  string_forallb isNumeralByte s = true → ToLower s = s.
Proof.
  intros Hs%numeral_bytes. unfold ToLower.
  assert (forallb (λ b, b <? RuneSelf) (string_bytes s) = true) as ->.
  { induction Hs as [|b l Hb _ IH]; [done|]. cbn [forallb]. rewrite IH, andb_true_r.
    unfold RuneSelf. lia. }
  rewrite <- (bytes_string_of s) at 2. f_equal.
  induction Hs as [|b l Hb _ IH]; [done|]. rewrite fmap_cons, IH. f_equal.
  unfold asciiLower, inRange. destruct Hb; case_match; lia.
Qed.

Lemma numeral_not_looksLike (s : string) :
  string_forallb isNumeralByte s = true → looksLikeIntegerFloatString s = false.
Proof.
  intros Hs. apply not_true_is_false. intros (sg & ds & zs & -> & _)%looksLike_iff.
  rewrite !string_forallb_app in Hs. simpl in Hs.
  by rewrite !andb_false_r in Hs.
Qed.

Lemma normalize_FormatInt (i : Z) :
  normalizeScalarForCompare (FormatInt i) = FormatInt i.
Proof.
  pose proof (FormatInt_numeral i) as Hn. unfold normalizeScalarForCompare.
  rewrite (numeral_TrimSpace _ Hn), (numeral_ToLower _ Hn), (numeral_not_looksLike _ Hn).
  case_bool_decide as He; [done|].
  case_bool_decide as Hl; [|done].
  exfalso. destruct Hl as [Hl|[Hl|Hl]]; rewrite Hl in Hn; done.
Qed.

Lemma normalize_TrimSpace (v : string) :
  normalizeScalarForCompare (TrimSpace v) = normalizeScalarForCompare v.
Proof. unfold normalizeScalarForCompare. by rewrite TrimSpace_idemp. Qed.

Lemma normalize_result (v : string) :
  normalizeScalarForCompare v = ""
  ∨ normalizeScalarForCompare v = TrimSpace v
  ∨ ∃ i, normalizeScalarForCompare v = FormatInt i.
Proof.
  unfold normalizeScalarForCompare. repeat case_match; eauto.
Qed.

(** X1. Scalar normalization is idempotent: normalizing a normalized value
    changes nothing, so the keys of the row maps and the cells compared are
    fixed points. *)
Theorem normalizeScalarForCompare_idempotent (v : string) :
  normalizeScalarForCompare (normalizeScalarForCompare v) = normalizeScalarForCompare v.
Proof.
  destruct (normalize_result v) as [Hr|[Hr|[i Hr]]]; rewrite Hr at 1.
  - by rewrite Hr.
  - by apply normalize_TrimSpace.
  - by rewrite normalize_FormatInt.
Qed.

End format_facts.

(** * Further properties of the job pipeline *)
Section pipeline_more.
Import Go domain store streamq spec mutators.
Context `{GoTables}.

(** ** The job store *)

(** A job survives the way through its stored document: [recordFromJob]
    and [jobFromRecord] are inverse to each other, no field is lost or
    mixed up. *)
Theorem record_roundtrip (j : CompareJob) (r : compareJobRecord) :
  jobFromRecord (recordFromJob j) = j ∧ recordFromJob (jobFromRecord r) = r.
Proof. by destruct j, r. Qed.

Lemma Redis_key_inj (s : RedisCompareJobStore) (a b : string) :
  key s a = key s b → TrimSpace a = TrimSpace b.
Proof. unfold key. apply (inj (String.app (keyPrefix s))). Qed.

(** X2. The Redis store finds what [Create] has put there, and it takes
    identifiers up to surrounding white space.  When [Create] has written
    the document of a job with a non-blank identifier under a key that
    held none, [Get] returns, also under the padded identifier, what the
    decoder makes of that document: the job itself if the document decodes
    to the record it was made from, the decoder's error if it does not
    decode.  [Get] depends on the trimmed identifier only, and a blank
    identifier finds nothing. *)
Theorem Redis_Create_Get
    (json_Marshal : compareJobRecord → string + string)
    (json_Unmarshal : string → string + compareJobRecord)
    (s : Wire.RedisCompareJobStore) (job : CompareJob) (id doc : string) :
  TrimSpace (domain.ID job) ≠ "" →
  Wire.rdb s !! Wire.key s (domain.ID job) = None →
  json_Marshal (recordFromJob job) = inr doc →
  TrimSpace id = TrimSpace (domain.ID job) →
  let s' := (Wire.Create json_Marshal s job Wire.Answered).1 in
  Wire.Get json_Unmarshal s' id None
  = match json_Unmarshal doc with
    | inr rec => (Some (jobFromRecord rec), None)
    | inl err => (None, Some err)
    end
  ∧ (json_Unmarshal doc = inr (recordFromJob job) →
     Wire.Get json_Unmarshal s' id None = (Some job, None))
  ∧ (∀ s0 cmdErr, Wire.Get json_Unmarshal s0 id cmdErr
                  = Wire.Get json_Unmarshal s0 (TrimSpace id) cmdErr)
  ∧ (∀ s0 blank cmdErr, TrimSpace blank = "" →
       Wire.Get json_Unmarshal s0 blank cmdErr = (None, None)).
Proof.
  intros Hid Hnone Hdoc Heq. cbv zeta.
  assert (Wire.Get json_Unmarshal (Wire.Create json_Marshal s job Wire.Answered).1 id None
          = match json_Unmarshal doc with
            | inr rec => (Some (jobFromRecord rec), None)
            | inl err => (None, Some err)
            end) as Hget.
  { unfold Wire.Get, Wire.Create, Wire.SetNX.
    rewrite (bool_decide_eq_false_2 (TrimSpace (domain.ID job) = "")) by done.
    rewrite Hdoc, Hnone. cbn [fst].
    rewrite Heq, bool_decide_eq_false_2 by done.
    unfold Wire.key. cbn [Wire.rdb Wire.keyPrefix]. rewrite TrimSpace_idemp.
    rewrite lookup_insert_eq. by destruct (json_Unmarshal doc). }
  split; [exact Hget|]. split; [|split].
  - intros Hrt. rewrite Hget, Hrt. by destruct job.
  - intros s0 cmdErr. unfold Wire.Get, Wire.key. by rewrite !TrimSpace_idemp.
  - intros s0 blank cmdErr Hb. unfold Wire.Get. by rewrite Hb.
Qed.

(** X3. Both stores keep the jobs apart: [Update] and [Create] for one
    identifier leave what [Get] finds under any other identifier as it
    was (identifiers that differ after trimming, which is how the Redis
    store tells them apart). *)
Theorem store_frame (m : InMemoryCompareJobStore) (s : RedisCompareJobStore)
    (id id' : string) (fn : CompareJob → CompareJob) (job : CompareJob) :
  TrimSpace id' ≠ TrimSpace id →
  TrimSpace id' ≠ TrimSpace (domain.ID job) →
  InMemory_Get (InMemory_Update m id fn).1 id' = InMemory_Get m id'
  ∧ InMemory_Get (InMemory_Create m job).1 id' = InMemory_Get m id'
  ∧ Redis_Get (Redis_Update s id fn).1 id' = Redis_Get s id'
  ∧ Redis_Get (Redis_Create s job).1 id' = Redis_Get s id'.
Proof.
  intros Hne Hne'.
  assert (id' ≠ id) as Hi by (by intros ->).
  assert (id' ≠ domain.ID job) as Hi' by (by intros ->).
  split; [|split; [|split]].
  - unfold InMemory_Get, InMemory_Update. destruct (jobs m !! id); [|done].
    cbn [fst jobs]. by rewrite lookup_insert_ne.
  - unfold InMemory_Get, InMemory_Create. cbn [fst jobs]. by rewrite lookup_insert_ne.
  - unfold Redis_Get, Redis_Update.
    destruct (bool_decide (TrimSpace id' = "")); [by repeat case_match|].
    destruct (bool_decide (TrimSpace id = "")); [done|].
    destruct (rdb s !! key s (TrimSpace id)); [|done]. cbn [fst rdb].
    unfold key at 1 3. cbn [keyPrefix]. fold (key s (TrimSpace id)) (key s (TrimSpace id')).
    rewrite lookup_insert_ne; [done|].
    intros Hk%Redis_key_inj. rewrite !TrimSpace_idemp in Hk. done.
  - unfold Redis_Get, Redis_Create, SetNX.
    destruct (bool_decide (TrimSpace id' = "")); [by repeat case_match|].
    destruct (bool_decide (TrimSpace (domain.ID job) = "")); [done|].
    destruct (rdb s !! key s (domain.ID job)); [done|]. cbn [fst rdb].
    unfold key at 1 3. cbn [keyPrefix]. fold (key s (domain.ID job)) (key s (TrimSpace id')).
    rewrite lookup_insert_ne; [done|].
    intros Hk%Redis_key_inj. rewrite !TrimSpace_idemp in Hk. done.
Qed.

(** ** The update functions *)

Local Ltac unfold_mutators :=
  unfold compare.processingMutator, compare.resultMutator, compare.failMutator,
    paygate.paidMutator, paygate.freeMutator, paygate.awaitingMutator,
    paygate.failMutator, paygate.release, compare.cancelMutator,
    compare.taskPathsMutator, compare.taskResultMutator, compare.taskPaidMutator,
    compare.taskFreeMutator, compare.taskOrderFailedMutator,
    compare.taskAwaitingMutator, compare.withResult, wechat.notifyMutator in *.

(** X4. Which update functions keep a cancelled job cancelled: all of them
    except those that assign the status without looking at it (the three
    failure functions of the workers and the intake, and the failure and
    paid-release functions of the in-process task). *)
Theorem cancelled_kept (m : Mutator) (j : CompareJob) :
  Status j = CompareJobStatusCancelled →
  (Status (mutators.apply m j) = CompareJobStatusCancelled ↔ assignsStatus m = false).
Proof.
  intros Hs. destruct m; simpl; unfold_mutators; rewrite ?Hs; simpl;
    repeat (case_match; simpl; try rewrite Hs); simplify_eq; split; try done.
  match goal with
  | H1 : _ && _ = true |- _ => simpl in H1; by rewrite andb_false_r in H1
  end.
Qed.

(** X5. No update function produces a job that is paid and still awaiting
    payment: the order is only recorded on unpaid jobs, and whoever marks
    a job paid moves it out of [awaiting_payment]. *)
Theorem paid_not_awaiting_kept (m : Mutator) (j : CompareJob) :
  paid_not_awaiting j → paid_not_awaiting (mutators.apply m j).
Proof.
  unfold paid_not_awaiting. intros Hj.
  destruct m; simpl; unfold_mutators;
    repeat (case_match; simpl in *; try case_bool_decide; simplify_eq; try done);
    try (intros Hp; specialize (Hj Hp); congruence); try congruence; eauto.
  all: simpl in *; congruence.
Qed.

End pipeline_more.

(** ** The handlers on any store *)

(** Nothing is assumed of the store here: a [Get] that finds nothing also
    stands for a load that fails where the handler drops its error, and
    [Update] may find what [Get] did not. *)
Section handlers_any_store.
Import Go domain store streamq spec mutators.
Context `{GoTables} {S : Type} `{CompareJobStore S}.

(** X6. The notify handler touches the store only by the one [Update] of
    the named job with the payment function, and only for a notification
    that names a job, reports the trade state SUCCESS and, if the load of
    the handler returns the job, carries its expected amount; it then
    answers SUCCESS.  A blank [out_trade_no], another trade state, or an
    amount other than the one expected of the loaded job leave the store
    as it was.  When the load returns no job (there is none, or the load
    fails: its error is dropped), the amount is not looked at. *)
Theorem notify_changes_only_on_success (st : S) (tx : wechat.wechatpayTransaction)
    (now : Z) :
  (wechat.handle st tx now).1 ≠ st →
  let jobID := TrimSpace (wechat.OutTradeNo tx) in
  jobID ≠ ""
  ∧ ToUpper (wechat.TradeState tx) = "SUCCESS"
  ∧ (∀ job, Get st jobID = Some job → wechat.AmountTotal tx = wechat.expectedFen job)
  ∧ (wechat.handle st tx now).1 = (Update st jobID (wechat.notifyMutator now)).1
  ∧ (wechat.handle st tx now).2
    = {| wechat.status := 200; wechat.code := "SUCCESS"; wechat.message := "OK" |}.
Proof.
  cbv zeta. unfold wechat.handle.
  case_bool_decide as Hid; [done|].
  case_bool_decide as Hs; [done|].
  assert (ToUpper (wechat.TradeState tx) = "SUCCESS") as Hs'
    by (by destruct (decide (ToUpper (wechat.TradeState tx) = "SUCCESS"))).
  destruct (Get st (TrimSpace (wechat.OutTradeNo tx))) as [job|] eqn:Hg.
  - case_bool_decide as Ha; [done|]. intros _.
    split; [done|]. split; [done|]. split; [|done].
    intros job' [= <-].
    by destruct (decide (wechat.AmountTotal tx = wechat.expectedFen job)).
  - intros _. done.
Qed.

(** X9. What a cancel request does to the store.  Every answer other than
    200 leaves the store as it was.  The store is touched only by the one
    [Update] with the cancel function, only after the load has returned
    the job unpaid, not released and not yet cancelled, and, for a job
    that awaits payment, only after its order has been closed.  The cancel
    function leaves a paid job as it is, so a job that is paid between the
    load and the update is not cancelled although the answer is 200;
    an unpaid job is marked cancelled at the time of the request. *)
Theorem cancel_outcome (getErr : option string) (during : S → S) (st : S)
    (jobID : string) (closeErr : option string) (now : Z) :
  let r := compare.handleCancelJobWith getErr during st jobID closeErr now in
  (r.2 ≠ 200 → r.1 = st)
  ∧ (r.1 ≠ st →
       r.2 = 200 ∧ getErr = None
       ∧ r.1 = (Update (during st) jobID (compare.cancelMutator now)).1
       ∧ ∃ job, Get st jobID = Some job ∧ Paid job = false
                ∧ Status job ≠ CompareJobStatusCancelled
                ∧ Status job ≠ CompareJobStatusReady
                ∧ (Status job = CompareJobStatusAwaitingPayment → closeErr = None))
  ∧ (∀ j, Paid j = true → compare.cancelMutator now j = j)
  ∧ (∀ j, Paid j = false →
          compare.cancelMutator now j
          = setCancelledAt (Some now) (setStatus CompareJobStatusCancelled j))
  ∧ compare.handleCancelJob st jobID closeErr now
    = compare.handleCancelJobWith None (λ s, s) st jobID closeErr now.
Proof.
  cbv zeta. unfold compare.handleCancelJobWith, compare.handleCancelJob.
  split; [|split; [|split; [|split]]].
  - repeat case_match; cbn [fst snd]; try done.
  - destruct getErr; [done|].
    destruct (Get st jobID) as [job|] eqn:Hg; [|done].
    case_bool_decide as Hc; [done|].
    destruct (Paid job) eqn:Hp; [done|]. cbn [orb].
    case_bool_decide as Hr; [done|].
    destruct (bool_decide (Status job = CompareJobStatusAwaitingPayment)
              && bool_decide (closeErr ≠ None)) eqn:Hw; [done|].
    intros _. cbn [fst snd]. do 3 (split; [done|]).
    exists job. do 4 (split; [done|]).
    intros Ha. rewrite (bool_decide_eq_true_2 _ Ha) in Hw. cbn in Hw.
    apply bool_decide_eq_false in Hw. by destruct closeErr; [destruct Hw|].
  - intros j Hp. unfold compare.cancelMutator. by rewrite Hp.
  - intros j Hp. unfold compare.cancelMutator. by rewrite Hp.
  - done.
Qed.

End handlers_any_store.

(** ** The handlers on a lawful store *)
Section handlers.
Import Go domain store streamq spec mutators.
Context `{GoTables} {S : Type} `{CompareJobStoreLaws S}.

(** X7. Payment comes before the download: [handleDownloadExport] hands out
    the result (as a link, a redirection or the file) only for a job that
    is paid, [ready] and has a result. *)
Theorem download_requires_payment (st : S) (jobID : string) (ossEnabled : bool)
    (SignDownloadURL : string → option string) (Stat : string → bool)
    (wantsJSON : bool) (urlPath : string) :
  match compare.handleDownloadExport st jobID ossEnabled SignDownloadURL Stat
          wantsJSON urlPath with
  | compare.DownloadError _ _ => True
  | _ => ∃ job, Get st jobID = Some job ∧ Paid job = true
                ∧ Status job = CompareJobStatusReady ∧ compare.hasResult job = true
  end.
Proof.
  unfold compare.handleDownloadExport.
  destruct (Get st jobID) as [job|]; [|done].
  case_bool_decide; [done|].
  destruct (Paid job) eqn:Hp; [|done]. cbn [negb orb].
  case_bool_decide as Hr; [done|]. cbn [orb].
  destruct (compare.hasResult job) eqn:Hh; [|done]. cbn [negb].
  repeat case_match; eauto 10.
Qed.

(** X8. A paid and released job whose result lies in the object store can
    be downloaded: the answer carries the signed address, as a JSON object
    when the request asks for one and as a redirection otherwise. *)
Theorem download_of_released_job (st : S) (jobID : string)
    (SignDownloadURL : string → option string) (Stat : string → bool)
    (wantsJSON : bool) (urlPath : string) (job : CompareJob) (signed : string) :
  Get st jobID = Some job →
  Paid job = true → Status job = CompareJobStatusReady →
  TrimSpace (ResultOSSKey job) ≠ "" →
  SignDownloadURL (ResultOSSKey job) = Some signed →
  compare.handleDownloadExport st jobID true SignDownloadURL Stat wantsJSON urlPath
  = if wantsJSON then compare.DownloadJSON signed "比对结果.xlsx"
    else compare.DownloadRedirect signed.
Proof.
  intros Hg Hp Hs Hk Hsign. unfold compare.handleDownloadExport, compare.hasResult.
  rewrite Hg, Hp, Hs, Hsign.
  rewrite (bool_decide_eq_false_2 (TrimSpace _ = "")) by done.
  assert (ResultOSSKey job ≠ "") by (by intros Hx; rewrite Hx in Hk).
  rewrite (bool_decide_eq_true_2 (ResultOSSKey job ≠ "")) by done.
  done.
Qed.

(** X10. What polling shows: the view of [handleGetJob] never shows a paid
    job with a result as awaiting payment, it carries the amount and the
    code URL exactly when it shows [awaiting_payment], and for a job that
    is not at once paid and awaiting payment (no update function produces
    such a job) the status shown is the stored one. *)
Theorem job_view (st : S) (jobID : string) (job : CompareJob) :
  Get st jobID = Some job →
  ∃ v, compare.handleGetJob st jobID = (200, Some v)
       ∧ compare.view_paid v = Paid job
       ∧ (Paid job && compare.hasResult job = true
          → compare.view_status v ≠ CompareJobStatusAwaitingPayment)
       ∧ (is_Some (compare.view_code_url v)
          ↔ compare.view_status v = CompareJobStatusAwaitingPayment)
       ∧ (is_Some (compare.view_amount v)
          ↔ compare.view_status v = CompareJobStatusAwaitingPayment)
       ∧ (is_Some (compare.view_error v) → Status job = CompareJobStatusFailed)
       ∧ (paid_not_awaiting job → compare.view_status v = Status job).
Proof.
  intros Hg. unfold compare.handleGetJob. rewrite Hg. eexists. split; [done|].
  cbn [compare.view_paid compare.view_status compare.view_code_url compare.view_amount
       compare.view_error].
  unfold paid_not_awaiting.
  destruct (Status job) eqn:Es, (Paid job) eqn:Ep, (compare.hasResult job) eqn:Eh; cbn;
    (split; [done|]); (split; [done|]);
    (split; [split; (done || (by intros [? ?]) || eauto)|]);
    (split; [split; (done || (by intros [? ?]) || eauto)|]);
    (split; [done || (by intros [? ?])|]);
    try done.
  intros Hx. by destruct (Hx eq_refl).
Qed.

End handlers.

(** ** The stream consumer *)
Section consumer_more.
Import Go domain store streamq spec.
Context {W : Type}.

(** X11. A message without a [jobId], or with a blank one, is poison: the
    consumer acknowledges it and does not run the handler. *)
Theorem handleOne_poison (handler : Handler (W:=W)) (msg : XMessage) (w : W) (pel : PEL) :
  TrimSpace (default "" (Values msg !! "jobId")) = "" →
  TrimSpace (streamq.ID msg) ≠ "" →
  handleOne handler msg (w, pel) = (w, pel ∖ {[streamq.ID msg]}).
Proof.
  intros Hv Hid. unfold handleOne, ack. cbn [fst snd].
  rewrite (bool_decide_eq_false_2 (TrimSpace (streamq.ID msg) = "")) by done.
  destruct (Values msg !! "jobId") as [v|]; [|done].
  cbn [default] in Hv. by rewrite bool_decide_eq_true_2.
Qed.

(** X12. [Enqueue] refuses a blank job identifier and a blank stream name
    without touching the stream; otherwise it appends one entry, and the
    consumer that reads this entry runs the handler on the trimmed job
    identifier. *)
Theorem Enqueue_delivers (q : RedisStreamQueue) (entries : list XMessage)
    (jobID newID : string) (handler : Handler (W:=W)) (w : W) (pel : PEL) :
  if bool_decide (TrimSpace jobID = "" ∨ TrimSpace (stream q) = "")
  then ∃ e, Enqueue q entries jobID newID = (entries, Some e)
  else ∃ msg, Enqueue q entries jobID newID = (entries ++ [msg], None)
              ∧ streamq.ID msg = newID
              ∧ (handleOne handler msg (w, pel)).1 = (handler (TrimSpace jobID) w).1.
Proof.
  unfold Enqueue. case_bool_decide as Hb.
  - destruct (decide (TrimSpace jobID = "")) as [Hj|Hj].
    + rewrite (bool_decide_eq_true_2 _ Hj). eauto.
    + rewrite (bool_decide_eq_false_2 _ Hj). destruct Hb as [?|Hs]; [done|].
      rewrite (bool_decide_eq_true_2 _ Hs). eauto.
  - assert (TrimSpace jobID ≠ "") as Hj by tauto.
    assert (TrimSpace (stream q) ≠ "") as Hs by tauto.
    rewrite (bool_decide_eq_false_2 _ Hj), (bool_decide_eq_false_2 _ Hs).
    eexists. split; [done|]. split; [done|].
    unfold handleOne. cbn [Values fst snd]. rewrite lookup_singleton_eq.
    rewrite TrimSpace_idemp, (bool_decide_eq_false_2 _ Hj).
    by destruct (handler (TrimSpace jobID) w) as [w' [[e|]|r]]; cbn;
      repeat case_match.
Qed.

End consumer_more.


(** ** The workers on any store *)
Section workers_any_store.
Import Go domain store streamq spec mutators.
Context `{GoTables} {S : Type} `{CompareJobStore S}.

Lemma compute_Process_ProcessWith (st : S) (jobID : string) (env : compare.ComputeEnv) :
  compare.Process st jobID env = compare.ProcessWith true None None st jobID env.
Proof. reflexivity. Qed.

(** X13. The error protocol of the compute worker.  [Process] returns
    [nil] only when a load from the store answers that there is no such
    job.  An error that is not terminal (the message stays pending and is
    delivered again) comes from a worker that is not initialised, from a
    failed lock command, from a failed load, or from a failed hand-over to
    the paygate queue.  A terminal error with a message means that the
    lock is held by another worker, the store untouched, or that the worker
    has issued the update that records the job as [failed] with this
    message.  With [nil] and with every error that carries a message,
    nothing has been put on the paygate queue. *)
Theorem compute_outcome (ready : bool) (getErr1 getErr2 : option string) (st : S)
    (jobID : string) (env : compare.ComputeEnv) :
  let r := compare.ProcessWith ready getErr1 getErr2 st jobID env in
  match r.2 with
  | None => r.1.2 = false ∧ Get r.1.1 jobID = None
  | Some (TerminalError None) => True
  | Some (TerminalError (Some (ErrNew msg))) =>
      r.1.2 = false
      ∧ (compare.env_lock env = redislock.LockBusy ∧ r.1.1 = st
         ∨ ∃ st', r.1.1 = compare.Worker_fail st' jobID msg)
  | Some (ErrNew e) =>
      r.1.2 = false
      ∧ (ready = false ∧ r.1.1 = st
         ∨ compare.env_lock env = redislock.LockFailed e ∧ r.1.1 = st
         ∨ getErr1 = Some e ∧ r.1.1 = st
         ∨ getErr2 = Some e
         ∨ compare.env_payq env = Some (Some e))
  | Some _ => False
  end.
Proof.
  cbv zeta.
  set (Q := λ r : S * bool * option error,
    match r.2 with
    | None => r.1.2 = false ∧ Get r.1.1 jobID = None
    | Some (TerminalError None) => True
    | Some (TerminalError (Some (ErrNew msg))) =>
        r.1.2 = false
        ∧ (compare.env_lock env = redislock.LockBusy ∧ r.1.1 = st
           ∨ ∃ st', r.1.1 = compare.Worker_fail st' jobID msg)
    | Some (ErrNew e) =>
        r.1.2 = false
        ∧ (ready = false ∧ r.1.1 = st
           ∨ compare.env_lock env = redislock.LockFailed e ∧ r.1.1 = st
           ∨ getErr1 = Some e ∧ r.1.1 = st
           ∨ getErr2 = Some e
           ∨ compare.env_payq env = Some (Some e))
    | Some _ => False
    end).
  change (Q (compare.ProcessWith ready getErr1 getErr2 st jobID env)).
  assert (∀ st' msg, Q (compare.failTerminal st' jobID msg)) as Hfail.
  { intros st' msg. unfold Q. cbn [compare.failTerminal fst snd]. split; [done|].
    right. by exists st'. }
  assert (∀ st', Q (compare.enqueuePaygate env st' jobID)) as Henq.
  { intros st'. unfold compare.enqueuePaygate.
    destruct (compare.env_payq env) as [[e|]|] eqn:Eq; [|done|apply Hfail].
    unfold Q. cbn [fst snd]. split; [done|]. do 4 right. done. }
  unfold compare.ProcessWith.
  destruct ready; cbn [negb]; [|unfold Q; cbn [fst snd]; auto].
  repeat case_match; try apply Hfail; try apply Henq;
    unfold Q, Terminal; cbn [fst snd]; auto 10.
Qed.

(** X14. No rework on redelivery.  For a job that the load finds
    cancelled, ready or failed, or with the key of its result stored, the
    worker neither marks the job as processing nor downloads, converts,
    compares or uploads anything: what it does depends on the lock and on
    the paygate queue only.  A failed lock command gives its error and a
    busy lock the terminal error [job locked].  Otherwise a cancelled,
    ready or failed job is answered with a terminal success, and a
    processing or awaiting job is handed to the paygate queue: a terminal
    success if [Enqueue] succeeds, the error of [Enqueue] (not terminal)
    if it fails, a recorded failure if no queue is configured.  The store
    is left as it was in every case but the last. *)
Theorem compute_no_rework (getErr2 : option string) (st : S) (jobID : string)
    (env : compare.ComputeEnv) (job : CompareJob) :
  Get st jobID = Some job →
  (Status job = CompareJobStatusCancelled ∨ Status job = CompareJobStatusReady
   ∨ Status job = CompareJobStatusFailed)
  ∨ TrimSpace (ResultOSSKey job) ≠ "" →
  compare.ProcessWith true None getErr2 st jobID env
  = match compare.env_lock env with
    | redislock.LockFailed e => (st, false, Some (ErrNew e))
    | redislock.LockBusy =>
        (st, false,
         Some (Terminal (Some (ErrNew ("job locked: " +:+ compare.env_lockKey env)))))
    | _ =>
        if bool_decide (Status job = CompareJobStatusProcessing
                        ∨ Status job = CompareJobStatusAwaitingPayment)
        then match compare.env_payq env with
             | Some None => (st, true, Some (Terminal None))
             | Some (Some e) => (st, false, Some (ErrNew e))
             | None =>
                 (compare.Worker_fail st jobID "paygate queue 未初始化", false,
                  Some (Terminal (Some (ErrNew "paygate queue 未初始化"))))
             end
        else (st, false, Some (Terminal None))
    end.
Proof.
  intros Hg Hc. unfold compare.ProcessWith. cbn [negb]. rewrite Hg.
  assert (Status job = CompareJobStatusProcessing
          ∨ Status job = CompareJobStatusAwaitingPayment →
          TrimSpace (ResultOSSKey job) ≠ "") as Hc'.
  { intros Hs. destruct Hc as [Hc|Hc]; [|done]. destruct Hs as [Hs|Hs]; rewrite Hs in Hc.
    all: by destruct Hc as [?|[?|?]]. }
  clear Hc.
  destruct (compare.env_lock env); try done.
  all: destruct (Status job) eqn:Es; cbn; try done.
  all: rewrite (bool_decide_eq_false_2 (TrimSpace (ResultOSSKey job) = "")) by auto; cbn.
  all: unfold compare.enqueuePaygate, compare.failTerminal;
       by destruct (compare.env_payq env) as [[e|]|].
Qed.

Lemma paygate_Process_ProcessWith (st : S) (jobID : string) (lock : option bool)
    (lockKey : string) (feeFen : Z) (order : string + string) (now : Z) :
  lock ≠ Some false →
  paygate.Process st jobID lock feeFen order now
  = paygate.ProcessWith true (paygate.lockAnswer lock) lockKey None st jobID feeFen order now.
Proof.
  intros Hl. unfold paygate.Process, paygate.ProcessWith. cbn [negb].
  rewrite (bool_decide_eq_false_2 _ Hl).
  by destruct lock as [[|]|].
Qed.

(** X16. The error protocol of the paygate worker: it never returns
    [nil].  An error that is not terminal comes from a worker that is not
    initialised, from a failed lock command, from a failed load, or from a
    job, processing or awaiting payment, whose result key is not yet
    stored; in all these cases the store is left as it was. *)
Theorem paygate_outcome (ready : bool) (lock : redislock.LockAnswer) (lockKey : string)
    (getErr : option string) (st : S) (jobID : string) (feeFen : Z)
    (order : string + string) (now : Z) :
  let r := paygate.ProcessWith ready lock lockKey getErr st jobID feeFen order now in
  match r.2 with
  | Some (TerminalError _) => True
  | Some (ErrNew e) =>
      r.1 = st
      ∧ (ready = false
         ∨ lock = redislock.LockFailed e
         ∨ getErr = Some e
         ∨ ∃ job, Get st (TrimSpace jobID) = Some job
                  ∧ TrimSpace (ResultOSSKey job) = ""
                  ∧ (Status job = CompareJobStatusProcessing
                     ∨ Status job = CompareJobStatusAwaitingPayment))
  | _ => False
  end.
Proof.
  cbv zeta. unfold paygate.ProcessWith.
  destruct ready; cbn [negb]; [|cbn; auto].
  repeat case_match; cbn [fst snd] in *; simplify_eq; try done;
    (split; [done|]); auto.
  all: match goal with
       | Hk : bool_decide (TrimSpace (ResultOSSKey ?c) = "") = true,
         Hs : _ || _ || _ = false |- _ =>
           apply bool_decide_eq_true_1 in Hk; do 3 right; exists c;
           split; [done|]; split; [done|]; destruct (Status c); auto; done
       end.
Qed.

End workers_any_store.

(** ** The workers *)
Section workers.
Import Go domain store streamq spec mutators.
Context `{GoTables} {S : Type} `{CompareJobStoreLaws S}.

Lemma Worker_fail_Get (st : S) (jobID msg : string) :
  TrimSpace jobID ≠ "" →
  Get (compare.Worker_fail st jobID msg) jobID = compare.failMutator msg <$> Get st jobID.
Proof.
  intros Hj. unfold compare.Worker_fail. rewrite bool_decide_eq_false_2 by done.
  apply Get_Update.
Qed.

Lemma failTerminal_recorded (st : S) (jobID msg : string) :
  TrimSpace jobID ≠ "" →
  match Get (compare.failTerminal st jobID msg).1.1 jobID with
  | Some j => Status j = CompareJobStatusFailed ∧ Error j = msg
  | None => True
  end.
Proof.
  intros Hj. cbn [compare.failTerminal fst]. rewrite Worker_fail_Get by done.
  by destruct (Get st jobID).
Qed.

(** X15. A run of the compute worker in which every step succeeds: the job
    is marked as processing; if it has not been cancelled while the worker
    was busy, the key of the result is stored on it and the job is put on
    the paygate queue; if it has been cancelled, it is left as it is and
    nothing is put on the queue. *)
Theorem compute_run (st : S) (jobID : string) (env : compare.ComputeEnv)
    (job jd : CompareJob) :
  Get st jobID = Some job →
  compare.env_lock env = redislock.NoLock ∨ compare.env_lock env = redislock.LockHeld →
  Status job = CompareJobStatusProcessing ∨ Status job = CompareJobStatusAwaitingPayment →
  TrimSpace (ResultOSSKey job) = "" →
  compare.env_ossEnabled env = true ∧ File1OSSKey job ≠ "" ∧ File2OSSKey job ≠ "" →
  compare.env_mkdir env = None ∧ compare.env_get1 env = None
  ∧ compare.env_get2 env = None ∧ compare.env_convert1 env = None
  ∧ compare.env_convert2 env = None ∧ compare.env_generate env = None
  ∧ compare.env_put env = None ∧ compare.env_payq env = Some None →
  Get (compare.env_during env (Update st jobID compare.processingMutator).1) jobID
  = Some jd →
  let r := compare.Process st jobID env in
  r.2 = Some (Terminal None)
  ∧ r.1.2 = negb (bool_decide (Status jd = CompareJobStatusCancelled))
  ∧ Get r.1.1 jobID
    = Some (if bool_decide (Status jd = CompareJobStatusCancelled) then jd
            else setResultPath "" (setResultOSSKey (compare.env_ossKey env) jd)).
Proof.
  intros Hg Hl Hs Hk (Ho & Hf1 & Hf2) (E1 & E2 & E3 & E4 & E5 & E6 & E7 & Hq) Hd. cbv zeta.
  unfold compare.Process. rewrite Hg, Ho, E1, E2, E3, E4, E5, E6, E7.
  assert (match compare.env_lock env with
          | redislock.LockFailed _ | redislock.LockBusy => False
          | _ => True
          end) as Hl' by (by destruct Hl as [-> | ->]).
  assert (bool_decide (Status job = CompareJobStatusCancelled) = false) as ->
    by (apply bool_decide_eq_false_2; destruct Hs as [-> | ->]; done).
  assert (bool_decide (Status job = CompareJobStatusReady)
          || bool_decide (Status job = CompareJobStatusFailed) = false) as ->
    by (destruct Hs as [-> | ->]; done).
  rewrite (bool_decide_eq_true_2 _ Hk).
  rewrite (bool_decide_eq_false_2 _ Hf1), (bool_decide_eq_false_2 _ Hf2).
  cbn [negb andb orb].
  set (st1 := compare.env_during env _) in *.
  assert (Get (Update st1 jobID (compare.resultMutator (compare.env_ossKey env))).1 jobID
          = Some (if bool_decide (Status jd = CompareJobStatusCancelled) then jd
                  else setResultPath "" (setResultOSSKey (compare.env_ossKey env) jd)))
    as Hg2 by (by rewrite Get_Update, Hd).
  destruct (decide (Status jd = CompareJobStatusCancelled)) as [Hc|Hc].
  - rewrite (bool_decide_eq_true_2 _ Hc) in *.
    destruct (compare.env_lock env); try done; rewrite Hg2;
      rewrite (bool_decide_eq_true_2 _ Hc); cbn [fst snd]; by rewrite Hg2.
  - rewrite (bool_decide_eq_false_2 _ Hc) in *.
    destruct (compare.env_lock env); try done; rewrite Hg2;
      (rewrite bool_decide_eq_false_2 by done);
      unfold compare.enqueuePaygate; rewrite Hq; cbn [fst snd]; by rewrite Hg2.
Qed.

(** X17. The paygate worker never releases an unpaid job: if the job was
    not [ready] without being paid before the run, it is not afterwards
    (a job becomes [ready] only when its payment is confirmed or when the
    fee is zero, in which case it is marked paid). *)
Theorem paygate_releases_only_paid (st : S) (jobID : string) (lock : option bool)
    (feeFen : Z) (order : string + string) (now : Z) (job : CompareJob) :
  Get st (TrimSpace jobID) = Some job →
  (Status job = CompareJobStatusReady → Paid job = true) →
  ∃ job', Get (paygate.Process st jobID lock feeFen order now).1 (TrimSpace jobID)
          = Some job'
          ∧ (Status job' = CompareJobStatusReady → Paid job' = true).
Proof.
  intros Hg Hinv.
  set (Q := λ r : S * option error,
    ∃ job', Get r.1 (TrimSpace jobID) = Some job'
            ∧ (Status job' = CompareJobStatusReady → Paid job' = true)).
  change (Q (paygate.Process st jobID lock feeFen order now)).
  assert (∀ e, Q (st, e)) as Hst by (intros e; exists job; done).
  assert (∀ f e, (Status (f job) = CompareJobStatusReady → Paid (f job) = true) →
                 Q ((Update st (TrimSpace jobID) f).1, e)) as Hupd.
  { intros f e Hf. exists (f job). cbn [fst]. by rewrite Get_Update, Hg. }
  unfold paygate.Process. rewrite Hg.
  unfold paygate.Worker_fail. rewrite TrimSpace_idemp.
  repeat case_match; try apply Hst; apply Hupd;
    unfold paygate.paidMutator, paygate.freeMutator, paygate.awaitingMutator,
      paygate.failMutator, paygate.release;
    repeat case_match; cbn; try done; auto.
  all: intros Hr; rewrite Hr in *; by cbn in *.
Qed.

End workers.

(** ** The lock of a job *)
Section lock.
Import Go.

(** X18. Mutual exclusion by the job lock, as long as the key has not
    expired: once [Acquire] has succeeded for a token, every further
    [Acquire] of the key is refused, [Release] and [Refresh] with another
    token are refused and leave the lock in place, and [Release] with the
    token of the holder frees the key for the next [Acquire]. *)
Theorem lock_exclusion (c : redislock.Client) (key token : string) :
  (redislock.Acquire c key token).2 = inr true →
  let c1 := (redislock.Acquire c key token).1 in
  (∀ t, TrimSpace t ≠ "" → redislock.Acquire c1 key t = (c1, inr false))
  ∧ (∀ t, TrimSpace t ≠ "" → TrimSpace t ≠ TrimSpace token →
          redislock.Release c1 key t = (c1, inr false)
          ∧ redislock.Refresh c1 key t = (c1, inr false))
  ∧ redislock.Refresh c1 key token = (c1, inr true)
  ∧ ∃ c2, redislock.Release c1 key token = (c2, inr true)
          ∧ ∀ t, TrimSpace t ≠ "" → (redislock.Acquire c2 key t).2 = inr true.
Proof.
  unfold redislock.Acquire.
  case_bool_decide as Hb; [done|].
  assert (TrimSpace key ≠ "" ∧ TrimSpace token ≠ "") as [Hk Ht] by tauto.
  destruct (redislock.rdb c !! TrimSpace key) eqn:Hl; [done|]. intros _. cbn [fst].
  unfold redislock.Release, redislock.Refresh. cbn [redislock.rdb redislock.prefix].
  rewrite !lookup_insert_eq.
  split; [|split; [|split]].
  - intros t Ht'. by rewrite bool_decide_eq_false_2 by tauto.
  - intros t Ht' Hne. rewrite bool_decide_eq_false_2 by tauto.
    rewrite bool_decide_eq_false_2 by congruence. done.
  - rewrite bool_decide_eq_false_2 by tauto. by rewrite bool_decide_eq_true_2.
  - rewrite bool_decide_eq_false_2 by tauto. rewrite bool_decide_eq_true_2 by done.
    eexists. split; [done|]. intros t Ht'. cbn [redislock.rdb].
    rewrite bool_decide_eq_false_2 by tauto. by rewrite lookup_delete_eq.
Qed.

End lock.

(** ** Redelivery *)
Section redelivery.
Import Go domain store streamq spec mutators.
Context `{GoTables} {S : Type} `{CompareJobStoreLaws S}.

(** X19. The paygate stage is safe under redelivery, on a store that
    applies its updates: after a run of an initialised worker that got
    past the lock and whose load was answered, a second run for the same
    job (whatever becomes of its lock and its load, and whatever its
    clock and the order service answer) leaves the store as the first run
    left it; in particular no second order is recorded.  The code URL of a
    created order is taken to be non-blank. *)
Theorem paygate_redelivery (st : S) (jobID : string)
    (lock lock' : redislock.LockAnswer) (lockKey lockKey' : string)
    (ready' : bool) (getErr' : option string)
    (feeFen : Z) (order order' : string + string) (now now' : Z) :
  lock = redislock.NoLock ∨ lock = redislock.LockHeld →
  (∀ url, order = inr url → TrimSpace url ≠ "") →
  let st1 := (paygate.ProcessWith true lock lockKey None st jobID feeFen order now).1 in
  (paygate.ProcessWith ready' lock' lockKey' getErr' st1 jobID feeFen order' now').1 = st1.
Proof.
  intros Hlock Hurl. cbv zeta.
  set (id := TrimSpace jobID).
  (* a store in which the job is settled is left alone *)
  assert (∀ (s : S) (e : option error),
    match Get s id with
    | None => True
    | Some j =>
        Status j = CompareJobStatusCancelled ∨ Status j = CompareJobStatusReady
        ∨ Status j = CompareJobStatusFailed
        ∨ TrimSpace (ResultOSSKey j) = ""
        ∨ (Paid j = false ∧ 0 < feeFen
           ∧ Status j = CompareJobStatusAwaitingPayment ∧ TrimSpace (CodeURL j) ≠ "")
    end →
    (paygate.ProcessWith ready' lock' lockKey' getErr' (s, e).1 jobID feeFen order' now').1
    = (s, e).1) as Hsettled.
  { intros s e Hs. change ((s, e).1) with s. unfold paygate.ProcessWith. fold id.
    destruct ready'; [|done]. cbn [negb].
    destruct (bool_decide (id = "")); [done|].
    destruct lock'; try done.
    all: destruct getErr'; [done|].
    all: destruct (Get s id) as [j|]; [|done].
    all: destruct Hs as [Hs|[Hs|[Hs|[Hs|(Hp & Hf & Hs & Hc)]]]].
    all: try (rewrite Hs; by repeat (case_bool_decide; try done)).
    all: try (destruct (_ || _ || _); [done|]; by rewrite bool_decide_eq_true_2).
    all: rewrite Hs, Hp; replace (feeFen <=? 0) with false by lia;
         by repeat (case_bool_decide; try done). }
  set (r := paygate.ProcessWith true lock lockKey None st jobID feeFen order now).
  unfold paygate.ProcessWith in r. fold id in r. cbn [negb] in r. subst r.
  destruct (bool_decide (id = "")) eqn:Hid.
  { unfold paygate.ProcessWith. fold id. rewrite Hid. by destruct ready'. }
  assert (∀ (X : S * option error),
            match lock with
            | redislock.LockFailed e => (st, Some (ErrNew e))
            | redislock.LockBusy =>
                (st, Some (Terminal (Some (ErrNew ("paygate locked: " +:+ lockKey)))))
            | _ => X
            end = X) as -> by (by destruct Hlock as [-> | ->]).
  destruct (Get st id) as [job|] eqn:Hg.
  2: { apply Hsettled. by rewrite Hg. }
  destruct (bool_decide (Status job = CompareJobStatusCancelled)
            || bool_decide (Status job = CompareJobStatusReady)
            || bool_decide (Status job = CompareJobStatusFailed)) eqn:Hterm.
  { apply Hsettled. rewrite Hg.
    apply orb_true_iff in Hterm as [[Ht|Ht]%orb_true_iff|Ht];
      apply bool_decide_eq_true in Ht; auto. }
  assert (bool_decide (Status job = CompareJobStatusCancelled) = false) as Hnc
    by (by destruct (bool_decide (Status job = CompareJobStatusCancelled))).
  destruct (bool_decide (TrimSpace (ResultOSSKey job) = "")) eqn:Hk.
  { apply bool_decide_eq_true in Hk. apply Hsettled.
    rewrite Hg. auto. }
  destruct (Paid job) eqn:Hp.
  { apply Hsettled. rewrite Get_Update, Hg. cbn -[TrimSpace].
    unfold paygate.paidMutator. rewrite Hnc. cbn -[TrimSpace]. auto. }
  destruct (feeFen <=? 0) eqn:Hfee.
  { apply Hsettled. rewrite Get_Update, Hg. cbn -[TrimSpace].
    unfold paygate.freeMutator. rewrite Hnc. cbn -[TrimSpace]. auto. }
  destruct (bool_decide (Status job = CompareJobStatusAwaitingPayment)
            && negb (bool_decide (TrimSpace (CodeURL job) = ""))) eqn:Haw.
  { apply Hsettled. rewrite Hg.
    apply andb_true_iff in Haw as [Ha Hc]. apply bool_decide_eq_true in Ha.
    apply negb_true_iff, bool_decide_eq_false in Hc.
    do 4 right. repeat split; [done|lia|done|done]. }
  destruct order as [e|url].
  - apply Hsettled. unfold paygate.Worker_fail.
    replace (bool_decide (TrimSpace id = "")) with false
      by (unfold id; by rewrite TrimSpace_idemp).
    rewrite Get_Update, Hg. cbn -[TrimSpace]. auto.
  - apply Hsettled. rewrite Get_Update, Hg. cbn -[TrimSpace].
    unfold paygate.awaitingMutator. rewrite Hnc, Hp. cbn -[TrimSpace].
    apply Z.leb_gt in Hfee. do 4 right. repeat split; [done|lia|by apply Hurl].
Qed.

End redelivery.

(** * Further properties of the diff engine *)

(** ** The header row *)
Section headers.
Import Go excelcmp spec.
Context `{GoTables}.

Lemma occurrencesBefore_snoc (p : list string) (x name : string) (l : list string) :
  occurrencesBefore (p ++ x :: l) (length p + 1) name
  = (occurrencesBefore (p ++ x :: l) (length p) name
     + if bool_decide (x = name) then 1 else 0)%nat.
Proof.
  unfold occurrencesBefore.
  replace (length p + 1)%nat with (length (p ++ [x])) by (rewrite length_app; simpl; lia).
  rewrite (cons_middle x p l), app_assoc. rewrite take_app_length.
  rewrite <- app_assoc. rewrite take_app_length.
  rewrite filter_app, length_app. f_equal.
  rewrite filter_cons, filter_nil. by case_decide; case_bool_decide.
Qed.

Lemma dedupe_fold (p l : list string) (seen : gmap string Z) (out : list string) :
  (∀ name, seen !! name
           = let k := occurrencesBefore (p ++ l) (length p) name in
             if bool_decide (k = 0%nat) then None else Some (Z.of_nat k - 1)) →
  (fold_left dedupeStep l (seen, out)).2
  = out ++ imap (λ i, dedupedName (p ++ l) (length p + i)) l.
Proof.
  revert p seen out. induction l as [|x l IH]; intros p seen out Hseen.
  { simpl. by rewrite app_nil_r. }
  cbn [fold_left imap].
  destruct (dedupeStep (seen, out) x) as [seen' out'] eqn:Es.
  assert (out' = out ++ [dedupedName (p ++ x :: l) (length p + 0) x]
          ∧ ∀ name, seen' !! name
              = let k := occurrencesBefore (p ++ x :: l) (length p + 1) name in
                if bool_decide (k = 0%nat) then None else Some (Z.of_nat k - 1))
    as [-> Hseen'].
  { unfold dedupeStep in Es; cbn [fst snd] in Es. rewrite Hseen in Es. cbv zeta in Es.
    rewrite Nat.add_0_r. unfold dedupedName. split.
    - case_bool_decide as Hk; simplify_eq; [done|].
      replace (Z.of_nat (occurrencesBefore (p ++ x :: l) (length p) x) - 1 + 1) with
        (Z.of_nat (occurrencesBefore (p ++ x :: l) (length p) x)) by lia. done.
    - intros name. cbv zeta. rewrite occurrencesBefore_snoc.
      destruct (decide (x = name)) as [->|Hne].
      + rewrite (bool_decide_eq_true_2 (name = name)) by done.
        case_bool_decide as Hk; simplify_eq.
        * rewrite lookup_insert_eq. rewrite Hk.
          by rewrite bool_decide_eq_false_2 by lia.
        * rewrite lookup_insert_eq. rewrite bool_decide_eq_false_2 by lia. f_equal. lia.
      + rewrite (bool_decide_eq_false_2 (x = name)) by done. rewrite Nat.add_0_r.
        case_bool_decide as Hk; simplify_eq;
          rewrite lookup_insert_ne by done; apply Hseen. }
  rewrite (IH (p ++ [x])).
  - rewrite <- !app_assoc. cbn [app]. f_equal. f_equal.
    apply imap_ext. intros i y _. cbn. rewrite length_app. cbn [length]. f_equal. lia.
  - intros name. cbv zeta. rewrite <- app_assoc. cbn [app]. rewrite length_app. cbn [length].
    apply Hseen'.
Qed.

(** X20. Header normalization in closed form: the result has one header for
    every cell of the first row; the [i]-th header is the trimmed cell
    ([Unnamed: i] for a blank one), followed by [.k] when that name has
    occurred [k] times to the left of it. *)
Theorem normalizeHeaders_closed_form (raw : list string) :
  normalizeHeaders raw = imap (dedupedName (headerNames raw)) (headerNames raw)
  ∧ length (normalizeHeaders raw) = length raw.
Proof.
  assert (normalizeHeaders raw = imap (dedupedName (headerNames raw)) (headerNames raw))
    as Heq.
  { unfold normalizeHeaders. rewrite (dedupe_fold [] (headerNames raw)); [done|].
    intros name. by rewrite lookup_empty. }
  split; [done|]. rewrite Heq. unfold headerNames. by rewrite !length_imap.
Qed.

End headers.

(** ** The union of the columns *)
Section union.
Import Go excelcmp spec.
Context `{GoTables}.

Lemma remaining_elem_of (seen l : list string) (x : string) :
  x ∈ remaining seen l ↔ x ∈ l ∧ x ∉ seen.
Proof.
  revert seen. induction l as [|y l IH]; intros seen; cbn [remaining].
  { split; [by intros ?%elem_of_nil|by intros [?%elem_of_nil _]]. }
  case_bool_decide as Hy.
  - rewrite IH, elem_of_cons. split; [tauto|]. intros [[->|?] ?]; tauto.
  - rewrite !elem_of_cons, IH, elem_of_cons. split.
    + intros [->|[? Hn]]; [tauto|]. split; [tauto|]. intros ?. apply Hn. by right.
    + intros [[->|?] Hn]; [tauto|]. destruct (decide (x = y)) as [->|?]; [tauto|].
      right. split; [done|]. intros [?|?]; done.
Qed.

Lemma remaining_NoDup (seen l : list string) : NoDup (remaining seen l).
Proof.
  revert seen. induction l as [|y l IH]; intros seen; cbn [remaining]; [constructor|].
  case_bool_decide; [done|]. constructor; [|done].
  rewrite remaining_elem_of. intros [_ Hn]. apply Hn. by left.
Qed.

Lemma remaining_sublist (seen l : list string) : remaining seen l `sublist_of` l.
Proof.
  revert seen. induction l as [|y l IH]; intros seen; cbn [remaining]; [done|].
  case_bool_decide.
  - by apply sublist_cons.
  - by apply sublist_skip.
Qed.

(** X21. The ordered union of the columns: the headers of file 1 other
    than the key, in their order and as often as they occur there, and
    then the headers of file 2 that are neither the key nor a header of
    file 1, each once and in the order of file 2.  So the union holds
    exactly the headers of either file other than the key, and it holds
    none twice exactly when file 1 repeats no header other than the key. *)
Theorem orderedUnionCols_elem_of (h1 h2 : list string) (key : string) :
  ∃ rest,
    orderedUnionCols h1 h2 key = filter (λ c, c ≠ key) h1 ++ rest
    ∧ NoDup rest
    ∧ rest `sublist_of` h2
    ∧ (∀ c, c ∈ rest ↔ c ≠ key ∧ c ∈ h2 ∧ c ∉ h1)
    ∧ (∀ c, c ∈ orderedUnionCols h1 h2 key ↔ c ≠ key ∧ (c ∈ h1 ∨ c ∈ h2))
    ∧ (NoDup (orderedUnionCols h1 h2 key) ↔ NoDup (filter (λ c, c ≠ key) h1)).
Proof.
  rewrite orderedUnionCols_spec. unfold unionColumns.
  set (c1 := filter (λ c, c ≠ key) h1).
  set (rest := remaining c1 (filter (λ c, c ≠ key) h2)).
  assert (∀ c, c ∈ rest ↔ c ≠ key ∧ c ∈ h2 ∧ c ∉ h1) as Hrest.
  { intros c. unfold rest, c1. rewrite remaining_elem_of, !list_elem_of_filter. tauto. }
  exists rest. split; [done|]. split; [apply remaining_NoDup|].
  split.
  { etrans; [apply remaining_sublist|]. apply sublist_filter. }
  split; [exact Hrest|]. split.
  - intros c. rewrite elem_of_app, Hrest. unfold c1. rewrite list_elem_of_filter.
    split; [tauto|]. intros [Hk [H1|H2]]; [tauto|].
    destruct (decide (c ∈ h1)); tauto.
  - split.
    + by intros [? _]%NoDup_app.
    + intros Hnd. apply NoDup_app. split; [done|]. split; [|apply remaining_NoDup].
      intros x Hx [_ [_ Hn]]%Hrest. apply Hn.
      unfold c1 in Hx. by apply list_elem_of_filter in Hx as [_ ?].
Qed.

End union.

(** ** The keyed rows *)
Section keyed.
Import Go excelcmp spec.
Context `{GoTables}.

Lemma buildKeyRowStep_rowKey (keyIdx : nat) (out : gmap string (list string))
    (dups : list string) (seenDup : gset string) (row : list string) :
  buildKeyRowStep keyIdx (out, dups, seenDup) row
  = match rowKey keyIdx row with
    | None => (out, dups, seenDup)
    | Some k =>
        if bool_decide (is_Some (out !! k)) then
          if bool_decide (k ∈ seenDup) then (out, dups, seenDup)
          else (out, if (length dups <? 10)%nat then dups ++ [k] else dups, {[k]} ∪ seenDup)
        else (<[k := row]> out, dups, seenDup)
    end.
Proof.
  unfold buildKeyRowStep, rowKey. destruct (row !! keyIdx); [|done].
  by case_bool_decide.
Qed.

(** The state of the loop of [buildKeyRowMap] after the rows [rows]. *)
Lemma buildKeyRowMap_loop (keyIdx : nat) (rows : list (list string)) :
  let st := fold_left (buildKeyRowStep keyIdx) rows (∅, [], ∅) in
  (∀ k, st.1.1 !! k = head (filter (λ row, rowKey keyIdx row = Some k) rows))
  ∧ (∀ k, k ∈ st.2 → (2 <= length (filter (λ x, x = k) (rowKeys keyIdx rows)))%nat)
  ∧ (st.1.2 = [] ↔ st.2 = ∅)
  ∧ (st.2 = ∅ ↔ NoDup (rowKeys keyIdx rows))
  ∧ (length st.1.2 <= 10)%nat ∧ NoDup st.1.2 ∧ (∀ k, k ∈ st.1.2 → k ∈ st.2).
Proof.
  induction rows as [|row rows IH] using rev_ind.
  { cbn. repeat split; try done; try constructor; try lia.
    all: intros k Hk; first [by apply elem_of_nil in Hk | by apply not_elem_of_empty in Hk]. }
  cbv zeta in *. rewrite fold_left_app. cbn [fold_left].
  destruct (fold_left (buildKeyRowStep keyIdx) rows (∅, [], ∅)) as [[out dups] seenDup].
  cbn [fst snd] in IH. destruct IH as (Hout & Hsub & Hd & Hnd & Hlen & Hdn & Hin).
  unfold rowKeys in *.
  assert (omap (rowKey keyIdx) (rows ++ [row])
          = omap (rowKey keyIdx) rows
            ++ match rowKey keyIdx row with Some k => [k] | None => [] end) as ->
    by (rewrite omap_app; simpl; by destruct (rowKey keyIdx row)).
  assert (∀ k l, (2 <= length (filter (λ x, x = k) (omap (rowKey keyIdx) rows)))%nat →
                 (2 <= length (filter (λ x, x = k) (omap (rowKey keyIdx) rows ++ l)))%nat)
    as Hmono by (intros k l ?; rewrite filter_app, length_app; lia).
  assert (∀ k, is_Some (out !! k) ↔ k ∈ omap (rowKey keyIdx) rows) as Hdom.
  { intros k. rewrite Hout. rewrite list_elem_of_omap. split.
    - intros [r Hr]. apply head_Some_elem_of in Hr. apply list_elem_of_filter in Hr. eauto.
      exists r. tauto.
    - intros (r & Hr & Hk).
      destruct (filter (λ row0, rowKey keyIdx row0 = Some k) rows) as [|r' l] eqn:Ef; [|by eexists].
      assert (r ∈ filter (λ row0, rowKey keyIdx row0 = Some k) rows) as Hx
        by (by apply list_elem_of_filter).
      rewrite Ef in Hx. by apply elem_of_nil in Hx. }
  assert (∀ k, head (filter (λ row0, rowKey keyIdx row0 = Some k) (rows ++ [row]))
               = match out !! k with
                 | Some r => Some r
                 | None => if bool_decide (rowKey keyIdx row = Some k) then Some row else None
                 end) as Hhead.
  { intros k. rewrite filter_app, Hout.
    destruct (filter (λ row0, rowKey keyIdx row0 = Some k) rows) as [|r l]; [|done].
    cbn [head app]. rewrite filter_cons, filter_nil. by case_decide; case_bool_decide. }
  rewrite buildKeyRowStep_rowKey.
  destruct (rowKey keyIdx row) as [k0|] eqn:Erk.
  2: { cbn [fst snd]. rewrite app_nil_r. repeat split; try tauto; try done.
       intros k. rewrite Hhead. destruct (out !! k); [done|]. by rewrite bool_decide_eq_false_2. }
  assert (NoDup (omap (rowKey keyIdx) rows ++ [k0])
          ↔ NoDup (omap (rowKey keyIdx) rows) ∧ ¬ is_Some (out !! k0)) as Hnd'.
  { rewrite NoDup_app, Hdom. split.
    - intros (? & Hx & _). split; [done|]. intros ?. eapply Hx; [done|]. by left.
    - intros [? Hx]. split; [done|]. split; [|apply NoDup_singleton].
      by intros x ? ->%list_elem_of_singleton. }
  case_bool_decide as Ho.
  - (* the key is there already *)
    assert (∀ k, head (filter (λ row0, rowKey keyIdx row0 = Some k) (rows ++ [row]))
                 = out !! k) as Hout'.
    { intros k. rewrite Hhead. destruct (out !! k) eqn:Ek; [done|].
      case_bool_decide as Hx; [|done]. simplify_eq. rewrite Ek in Ho. by destruct Ho. }
    case_bool_decide as Hs; cbn [fst snd].
    + repeat split; try done.
      * intros k ?. by apply Hmono, Hsub.
      * by apply Hd.
      * by apply Hd.
      * intros He. rewrite He in Hs. by apply not_elem_of_empty in Hs.
      * intros [_ Hx]%Hnd'. done.
    + assert (({[k0]} ∪ seenDup : gset string) ≠ ∅) as Hne.
      { intros He. assert (k0 ∈ ({[k0]} ∪ seenDup : gset string)) as Hx
          by (apply elem_of_union; left; by apply elem_of_singleton).
        rewrite He in Hx. by apply not_elem_of_empty in Hx. }
      repeat split; try done.
      * intros k [->%elem_of_singleton|?]%elem_of_union; [|by apply Hmono, Hsub].
        rewrite filter_app, length_app, filter_cons, filter_nil.
        rewrite decide_True by done. cbn [length].
        apply Hdom, list_elem_of_split in Ho as (l1 & l2 & ->).
        rewrite filter_app, filter_cons, decide_True, length_app by done. cbn [length]. lia.
      * intros He. exfalso. destruct (length dups <? 10)%nat eqn:El.
        -- by destruct dups.
        -- apply Nat.ltb_ge in El. subst dups. cbn in El. lia.
      * intros [_ Hx]%Hnd'. done.
      * destruct (length dups <? 10)%nat eqn:El; [|done].
        apply Nat.ltb_lt in El. rewrite length_app. cbn. lia.
      * destruct (length dups <? 10)%nat eqn:El; [|done].
        apply NoDup_app. split; [done|]. split; [|apply NoDup_singleton].
        intros x Hx ->%list_elem_of_singleton. by apply Hin in Hx.
      * intros k Hk. apply elem_of_union. destruct (length dups <? 10)%nat eqn:El.
        -- apply elem_of_app in Hk as [?|Hk]; [right; by apply Hin|].
           left. apply list_elem_of_singleton in Hk. by apply elem_of_singleton.
        -- right. by apply Hin.
  - (* a new key *)
    cbn [fst snd]. repeat split; try tauto; try done.
    + intros k. rewrite Hhead. destruct (decide (k = k0)) as [->|Hne].
      * rewrite lookup_insert_eq. rewrite bool_decide_eq_true_2 by done.
        destruct (out !! k0) eqn:Ek; [|done]. exfalso. apply Ho. by eexists.
      * rewrite lookup_insert_ne by done. destruct (out !! k); [done|].
        rewrite bool_decide_eq_false_2; [done|]. congruence.
    + intros k ?. by apply Hmono, Hsub.
Qed.

Lemma normalize_fixed (v : string) :
  normalizeScalarForCompare (normalizeScalarForCompare v) = normalizeScalarForCompare v.
Proof.
  destruct (normalize_result v) as [Hr|[Hr|[i Hr]]]; rewrite Hr at 1.
  - by rewrite Hr.
  - by apply normalize_TrimSpace.
  - by rewrite normalize_FormatInt.
Qed.

Lemma rowKey_Some (keyIdx : nat) (row : list string) (k : string) :
  rowKey keyIdx row = Some k → k ≠ "" ∧ normalizeScalarForCompare k = k.
Proof.
  unfold rowKey. destruct (row !! keyIdx) as [cell|]; [|done].
  case_bool_decide as Hb; [done|]. intros [= <-]. split.
  - intros He. by rewrite He in Hb.
  - apply normalize_fixed.
Qed.

Lemma buildKeyRowMap_dups (tbl : Table) (keyIdx : nat) :
  (buildKeyRowMap tbl keyIdx).2 = [] ↔ NoDup (rowKeys keyIdx (Rows tbl)).
Proof.
  unfold buildKeyRowMap. cbn [snd].
  destruct (buildKeyRowMap_loop keyIdx (Rows tbl)) as (_ & _ & Hd & Hn & _). cbv zeta in *.
  by rewrite Hd.
Qed.

(** X22. What [buildKeyRowMap] computes.  A key of the map is the
    normalized, non-blank key cell of a row, the row stored under it is the
    first row of the table with that key, and every key is a fixed point
    of the normalization.  The sample of duplicates is empty exactly when
    no key occurs twice; it holds at most ten keys, none twice, and each of
    them occurs at least twice in the table. *)
Theorem buildKeyRowMap_spec (tbl : Table) (keyIdx : nat) :
  let r := buildKeyRowMap tbl keyIdx in
  (∀ k, r.1 !! k = head (filter (λ row, rowKey keyIdx row = Some k) (Rows tbl)))
  ∧ (∀ k, is_Some (r.1 !! k) → k ≠ "" ∧ normalizeScalarForCompare k = k)
  ∧ (r.2 = [] ↔ NoDup (rowKeys keyIdx (Rows tbl)))
  ∧ (length r.2 <= 10)%nat ∧ NoDup r.2
  ∧ (∀ k, k ∈ r.2 → (2 <= length (filter (λ x, x = k) (rowKeys keyIdx (Rows tbl))))%nat).
Proof.
  cbv zeta. unfold buildKeyRowMap. cbn [fst snd].
  destruct (buildKeyRowMap_loop keyIdx (Rows tbl)) as (Ho & Hs & Hd & Hn & Hl & Hnd & Hin).
  cbv zeta in *.
  split; [done|]. split; [|split; [tauto|]; split; [done|]; split; [done|]].
  - intros k Hk. rewrite Ho in Hk. destruct Hk as [row Hr]. apply head_Some_elem_of in Hr.
    apply list_elem_of_filter in Hr as [Hr _]. by apply rowKey_Some in Hr.
  - intros k Hk. by apply Hs, Hin.
Qed.

Lemma indexOfHeader_neg (headers : list string) (name : string) :
  (indexOfHeader headers name <? 0) = bool_decide (name ∉ headers).
Proof.
  unfold indexOfHeader. destruct (list_find (λ h, h = name) headers) as [[i h]|] eqn:Ef.
  - apply list_find_Some in Ef as (Hi & -> & _). cbn.
    rewrite bool_decide_eq_false_2; [apply Z.ltb_ge; lia|]. intros Hn. apply Hn.
    by eapply list_elem_of_lookup_2.
  - apply list_find_None in Ef. cbn. rewrite bool_decide_eq_true_2; [done|].
    intros Hin. rewrite Forall_forall in Ef. by apply (Ef name).
Qed.

(** X23. When [CompareArtifacts] accepts two tables: exactly when the key
    is not blank, both header rows have a column of that name, and in
    neither table two rows have the same key (after normalization, blank
    keys left out); it then yields the artifacts of the two row maps. *)
Theorem CompareArtifacts_accepts (file1 file2 : Table) (key : string) :
  let k1 := Z.to_nat (indexOfHeader (Headers file1) key) in
  let k2 := Z.to_nat (indexOfHeader (Headers file2) key) in
  let ok := TrimSpace key ≠ "" ∧ key ∈ Headers file1 ∧ key ∈ Headers file2
            ∧ NoDup (rowKeys k1 (Rows file1)) ∧ NoDup (rowKeys k2 (Rows file2)) in
  match CompareArtifacts file1 file2 key with
  | inr art =>
      ok ∧ compareArtifactsFromMaps (Headers file1) (Headers file2)
             (buildKeyRowMap file1 k1).1 (buildKeyRowMap file2 k2).1 key = inr art
  | inl _ => ¬ ok
  end.
Proof.
  cbv zeta. unfold CompareArtifacts.
  case_bool_decide as Hk; [tauto|].
  rewrite !indexOfHeader_neg.
  case_bool_decide as H1; [cbn [orb]; tauto|].
  case_bool_decide as H2; [cbn [orb]; tauto|]. cbn [orb].
  pose proof (buildKeyRowMap_dups file1 (Z.to_nat (indexOfHeader (Headers file1) key))) as Hd1.
  pose proof (buildKeyRowMap_dups file2 (Z.to_nat (indexOfHeader (Headers file2) key))) as Hd2.
  destruct (buildKeyRowMap file1 _) as [m1 dup1]. cbn [fst snd] in *.
  case_bool_decide as Hn1; [tauto|].
  destruct (buildKeyRowMap file2 _) as [m2 dup2]. cbn [fst snd] in *.
  case_bool_decide as Hn2; [tauto|].
  assert (TrimSpace key ≠ "" ∧ key ∈ Headers file1 ∧ key ∈ Headers file2
          ∧ NoDup (rowKeys (Z.to_nat (indexOfHeader (Headers file1) key)) (Rows file1))
          ∧ NoDup (rowKeys (Z.to_nat (indexOfHeader (Headers file2) key)) (Rows file2)))
    as Hok by tauto.
  unfold compareArtifactsFromMaps. rewrite bool_decide_eq_false_2 by done. done.
Qed.

End keyed.

(** ** The streaming loader *)
Section loader.
Import Go excelcmp spec.
Context `{GoTables}.

Lemma padRow_tableRow (headers cols : list string) :
  headers ≠ [] → padRow cols (Z.of_nat (length headers)) = tableRow headers cols.
Proof.
  intros Hh. unfold padRow, tableRow.
  assert (0 < length headers)%nat by (destruct headers; [done|simpl; lia]).
  replace (Z.of_nat (length headers) <=? 0) with false by lia.
  rewrite Nat2Z.id. apply list_eq. intros i.
  rewrite list_lookup_fmap.
  destruct (decide (i < length headers)%nat) as [Hi|Hi].
  - rewrite lookup_seq_lt by done. cbn.
    case_bool_decide as Hl.
    + apply Nat2Z.inj in Hl. rewrite <- Hl in Hi.
      destruct (lookup_lt_is_Some_2 cols i Hi) as [c Hc]. by rewrite Hc.
    + destruct (decide (i < length cols)%nat) as [Hc|Hc].
      * rewrite lookup_app_l by (rewrite length_take; lia).
        rewrite lookup_take_lt by done.
        destruct (lookup_lt_is_Some_2 cols i Hc) as [c Hc']. by rewrite Hc'.
      * rewrite lookup_app_r by (rewrite length_take; lia).
        rewrite length_take, lookup_replicate_2 by lia.
        rewrite lookup_ge_None_2 by lia. done.
  - rewrite (lookup_ge_None_2 (seq _ _)) by (rewrite length_seq; lia). cbn.
    apply lookup_ge_None_2. case_bool_decide as Hl.
    + apply Nat2Z.inj in Hl. lia.
    + rewrite length_app, length_take, length_replicate. lia.
Qed.

Lemma fold_left_ext_all {A B : Type} (f g : A → B → A) (l : list B) (a : A) :
  (∀ a x, f a x = g a x) → fold_left f l a = fold_left g l a.
Proof.
  intros Hfg. revert a. induction l as [|x l IH]; intros a; [done|].
  cbn. by rewrite Hfg, IH.
Qed.

(** The guess looks at the first [checkRows] rows only. *)
Lemma GuessPrimaryKeyColumn_peek (headers : list string) (rows : list (list string))
    (checkRows : Z) :
  let cr := if checkRows <=? 0 then 5 else checkRows in
  GuessPrimaryKeyColumn {| Headers := headers; Rows := take (Z.to_nat cr) rows |} cr
  = GuessPrimaryKeyColumn {| Headers := headers; Rows := rows |} checkRows.
Proof.
  cbv zeta. unfold GuessPrimaryKeyColumn. cbn [Headers].
  case_bool_decide; [done|].
  set (cr := if checkRows <=? 0 then 5 else checkRows).
  assert (0 < cr) as Hcr by (subst cr; case_match; lia).
  replace (if cr <=? 0 then 5 else cr) with cr by (case_match; lia).
  rewrite (fold_left_ext_all
             (guessStep {| Headers := headers; Rows := take (Z.to_nat cr) rows |} cr)
             (guessStep {| Headers := headers; Rows := rows |} cr)); [done|].
  intros best col. unfold guessStep, columnScore. cbn [Rows].
  rewrite length_take.
  destruct (Z.of_nat (length rows) <? cr) eqn:Hl.
  - apply Z.ltb_lt in Hl.
    replace (Z.to_nat cr `min` length rows)%nat with (length rows) by lia.
    rewrite (proj2 (Z.ltb_lt _ _) Hl).
    rewrite take_take. replace (length rows `min` Z.to_nat cr)%nat with (length rows) by lia.
    done.
  - apply Z.ltb_ge in Hl.
    replace (Z.to_nat cr `min` length rows)%nat with (Z.to_nat cr) by lia.
    replace (Z.of_nat (Z.to_nat cr) <? cr) with false by (symmetry; apply Z.ltb_ge; lia).
    rewrite take_take. by rewrite Nat.min_id.
Qed.

(** X24. The streaming loader agrees with reading the whole table: what
    [loadKeyedSheetXLSX] returns are the headers of
    [readXLSXFirstSheetTable] and the row map and duplicates of
    [buildKeyRowMap] on that table; peeking at the first rows does not
    show.  Every stored row is as long as the header row.  A workbook
    without a sheet or without a row loads with no header, no row and the
    key as it was given, which is then no header; in every other case the
    header row is not empty and the key is one of the headers: the guessed
    one for file 1, the trimmed given one for file 2. *)
Theorem loadKeyedSheetXLSX_table (sheet : option (list (list string))) (checkRows : Z)
    (key : string) (allowGuess : bool) (ks : keyedSheet) (dups : list string) :
  loadKeyedSheetXLSX sheet checkRows key allowGuess = inr (ks, dups) →
  let tbl := readXLSXFirstSheetTable sheet in
  let keyIdx := Z.to_nat (indexOfHeader (Headers tbl) (ks_Key ks)) in
  ks_Headers ks = Headers tbl
  ∧ (RowsByKey ks, dups) = buildKeyRowMap tbl keyIdx
  ∧ match sheet with
    | None | Some [] =>
        ks = {| ks_Headers := []; ks_Key := key; RowsByKey := ∅ |} ∧ dups = []
    | Some (_ :: _) =>
        Headers tbl ≠ []
        ∧ ks_Key ks ∈ Headers tbl
        ∧ ks_Key ks = if allowGuess
                      then default "" (GuessPrimaryKeyColumn tbl checkRows)
                      else TrimSpace key
    end
  ∧ (∀ k row, RowsByKey ks !! k = Some row → length row = length (Headers tbl)).
Proof.
  intros Hload. cbv zeta.
  destruct sheet as [[|rawHeader rest]|];
    try (cbn in Hload; simplify_eq; cbn; repeat split; try done;
         intros k row Hk; by rewrite lookup_empty in Hk).
  unfold loadKeyedSheetXLSX in Hload. cbv zeta in Hload.
  unfold readXLSXFirstSheetTable.
  set (headers := normalizeHeaders rawHeader) in *.
  set (cr := if checkRows <=? 0 then 5 else checkRows) in *.
  destruct (decide (headers = [])) as [Hh|Hh].
  { (* without a header every path is an error *)
    exfalso. rewrite Hh in Hload. cbn [length] in Hload.
    destruct allowGuess.
    - unfold GuessPrimaryKeyColumn in Hload. cbn [Headers length] in Hload.
      by rewrite bool_decide_eq_true_2 in Hload.
    - case_bool_decide; [done|]. by cbn in Hload. }
  assert ((λ cols, padRow cols (Z.of_nat (length headers))) <$> take (Z.to_nat cr) rest
          = take (Z.to_nat cr) (tableRow headers <$> rest)) as Hpeek.
  { rewrite fmap_take. f_equal. apply list_fmap_ext. intros i cols _.
    by apply padRow_tableRow. }
  assert ((λ cols, padRow cols (Z.of_nat (length headers))) <$> drop (Z.to_nat cr) rest
          = drop (Z.to_nat cr) (tableRow headers <$> rest)) as Hrest.
  { rewrite fmap_drop. f_equal. apply list_fmap_ext. intros i cols _.
    by apply padRow_tableRow. }
  rewrite Hpeek, Hrest in Hload. clear Hpeek Hrest.
  rewrite bool_decide_eq_false_2 by (by destruct headers).
  set (rows := tableRow headers <$> rest) in *.
  assert (∃ keyUsed,
    (if allowGuess
     then match GuessPrimaryKeyColumn {| Headers := headers; Rows := take (Z.to_nat cr) rows |} cr with
          | Some k => inr k
          | None => inl ErrNoGuess
          end
     else inr (TrimSpace key)) = inr keyUsed
    ∧ keyUsed = (if allowGuess
                 then default "" (GuessPrimaryKeyColumn {| Headers := headers; Rows := rows |}
                                    checkRows)
                 else TrimSpace key)) as (keyUsed & Hg & Hkey).
  { destruct allowGuess; [|by eexists].
    pose proof (GuessPrimaryKeyColumn_peek headers rows checkRows) as Hp. cbv zeta in Hp.
    fold cr in Hp. rewrite <- Hp.
    destruct (GuessPrimaryKeyColumn _ cr) as [k|]; [by eexists|done]. }
  rewrite Hg in Hload.
  case_bool_decide as Hk; [done|].
  rewrite indexOfHeader_neg in Hload.
  case_bool_decide as Hin; [done|].
  rewrite <- fold_left_app, take_drop in Hload.
  simplify_eq. cbn [ks_Headers ks_Key RowsByKey Headers Rows].
  split; [done|]. split.
  { unfold buildKeyRowMap. cbn [Rows].
    by destruct (fold_left _ rows _) as [[? ?] ?]. }
  split; [done|].
  intros k row Hrow.
  pose proof (buildKeyRowMap_loop
                (Z.to_nat (indexOfHeader headers
                   (if allowGuess
                    then default "" (GuessPrimaryKeyColumn {| Headers := headers; Rows := rows |}
                                       checkRows)
                    else TrimSpace key))) rows) as (Ho & _).
  cbv zeta in Ho. rewrite Ho in Hrow. apply head_Some_elem_of in Hrow.
  apply list_elem_of_filter in Hrow as [_ Hrow]. subst rows.
  apply list_elem_of_fmap in Hrow as (cols & -> & _).
  unfold tableRow. by rewrite length_fmap, length_seq.
Qed.

End loader.

(** ** The Changed sheet with its highlights *)
Section changed_sheet.
Import Go excelcmp spec.
Context `{GoTables}.

Lemma bit_index (i : Z) :
  0 ≤ i → 0 ≤ Z.shiftr i 6 ∧ 0 ≤ Z.land i 63 < 64 ∧ i = 64 * Z.shiftr i 6 + Z.land i 63.
Proof.
  intros Hi. rewrite Z.shiftr_div_pow2 by lia. change 63 with (Z.ones 6).
  rewrite Z.land_ones by lia. change (2 ^ 6) with 64.
  pose proof (Z.mod_pos_bound i 64 ltac:(lia)). pose proof (Z.div_mod i 64 ltac:(lia)).
  split; [apply Z.div_pos; lia|]. lia.
Qed.

Lemma bit_of (b : Z) : 0 ≤ b < 64 → Z.shiftl 1 b mod two64 = 2 ^ b.
Proof.
  intros Hb. rewrite Z.shiftl_1_l. apply Z.mod_small.
  split; [apply Z.pow_nonneg; lia|]. unfold two64. apply Z.pow_lt_mono_r; lia.
Qed.

Lemma mask_test (x b : Z) :
  0 ≤ b < 64 → negb (Z.land x (Z.shiftl 1 b mod two64) =? 0) = Z.testbit x b.
Proof.
  intros Hb. rewrite bit_of by done.
  destruct (Z.testbit x b) eqn:Et.
  - apply negb_true_iff, Z.eqb_neq. intros H0.
    assert (Z.testbit (Z.land x (2 ^ b)) b = true) as Hbit
      by (rewrite Z.land_spec, Et, Z.pow2_bits_true; [done|lia]).
    by rewrite H0, Z.bits_0 in Hbit.
  - apply negb_false_iff, Z.eqb_eq. apply Z.bits_inj'. intros n Hn.
    rewrite Z.land_spec, Z.bits_0, Z.pow2_bits_eqb by lia.
    destruct (Z.eqb_spec b n) as [->|]; [by rewrite Et|by rewrite andb_false_r].
Qed.

Lemma mask_set (x b b' : Z) :
  0 ≤ b < 64 → 0 ≤ b' →
  Z.testbit (Z.lor x (Z.shiftl 1 b mod two64)) b' = Z.testbit x b' || (b =? b').
Proof. intros Hb Hb'. by rewrite bit_of, Z.lor_spec, Z.pow2_bits_eqb by lia. Qed.

Lemma diffMaskGet_zero (L : nat) (j : Z) : diffMaskGet (replicate L 0) j = false.
Proof.
  unfold diffMaskGet. destruct (j <? 0) eqn:Hj; [done|]. apply Z.ltb_ge in Hj.
  destruct (bit_index j Hj) as (Hw & Hb & _).
  rewrite length_replicate.
  destruct ((Z.shiftr j 6 <? 0) || (Z.of_nat L <=? Z.shiftr j 6)) eqn:Hr; [done|].
  apply orb_false_iff in Hr as [_ Hr]. apply Z.leb_gt in Hr.
  rewrite lookup_total_replicate_2 by lia. done.
Qed.

(** Setting bit [i] changes the answer for [i] and for nothing else. *)
Lemma diffMaskGet_setDiff (ms : maskState) (i j : Z) :
  0 ≤ i → Z.shiftr i 6 < Z.of_nat (length ms.1) →
  diffMaskGet (setDiff ms i).1 j = diffMaskGet ms.1 j || (i =? j).
Proof.
  intros Hi Hlen. destruct (bit_index i Hi) as (Hwi & Hbi & Ei).
  unfold setDiff.
  replace (i <? 0) with false by (symmetry; by apply Z.ltb_ge).
  replace ((Z.shiftr i 6 <? 0) || (Z.of_nat (length ms.1) <=? Z.shiftr i 6)) with false
    by (symmetry; apply orb_false_iff; split; [by apply Z.ltb_ge|by apply Z.leb_gt]).
  cbn [fst]. unfold diffMaskGet. rewrite length_insert.
  destruct (j <? 0) eqn:Hj.
  { apply Z.ltb_lt in Hj. symmetry. apply Z.eqb_neq. lia. }
  apply Z.ltb_ge in Hj. destruct (bit_index j Hj) as (Hwj & Hbj & Ej).
  destruct ((Z.shiftr j 6 <? 0) || (Z.of_nat (length ms.1) <=? Z.shiftr j 6)) eqn:Hr.
  { apply orb_true_iff in Hr as [Hr|Hr]; [apply Z.ltb_lt in Hr; lia|].
    apply Z.leb_le in Hr. symmetry. apply Z.eqb_neq. intros ->. lia. }
  apply orb_false_iff in Hr as [_ Hr]. apply Z.leb_gt in Hr.
  rewrite !mask_test by done.
  destruct (decide (Z.shiftr j 6 = Z.shiftr i 6)) as [Ew|Ew].
  - rewrite Ew, list_lookup_total_insert_eq by lia.
    rewrite mask_set by lia. f_equal.
    destruct (Z.eqb_spec (Z.land i 63) (Z.land j 63)) as [Eb|Eb].
    + symmetry. apply Z.eqb_eq. lia.
    + symmetry. apply Z.eqb_neq. intros ->. done.
  - rewrite list_lookup_total_insert_ne by lia.
    replace (i =? j) with false; [by rewrite orb_false_r|].
    symmetry. apply Z.eqb_neq. intros ->. done.
Qed.

Lemma setDiff_dirty (ms : maskState) (i : Z) :
  dirty_ok ms → dirty_ok (setDiff ms i) ∧ length (setDiff ms i).1 = length ms.1.
Proof.
  intros Hinv. unfold setDiff.
  destruct (i <? 0) eqn:Hi; [done|]. apply Z.ltb_ge in Hi.
  destruct (bit_index i Hi) as (Hwi & Hbi & _).
  destruct ((Z.shiftr i 6 <? 0) || (Z.of_nat (length ms.1) <=? Z.shiftr i 6)) eqn:Hr; [done|].
  apply orb_false_iff in Hr as [_ Hr]. apply Z.leb_gt in Hr.
  cbn [fst snd]. split; [|by rewrite length_insert].
  intros w x Hl Hx. cbn [fst snd] in *.
  destruct (decide (w = Z.to_nat (Z.shiftr i 6))) as [->|Hw].
  - destruct (ms.1 !!! Z.to_nat (Z.shiftr i 6) =? 0) eqn:Hb.
    + apply elem_of_app. right. apply list_elem_of_singleton. lia.
    + apply Z.eqb_neq in Hb. apply (Hinv _ (ms.1 !!! Z.to_nat (Z.shiftr i 6))); [|done].
      apply list_lookup_lookup_total_lt. lia.
  - rewrite list_lookup_insert_ne in Hl by done.
    pose proof (Hinv w x Hl Hx) as Hin.
    destruct (_ =? 0); [apply elem_of_app; by left|done].
Qed.

(** Clearing the dirty words clears the bit set. *)
Lemma resetMask_zero (ms : maskState) :
  dirty_ok ms → resetMask ms = (replicate (length ms.1) 0, []).
Proof.
  intros Hinv. unfold resetMask. f_equal. symmetry.
  assert (∀ d m,
    length (fold_left (λ mask w, <[Z.to_nat w := 0]> mask) d m) = length m
    ∧ ∀ (n : nat) x, fold_left (λ mask w, <[Z.to_nat w := 0]> mask) d m !! n = Some x →
        x = 0 ∨ (m !! n = Some x ∧ Z.of_nat n ∉ d)) as Hfold.
  { induction d as [|w d IH]; intros m.
    - split; [done|]. intros n x Hn. right. split; [done|]. apply not_elem_of_nil.
    - cbn [fold_left]. destruct (IH (<[Z.to_nat w := 0]> m)) as [Hlen Hl].
      split; [by rewrite Hlen, length_insert|].
      intros n x Hn. destruct (Hl n x Hn) as [?|[Hm Hd]]; [by left|].
      destruct (decide (n = Z.to_nat w)) as [->|Hne].
      + left. apply list_lookup_insert_Some in Hm as [(_ & <- & _)|[Hne _]]; done.
      + right. rewrite list_lookup_insert_ne in Hm by done. split; [done|].
        rewrite not_elem_of_cons. split; [lia|done]. }
  destruct (Hfold ms.2 ms.1) as [Hlen Hl].
  apply replicate_as_Forall. split; [done|].
  apply Forall_lookup. intros n x Hn.
  destruct (Hl n x Hn) as [?|[Hm Hd]]; [done|].
  destruct (decide (x = 0)) as [?|Hx]; [done|]. destruct Hd. by eapply Hinv.
Qed.

Lemma detectStep_full (art : Artifacts) (left right : list string)
    (cache : normCache) (ms : maskState) (hasDiff : bool) (i : nat) :
  cache_ok cache →
  ∃ cache', cache_ok cache'
    ∧ detectStep art left right (cache, ms, hasDiff) i
      = (cache', (if cellsDiffer art left right i then setDiff ms (Z.of_nat i) else ms),
         hasDiff || cellsDiffer art left right i).
Proof.
  intros Hc. unfold detectStep, cellsDiffer.
  destruct (cellPair art left right i) as [va vb]. cbn [fst snd].
  destruct (cachedNormalizeFP_spec cache va Hc) as [E1 Hc1].
  destruct (cachedNormalizeFP cache va) as [[n1 f1] cache1]. cbn [fst snd] in E1, Hc1.
  destruct (cachedNormalizeFP_spec cache1 vb Hc1) as [E2 Hc2].
  destruct (cachedNormalizeFP cache1 vb) as [[n2 f2] cache2]. cbn [fst snd] in E2, Hc2.
  injection E1 as -> ->. injection E2 as -> ->.
  exists cache2. split; [done|].
  case_bool_decide as Hn.
  - rewrite orb_true_r. by destruct (negb _).
  - rewrite Hn, Z.eqb_refl, orb_false_r. done.
Qed.

Lemma detect_fold_full (art : Artifacts) (left right : list string) (L n : nat)
    (cache : normCache) :
  cache_ok cache →
  (∀ i, (i < n)%nat → Z.shiftr (Z.of_nat i) 6 < Z.of_nat L) →
  ∃ cache' ms,
    fold_left (detectStep art left right) (seq 0 n)
      (cache, ((replicate L 0, []) : maskState), false)
    = (cache', ms, existsb (cellsDiffer art left right) (seq 0 n))
    ∧ cache_ok cache' ∧ dirty_ok ms ∧ length ms.1 = L
    ∧ ∀ j : nat, diffMaskGet ms.1 (Z.of_nat j)
                 = bool_decide (j < n)%nat && cellsDiffer art left right j.
Proof.
  intros Hc. induction n as [|n IH]; intros Hw.
  - exists cache, (replicate L 0, []). cbn [seq fold_left existsb fst snd].
    split; [done|]. split; [done|].
    split; [by intros w x [-> _]%lookup_replicate Hx|].
    split; [by rewrite length_replicate|].
    intros j. rewrite diffMaskGet_zero. by rewrite bool_decide_eq_false_2 by lia.
  - destruct IH as (cache' & ms & Hf & Hc' & Hd & Hl & Hm); [intros i Hi; apply Hw; lia|].
    rewrite seq_S, fold_left_app, Hf, existsb_app. cbn [fold_left existsb Nat.add].
    destruct (detectStep_full art left right cache' ms
                (existsb (cellsDiffer art left right) (seq 0 n)) n Hc') as (cache'' & Hc'' & ->).
    rewrite orb_false_r.
    eexists cache'', _. split; [done|]. split; [done|].
    destruct (cellsDiffer art left right n) eqn:Hdiff.
    + destruct (setDiff_dirty ms (Z.of_nat n) Hd) as [Hd' Hl'].
      split; [done|]. split; [by rewrite Hl'|].
      intros j. rewrite diffMaskGet_setDiff; [|lia|rewrite Hl; apply Hw; lia].
      rewrite Hm. destruct (decide (j = n)) as [->|Hne].
      * rewrite Z.eqb_refl, orb_true_r, Hdiff.
        by rewrite bool_decide_eq_true_2 by lia.
      * replace (Z.of_nat n =? Z.of_nat j) with false by (symmetry; apply Z.eqb_neq; lia).
        rewrite orb_false_r. f_equal. apply bool_decide_ext. lia.
    + split; [done|]. split; [done|].
      intros j. rewrite Hm. destruct (decide (j = n)) as [->|Hne].
      * by rewrite Hdiff, !andb_false_r.
      * f_equal. apply bool_decide_ext. lia.
Qed.

Lemma diffRow_changedRow (art : Artifacts) (redStyle : Z) (k : string) (mask : list Z) :
  (∀ j : nat, (j < length (OrderedCols art))%nat →
     diffMaskGet mask (Z.of_nat j)
     = cellsDiffer art (LeftByKey art !!! k) (RightByKey art !!! k) j) →
  diffRow art redStyle k (LeftByKey art !!! k) (RightByKey art !!! k) mask
  = changedRow art redStyle k.
Proof.
  intros Hm. unfold diffRow, changedRow. cbv zeta. f_equal. f_equal.
  apply list_fmap_ext. intros idx i Hi. apply lookup_seq in Hi as [-> Hlt].
  cbn [Nat.add]. rewrite Hm by done.
  by destruct (cellPair art (LeftByKey art !!! k) (RightByKey art !!! k) idx).
Qed.

Lemma mask_wide_enough (n i : nat) :
  (i < n)%nat →
  Z.shiftr (Z.of_nat i) 6 < Z.of_nat (Z.to_nat (diffMaskWords (Z.of_nat n))).
Proof.
  intros Hi. unfold diffMaskWords.
  replace (Z.of_nat n <=? 0) with false by (symmetry; apply Z.leb_gt; lia).
  rewrite Z.shiftr_div_pow2 by lia. change (2 ^ 6) with 64.
  replace (Z.of_nat n + 63) with (Z.of_nat n - 1 + 1 * 64) by lia.
  rewrite Z.div_add by lia.
  assert (0 ≤ (Z.of_nat n - 1) / 64) by (apply Z.div_pos; lia).
  rewrite Z2Nat.id by lia.
  assert (Z.of_nat i / 64 ≤ (Z.of_nat n - 1) / 64) by (apply Z.div_le_mono; lia).
  lia.
Qed.

Lemma existsb_cellsDiffer (art : Artifacts) (left right : list string) (l : list nat) :
  existsb (cellsDiffer art left right) l = true
  ↔ Exists (λ i, cellsDiffer art left right i = true) l.
Proof.
  induction l as [|i l IH]; cbn [existsb].
  - rewrite Exists_nil. split; [done|tauto].
  - rewrite Exists_cons, orb_true_iff, IH. tauto.
Qed.

Section writer.
Variables (art : Artifacts) (fn1 fn2 : string) (redStyle : Z).

Let L : nat := Z.to_nat (diffMaskWords (Z.of_nat (length (OrderedCols art)))).

Let differs (k : string) : Prop :=
  Exists (λ i, cellsDiffer art (LeftByKey art !!! k) (RightByKey art !!! k) i = true)
    (seq 0 (length (OrderedCols art))).

Let written (changed : list string) : Sheet :=
  if bool_decide (changed = []) then []
  else (cellAxis 1 1, diffHeader art fn1 fn2)
       :: imap (λ i k, (cellAxis (Z.of_nat i + 2) 1, changedRow art redStyle k)) changed.

Lemma diff_fold_full (keys : list string) :
  let st := fold_left (diffStep art fn1 fn2 redStyle) keys
              {| dw_cache := ∅; dw_mask := (replicate L 0, []); dw_rowNum := 1;
                 dw_firstWritten := false; dw_sw := [] |} in
  cache_ok (dw_cache st)
  ∧ dw_mask st = (replicate L 0, [])
  ∧ dw_sw st = written (filter differs keys)
  ∧ dw_rowNum st = 1 + Z.of_nat (length (dw_sw st))
  ∧ dw_firstWritten st = bool_decide (filter differs keys ≠ []).
Proof.
  cbv zeta. induction keys as [|k keys IH] using rev_ind.
  - cbn. split; [by intros ? ?|]. done.
  - rewrite fold_left_app, filter_app. cbn [fold_left].
    destruct IH as (Hc & Hmask & Hsw & Hrow & Hfirst).
    set (st := fold_left (diffStep art fn1 fn2 redStyle) keys _) in *.
    unfold diffStep. rewrite !default_lookup_total, Hmask.
    destruct (detect_fold_full art (LeftByKey art !!! k) (RightByKey art !!! k) L
                (length (OrderedCols art)) (dw_cache st) Hc)
      as (cache' & ms & -> & Hc' & Hd & Hl & Hm);
      [intros i Hi; by apply mask_wide_enough|].
    rewrite (resetMask_zero ms Hd), Hl.
    rewrite filter_cons, filter_nil.
    destruct (existsb _ _) eqn:Hex.
    + apply existsb_cellsDiffer in Hex.
      rewrite decide_True by exact Hex.
      rewrite diffRow_changedRow
        by (intros j Hj; rewrite Hm; by rewrite bool_decide_eq_true_2).
      cbn [negb]. rewrite Hfirst, Hrow, Hsw.
      destruct (filter differs keys) as [|k0 changed] eqn:Ech.
      * cbn. done.
      * cbn [app negb]. rewrite bool_decide_eq_true_2 by done. cbn [negb].
        cbn [dw_cache dw_mask dw_sw dw_rowNum dw_firstWritten].
        split; [done|]. split; [done|].
        unfold written. rewrite !bool_decide_eq_false_2 by done.
        change ((k0 :: changed) ++ [k]) with (k0 :: (changed ++ [k])).
        split.
        { cbn [app]. f_equal. rewrite (imap_app _ (k0 :: changed) [k]). f_equal.
          cbn [imap length]. rewrite length_imap. cbn [length].
          do 3 f_equal. lia. }
        split; [|by rewrite bool_decide_eq_true_2].
        rewrite length_app. cbn [length]. lia.
    + assert (¬ differs k) as Hno.
      { intros Hk.
        by rewrite (proj2 (existsb_cellsDiffer art _ _ _) Hk) in Hex. }
      rewrite decide_False by exact Hno. rewrite app_nil_r. cbn [negb].
      cbn [dw_cache dw_mask dw_sw dw_rowNum dw_firstWritten]. done.
Qed.

End writer.

(** X25. The Changed sheet, completely: it has one row for each common key
    whose rows differ in the normalized value of some union column, in the
    order of the common keys, below a title row; next to the key, a row
    shows the two cells of every union column, and a pair of cells carries
    the highlight style exactly when the two normalized values differ (and
    a style was created).  Marks of one row never show in a later row.
    With no such key the sheet is the single cell of the placeholder. *)
Theorem changed_sheet_cells (art : Artifacts) (file1Name file2Name : string)
    (redStyle : Z) :
  writeDiffSideBySideStream art file1Name file2Name redStyle
  = if bool_decide (changedKeys art = []) then [("A1", [VString "无变动项目"])]
    else (cellAxis 1 1,
          diffHeader art (titleName file1Name "文件1") (titleName file2Name "文件2"))
         :: imap (λ i k, (cellAxis (Z.of_nat i + 2) 1, changedRow art redStyle k))
              (changedKeys art).
Proof.
  unfold writeDiffSideBySideStream, changedKeys.
  case_bool_decide as He.
  { rewrite He. by rewrite filter_nil. }
  cbv zeta. fold (titleName file1Name "文件1") (titleName file2Name "文件2").
  destruct (diff_fold_full art (titleName file1Name "文件1") (titleName file2Name "文件2")
              redStyle (CommonKeys art)) as (_ & _ & Hsw & _ & Hfirst).
  cbv zeta in Hsw, Hfirst. rewrite Hfirst, Hsw.
  match goal with |- context [imap _ ?l] => generalize l end.
  intros [|k0 changed].
  - rewrite bool_decide_eq_false_2 by (by intros ?). cbn [negb].
    by rewrite !bool_decide_eq_true_2.
  - rewrite bool_decide_eq_true_2 by done. cbn [negb].
    by rewrite !bool_decide_eq_false_2.
Qed.

End changed_sheet.

(** ** The bit set of the differing columns *)
Section diff_mask.
Import Go excelcmp spec.

(** X26. Reading after writing in the bit set: after [diffMaskSet mask i]
    column [i] is marked and no other column changes, when [i] lies within
    the mask; outside of it (negative, or beyond the last word) nothing
    changes.  A mask of [diffMaskWords n] words has room for each of [n]
    columns. *)
Theorem diffMask_set_get (mask : list Z) (i j : Z) :
  diffMaskGet (diffMaskSet mask i) j
  = diffMaskGet mask j
    || (bool_decide (0 ≤ i < 64 * Z.of_nat (length mask)) && (i =? j))
  ∧ ∀ n c : nat, (c < n)%nat →
      0 ≤ Z.of_nat c < 64 * Z.of_nat (Z.to_nat (diffMaskWords (Z.of_nat n))).
Proof.
  split.
  - assert (diffMaskSet mask i = (setDiff (mask, []) i).1) as ->.
    { unfold diffMaskSet, setDiff. cbn [fst snd]. by repeat case_match. }
    destruct (decide (0 ≤ i)) as [Hi|Hi].
    + destruct (bit_index i Hi) as (Hw & Hb & Ei).
      destruct (decide (Z.shiftr i 6 < Z.of_nat (length mask))) as [Hl|Hl].
      * rewrite diffMaskGet_setDiff by done. cbn [fst].
        by rewrite bool_decide_eq_true_2 by lia.
      * rewrite bool_decide_eq_false_2 by lia. cbn [andb]. rewrite orb_false_r.
        unfold setDiff. cbn [fst snd].
        replace (Z.of_nat (length mask) <=? Z.shiftr i 6) with true
          by (symmetry; apply Z.leb_le; lia).
        rewrite orb_true_r. by destruct (i <? 0).
    + rewrite bool_decide_eq_false_2 by lia. cbn [andb]. rewrite orb_false_r.
      unfold setDiff. by replace (i <? 0) with true by (symmetry; apply Z.ltb_lt; lia).
  - intros n c Hc. pose proof (mask_wide_enough n c Hc) as Hw.
    destruct (bit_index (Z.of_nat c) ltac:(lia)) as (Hw0 & Hb & Ec). lia.
Qed.

End diff_mask.

(** * The settings of the Redis store *)
Section settings.
Import Go store.
Context `{GoTables}.

(** X27. The settings read from the environment: the database index is
    never negative, and the time to live of the job keys is positive (the
    given number of seconds, or a week) unless more than 9223372036
    seconds (292 years) are asked for, where the conversion to
    nanoseconds wraps around. *)
Theorem redis_settings (env : string) :
  0 ≤ readRedisDB env
  ∧ (0 < readCompareJobTTL env ≤ 9223372036 * 1000000000
     ∨ ∃ n, ParseInt (TrimSpace env) = Some n ∧ 9223372036 < n).
Proof.
  split.
  - unfold readRedisDB. case_bool_decide; [done|].
    destruct (Atoi (TrimSpace env)) as [n|]; [|done].
    destruct (n <? 0) eqn:Hn; [done|]. by apply Z.ltb_ge in Hn.
  - unfold readCompareJobTTL, week. case_bool_decide; [left; lia|].
    destruct (ParseInt (TrimSpace env)) as [n|]; [|left; lia].
    destruct (n <=? 0) eqn:Hn; [left; lia|]. apply Z.leb_gt in Hn.
    destruct (decide (n ≤ 9223372036)) as [Hle|Hgt]; [|right; exists n; split; [done|lia]].
    left. unfold wrap_int64.
    rewrite Z.mod_small by lia. lia.
Qed.

(** The exception is real: [2^55] seconds give a time to live of zero. *)
Example readCompareJobTTL_wraps : readCompareJobTTL "36028797018963968" = 0.
Proof. vm_compute. reflexivity. Qed.

End settings.

From Stdlib Require Import Lqa Qpower.

(** * The fee, from the order to the payment notification *)

Section float_error.
Import Go.

Lemma Q2_pos (k : Z) : (0 < 2 ^ k)%Q.
Proof. by apply Qpower_0_lt. Qed.

Lemma Q2_add (x y : Z) : (2 ^ (x + y) == 2 ^ x * 2 ^ y)%Q.
Proof. by apply Qpower_plus. Qed.

Lemma Q2_Z (n : Z) : 0 ≤ n → (inject_Z (2 ^ n) == 2 ^ n)%Q.
Proof. intros Hn. by apply (Zpower_Qpower 2). Qed.

Lemma Q2_inv (e : Z) : (2 ^ e * 2 ^ (- e) == 1)%Q.
Proof. rewrite <- Q2_add. by replace (e + - e) with 0 by lia. Qed.

Lemma pow2Q_Q2 (e : Z) : (pow2Q e == 2 ^ e)%Q.
Proof.
  unfold pow2Q. destruct (Z.leb_spec 0 e) as [He|He].
  - change (2 ^ e # 1)%Q with (inject_Z (2 ^ e)). by apply Q2_Z.
  - assert (0 < 2 ^ (- e)) as Hp by (apply Z.pow_pos_nonneg; lia).
    rewrite Qmake_Qdiv, Z2Pos.id, Q2_Z by (done || lia).
    pose proof (Q2_inv e) as Hi. pose proof (Q2_pos (- e)) as Hn.
    apply (Qmult_inj_r _ _ (2 ^ (- e))%Q); [lra|].
    rewrite Hi. field. lra.
Qed.

(** The logarithm brackets the quotient. *)
Lemma ilog2_spec (a b : Z) :
  0 < a → 0 < b →
  (2 ^ ilog2 a b * inject_Z b <= inject_Z a)%Q
  ∧ (inject_Z a < 2 ^ (ilog2 a b + 1) * inject_Z b)%Q.
Proof.
  intros Ha Hb.
  destruct (Z.log2_spec a Ha) as [La Ua]. destruct (Z.log2_spec b Hb) as [Lb Ub].
  pose proof (Z.log2_nonneg a) as Hla. pose proof (Z.log2_nonneg b) as Hlb.
  replace (Z.succ (Z.log2 a)) with (Z.log2 a + 1) in Ua by lia.
  replace (Z.succ (Z.log2 b)) with (Z.log2 b + 1) in Ub by lia.
  rewrite Zle_Qle, Q2_Z in La, Lb by lia. rewrite Zlt_Qlt, Q2_Z in Ua, Ub by lia.
  assert (0 < inject_Z b)%Q as HB by (rewrite <- (Zlt_Qlt 0); lia).
  unfold ilog2. set (d := Z.log2 a - Z.log2 b).
  assert ((if 0 <=? d then b * 2 ^ d <=? a else b <=? a * 2 ^ (- d)) = true
          ↔ (2 ^ d * inject_Z b <= inject_Z a)%Q) as Htest.
  { destruct (Z.leb_spec 0 d) as [Hd|Hd].
    - rewrite Z.leb_le, Zle_Qle, inject_Z_mult, Q2_Z by lia. split; intros; lra.
    - rewrite Z.leb_le, Zle_Qle, inject_Z_mult, Q2_Z by lia.
      pose proof (Q2_inv d). pose proof (Q2_pos d). pose proof (Q2_pos (- d)).
      split; intros; nra. }
  destruct (if 0 <=? d then b * 2 ^ d <=? a else b <=? a * 2 ^ (- d)) eqn:Et.
  - split; [by apply Htest|].
    replace (Z.log2 a + 1) with ((d + 1) + Z.log2 b) in Ua by lia.
    rewrite Q2_add in Ua. pose proof (Q2_pos (d + 1)). nra.
  - assert (inject_Z a < 2 ^ d * inject_Z b)%Q as Hlt.
    { apply Qnot_le_lt. intros Hle. apply Htest in Hle. done. }
    replace (d - 1 + 1) with d by lia. split; [|done].
    replace (Z.log2 a) with ((d - 1) + (Z.log2 b + 1)) in La by lia.
    rewrite Q2_add in La. pose proof (Q2_pos (d - 1)). nra.
Qed.

Lemma round_half_even_error (n d : Z) :
  0 < d → 2 * Z.abs (round_half_even n d * d - n) ≤ d.
Proof.
  intros Hd. unfold round_half_even.
  pose proof (Z.div_mod n d ltac:(lia)). pose proof (Z.mod_pos_bound n d Hd).
  destruct (2 * (n mod d) <? d) eqn:E1; [apply Z.ltb_lt in E1; lia|].
  apply Z.ltb_ge in E1.
  destruct (d <? 2 * (n mod d)) eqn:E2; [apply Z.ltb_lt in E2; lia|].
  apply Z.ltb_ge in E2. destruct (Z.even (n / d)); lia.
Qed.

(** Rounding a quotient between [2^-1022] and [2^52] moves it by at most
    half a unit in the last place. *)
Lemma RN_pos_error (a b : Z) :
  0 < a → 0 < b → -1022 ≤ ilog2 a b < 52 →
  ∃ v, RN_pos a b = Some v
    ∧ (v * inject_Z b - inject_Z a <= 2 ^ (ilog2 a b - 53) * inject_Z b)%Q
    ∧ (inject_Z a - v * inject_Z b <= 2 ^ (ilog2 a b - 53) * inject_Z b)%Q.
Proof.
  intros Ha Hb Hk. destruct (ilog2_spec a b Ha Hb) as [Hlo Hup].
  unfold RN_pos. set (k := ilog2 a b) in *.
  replace (Z.max (k - 52) (-1074)) with (k - 52) by lia.
  replace (0 <=? k - 52) with false by (symmetry; apply Z.leb_gt; lia).
  set (E := 2 ^ (- (k - 52))).
  assert (0 < E) as HE by (apply Z.pow_pos_nonneg; lia).
  set (m := round_half_even (a * E) b).
  pose proof (round_half_even_error (a * E) b Hb) as Herr. fold m in Herr.
  assert (0 < inject_Z b)%Q as HB by (rewrite <- (Zlt_Qlt 0); lia).
  assert (0 < inject_Z a)%Q as HA by (rewrite <- (Zlt_Qlt 0); lia).
  assert (inject_Z E == 2 ^ (- (k - 52)))%Q as HEq by (apply Q2_Z; lia).
  pose proof (Q2_inv (k - 52)) as Hinv. pose proof (Q2_pos (k - 52)) as Hpos.
  assert (2 ^ (k - 52) == 2 * 2 ^ (k - 53))%Q as Hhalf.
  { replace (k - 52) with (1 + (k - 53)) by lia. by rewrite Q2_add. }
  assert (2 ^ (k + 1) == 2 ^ 53 * 2 ^ (k - 52))%Q as Hwide.
  { replace (k + 1) with (53 + (k - 52)) by lia. by rewrite Q2_add. }
  set (v := Qred (Qmult (m # 1) (pow2Q (k - 52)))).
  assert (v == inject_Z m * 2 ^ (k - 52))%Q as Hv.
  { unfold v. rewrite Qred_correct, pow2Q_Q2. done. }
  assert (inject_Z (2 * (m * b)) <= inject_Z (b + 2 * (a * E))
          ∧ inject_Z (2 * (a * E)) <= inject_Z (b + 2 * (m * b)))%Q as [Hq1 Hq2]
    by (rewrite <- !Zle_Qle; lia).
  rewrite !inject_Z_plus, !inject_Z_mult in Hq1, Hq2.
  change (inject_Z 2) with 2%Q in Hq1, Hq2.
  set (P := (2 ^ (k - 52))%Q) in *. set (N := (2 ^ (- (k - 52)))%Q) in *.
  set (A := inject_Z a) in *. set (B := inject_Z b) in *. set (M := inject_Z m) in *.
  assert (v * B - A <= 2 ^ (k - 53) * B ∧ A - v * B <= 2 ^ (k - 53) * B)%Q as [He1 He2].
  { rewrite Hv. rewrite HEq in Hq1, Hq2.
    assert (P * (2 * (M * B)) <= P * (B + 2 * (A * N)))%Q by nra.
    assert (P * (2 * (A * N)) <= P * (B + 2 * (M * B)))%Q by nra.
    split; nra. }
  exists v. split; [|done].
  replace (Qle_bool (2 ^ 1024 # 1) v) with false; [done|].
  symmetry. apply not_true_iff_false. rewrite Qle_bool_iff. apply Qlt_not_le.
  assert (v * B < 2 ^ 54 * B)%Q as Hlt.
  { assert (2 ^ 53 == 9007199254740992)%Q as H53 by reflexivity.
    assert (2 ^ 54 == 18014398509481984)%Q as H54 by reflexivity.
    assert (2 ^ 52 == 4503599627370496)%Q as H52 by reflexivity.
    assert (2 ^ (k + 1) <= 2 ^ 53)%Q as Hk53
      by (apply Qpower_le_compat_l; [lia|lra]).
    assert (2 ^ (k - 53) <= 2 ^ 0)%Q as Hk0
      by (apply Qpower_le_compat_l; [lia|lra]).
    change (2 ^ 0)%Q with 1%Q in Hk0.
    rewrite H54. rewrite H53 in Hk53. nra. }
  assert (v < 2 ^ 54)%Q as Hv54 by nra.
  eapply Qlt_trans; [exact Hv54|]. reflexivity.
Qed.

(** Rounding a rational between [2^-10] and [2^52] to a [float64]: the
    result is finite and off by at most the fraction [2^-53] of the
    value. *)
Lemma RN_error (q : Q) :
  (1 # 1024 <= q)%Q → (q < 4503599627370496)%Q →
  ∃ v, RN q = Ffin v
    ∧ (v - q <= q * (1 # 9007199254740992))%Q
    ∧ (q - v <= q * (1 # 9007199254740992))%Q.
Proof.
  intros Hlo Hhi. unfold RN.
  pose proof (Qred_correct q) as Hred.
  destruct (Qred q) as [n b] eqn:Eq. cbn [Qnum Qden].
  assert (0 < n) as Hn.
  { assert (0 < n # b)%Q as Hpos by lra. unfold Qlt in Hpos. simpl in Hpos. lia. }
  destruct n as [|a|a]; [lia| |lia].
  rewrite Qmake_Qdiv in Hred.
  set (A := inject_Z (Z.pos a)) in *. set (B := inject_Z (Z.pos b)) in *.
  assert (0 < B)%Q as HB by (unfold B; rewrite <- (Zlt_Qlt 0); lia).
  assert (q * B == A)%Q as HqB by (rewrite <- Hred; field; lra).
  destruct (ilog2_spec (Z.pos a) (Z.pos b)) as [Hl Hu]; [lia|lia|].
  fold A B in Hl, Hu.
  set (k := ilog2 (Z.pos a) (Z.pos b)) in *.
  assert (-1022 ≤ k < 52) as Hk.
  { pose proof (Q2_pos k). pose proof (Q2_pos (k + 1)).
    assert (2 ^ k < 2 ^ 52)%Q as H1.
    { assert (2 ^ 52 == 4503599627370496)%Q as -> by reflexivity. nra. }
    assert (2 ^ (-10) < 2 ^ (k + 1))%Q as H2.
    { assert (2 ^ (-10) == 1 # 1024)%Q as -> by reflexivity. nra. }
    apply Qpower_lt_compat_l_inv in H1; [|lra].
    apply Qpower_lt_compat_l_inv in H2; [|lra]. lia. }
  destruct (RN_pos_error (Z.pos a) (Z.pos b)) as (v & -> & He1 & He2); [lia|lia|done|].
  fold A B k in He1, He2.
  exists v. split; [done|].
  assert (2 ^ (k - 53) == 2 ^ k * (1 # 9007199254740992))%Q as Hk53.
  { replace (k - 53) with (k + -53) by lia. rewrite Q2_add. reflexivity. }
  pose proof (Q2_pos k). rewrite Hk53 in He1, He2.
  split; nra.
Qed.

(** The fee in fen survives the detour through an amount in yuan: divided
    by 100 and multiplied by 100 again in [float64], then rounded, it is
    the fee. *)
Lemma fee_round_trip (fee : Z) :
  0 < fee < 2 ^ 50 →
  int64_of_float64 (math_Round (fmul (fdiv (float64_of_int fee) (Ffin 100)) (Ffin 100)))
  = fee.
Proof.
  intros Hfee. unfold float64_of_int. rewrite RN_int_exact by lia.
  cbn [fdiv]. change (Qeq_bool 100 0) with false. cbn iota.
  assert (inject_Z 1 <= inject_Z fee)%Q as HF1 by (rewrite <- Zle_Qle; lia).
  assert (inject_Z fee < inject_Z (2 ^ 50))%Q as HF2 by (rewrite <- Zlt_Qlt; lia).
  change (inject_Z 1) with 1%Q in HF1.
  change (inject_Z (2 ^ 50)) with 1125899906842624%Q in HF2.
  change (fee # 1)%Q with (inject_Z fee). set (F := inject_Z fee) in *.
  assert (F / 100 * 100 == F)%Q as Hq1 by field.
  destruct (RN_error (F / 100)) as (vx & -> & Hx1 & Hx2); [lra|lra|].
  cbn [fmul].
  destruct (RN_error (vx * 100)) as (vy & -> & Hy1 & Hy2); [lra|lra|].
  assert (F - (1 # 2) < vy ∧ vy < F + (1 # 2))%Q as [Hlo Hhi] by (split; lra).
  destruct vy as [n d]. unfold math_Round. cbn [Qnum Qden].
  pose proof (Qmake_Qdiv n d) as HX.
  assert (0 < inject_Z (Z.pos d))%Q as HD by (rewrite <- (Zlt_Qlt 0); lia).
  set (D := inject_Z (Z.pos d)) in *. set (N := inject_Z n) in *.
  set (X := (n # d)%Q) in *.
  assert (X * D == N)%Q as HND by (rewrite HX; field; lra).
  clear HX Hy1 Hy2.
  assert ((2 * fee - 1) * Z.pos d < 2 * n ∧ 2 * n < (2 * fee + 1) * Z.pos d) as [Hz1 Hz2].
  { assert (inject_Z (2 * fee * Z.pos d) < inject_Z (2 * n + Z.pos d)
            ∧ inject_Z (2 * n) < inject_Z (2 * fee * Z.pos d + Z.pos d))%Q as [Hz1 Hz2].
    { rewrite !inject_Z_plus, !inject_Z_mult. fold F D N.
      change (inject_Z 2) with 2%Q. split; nra. }
    rewrite <- Zlt_Qlt in Hz1, Hz2. lia. }
  assert (0 < n) as Hn by nia.
  replace (n <? 0) with false by (symmetry; apply Z.ltb_ge; lia).
  rewrite Z.abs_eq by lia.
  assert ((2 * n + Z.pos d) / (2 * Z.pos d) = fee) as ->.
  { symmetry. apply (Z.div_unique _ _ _ (2 * n + Z.pos d - 2 * Z.pos d * fee)); lia. }
  unfold int64_of_float64. cbn [Qnum Qden]. rewrite Z.quot_1_r.
  unfold min_int64, max_int64.
  replace ((- 2 ^ 63 <=? fee) && (fee <=? 2 ^ 63 - 1)) with true; [done|].
  symmetry. apply andb_true_iff. split; apply Z.leb_le; lia.
Qed.

End float_error.

Section fee.
Import Go domain store streamq spec.
Context `{GoTables} {S : Type} `{CompareJobStoreLaws S}.

(** The amount that the notification handler expects for a job that waits
    for a payment of [fee] fen is [fee]. *)
Lemma expectedFen_awaiting (fee : Z) (ossKey codeURL : string) (j : CompareJob) :
  0 < fee < 2 ^ 50 → Status j ≠ CompareJobStatusCancelled → Paid j = false →
  wechat.expectedFen (paygate.awaitingMutator ossKey fee codeURL j) = fee.
Proof.
  intros Hfee Hs Hp. unfold paygate.awaitingMutator.
  rewrite bool_decide_eq_false_2, Hp by done. cbn [orb].
  unfold wechat.expectedFen, wechat.recordedFen.
  cbn [AmountYuan setError setCodeURL setAmountYuan].
  rewrite fee_round_trip by done.
  by replace (fee <=? 0) with false by (symmetry; apply Z.leb_gt; lia).
Qed.

(** X28. From the order to the release.  When the paygate worker has
    created the order for a job that was processed and not paid, at a fee
    of [fee] fen, a success notification for the job is accepted exactly
    when it carries [fee] as its amount: the job is then paid and ready;
    with any other amount the answer is [400 amount mismatch] and the job
    stays as it was.  The amount goes through [float64] yuan on the way
    (fee / 100 when stored, times 100 and rounded when checked); below
    [2^50] fen nothing is lost. *)
Theorem order_then_notify (st : S) (jobID : string) (lock : option bool) (fee : Z)
    (codeURL : string) (now now' : Z) (tx : wechat.wechatpayTransaction)
    (job : CompareJob) :
  0 < fee < 2 ^ 50 → lock ≠ Some false →
  TrimSpace jobID ≠ "" → Get st (TrimSpace jobID) = Some job →
  Status job = CompareJobStatusProcessing → Paid job = false →
  TrimSpace (ResultOSSKey job) ≠ "" →
  TrimSpace (wechat.OutTradeNo tx) = TrimSpace jobID →
  ToUpper (wechat.TradeState tx) = "SUCCESS" →
  let st1 := (paygate.Process st jobID lock fee (inr codeURL) now).1 in
  let r := wechat.handle st1 tx now' in
  if bool_decide (wechat.AmountTotal tx = fee)
  then wechat.status r.2 = 200
       ∧ ∃ j, Get r.1 (TrimSpace jobID) = Some j
              ∧ Status j = CompareJobStatusReady ∧ Paid j = true
              ∧ PaidAt j = Some now' ∧ ResultOSSKey j = TrimSpace (ResultOSSKey job)
  else r = (st1, {| wechat.status := 400; wechat.code := "FAIL";
                    wechat.message := "amount mismatch" |}).
Proof.
  intros Hfee Hlock Hne Hg Hs Hp Hkey Hid Hok. cbv zeta.
  set (awaiting := paygate.awaitingMutator (TrimSpace (ResultOSSKey job)) fee codeURL).
  assert ((paygate.Process st jobID lock fee (inr codeURL) now).1
          = (Update st (TrimSpace jobID) awaiting).1) as ->.
  { unfold paygate.Process. rewrite !bool_decide_eq_false_2 by done. rewrite Hg, Hs, Hp.
    rewrite !(bool_decide_eq_false_2 (CompareJobStatusProcessing = _)) by done.
    cbn [orb andb]. rewrite bool_decide_eq_false_2 by done.
    by replace (fee <=? 0) with false by (symmetry; apply Z.leb_gt; lia). }
  set (st1 := (Update st (TrimSpace jobID) awaiting).1).
  assert (Get st1 (TrimSpace jobID) = Some (awaiting job)) as Hg1
    by (unfold st1; by rewrite Get_Update, Hg).
  assert (wechat.expectedFen (awaiting job) = fee) as Hfen
    by (apply expectedFen_awaiting; [done|by rewrite Hs|done]).
  unfold wechat.handle. rewrite Hid, Hok, Hg1, Hfen.
  rewrite (bool_decide_eq_false_2 (TrimSpace jobID = "")) by done.
  rewrite (bool_decide_eq_false_2 ("SUCCESS" ≠ "SUCCESS")) by (intros Hx; by apply Hx).
  destruct (decide (wechat.AmountTotal tx = fee)) as [Ha|Ha].
  - rewrite (bool_decide_eq_true_2 _ Ha), (bool_decide_eq_false_2 (_ ≠ _))
      by (intros Hx; by apply Hx).
    cbn [fst snd wechat.status]. split; [done|].
    exists (wechat.notifyMutator now' (awaiting job)).
    rewrite Get_Update, Hg1. split; [done|].
    unfold awaiting, paygate.awaitingMutator.
    rewrite bool_decide_eq_false_2, Hp by (by rewrite Hs). cbn [orb].
    unfold wechat.notifyMutator, wechat.hasResult. cbn -[TrimSpace].
    rewrite Hp. cbn -[TrimSpace]. rewrite TrimSpace_idemp.
    rewrite (bool_decide_eq_false_2 _ Hkey). cbn -[TrimSpace]. done.
  - by rewrite (bool_decide_eq_false_2 _ Ha), (bool_decide_eq_true_2 (_ ≠ _)).
Qed.

End fee.

(** * The billing stub *)
Section billing_facts.
Import Go billing.
Context {M : Type}.

(** X29. A deduction is charged once.  After [markDeducted] has succeeded
    for a key, the event of the key is deducted; the total grew by the
    amount, unless the key had been deducted before; the events of the
    other keys are as they were; and from then on neither a further
    [markDeducted] nor an [ensurePending] for the key changes the store,
    whatever amount they carry: they answer with the event of the first
    deduction (or, for an amount that is not positive, with the error). *)
Theorem deduct_once (s s1 : memoryStore (M:=M)) (key : string) (amount : float64)
    (apiCall : string) (now : Z) (ev : BillingEvent) :
  markDeducted s key amount apiCall now = (s1, inr ev) →
  Deducted ev = true
  ∧ events s1 !! key = Some ev
  ∧ totalDeducted s1
    = (if match events s !! key with Some e => Deducted e | None => false end
       then totalDeducted s else fadd (totalDeducted s) amount)
  ∧ baseBalance s1 = baseBalance s
  ∧ (∀ k, k ≠ key → events s1 !! k = events s !! k)
  ∧ (∀ amount' apiCall' now',
       (markDeducted s1 key amount' apiCall' now').1 = s1
       ∧ (markDeducted s1 key amount' apiCall' now').2
         = if fle amount' (Ffin 0) then inl "amount 必须为正数" else inr ev)
  ∧ (∀ amount' apiCall' metadata now',
       ensurePending s1 key amount' apiCall' metadata now' = (s1, ev)).
Proof.
  intros Hm. unfold markDeducted in Hm.
  case_bool_decide as Hk; [done|].
  destruct (fle amount (Ffin 0)); [done|].
  assert (Deducted ev = true ∧ events s1 !! key = Some ev
          ∧ totalDeducted s1
            = (if match events s !! key with Some e => Deducted e | None => false end
               then totalDeducted s else fadd (totalDeducted s) amount)
          ∧ baseBalance s1 = baseBalance s
          ∧ (∀ k, k ≠ key → events s1 !! k = events s !! k)) as (Hd & He & Ht & Hb & Hf).
  { destruct (events s !! key) as [e|] eqn:Ee.
    - destruct (Deducted e) eqn:Ed; simplify_eq; cbn.
      + done.
      + rewrite lookup_insert_eq. repeat split; try done.
        intros k Hne. by rewrite lookup_insert_ne.
    - cbn in Hm. simplify_eq. cbn. rewrite lookup_insert_eq. repeat split; try done.
      intros k Hne. by rewrite !lookup_insert_ne. }
  repeat split; try done.
  - unfold markDeducted. rewrite bool_decide_eq_false_2 by done.
    destruct (fle amount' (Ffin 0)); [done|]. rewrite He, Hd. cbn. by destruct s1.
  - unfold markDeducted. rewrite bool_decide_eq_false_2 by done.
    destruct (fle amount' (Ffin 0)); [done|]. by rewrite He, Hd.
  - intros amount' apiCall' metadata now'. unfold ensurePending. by rewrite He.
Qed.

End billing_facts.

Section billing_examples.
Import Go billing.

Lemma deduct_once_witness :
  let s := newMemoryStore (M:=unit) in
  let ev := {| IdempotencyKey := "k1"; Amount := Ffin 30; ApiCall := "compare";
               Metadata := None; CreatedAt := 7; Confirmed := true; Deducted := true |} in
  let s1 := {| events := {[ "k1" := ev ]}; baseBalance := Ffin 100;
               totalDeducted := Ffin 30 |} in
  markDeducted s "k1" (Ffin 30) "compare" 7 = (s1, inr ev)
  ∧ balance s1 = Ffin 70
  ∧ (markDeducted s1 "k1" (Ffin 45) "other" 8).1 = s1
  ∧ (markDeducted s1 "k1" (Ffin 45) "other" 8).2 = inr ev.
Proof.
  assert (markDeducted (newMemoryStore (M:=unit)) "k1" (Ffin 30) "compare" 7
          = ({| events := {[ "k1" :=
                   {| IdempotencyKey := "k1"; Amount := Ffin 30; ApiCall := "compare";
                      Metadata := None; CreatedAt := 7; Confirmed := true;
                      Deducted := true |} ]};
                baseBalance := Ffin 100; totalDeducted := Ffin 30 |},
             inr {| IdempotencyKey := "k1"; Amount := Ffin 30; ApiCall := "compare";
                    Metadata := None; CreatedAt := 7; Confirmed := true;
                    Deducted := true |})) as Hm
    by (vm_compute; reflexivity).
  split; [exact Hm|]. split; [vm_compute; reflexivity|].
  destruct (deduct_once _ _ _ _ _ _ _ Hm) as (_ & _ & _ & _ & _ & Hagain & _).
  destruct (Hagain (Ffin 45) "other" 8) as [H1 H2]. split; [exact H1|exact H2].
Defined.

End billing_examples.

(** * The names of the sheets *)

(** ** UTF-8: encoding and decoding again *)
Section utf8_round_trip.
Import Go spec.

Lemma lor_add (a b k : Z) :
  0 ≤ a → 0 ≤ k → 0 ≤ b < 2 ^ k → Z.lor (a * 2 ^ k) b = a * 2 ^ k + b.
Proof.
  intros Ha Hk Hb.
  assert (Z.land (a * 2 ^ k) b = 0) as Hland.
  { apply Z.bits_inj'. intros n Hn. rewrite Z.land_spec, Z.bits_0.
    destruct (Z.lt_ge_cases n k) as [Hlt|Hge].
    - by rewrite Z.mul_pow2_bits_low.
    - apply andb_false_iff. right.
      destruct (decide (b = 0)) as [->|Hb0]; [apply Z.bits_0|].
      apply Z.bits_above_log2; [lia|]. apply Z.log2_lt_pow2; [lia|].
      eapply Z.lt_le_trans; [apply Hb|]. apply Z.pow_le_mono_r; lia. }
  rewrite <- Z.lxor_lor by done. symmetry. by apply Z.add_nocarry_lxor.
Qed.

Lemma land_mask (x k : Z) : 0 ≤ k → Z.land x (2 ^ k - 1) = x mod 2 ^ k.
Proof.
  intros Hk. rewrite <- Z.land_ones by done. f_equal.
  rewrite Z.ones_equiv. lia.
Qed.

Lemma land_63 (x : Z) : Z.land x 0x3F = x mod 64.
Proof. apply (land_mask x 6). lia. Qed.
Lemma land_31 (x : Z) : Z.land x 0x1F = x mod 32.
Proof. apply (land_mask x 5). lia. Qed.
Lemma land_15 (x : Z) : Z.land x 0x0F = x mod 16.
Proof. apply (land_mask x 4). lia. Qed.
Lemma land_7 (x : Z) : Z.land x 0x07 = x mod 8.
Proof. apply (land_mask x 3). lia. Qed.

Lemma lor_shiftl (a b k : Z) :
  0 ≤ a → 0 ≤ k → 0 ≤ b < 2 ^ k → Z.lor (Z.shiftl a k) b = a * 2 ^ k + b.
Proof. intros. rewrite Z.shiftl_mul_pow2 by done. by apply lor_add. Qed.

Lemma lor_lead (c x k : Z) :
  0 ≤ c → 0 ≤ k → 0 ≤ x < 2 ^ k → Z.lor (c * 2 ^ k) x = c * 2 ^ k + x.
Proof. apply lor_add. Qed.

Lemma lor_C0 (x : Z) : 0 ≤ x < 64 → Z.lor 0xC0 x = 192 + x.
Proof. intros. by apply (lor_lead 3 x 6). Qed.
Lemma lor_E0 (x : Z) : 0 ≤ x < 32 → Z.lor 0xE0 x = 224 + x.
Proof. intros. by apply (lor_lead 7 x 5). Qed.
Lemma lor_F0 (x : Z) : 0 ≤ x < 16 → Z.lor 0xF0 x = 240 + x.
Proof. intros. by apply (lor_lead 15 x 4). Qed.
Lemma lor_80 (x : Z) : 0 ≤ x < 64 → Z.lor 0x80 x = 128 + x.
Proof. intros. by apply (lor_lead 2 x 6). Qed.

(** The value of a two, three and four byte sequence *)
Lemma decode2 (b0 b1 : Z) :
  0 ≤ b0 →
  Z.lor (Z.shiftl (Z.land b0 0x1F) 6) (Z.land b1 0x3F) = b0 mod 32 * 64 + b1 mod 64.
Proof.
  intros. rewrite land_31, land_63.
  pose proof (Z.mod_pos_bound b0 32 ltac:(lia)). pose proof (Z.mod_pos_bound b1 64 ltac:(lia)).
  by rewrite lor_shiftl by lia.
Qed.

Lemma decode3 (b0 b1 b2 : Z) :
  Z.lor (Z.shiftl (Z.land b0 0x0F) 12)
    (Z.lor (Z.shiftl (Z.land b1 0x3F) 6) (Z.land b2 0x3F))
  = b0 mod 16 * 4096 + b1 mod 64 * 64 + b2 mod 64.
Proof.
  rewrite land_15, !land_63.
  pose proof (Z.mod_pos_bound b0 16 ltac:(lia)). pose proof (Z.mod_pos_bound b1 64 ltac:(lia)).
  pose proof (Z.mod_pos_bound b2 64 ltac:(lia)).
  rewrite (lor_shiftl (b1 mod 64) _ 6) by lia.
  rewrite lor_shiftl by lia. lia.
Qed.

Lemma decode4 (b0 b1 b2 b3 : Z) :
  Z.lor (Z.shiftl (Z.land b0 0x07) 18)
    (Z.lor (Z.shiftl (Z.land b1 0x3F) 12)
       (Z.lor (Z.shiftl (Z.land b2 0x3F) 6) (Z.land b3 0x3F)))
  = b0 mod 8 * 262144 + b1 mod 64 * 4096 + b2 mod 64 * 64 + b3 mod 64.
Proof.
  rewrite land_7, !land_63.
  pose proof (Z.mod_pos_bound b0 8 ltac:(lia)). pose proof (Z.mod_pos_bound b1 64 ltac:(lia)).
  pose proof (Z.mod_pos_bound b2 64 ltac:(lia)). pose proof (Z.mod_pos_bound b3 64 ltac:(lia)).
  rewrite (lor_shiftl (b2 mod 64) _ 6) by lia.
  rewrite (lor_shiftl (b1 mod 64) _ 12) by lia.
  rewrite lor_shiftl by lia. lia.
Qed.

(** Deciding the comparisons of a goal by arithmetic *)
Local Ltac cmp :=
  repeat match goal with
         | |- context [?a <? ?b] => destruct (Z.ltb_spec a b); try lia
         | |- context [?a <=? ?b] => destruct (Z.leb_spec a b); try lia
         | |- context [?a =? ?b] => destruct (Z.eqb_spec a b); try lia
         end.

Lemma range_bool (a r b : Z) : (a <=? r) && (r <? b) = bool_decide (a ≤ r < b).
Proof.
  destruct (Z.leb_spec a r), (Z.ltb_spec r b); cbn [andb];
    by rewrite ?bool_decide_eq_true_2, ?bool_decide_eq_false_2 by lia.
Qed.

Lemma inRange_bool (lo hi b : Z) : inRange lo hi b = bool_decide (lo ≤ b ≤ hi).
Proof.
  unfold inRange. destruct (Z.leb_spec lo b), (Z.leb_spec b hi); cbn [andb];
    by rewrite ?bool_decide_eq_true_2, ?bool_decide_eq_false_2 by lia.
Qed.

Lemma isCont_bool (b : Z) : isCont b = bool_decide (0x80 ≤ b ≤ 0xBF).
Proof. apply (inRange_bool 0x80 0xBF b). Qed.

Lemma invalid_bool (r : Z) :
  (r <? 0) || (MaxRune <? r) || inRange 0xD800 0xDFFF r = bool_decide (¬ validRune r).
Proof.
  unfold validRune, MaxRune. rewrite inRange_bool.
  destruct (Z.ltb_spec r 0), (Z.ltb_spec 0x10FFFF r); cbn [orb];
    try (by rewrite bool_decide_eq_true_2 by lia).
  destruct (decide (0xD800 ≤ r ≤ 0xDFFF)).
  - by rewrite !bool_decide_eq_true_2 by lia.
  - by rewrite !bool_decide_eq_false_2 by lia.
Qed.

Lemma EncodeRune_cases (r : Z) :
  (0 ≤ r < 0x80 ∧ EncodeRune r = [r])
  ∨ (0x80 ≤ r < 0x800 ∧ EncodeRune r = [192 + r / 64; 128 + r mod 64])
  ∨ (¬ validRune r ∧ EncodeRune r = [0xEF; 0xBF; 0xBD])
  ∨ (0x800 ≤ r < 0x10000 ∧ validRune r
     ∧ EncodeRune r = [224 + r / 4096; 128 + r / 64 mod 64; 128 + r mod 64])
  ∨ (0x10000 ≤ r ≤ MaxRune
     ∧ EncodeRune r = [240 + r / 262144; 128 + r / 4096 mod 64; 128 + r / 64 mod 64;
                       128 + r mod 64]).
Proof.
  unfold EncodeRune. rewrite !range_bool, invalid_bool.
  destruct (decide (0 ≤ r < 0x80)) as [H1|H1].
  { left. by rewrite bool_decide_eq_true_2. }
  rewrite (bool_decide_eq_false_2 _ H1). right.
  destruct (decide (0x80 ≤ r < 0x800)) as [H2|H2].
  { left. rewrite bool_decide_eq_true_2 by done. split; [done|].
    rewrite !Z.shiftr_div_pow2, land_63 by lia. change (2 ^ 6) with 64.
    rewrite lor_C0, lor_80; [done|..]; Z.to_euclidean_division_equations; lia. }
  rewrite (bool_decide_eq_false_2 _ H2). right.
  destruct (decide (validRune r)) as [Hv|Hv].
  2: { left. by rewrite bool_decide_eq_true_2. }
  rewrite bool_decide_eq_false_2 by tauto. right.
  unfold validRune, MaxRune in Hv.
  destruct (Z.ltb_spec r 0x10000) as [H3|H3].
  - left. split; [lia|]. split; [done|].
    rewrite !Z.shiftr_div_pow2, !land_63 by lia.
    change (2 ^ 12) with 4096. change (2 ^ 6) with 64.
    rewrite lor_E0, !lor_80; [done|..]; Z.to_euclidean_division_equations; lia.
  - right. unfold MaxRune. split; [lia|].
    rewrite !Z.shiftr_div_pow2, !land_63 by lia.
    change (2 ^ 18) with 262144. change (2 ^ 12) with 4096. change (2 ^ 6) with 64.
    rewrite lor_F0, !lor_80; [done|..]; Z.to_euclidean_division_equations; lia.
Qed.

(** Turning the boolean tests of a decoding into arithmetic *)
Local Ltac tests :=
  repeat match goal with
         | H : (_ <? _) = true |- _ => apply Z.ltb_lt in H
         | H : (_ <? _) = false |- _ => apply Z.ltb_ge in H
         | H : (_ =? _) = true |- _ => apply Z.eqb_eq in H
         | H : (_ =? _) = false |- _ => apply Z.eqb_neq in H
         | H : _ && _ = true |- _ => apply andb_true_iff in H as [? ?]
         | H : inRange _ _ _ = true |- _ =>
             rewrite inRange_bool in H; apply bool_decide_eq_true_1 in H
         | H : inRange _ _ _ = false |- _ =>
             rewrite inRange_bool in H; apply bool_decide_eq_false_1 in H
         | H : isCont _ = true |- _ =>
             rewrite isCont_bool in H; apply bool_decide_eq_true_1 in H
         | H : isCont _ = false |- _ =>
             rewrite isCont_bool in H; apply bool_decide_eq_false_1 in H
         end.

(** What [DecodeRune] returns is a rune that can be encoded; an ASCII rune
    is the first byte itself; and the width stays within the input. *)
Lemma DecodeRune_rune (bs : list Z) :
  Forall is_byte bs →
  validRune (DecodeRune bs).1
  ∧ ((DecodeRune bs).1 < 0x80 → ∃ rest, bs = (DecodeRune bs).1 :: rest)
  ∧ ((DecodeRune bs).2 ≤ length bs)%nat.
Proof.
  intros Hb. unfold validRune, MaxRune.
  destruct bs as [|b0 r0]; [cbn; unfold RuneError; lia|].
  apply Forall_cons in Hb as [Hb0 Hb]. unfold is_byte in Hb0.
  unfold DecodeRune, RuneSelf, RuneError.
  repeat case_match; subst; cbn [fst snd length]; tests;
    rewrite ?decode2, ?decode3, ?decode4 by lia;
    (split; [|split; [|lia]]);
    try (cbv zeta in *; Z.to_euclidean_division_equations; lia);
    try (intros _; by eexists).
Qed.

(** Encoding, then decoding *)
Lemma DecodeRune_EncodeRune (r : Z) (rest : list Z) :
  validRune r → DecodeRune (EncodeRune r ++ rest) = (r, length (EncodeRune r)).
Proof.
  intros Hv.
  destruct (EncodeRune_cases r) as [[H ->]|[[H ->]|[[H _]|[(H & _ & ->)|[H ->]]]]];
    [| | done | |]; cbn [app length]; unfold DecodeRune, RuneSelf.
  - by replace (r <? 128) with true by (symmetry; apply Z.ltb_lt; lia).
  - rewrite !inRange_bool, isCont_bool.
    replace (192 + r / 64 <? 128) with false
      by (symmetry; apply Z.ltb_ge; Z.to_euclidean_division_equations; lia).
    rewrite !bool_decide_eq_true_2 by (Z.to_euclidean_division_equations; lia).
    rewrite decode2 by (Z.to_euclidean_division_equations; lia).
    f_equal. Z.to_euclidean_division_equations; lia.
  - unfold validRune, MaxRune in Hv. rewrite !inRange_bool, !isCont_bool.
    replace (224 + r / 4096 <? 128) with false
      by (symmetry; apply Z.ltb_ge; Z.to_euclidean_division_equations; lia).
    rewrite (bool_decide_eq_false_2 (194 ≤ _ ≤ 223))
      by (Z.to_euclidean_division_equations; lia).
    rewrite (bool_decide_eq_true_2 (224 ≤ _ ≤ 239))
      by (Z.to_euclidean_division_equations; lia).
    cbv zeta iota beta.
    rewrite !bool_decide_eq_true_2; [cbn [andb]; rewrite decode3; f_equal|..];
      repeat match goal with |- context [?a =? ?b] => destruct (Z.eqb_spec a b) end;
      Z.to_euclidean_division_equations; lia.
  - unfold MaxRune in H. rewrite !inRange_bool, !isCont_bool.
    replace (240 + r / 262144 <? 128) with false
      by (symmetry; apply Z.ltb_ge; Z.to_euclidean_division_equations; lia).
    rewrite (bool_decide_eq_false_2 (194 ≤ _ ≤ 223))
      by (Z.to_euclidean_division_equations; lia).
    rewrite (bool_decide_eq_false_2 (224 ≤ _ ≤ 239))
      by (Z.to_euclidean_division_equations; lia).
    rewrite (bool_decide_eq_true_2 (240 ≤ _ ≤ 244))
      by (Z.to_euclidean_division_equations; lia).
    cbv zeta iota beta.
    rewrite !bool_decide_eq_true_2; [cbn [andb]; rewrite decode4; f_equal|..];
      repeat match goal with |- context [?a =? ?b] => destruct (Z.eqb_spec a b) end;
      Z.to_euclidean_division_equations; lia.
Qed.

(** A tail that starts with an ASCII byte does not change how the bytes
    before it decode. *)
Lemma DecodeRune_app_ascii (bs : list Z) (a : Z) (t : list Z) :
  bs ≠ [] → 0 ≤ a < 0x80 → DecodeRune (bs ++ a :: t) = DecodeRune bs.
Proof.
  intros Hbs Ha.
  assert (isCont a = false) as Hc
    by (rewrite isCont_bool; apply bool_decide_eq_false_2; lia).
  assert (∀ lo hi, 0x80 ≤ lo → inRange lo hi a = false) as Hr
    by (intros lo hi Hlo; rewrite inRange_bool; apply bool_decide_eq_false_2; lia).
  destruct bs as [|b0 [|b1 [|b2 [|b3 rest]]]]; [done|..]; cbn [app]; unfold DecodeRune;
    cbv zeta; rewrite ?Hc, ?andb_false_r; try done.
  - repeat case_match; try done; rewrite Hr in *; try done; lia.
  - repeat case_match; try done.
Qed.

End utf8_round_trip.

(** ** The runes of a string *)
Section runes_facts.
Import Go spec.

Lemma runes_fuel_step (f : nat) (bs : list Z) :
  bs ≠ [] →
  runes_fuel (S f) bs = (DecodeRune bs).1 :: runes_fuel f (drop (DecodeRune bs).2 bs).
Proof. destruct bs; [done|]. intros _. cbn [runes_fuel]. by destruct (DecodeRune _). Qed.

Lemma runes_fuel_nil (f : nat) : runes_fuel f [] = [].
Proof. by destruct f. Qed.

Lemma runes_fuel_ext (f1 f2 : nat) (bs : list Z) :
  (length bs ≤ f1)%nat → (length bs ≤ f2)%nat → runes_fuel f1 bs = runes_fuel f2 bs.
Proof.
  revert f2 bs. induction f1 as [|f1 IH]; intros f2 bs H1 H2.
  - destruct bs; [|cbn in H1; lia]. by rewrite !runes_fuel_nil.
  - destruct bs as [|b r]; [by rewrite !runes_fuel_nil|].
    destruct f2 as [|f2]; [cbn in H2; lia|].
    rewrite !runes_fuel_step by done. f_equal.
    pose proof (DecodeRune_size b r) as Hs. cbn [length] in H1, H2.
    apply IH; rewrite length_drop; cbn [length]; lia.
Qed.

Lemma EncodeRune_nonempty (r : Z) : EncodeRune r ≠ [].
Proof.
  destruct (EncodeRune_cases r) as [[_ ->]|[[_ ->]|[[_ ->]|[(_ & _ & ->)|[_ ->]]]]]; done.
Qed.

Lemma EncodeRune_bytes (r : Z) : Forall is_byte (EncodeRune r).
Proof.
  unfold is_byte.
  destruct (EncodeRune_cases r) as [[H ->]|[[H ->]|[[H ->]|[(H & _ & ->)|[H ->]]]]];
    unfold MaxRune in *; repeat constructor; Z.to_euclidean_division_equations; lia.
Qed.

Lemma EncodeRune_high (r : Z) : ¬ (0 ≤ r < 0x80) → Forall (λ b, 0x80 ≤ b) (EncodeRune r).
Proof.
  intros Hr.
  destruct (EncodeRune_cases r) as [[H ->]|[[H ->]|[[H ->]|[(H & _ & ->)|[H ->]]]]];
    unfold MaxRune in *; repeat constructor; Z.to_euclidean_division_equations; lia.
Qed.

Lemma EncodeRune_ascii (r : Z) : 0 ≤ r < 0x80 → EncodeRune r = [r].
Proof.
  intros Hr. unfold EncodeRune. rewrite range_bool. by rewrite bool_decide_eq_true_2.
Qed.

(** Decoding what has been encoded gives the runes back. *)
Lemma runes_fuel_encode (rs : list Z) (f : nat) :
  Forall validRune rs → (length (concat (EncodeRune <$> rs)) ≤ f)%nat →
  runes_fuel f (concat (EncodeRune <$> rs)) = rs.
Proof.
  intros Hv. revert f. induction Hv as [|r rs Hr _ IH]; intros f Hf.
  - by rewrite runes_fuel_nil.
  - rewrite fmap_cons, concat_cons in *. rewrite length_app in Hf.
    pose proof (EncodeRune_nonempty r) as Hne.
    assert (1 ≤ length (EncodeRune r))%nat by (destruct (EncodeRune r); [done|cbn; lia]).
    destruct f as [|f]; [lia|].
    rewrite runes_fuel_step by (by destruct (EncodeRune r)).
    rewrite DecodeRune_EncodeRune by done. cbn [fst snd].
    rewrite drop_app_length. f_equal. apply IH. lia.
Qed.

Lemma runes_fuel_valid (f : nat) (bs : list Z) :
  Forall is_byte bs → Forall validRune (runes_fuel f bs).
Proof.
  revert bs. induction f as [|f IH]; intros bs Hb; [constructor|].
  destruct bs as [|b r]; [constructor|]. rewrite runes_fuel_step by done.
  constructor; [by apply DecodeRune_rune|]. apply IH. by apply Forall_drop.
Qed.

(** An ASCII rune of a string is one of its bytes. *)
Lemma runes_fuel_ascii (f : nat) (bs : list Z) (r : Z) :
  Forall is_byte bs → r ∈ runes_fuel f bs → r < 0x80 → r ∈ bs.
Proof.
  revert bs. induction f as [|f IH]; intros bs Hb Hr Hlt; [by apply elem_of_nil in Hr|].
  destruct bs as [|b t]; [by apply elem_of_nil in Hr|].
  rewrite runes_fuel_step in Hr by done. apply elem_of_cons in Hr as [->|Hr].
  - destruct (DecodeRune_rune (b :: t) Hb) as (_ & Ha & _).
    destruct (Ha Hlt) as [rest Hrest]. rewrite Hrest at 2. by left.
  - assert (r ∈ drop (DecodeRune (b :: t)).2 (b :: t)) as Hd
      by (apply IH; [by apply Forall_drop|done|done]).
    apply list_elem_of_lookup in Hd as [i Hi]. rewrite lookup_drop in Hi.
    by eapply list_elem_of_lookup_2.
Qed.

Lemma runes_fuel_app_ascii (bs : list Z) (a : Z) (t : list Z) (f1 f2 f3 : nat) :
  Forall is_byte bs → 0 ≤ a < 0x80 →
  (length (bs ++ a :: t) ≤ f1)%nat → (length bs ≤ f2)%nat → (length (a :: t) ≤ f3)%nat →
  runes_fuel f1 (bs ++ a :: t) = runes_fuel f2 bs ++ runes_fuel f3 (a :: t).
Proof.
  intros Hb Ha. revert bs Hb f1. induction f2 as [|f2 IH]; intros bs Hb f1 H1 H2 H3.
  - destruct bs; [|cbn in H2; lia]. cbn [app runes_fuel]. by apply runes_fuel_ext.
  - destruct bs as [|b r]; [cbn [app]; rewrite runes_fuel_nil; by apply runes_fuel_ext|].
    destruct f1 as [|f1]; [cbn in H1; lia|].
    destruct (DecodeRune_rune (b :: r) Hb) as (_ & _ & Hsize).
    pose proof (DecodeRune_size b r) as Hs.
    assert (b :: r ≠ []) as Hne by done.
    revert Hb H1 H2 Hsize Hs Hne. generalize (b :: r). clear b r.
    intros bs Hb H1 H2 Hsize Hs Hne.
    rewrite (runes_fuel_step f2 bs) by done.
    rewrite runes_fuel_step by (by destruct bs).
    rewrite DecodeRune_app_ascii by done.
    rewrite <- app_comm_cons. f_equal.
    rewrite drop_app_le by done.
    apply IH; [by apply Forall_drop| | |done].
    + rewrite length_app, length_drop in *. cbn [length] in *. lia.
    + rewrite length_drop. lia.
Qed.

Lemma runes_fuel_all_ascii (bs : list Z) (f : nat) :
  Forall (λ b, 0 ≤ b < 0x80) bs → (length bs ≤ f)%nat → runes_fuel f bs = bs.
Proof.
  intros Hb. revert f. induction Hb as [|b bs Hb0 _ IH]; intros f Hf.
  - by rewrite runes_fuel_nil.
  - destruct f as [|f]; [cbn in Hf; lia|]. rewrite runes_fuel_step by done.
    unfold DecodeRune, RuneSelf.
    replace (b <? 128) with true by (symmetry; apply Z.ltb_lt; lia).
    cbn [fst snd drop]. f_equal. apply IH. cbn in Hf. lia.
Qed.

Lemma string_bytes_app (a b : string) :
  string_bytes (a +:+ b) = string_bytes a ++ string_bytes b.
Proof.
  unfold string_bytes. rewrite <- fmap_app. f_equal.
  induction a as [|c a IH]; [done|].
  change (c :: list_ascii_of_string (a +:+ b)
          = c :: (list_ascii_of_string a ++ list_ascii_of_string b)).
  by rewrite IH.
Qed.

Lemma string_bytes_runes (rs : list Z) :
  string_bytes (string_of_runes rs) = concat (EncodeRune <$> rs).
Proof.
  unfold string_of_runes. apply string_bytes_of.
  induction rs as [|r rs IH]; [constructor|].
  rewrite fmap_cons, concat_cons. apply Forall_app. split; [apply EncodeRune_bytes|done].
Qed.

Lemma runes_valid (s : string) : Forall validRune (runes s).
Proof. unfold runes. apply runes_fuel_valid, string_bytes_range. Qed.

Lemma runes_string_of_runes (rs : list Z) :
  Forall validRune rs → runes (string_of_runes rs) = rs.
Proof.
  intros Hv. unfold runes. rewrite string_bytes_runes. by apply runes_fuel_encode.
Qed.

(** Counting runes over a concatenation whose second part starts with an
    ASCII character *)
Lemma RuneCount_app_ascii (a : string) (c : ascii) (b : string) :
  byte_val c < 0x80 →
  RuneCountInString (a +:+ String c b)
  = RuneCountInString a + RuneCountInString (String c b).
Proof.
  intros Hc. unfold RuneCountInString, runes. rewrite string_bytes_app.
  change (string_bytes (String c b)) with (byte_val c :: string_bytes b).
  pose proof (byte_val_range c) as Hr. unfold is_byte in Hr.
  rewrite (runes_fuel_app_ascii (string_bytes a) (byte_val c) (string_bytes b) _
             (length (string_bytes a)) (length (byte_val c :: string_bytes b)));
    [|apply string_bytes_range|lia|done..].
  rewrite length_app. lia.
Qed.

Lemma RuneCount_ascii (s : string) :
  Forall (λ b, 0 ≤ b < 0x80) (string_bytes s) →
  RuneCountInString s = Z.of_nat (length (string_bytes s)).
Proof.
  intros Hs. unfold RuneCountInString, runes. by rewrite runes_fuel_all_ascii.
Qed.

Lemma string_bytes_nil (s : string) : string_bytes s = [] ↔ s = "".
Proof. destruct s; [done|]. split; intros Hx; [by cbn in Hx|done]. Qed.

Lemma list_ascii_bytes (s : string) (c : ascii) :
  c ∈ list_ascii_of_string s ↔ byte_val c ∈ string_bytes s.
Proof.
  unfold string_bytes. rewrite list_elem_of_fmap. split.
  - intros Hc. by exists c.
  - intros (c' & Heq & Hc'). assert (c = c') as ->; [|done].
    by rewrite <- (byte_of_val c), Heq, byte_of_val.
Qed.

End runes_facts.

(** ** Safe and unique names *)
Section sheet_names.
Import Go excelcmp spec.

Lemma high_char_allowed (c : ascii) :
  0x80 ≤ byte_val c → String c EmptyString ∉ forbiddenSheetChars.
Proof.
  intros Hc Hin. unfold forbiddenSheetChars in Hin.
  repeat (apply elem_of_cons in Hin as [[= ->]|Hin]; [vm_compute in Hc; by destruct Hc|]).
  by apply elem_of_nil in Hin.
Qed.

Lemma digit_char_allowed (c : ascii) :
  isDigitByte c = true → String c EmptyString ∉ forbiddenSheetChars.
Proof.
  intros Hc Hin. unfold forbiddenSheetChars in Hin.
  repeat (apply elem_of_cons in Hin as [[= ->]|Hin]; [by vm_compute in Hc|]).
  by apply elem_of_nil in Hin.
Qed.

Lemma underscore_allowed : String "_" EmptyString ∉ forbiddenSheetChars.
Proof.
  intros Hin. unfold forbiddenSheetChars in Hin.
  repeat (apply elem_of_cons in Hin as [[=]|Hin]). by apply elem_of_nil in Hin.
Qed.

(** Replacing a one-byte pattern by a one-byte string works byte by byte. *)
Lemma ReplaceAll_char (s : string) (c d : ascii) :
  list_ascii_of_string (ReplaceAll s (String c EmptyString) (String d EmptyString))
  = (λ x, if decide (x = c) then d else x) <$> list_ascii_of_string s.
Proof.
  unfold ReplaceAll. induction s as [|a s IH]; [done|].
  change (list_ascii_of_string (String a s)) with (a :: list_ascii_of_string s).
  rewrite fmap_cons.
  cbn [ReplaceAll_skip String.prefix String.length Nat.sub].
  destruct (ascii_dec c a) as [->|Hne].
  - rewrite decide_True by done.
    replace (String.prefix "" s) with true by (by destruct s).
    change (d :: list_ascii_of_string
                   (ReplaceAll_skip 0 s (String a EmptyString) (String d EmptyString))
            = d :: ((λ x, if decide (x = a) then d else x) <$> list_ascii_of_string s)).
    by rewrite IH.
  - rewrite decide_False by (by intros ->). cbn [list_ascii_of_string]. by rewrite IH.
Qed.

Lemma fold_replace_chars (L : list ascii) (s : string) :
  list_ascii_of_string
    (fold_left (λ s ch, ReplaceAll s ch "_") ((λ c, String c EmptyString) <$> L) s)
  = (λ x, if decide (x ∈ L) then "_"%char else x) <$> list_ascii_of_string s.
Proof.
  revert s. induction L as [|c L IH]; intros s.
  - cbn [fmap list_fmap fold_left]. rewrite <- (list_fmap_id (list_ascii_of_string s)) at 1.
    apply list_fmap_ext. intros i x _. rewrite decide_False; [done|apply not_elem_of_nil].
  - rewrite fmap_cons. cbn [fold_left]. rewrite IH.
    change "_" with (String "_" EmptyString). rewrite ReplaceAll_char.
    rewrite <- list_fmap_compose. apply list_fmap_ext. intros i x _. cbn.
    destruct (decide (x = c)) as [->|Hne].
    + rewrite (decide_True (P := c ∈ c :: L)) by (by left). by case_decide.
    + destruct (decide (x ∈ L)) as [Hin|Hin].
      * rewrite decide_True; [done|by right].
      * rewrite decide_False; [done|]. rewrite elem_of_cons. tauto.
Qed.

Lemma replaced_allowed (s : string) :
  let s' := fold_left (λ s ch, ReplaceAll s ch "_") forbiddenSheetChars s in
  (∀ c, c ∈ list_ascii_of_string s' → String c EmptyString ∉ forbiddenSheetChars)
  ∧ length (list_ascii_of_string s') = length (list_ascii_of_string s).
Proof.
  cbv zeta.
  change forbiddenSheetChars
    with ((λ c, String c EmptyString) <$> [":"; "\"; "/"; "?"; "*"; "["; "]"]%char).
  set (L := [":"; "\"; "/"; "?"; "*"; "["; "]"]%char).
  rewrite fold_replace_chars. split; [|by rewrite length_fmap].
  intros c Hc. apply list_elem_of_fmap in Hc as (x & -> & _).
  intros Hin. apply list_elem_of_fmap in Hin as (y & [= Hy] & Hin).
  rewrite <- Hy in Hin. clear y Hy.
  destruct (decide (x ∈ L)) as [Hx|Hx]; [|done].
  unfold L in Hin. repeat (apply elem_of_cons in Hin as [[=]|Hin]).
  by apply elem_of_nil in Hin.
Qed.

Lemma elem_of_concat {A : Type} (x : A) (ls : list (list A)) :
  x ∈ concat ls → ∃ l, x ∈ l ∧ l ∈ ls.
Proof.
  induction ls as [|l ls IH]; [by intros Hx%elem_of_nil|].
  rewrite concat_cons, elem_of_app. intros [Hx|Hx].
  - exists l. split; [done|by left].
  - destruct (IH Hx) as (l' & ? & ?). exists l'. split; [done|by right].
Qed.

Lemma chars_nonempty (s : string) : s ≠ "" ↔ list_ascii_of_string s ≠ [].
Proof. by destruct s. Qed.

Lemma runes_nonempty (s : string) : s ≠ "" → runes s ≠ [].
Proof.
  intros Hs. unfold runes. destruct s as [|c s]; [done|].
  change (string_bytes (String c s)) with (byte_val c :: string_bytes s).
  cbn [length]. by rewrite runes_fuel_step.
Qed.

(** A name cut to [n] runes *)
Lemma trimRunes_spec (s : string) (n : Z) :
  1 ≤ n → n < RuneCountInString s →
  RuneCountInString (trimRunes s n) = n
  ∧ trimRunes s n ≠ ""
  ∧ ∀ c, c ∈ list_ascii_of_string (trimRunes s n) →
         c ∈ list_ascii_of_string s ∨ 0x80 ≤ byte_val c.
Proof.
  intros Hn Hlt. unfold trimRunes.
  replace (n <=? 0) with false by (symmetry; apply Z.leb_gt; lia).
  replace (RuneCountInString s <=? n) with false by (symmetry; apply Z.leb_gt; lia).
  unfold RuneCountInString in *.
  assert (Forall validRune (take (Z.to_nat n) (runes s))) as Hv
    by apply Forall_take, runes_valid.
  split; [|split].
  - rewrite runes_string_of_runes by done. rewrite length_take. lia.
  - intros He. apply string_bytes_nil in He. rewrite string_bytes_runes in He.
    destruct (runes s) as [|r rs] eqn:Er; [cbn in Hlt; lia|].
    destruct (Z.to_nat n) as [|k] eqn:Ek; [lia|].
    rewrite firstn_cons, fmap_cons, concat_cons in He.
    apply app_eq_nil in He as [He _]. by apply EncodeRune_nonempty in He.
  - intros c Hc. apply list_ascii_bytes in Hc. rewrite string_bytes_runes in Hc.
    apply elem_of_concat in Hc as (l & Hc & Hl).
    apply list_elem_of_fmap in Hl as (r & -> & Hr).
    apply elem_of_take in Hr as (i & Hr & _).
    apply list_elem_of_lookup_2 in Hr.
    destruct (decide (0 ≤ r < 0x80)) as [Ha|Ha].
    + left. rewrite EncodeRune_ascii in Hc by done. apply list_elem_of_singleton in Hc.
      apply list_ascii_bytes. rewrite Hc.
      apply (runes_fuel_ascii (length (string_bytes s))); [apply string_bytes_range|done|lia].
    + right. pose proof (EncodeRune_high r Ha) as Hh.
      rewrite Forall_forall in Hh. by apply Hh.
Qed.

Lemma safeSheetName_legal (name : string) : legalSheetName (safeSheetName name).
Proof.
  unfold safeSheetName. cbv zeta.
  set (s0 := if bool_decide (TrimSpace name = "") then "Sheet" else TrimSpace name).
  assert (s0 ≠ "") as Hs0 by (unfold s0; case_bool_decide; done).
  destruct (replaced_allowed s0) as [Hok Hlen]. cbv zeta in Hok, Hlen.
  set (s1 := fold_left (λ s ch, ReplaceAll s ch "_") forbiddenSheetChars s0) in *.
  assert (s1 ≠ "") as Hs1.
  { apply chars_nonempty. apply chars_nonempty in Hs0.
    destruct (list_ascii_of_string s1); [|done].
    destruct (list_ascii_of_string s0); [done|]. cbn in Hlen. lia. }
  destruct (31 <? RuneCountInString s1) eqn:Hc.
  - apply Z.ltb_lt in Hc.
    destruct (trimRunes_spec s1 31) as (Hn & Hne & Hch); [lia|done|].
    split; [done|]. split; [lia|].
    intros c Hin. destruct (Hch c Hin) as [?|?]; [by apply Hok|by apply high_char_allowed].
  - apply Z.ltb_ge in Hc. by split; [|split].
Qed.

(** The candidate with a one-digit counter *)
Lemma suffixedSheetName_legal (base : string) (i : Z) (d : ascii) :
  legalSheetName base → Itoa i = String d EmptyString → isDigitByte d = true →
  legalSheetName (suffixedSheetName base i)
  ∧ last (list_ascii_of_string (suffixedSheetName base i)) = Some d.
Proof.
  intros (Hne & Hcount & Hok) Hi Hd. unfold suffixedSheetName. rewrite Hi. cbv zeta.
  assert (byte_val d < 0x80) as Hd80.
  { unfold isDigitByte in Hd. revert Hd. unfold byte_val.
    destruct d as [[] [] [] [] [] [] [] []]; by vm_compute. }
  pose proof (byte_val_range d) as Hdr. unfold is_byte in Hdr.
  assert (RuneCountInString ("_" +:+ String d EmptyString) = 2) as Hsuf.
  { rewrite RuneCount_ascii; [done|].
    repeat constructor; try done; (vm_compute; congruence) || lia. }
  rewrite Hsuf. change (31 - 2 <? 1) with false. cbv iota.
  set (cand := if 31 - 2 <? RuneCountInString base then trimRunes base (31 - 2) else base).
  assert (cand ≠ "" ∧ RuneCountInString cand ≤ 29
          ∧ ∀ c, c ∈ list_ascii_of_string cand →
                 String c EmptyString ∉ forbiddenSheetChars) as (Hcne & Hcc & Hcok).
  { unfold cand. destruct (31 - 2 <? RuneCountInString base) eqn:Hc.
    - apply Z.ltb_lt in Hc.
      destruct (trimRunes_spec base (31 - 2)) as (Hn & Hne' & Hch); [lia|done|].
      split; [done|]. split; [lia|].
      intros c Hin. destruct (Hch c Hin) as [?|?]; [by apply Hok|by apply high_char_allowed].
    - apply Z.ltb_ge in Hc. split; [done|]. split; [lia|done]. }
  change ("_" +:+ String d EmptyString) with (String "_" (String d EmptyString)) in *.
  assert (list_ascii_of_string (cand +:+ String "_" (String d EmptyString))
          = list_ascii_of_string cand ++ ["_"%char; d]) as Hchars.
  { clear. induction cand as [|c cand IH]; [done|].
    change (c :: list_ascii_of_string (cand +:+ String "_" (String d EmptyString))
            = c :: (list_ascii_of_string cand ++ ["_"%char; d])). by rewrite IH. }
  split; [split; [|split]|].
  - by destruct cand.
  - rewrite RuneCount_app_ascii by (by vm_compute). rewrite Hsuf. lia.
  - intros c. rewrite Hchars, elem_of_app, !elem_of_cons, elem_of_nil.
    intros [Hc|[->|[->|[]]]]; [by apply Hcok|apply underscore_allowed|
                               by apply digit_char_allowed].
  - rewrite Hchars. by rewrite (app_assoc _ ["_"%char] [d]), last_snoc.
Qed.

Lemma suffixed_distinct (base : string) (i j : Z) (d e : ascii) :
  last (list_ascii_of_string (suffixedSheetName base i)) = Some d →
  last (list_ascii_of_string (suffixedSheetName base j)) = Some e →
  d ≠ e → suffixedSheetName base i ≠ suffixedSheetName base j.
Proof. intros Hi Hj Hde Heq. rewrite Heq in Hi. congruence. Qed.

(** With at most two names taken, one of the first four candidates is
    free. *)
Lemma uniqueSheetName_loop_finds (base : string) (used : gset string) (extra : nat) :
  legalSheetName base → (size used ≤ 2)%nat →
  ∃ cand, uniqueSheetName_loop (4 + extra) base used base 2 = Some (cand, ({[cand]} ∪ used))
          ∧ (cand ∉ used) ∧ legalSheetName cand
          ∧ (base ∉ used → cand = base).
Proof.
  intros Hbase Hsize.
  destruct (suffixedSheetName_legal base 2 "2" Hbase) as [Hl2 Hd2]; [done..|].
  destruct (suffixedSheetName_legal base 3 "3" Hbase) as [Hl3 Hd3]; [done..|].
  destruct (suffixedSheetName_legal base 4 "4" Hbase) as [Hl4 Hd4]; [done..|].
  pose proof (suffixed_distinct base 2 3 _ _ Hd2 Hd3 ltac:(done)) as H23.
  pose proof (suffixed_distinct base 2 4 _ _ Hd2 Hd4 ltac:(done)) as H24.
  pose proof (suffixed_distinct base 3 4 _ _ Hd3 Hd4 ltac:(done)) as H34.
  set (c2 := suffixedSheetName base 2) in *. set (c3 := suffixedSheetName base 3) in *.
  set (c4 := suffixedSheetName base 4) in *.
  change (4 + extra)%nat with (S (S (S (S extra)))). cbn [uniqueSheetName_loop].
  change (2 + 1) with 3. change (3 + 1) with 4. fold c2 c3 c4.
  case_bool_decide as H1; [|by exists base].
  case_bool_decide as H2; [|exists c2; repeat split; try done; by apply Hl2].
  case_bool_decide as H3; [|exists c3; repeat split; try done; by apply Hl3].
  case_bool_decide as H4; [|exists c4; repeat split; try done; by apply Hl4].
  exfalso.
  assert (list_to_set [c2; c3; c4] ⊆ used) as Hsub.
  { intros x. rewrite elem_of_list_to_set, !elem_of_cons, elem_of_nil.
    intros [->|[->|[->|[]]]]; done. }
  apply subseteq_size in Hsub.
  rewrite size_list_to_set in Hsub; [cbn in Hsub; lia|].
  apply NoDup_cons. split.
  { rewrite !elem_of_cons, elem_of_nil. intros [?|[?|[]]]; done. }
  apply NoDup_cons. split.
  { rewrite elem_of_cons, elem_of_nil. intros [?|[]]; done. }
  apply NoDup_singleton.
Qed.

(** X30. The names of the three sheets of the export, for all names of
    the two files: the loop of [uniqueSheetName] ends (four candidates are
    enough), the three names are pairwise distinct, and each of them can
    be the name of a sheet: it is not empty, has at most 31 characters
    (runes) and contains none of the characters [: \ / ? * [ ]] that
    Excel forbids.  The first sheet bears the safe form of its title
    itself. *)
Theorem export_sheet_names (base1 base2 : string) (extra : nat) :
  ∃ incName redName diffName,
    exportSheetNames (4 + extra) base1 base2 = Some (incName, redName, diffName)
    ∧ NoDup [incName; redName; diffName]
    ∧ legalSheetName incName ∧ legalSheetName redName ∧ legalSheetName diffName
    ∧ incName = safeSheetName (base2 +:+ "相比" +:+ base1 +:+ "增加").
Proof.
  unfold exportSheetNames, uniqueSheetName.
  destruct (uniqueSheetName_loop_finds
              (safeSheetName (base2 +:+ "相比" +:+ base1 +:+ "增加")) ∅ extra)
    as (inc & -> & Hi & Hli & Hbase); [apply safeSheetName_legal|by rewrite size_empty; lia|].
  destruct (uniqueSheetName_loop_finds
              (safeSheetName (base2 +:+ "相比" +:+ base1 +:+ "减少")) ({[inc]} ∪ ∅) extra)
    as (red & -> & Hr & Hlr & _); [apply safeSheetName_legal| |].
  { rewrite union_empty_r_L, size_singleton. lia. }
  destruct (uniqueSheetName_loop_finds (safeSheetName "变动项目")
              ({[red]} ∪ ({[inc]} ∪ ∅)) extra)
    as (diff & -> & Hd & Hld & _); [apply safeSheetName_legal| |].
  { rewrite union_empty_r_L, size_union_alt, size_singleton.
    assert (size ({[inc]} ∖ {[red]} : gset string) ≤ size ({[inc]} : gset string))%nat
      as Hle by (apply subseteq_size, subseteq_difference_l; reflexivity).
    rewrite size_singleton in Hle. lia. }
  exists inc, red, diff. split; [done|].
  split; [|split; [done|split; [done|split; [done|]]]].
  - assert (red ≠ inc) as Hri
      by (intros ->; apply Hr; apply elem_of_union; left; by apply elem_of_singleton).
    assert (diff ≠ red) as Hdr
      by (intros ->; apply Hd; apply elem_of_union; left; by apply elem_of_singleton).
    assert (diff ≠ inc) as Hdi.
    { intros ->. apply Hd. apply elem_of_union. right. apply elem_of_union. left.
      by apply elem_of_singleton. }
    apply NoDup_cons. split.
    { rewrite !elem_of_cons, elem_of_nil. intros [->|[->|[]]]; done. }
    apply NoDup_cons. split.
    { rewrite elem_of_cons, elem_of_nil. intros [->|[]]; done. }
    apply NoDup_singleton.
  - apply Hbase. apply not_elem_of_empty.
Qed.

End sheet_names.

(** * The further properties on sample data *)
Section more_examples.
Import Go domain store streamq spec mutators examples.

Lemma Redis_Create_Get_witness :
  let s := {| Wire.rdb := ∅; Wire.keyPrefix := "gy:comparejob:" |} in
  let job := freshJob "job_1" in
  let id := " job_1 " in
  let s' := (Wire.Create sampleMarshal s job Wire.Answered).1 in
  Wire.Get sampleUnmarshal s' id None
  = match sampleUnmarshal "job_1" with
    | inr rec => (Some (jobFromRecord rec), None)
    | inl err => (None, Some err)
    end
  ∧ (sampleUnmarshal "job_1" = inr (recordFromJob job) →
     Wire.Get sampleUnmarshal s' id None = (Some job, None))
  ∧ (∀ s0 cmdErr, Wire.Get sampleUnmarshal s0 id cmdErr
                  = Wire.Get sampleUnmarshal s0 (TrimSpace id) cmdErr)
  ∧ (∀ s0 blank cmdErr, TrimSpace blank = "" →
       Wire.Get sampleUnmarshal s0 blank cmdErr = (None, None)).
Proof.
  apply (Redis_Create_Get sampleMarshal sampleUnmarshal
           {| Wire.rdb := ∅; Wire.keyPrefix := "gy:comparejob:" |}
           (freshJob "job_1") " job_1 " "job_1").
  - vm_compute. discriminate.
  - vm_compute. reflexivity.
  - reflexivity.
  - vm_compute. reflexivity.
Defined.

Lemma store_frame_witness :
  let m := {| jobs := {[ "job_2" := readyJob "job_2" ]} |} in
  let s := redisWith (readyJob "job_2") in
  let fn := setPaid true in
  let job := freshJob "job_1" in
  InMemory_Get (InMemory_Update m "job_1" fn).1 "job_2" = InMemory_Get m "job_2"
  ∧ InMemory_Get (InMemory_Create m job).1 "job_2" = InMemory_Get m "job_2"
  ∧ Redis_Get (Redis_Update s "job_1" fn).1 "job_2" = Redis_Get s "job_2"
  ∧ Redis_Get (Redis_Create s job).1 "job_2" = Redis_Get s "job_2".
Proof.
  apply (store_frame {| jobs := {[ "job_2" := readyJob "job_2" ]} |}
           (redisWith (readyJob "job_2")) "job_1" "job_2" (setPaid true) (freshJob "job_1")).
  - vm_compute. discriminate.
  - vm_compute. discriminate.
Defined.

Lemma cancelled_kept_witness :
  Status (mutators.apply (Notify 30) (cancelledJob "job_1")) = CompareJobStatusCancelled
  ↔ assignsStatus (Notify 30) = false.
Proof. apply (cancelled_kept (Notify 30) (cancelledJob "job_1")). reflexivity. Defined.

Lemma paid_not_awaiting_kept_witness :
  paid_not_awaiting (readyJob "job_1")
  ∧ paid_not_awaiting
      (mutators.apply (PaygateAwaiting "out/compare.xlsx" 5 "weixin://pay") (readyJob "job_1")).
Proof.
  assert (paid_not_awaiting (readyJob "job_1")) as Hj by (intros _; vm_compute; discriminate).
  split; [exact Hj|].
  exact (paid_not_awaiting_kept (PaygateAwaiting "out/compare.xlsx" 5 "weixin://pay")
           (readyJob "job_1") Hj).
Defined.

Lemma notify_changes_only_on_success_witness :
  let st := redisWith (awaitingJob "job_1") in
  let tx := successTx "job_1" 5 in
  let jobID := TrimSpace (wechat.OutTradeNo tx) in
  jobID ≠ ""
  ∧ ToUpper (H:=exampleTables) (wechat.TradeState tx) = "SUCCESS"
  ∧ (∀ job, Get st jobID = Some job → wechat.AmountTotal tx = wechat.expectedFen job)
  ∧ (wechat.handle (H:=exampleTables) st tx 30).1
    = (Update st jobID (wechat.notifyMutator 30)).1
  ∧ (wechat.handle (H:=exampleTables) st tx 30).2
    = {| wechat.status := 200; wechat.code := "SUCCESS"; wechat.message := "OK" |}.
Proof.
  apply (notify_changes_only_on_success (H:=exampleTables)
           (redisWith (awaitingJob "job_1")) (successTx "job_1" 5) 30).
  intros Heq. apply (f_equal (λ s, Paid <$> Get s "job_1")) in Heq.
  vm_compute in Heq. discriminate.
Defined.

Lemma download_of_released_job_witness :
  let st := redisWith (readyJob "job_1") in
  let sign : string → option string := λ k, Some ("https://oss.example/" +:+ k) in
  compare.handleDownloadExport st "job_1" true sign (λ _, false) true "/api/compare/job_1/export"
  = compare.DownloadJSON "https://oss.example/out/compare.xlsx" "比对结果.xlsx".
Proof.
  apply (download_of_released_job (redisWith (readyJob "job_1")) "job_1"
           (λ k, Some ("https://oss.example/" +:+ k)) (λ _, false) true
           "/api/compare/job_1/export" (readyJob "job_1")
           "https://oss.example/out/compare.xlsx").
  - vm_compute. reflexivity.
  - vm_compute. reflexivity.
  - vm_compute. reflexivity.
  - vm_compute. discriminate.
  - vm_compute. reflexivity.
Defined.

Lemma job_view_witness :
  let st := redisWith (awaitingJob "job_1") in
  let job := awaitingJob "job_1" in
  ∃ v, compare.handleGetJob st "job_1" = (200, Some v)
       ∧ compare.view_paid v = Paid job
       ∧ (Paid job && compare.hasResult job = true
          → compare.view_status v ≠ CompareJobStatusAwaitingPayment)
       ∧ (is_Some (compare.view_code_url v)
          ↔ compare.view_status v = CompareJobStatusAwaitingPayment)
       ∧ (is_Some (compare.view_amount v)
          ↔ compare.view_status v = CompareJobStatusAwaitingPayment)
       ∧ (is_Some (compare.view_error v) → Status job = CompareJobStatusFailed)
       ∧ (paid_not_awaiting job → compare.view_status v = Status job).
Proof.
  apply (job_view (redisWith (awaitingJob "job_1")) "job_1" (awaitingJob "job_1")).
  vm_compute. reflexivity.
Defined.

Lemma handleOne_poison_witness :
  let handler : Handler (W:=unit) := λ _ w, (w, Returned None) in
  let msg := {| streamq.ID := "1-0"; Values := {[ "jobId" := "  " ]} |} in
  handleOne handler msg (tt, {[ "1-0"; "2-0" ]}) = (tt, {[ "1-0"; "2-0" ]} ∖ {[ "1-0" ]}).
Proof.
  apply (handleOne_poison (W:=unit) (λ _ w, (w, Returned None))
           {| streamq.ID := "1-0"; Values := {[ "jobId" := "  " ]} |} tt {[ "1-0"; "2-0" ]}).
  - vm_compute. reflexivity.
  - vm_compute. discriminate.
Defined.

Lemma compute_no_rework_witness :
  let st := redisWith (computedJob "job_1") in
  compare.ProcessWith true None None st "job_1" goodEnv = (st, true, Some (Terminal None)).
Proof.
  apply (compute_no_rework None (redisWith (computedJob "job_1")) "job_1" goodEnv
           (computedJob "job_1")).
  - vm_compute. reflexivity.
  - right. vm_compute. discriminate.
Defined.

Lemma compute_run_witness :
  let st := redisWith (freshJob "job_1") in
  let jd := compare.processingMutator (freshJob "job_1") in
  let r := compare.Process st "job_1" goodEnv in
  r.2 = Some (Terminal None)
  ∧ r.1.2 = negb (bool_decide (Status jd = CompareJobStatusCancelled))
  ∧ Get r.1.1 "job_1"
    = Some (if bool_decide (Status jd = CompareJobStatusCancelled) then jd
            else setResultPath "" (setResultOSSKey (compare.env_ossKey goodEnv) jd)).
Proof.
  apply (compute_run (redisWith (freshJob "job_1")) "job_1" goodEnv (freshJob "job_1")
           (compare.processingMutator (freshJob "job_1"))).
  - vm_compute. reflexivity.
  - right. reflexivity.
  - left. reflexivity.
  - vm_compute. reflexivity.
  - split; [reflexivity|]. split; vm_compute; discriminate.
  - repeat split.
  - vm_compute. reflexivity.
Defined.

Lemma paygate_releases_only_paid_witness :
  let st := redisWith (computedJob "job_1") in
  ∃ job', Get (paygate.Process st "job_1" None 5 (inr "weixin://pay") 10).1
            (TrimSpace "job_1") = Some job'
          ∧ (Status job' = CompareJobStatusReady → Paid job' = true).
Proof.
  apply (paygate_releases_only_paid (redisWith (computedJob "job_1")) "job_1" None 5
           (inr "weixin://pay") 10 (computedJob "job_1")).
  - vm_compute. reflexivity.
  - vm_compute. discriminate.
Defined.

Lemma lock_exclusion_witness :
  let c := redislock.New ∅ "" in
  let c1 := (redislock.Acquire c "gy:lock:comparejob:job_1" "token-a").1 in
  (∀ t, TrimSpace t ≠ "" →
        redislock.Acquire c1 "gy:lock:comparejob:job_1" t = (c1, inr false))
  ∧ (∀ t, TrimSpace t ≠ "" → TrimSpace t ≠ TrimSpace "token-a" →
          redislock.Release c1 "gy:lock:comparejob:job_1" t = (c1, inr false)
          ∧ redislock.Refresh c1 "gy:lock:comparejob:job_1" t = (c1, inr false))
  ∧ redislock.Refresh c1 "gy:lock:comparejob:job_1" "token-a" = (c1, inr true)
  ∧ ∃ c2, redislock.Release c1 "gy:lock:comparejob:job_1" "token-a" = (c2, inr true)
          ∧ ∀ t, TrimSpace t ≠ "" →
                 (redislock.Acquire c2 "gy:lock:comparejob:job_1" t).2 = inr true.
Proof.
  apply (lock_exclusion (redislock.New ∅ "") "gy:lock:comparejob:job_1" "token-a").
  vm_compute. reflexivity.
Defined.

Lemma paygate_redelivery_witness :
  let st := redisWith (computedJob "job_1") in
  let st1 := (paygate.ProcessWith true redislock.LockHeld "gy:lock:comparejob:paygate:job_1"
                None st "job_1" 5 (inr "weixin://pay") 10).1 in
  (paygate.ProcessWith true redislock.NoLock "" (Some "i/o timeout") st1 "job_1" 5
     (inr "weixin://other") 20).1 = st1
  ∧ (paygate.ProcessWith true redislock.LockHeld "gy:lock:comparejob:paygate:job_1"
       None st1 "job_1" 5 (inr "weixin://other") 20).1 = st1.
Proof.
  split.
  - apply (paygate_redelivery (redisWith (computedJob "job_1")) "job_1"
             redislock.LockHeld redislock.NoLock "gy:lock:comparejob:paygate:job_1" ""
             true (Some "i/o timeout") 5 (inr "weixin://pay") (inr "weixin://other") 10 20).
    + by right.
    + intros url [= <-]. vm_compute. discriminate.
  - apply (paygate_redelivery (redisWith (computedJob "job_1")) "job_1"
             redislock.LockHeld redislock.LockHeld "gy:lock:comparejob:paygate:job_1"
             "gy:lock:comparejob:paygate:job_1"
             true None 5 (inr "weixin://pay") (inr "weixin://other") 10 20).
    + by right.
    + intros url [= <-]. vm_compute. discriminate.
Defined.

Lemma loadKeyedSheetXLSX_table_witness :
  let tbl := excelcmp.readXLSXFirstSheetTable (Some exampleSheet) in
  let ks := {| excelcmp.ks_Headers := ["id"; "name"; "amount"];
               excelcmp.ks_Key := "id";
               excelcmp.RowsByKey := {[ "1" := ["1"; "a"; "10"]; "2" := ["2"; "b"; ""] ]} |} in
  let keyIdx := Z.to_nat (excelcmp.indexOfHeader (excelcmp.Headers tbl) "id") in
  excelcmp.loadKeyedSheetXLSX (H:=exampleTables) (Some exampleSheet) 5 "" true = inr (ks, [])
  ∧ excelcmp.ks_Headers ks = excelcmp.Headers tbl
  ∧ (excelcmp.RowsByKey ks, []) = excelcmp.buildKeyRowMap (H:=exampleTables) tbl keyIdx
  ∧ (excelcmp.Headers tbl ≠ []
     ∧ "id" ∈ excelcmp.Headers tbl
     ∧ "id" = default "" (excelcmp.GuessPrimaryKeyColumn (H:=exampleTables) tbl 5))
  ∧ (∀ k row, excelcmp.RowsByKey ks !! k = Some row
              → length row = length (excelcmp.Headers tbl)).
Proof.
  assert (excelcmp.loadKeyedSheetXLSX (H:=exampleTables) (Some exampleSheet) 5 "" true
          = inr ({| excelcmp.ks_Headers := ["id"; "name"; "amount"];
                    excelcmp.ks_Key := "id";
                    excelcmp.RowsByKey :=
                      {[ "1" := ["1"; "a"; "10"]; "2" := ["2"; "b"; ""] ]} |}, [])) as Hload
    by (vm_compute; reflexivity).
  split; [exact Hload|].
  exact (loadKeyedSheetXLSX_table (H:=exampleTables) (Some exampleSheet) 5 "" true _ _ Hload).
Defined.

(** A workbook without a sheet loads, with the key as it was given. *)
Lemma loadKeyedSheetXLSX_no_sheet :
  excelcmp.loadKeyedSheetXLSX (H:=exampleTables) None 0 " id " false
  = inr ({| excelcmp.ks_Headers := []; excelcmp.ks_Key := " id ";
            excelcmp.RowsByKey := ∅ |}, []).
Proof. reflexivity. Qed.

Lemma order_then_notify_witness :
  let st := redisWith (computedJob "job_1") in
  let st1 := (paygate.Process st "job_1" None 5 (inr "weixin://pay") 10).1 in
  (let r := wechat.handle (H:=exampleTables) st1 (successTx "job_1" 5) 30 in
   wechat.status r.2 = 200
   ∧ ∃ j, Get r.1 (TrimSpace "job_1") = Some j
          ∧ Status j = CompareJobStatusReady ∧ Paid j = true
          ∧ PaidAt j = Some 30
          ∧ ResultOSSKey j = TrimSpace (ResultOSSKey (computedJob "job_1")))
  ∧ wechat.handle (H:=exampleTables) st1 (successTx "job_1" 500) 30
    = (st1, {| wechat.status := 400; wechat.code := "FAIL";
               wechat.message := "amount mismatch" |}).
Proof.
  split.
  - apply (order_then_notify (H:=exampleTables) (redisWith (computedJob "job_1")) "job_1"
             None 5 "weixin://pay" 10 30 (successTx "job_1" 5) (computedJob "job_1"));
      try (vm_compute; first [reflexivity|discriminate]).
    + lia.
  - apply (order_then_notify (H:=exampleTables) (redisWith (computedJob "job_1")) "job_1"
             None 5 "weixin://pay" 10 30 (successTx "job_1" 500) (computedJob "job_1"));
      try (vm_compute; first [reflexivity|discriminate]).
    + lia.
Defined.

End more_examples.
